(* ===== verification/_CoqProject ===== *)
-Q . S2P
Prelude.v
Riscv.v
Mem.v
Bytes.v
Kalloc.v
Vm.v
VmTree.v
VmOps.v
VmView.v
VmUser.v
VmAlloc.v
VmCopy.v
VmCow.v
VmDemo.v
Proc.v
ProcRules.v
ProcProps.v
Sched.v
SchedProps.v
SchedTime.v
Locks.v
Bio.v
BioList.v
BioSpec.v
BioProps.v
Log.v
LogSpec.v
LogCrash.v
LogProps.v
LogDemo.v
Ftypes.v
Fs.v
FsRules.v
FsAlloc.v
FsFile.v
FsWrite.v
FsInode.v
FsContents.v
File.v
FsProps.v
FsDemo.v
FileProps.v
FileDemo.v
PipeProps.v
Console.v
Syscall.v
Exec.v
Sysfile.v
Sysproc.v
Trap.v
Virtio.v
VirtioProps.v
AlarmProps.v
PathProps.v
DirProps.v
NamexProps.v
DirDemo.v
Mkfs.v
MkfsSteps.v
MkfsFile.v
MkfsImage.v
MkfsProps.v
MkfsMain.v
BootProps.v
Start.v
Ulib.v
Printf.v
Grep.v
Uprogs.v
Shell.v
ShellParse.v
ShellPrint.v
ShellRun.v
Umalloc.v
UmallocFree.v
UmallocProps.v
