(* ===== verification/Prelude.v ===== *)
(** * Enhanced xv6: a verification development

    Enhanced xv6 is a teaching operating system for RISC-V: a kernel
    (src/kernel), user programs (src/user) and the program that builds the
    disk image (src/mkfs), extended with system call tracing, alarms (sigalarm and sigreturn), copy-on-write fork and four
    schedulers.  This library is a shallow embedding of its C code with the
    theorems that say what the code guarantees.

    ** How the code is modelled

    A C function is a Rocq function of the same name.  A function that changes
    state is a computation of the monad [M S] of this file over the state [S]
    of its component; it ends in [Ret] with a value and the new state, in
    [Panic] (the kernel's panic), in [Fault] (what C leaves undefined or the
    hardware refuses: an access outside an array, a null pointer), in [Block]
    (the process waits) or in [NoFuel].  Loops without a structural bound run
    under [loop] or a [fuel] argument.  The theorems are stated with [wp],
    which excludes everything but [Ret], so they include that the fuel
    suffices; the constants ([page_fuel], [file_fuel], [bitmap_fuel]) exceed
    the number of rounds any argument of the machine's width can cause, and
    where fuel is a parameter (grep, the shell, malloc) the theorem states the
    bound.  [mkfs] runs on the host, whose files are a parameter of its model.
    Integers are [Z] kept at their width by [u8], [u16], [u32], [u64], [s16],
    [s32]; memory is a map from addresses to bytes (Mem.v), a disk a
    map from block numbers to blocks, a structure in a buffer its bytes
    (Bytes.v).

    Concurrency is modelled where it is the point.  Locks.v has spinlocks on any
    number of CPUs, in steps around their atomic instructions;
    VirtioProps.v interleaves the processes in the disk driver, the interrupt
    handler and the device.  Everywhere else a critical section is one step,
    and a function that gives up the CPU is split where it does.

    ** Files

    - Prelude.v: the monad, [wp] and its rules, machine integers, records with
      update, tactics and shared lemmas.  Mem.v: memory and string.c.
      Bytes.v: structures in buffers.  Riscv.v: riscv.h and memlayout.h.
    - Kalloc.v: kalloc.c, the page allocator and its reference counts.
    - Vm.v: vm.c.  VmTree.v (page tables as trees, [walk]), VmOps.v
      ([mappages], [uvmunmap]), VmView.v (what a user program sees), VmUser.v
      ([copyin], errors of [removecopy]), VmAlloc.v ([uvmalloc]), VmCopy.v and
      VmCow.v (copy-on-write: [uvmcopy], [removecopy]), VmDemo.v (instances).
    - Proc.v: proc.c.  ProcRules.v and ProcProps.v: rules for the table, sleep
      and wakeup.  Sched.v: the schedulers; SchedProps.v what they choose,
      SchedTime.v waiting times and the timer interrupt under MLFQ.
    - Locks.v: spinlock.c and sleeplock.c.
    - Bio.v: bio.c.  BioList.v (the LRU list), BioSpec.v and BioProps.v (the
      cache is transparent).
    - Log.v: log.c.  LogSpec.v (the disk writes of a commit), LogCrash.v
      (crash safety), LogProps.v (space), LogDemo.v (instances).
    - Ftypes.v: fs.h, file.h, stat.h.  Fs.v: fs.c.  FsRules.v (the interface
      of the cache and the log inside a transaction), FsAlloc.v (bitmap),
      FsFile.v (the bytes of a file, [readi]), FsWrite.v and FsContents.v
      ([writei]), FsInode.v (inodes on disk), FsProps.v (contracts), FsDemo.v
      (instances).  PathProps.v: path elements.  DirProps.v: directories as
      finite maps.  NamexProps.v: path resolution in the tree on disk.
      DirDemo.v: instances.
    - Mkfs.v: mkfs.c.  MkfsSteps.v (its sectors seen as the kernel's blocks),
      MkfsFile.v ([iappend]), MkfsImage.v and MkfsProps.v (the image as a list
      of files), MkfsMain.v (the program).  BootProps.v: the kernel boots from
      the image and reads a file; the size of the log.
    - File.v: file.c and pipe.c; FileProps.v (a piece of [filewrite], from user
      memory to the log), FileDemo.v (an instance); PipeProps.v: pipes are
      bounded queues.
      Console.v: console.c and uart.c.
    - Syscall.v, Sysfile.v, Sysproc.v, Exec.v, Trap.v: syscall.c, sysfile.c,
      sysproc.c, exec.c, trap.c.  AlarmProps.v: alarms.
    - Virtio.v: virtio_disk.c; VirtioProps.v: driver and device.
    - Start.v: the registers of riscv.h, start.c with the timer interrupt of
      kernelvec.S, plic.c, and main.c on several harts.
    - Ulib.v: ulib.c, wc.c, cat.c, echo.c.  Printf.v: both printf.c.
      Umalloc.v: umalloc.c; UmallocFree.v and UmallocProps.v: its correctness.
      Grep.v: grep.c.  Uprogs.v: ls.c, init.c, rm.c, mkdir.c, ln.c, kill.c,
      setpriority.c and main of cat.c, wc.c and grep.c.  Shell.v: sh.c;
      ShellParse.v (the parser is total), ShellPrint.v (printing and parsing), ShellRun.v (the descriptors of the
      programs a command starts).

    The components meet as in the code: Log.v calls Bio.v, Fs.v calls both
    through the kernel state of Ftypes.v, File.v and Sysfile.v call Fs.v,
    Trap.v calls all of them.  Where a component is used through a contract it
    is a class or a record of operations: [FileOps] (what proc.c needs of the
    file layer), [Device] (what the disk driver relies on), the device switch.

    ** What the theorems show

    - Crash safety: at every point between two disk writes of a commit the
      disk recovers to the state before or after the transaction, and recovery
      may itself be interrupted (LogCrash.v); begin_op admits what fits in
      LOGSIZE blocks (LogProps.v), one more than the image's log has
      (BootProps.v); a piece of filewrite keeps to its reservation
      (FileProps.v).
    - End to end: mkfs puts each file of the host into an image with which the
      kernel boots, finds the file by its path and reads the same bytes
      (MkfsMain.v, BootProps.v).
    - Memory: the allocator refines reference counting (Kalloc.v); growing an
      address space is all or nothing; a copy-on-write fork shares every page
      and a store separates exactly the two views; one that runs out of memory
      undoes what it did (VmAlloc.v, VmCow.v).
    - Files: what is written is read back and no other file changes; blocks
      and inodes are allocated once (FsProps.v, FsInode.v); a directory is a
      finite map and dirlink its insertion (DirProps.v); a path resolves to what
      the directories say, with locks and references given back
      (NamexProps.v); pipes refine bounded queues (PipeProps.v); the buffer cache refines a disk
      (BioProps.v); the disk driver carries out every request exactly once and
      never panics (VirtioProps.v).
    - Processes: mutual exclusion of spinlocks and sleep locks (Locks.v); each
      scheduler chooses the process its policy names, with the waiting time of
      round robin and the bounds MLFQ oversteps (SchedProps.v, SchedTime.v);
      alarms go off when they should and restore the state (AlarmProps.v);
      no hart runs before hart 0 has initialised the kernel, and timer
      interrupts come at a constant distance (Start.v).
    - User programs: the shell's parser is total, inverts a printer and the
      processes it starts have the descriptors they should (ShellParse.v,
      ShellPrint.v, ShellRun.v); grep prints the matching lines (Grep.v);
      printf prints numbers that read back (Printf.v); ls prints the entries of
      a directory and init keeps one shell running (Uprogs.v); malloc hands out blocks
      that overlap nothing and free undoes it (UmallocProps.v).

    ** Not modelled

    Assembly (entry.S, trampoline.S, kernelvec.S apart from timervec, swtch.S):
    the model works above the context switch.  The registers that configure the
    UART and the disk, which consoleinit and virtio_disk_init write once, memory
    barriers, and the wakeups inside the disk driver (a waiting process may look
    again at any time).  Read
    errors in the programs of Uprogs.v.
    ramdisk.c, which is not compiled.  Test programs (usertests.c, grind.c and
    the like).  Locks of printf.c and the printing of [procdump]. *)

From Stdlib Require Import ZArith Lia.
From stdpp Require Import base numbers list gmap strings tactics.

Local Open Scope Z_scope.

(** ** Machine integers

    A C integer is a [Z] kept in the range of its type; the functions below
    are the conversions C applies on assignment and on overflow. *)

Definition u64 (x : Z) : Z := x mod 2^64.
Definition u32 (x : Z) : Z := x mod 2^32.
Definition u8 (x : Z) : Z := x mod 2^8.
Definition s32 (x : Z) : Z := (x + 2^31) mod 2^32 - 2^31.

Lemma u64_small x : 0 ≤ x < 2^64 → u64 x = x.
Proof. apply Z.mod_small. Qed.

Lemma u64_range x : 0 ≤ u64 x < 2^64.
Proof. by apply Z.mod_pos_bound. Qed.

Lemma u32_small x : 0 ≤ x < 2^32 → u32 x = x.
Proof. apply Z.mod_small. Qed.

Lemma u32_range x : 0 ≤ u32 x < 2^32.
Proof. by apply Z.mod_pos_bound. Qed.

Lemma u8_range x : 0 ≤ u8 x < 256.
Proof. by apply Z.mod_pos_bound. Qed.

Lemma s32_small x : - 2^31 ≤ x < 2^31 → s32 x = x.
Proof. intros. unfold s32. rewrite Z.mod_small; lia. Qed.

Lemma s32_range x : - 2^31 ≤ s32 x < 2^31.
Proof. unfold s32. pose proof (Z.mod_pos_bound (x + 2^31) (2^32)). lia. Qed.

Lemma s32_mod x : s32 x mod 2^32 = x mod 2^32.
Proof.
  unfold s32. rewrite Zminus_mod_idemp_l. by rewrite Z.add_simpl_r.
Qed.

(** ** Outcomes and the kernel monad

    A kernel function that can [panic] or touch memory it must not touch runs
    in a state monad over [outcome].  [Panic] is the kernel's [panic] call
    (the machine stops); [Fault] is an access the C program must not make
    (a load or store outside RAM, which traps in the kernel, or an index
    outside an array); [NoFuel] marks a loop whose bound was too small, and
    the theorems show that it does not happen; [Block] is a call of [sleep]
    inside an operation that is modelled as one run of one thread: the thread
    cannot go on until another one acts. *)

Inductive outcome (A : Type) : Type :=
  | Ret (a : A)
  | Panic (msg : string)
  | Fault (msg : string)
  | NoFuel
  | Block.
Arguments Ret {A} a.
Arguments Panic {A} msg.
Arguments Fault {A} msg.
Arguments NoFuel {A}.
Arguments Block {A}.

Definition M (S A : Type) : Type := S → outcome (A * S).

Definition ret {S A} (a : A) : M S A := λ s, Ret (a, s).

Definition bind {S A B} (m : M S A) (f : A → M S B) : M S B := λ s,
  match m s with
  | Ret (a, s') => f a s'
  | Panic msg => Panic msg
  | Fault msg => Fault msg
  | NoFuel => NoFuel
  | Block => Block
  end.

Definition panic {S A} (msg : string) : M S A := λ _, Panic msg.
Definition fault {S A} (msg : string) : M S A := λ _, Fault msg.
Definition block {S A} : M S A := λ _, Block.
Definition get {S} : M S S := λ s, Ret (s, s).
Definition put {S} (s : S) : M S unit := λ _, Ret (tt, s).
Definition modify {S} (f : S → S) : M S unit := λ s, Ret (tt, f s).

(** Run a computation of a component on its part of a larger state. *)
Definition lift {S T A} (proj : T → S) (upd : S → T → T) (m : M S A) : M T A :=
  λ t, match m (proj t) with
       | Ret (a, s) => Ret (a, upd s t)
       | Panic msg => Panic msg
       | Fault msg => Fault msg
       | NoFuel => NoFuel
       | Block => Block
       end.

Declare Scope kernel_scope.
Delimit Scope kernel_scope with kernel.
Notation "'let*' x := m 'in' k" := (bind m (λ x, k))
  (at level 10, x pattern, m at level 100, k at level 200) : kernel_scope.
Notation "m ;;; k" := (bind m (λ _, k))
  (at level 199, k at level 200, right associativity) : kernel_scope.
Open Scope kernel_scope.

(** *** Updating a field of a structure

    [r <| f := v |>] is the structure [r] with field [f] set to [v], and
    [r <| f ::= g |>] applies [g] to the field.  A structure declares its
    fields once, by an instance of [Eta]. *)

Class Eta (R : Type) := eta : R → R.
Class Setter {R T : Type} (proj : R → T) := set_field : (T → T) → R → R.
Arguments set_field {R T} proj {_} f r.

Ltac solve_setter :=
  match goal with
  | |- @Setter ?R ?T ?proj =>
      let e := constr:(_ : Eta R) in
      let e := eval hnf in e in
      let e := eval pattern proj in e in
      match e with
      | ?g proj => exact (λ f : T → T, g (λ r : R, f (proj r)))
      end
  end.
#[global] Hint Extern 1 (Setter _) => solve_setter : typeclass_instances.

Notation "r <| proj ::= f |>" := (set_field proj f r)
  (at level 1, left associativity, proj constr) : kernel_scope.
Notation "r <| proj := v |>" := (set_field proj (λ _, v) r)
  (at level 1, left associativity, proj constr) : kernel_scope.

(** *** Loops with binary fuel

    [iterate fuel body] runs [body] until it answers [inr], at most [fuel]
    times.  The fuel is a binary number, so a bound such as the number of
    pages of the address space costs nothing unless it is used. *)

Section loops.
Context {S A R : Type}.
Implicit Types (body : A → M S (A + R)).

Definition continue (k : A → M S (A + R)) (r : A + R) : M S (A + R) :=
  match r with
  | inl a => k a
  | inr r => ret (inr r)
  end.

Fixpoint iterate (fuel : positive) body (a : A) : M S (A + R) :=
  match fuel with
  | xH => body a
  | xO p => bind (iterate p body a) (continue (iterate p body))
  | xI p => bind (body a) (continue (λ a1,
              bind (iterate p body a1) (continue (iterate p body))))
  end.

Definition loop (fuel : positive) body (a : A) : M S R :=
  bind (iterate fuel body a) (λ r,
    match r with
    | inl _ => λ _, NoFuel
    | inr r => ret r
    end).
End loops.

(** *** Loops over the entries of a table *)

(** [for(i in l) body] *)
Fixpoint for_each {S I} (l : list I) (body : I → M S unit) : M S unit :=
  match l with
  | [] => ret tt
  | i :: l => body i ;;; for_each l body
  end.

(** The same loop with an early exit: the body answers [Some r] to leave. *)
Fixpoint for_find {S I R} (l : list I) (body : I → M S (option R)) : M S (option R) :=
  match l with
  | [] => ret None
  | i :: l =>
      let* r := body i in
      match r with
      | Some r => ret (Some r)
      | None => for_find l body
      end
  end.

(** ** Total correctness

    [wp m Q s]: from [s], [m] returns (no panic, no fault, enough fuel), with
    a result and a state that satisfy [Q]. *)

Definition wp {S A} (m : M S A) (Q : A → S → Prop) (s : S) : Prop :=
  match m s with
  | Ret (a, s') => Q a s'
  | _ => False
  end.

Section wp_rules.
Context {S : Type}.

Lemma wp_ret {A} (a : A) (Q : A → S → Prop) s : wp (ret a) Q s ↔ Q a s.
Proof. done. Qed.

Lemma wp_bind {A B} (m : M S A) (f : A → M S B) Q s :
  wp (bind m f) Q s ↔ wp m (λ a s', wp (f a) Q s') s.
Proof. unfold wp, bind. by destruct (m s) as [[a s']| | | |]. Qed.

Lemma wp_mono {A} (m : M S A) (P Q : A → S → Prop) s :
  (∀ a s', P a s' → Q a s') → wp m P s → wp m Q s.
Proof. unfold wp. intros H. destruct (m s) as [[a s']| | | |]; auto. Qed.

Lemma wp_det {A} (m : M S A) (P Q : A → S → Prop) s :
  wp m P s → wp m Q s → wp m (λ a s', P a s' ∧ Q a s') s.
Proof. unfold wp. by destruct (m s) as [[a s']| | | |]. Qed.

Lemma wp_returns {A} (m : M S A) Q s :
  wp m Q s ↔ ∃ a s', m s = Ret (a, s') ∧ Q a s'.
Proof.
  unfold wp. destruct (m s) as [[a s']|msg|msg| |]; split.
  all: try done.
  all: try (intros (?&?&?&?); simplify_eq; done).
  intros; by exists a, s'.
Qed.

Lemma wp_get (Q : S → S → Prop) s : wp get Q s ↔ Q s s.
Proof. done. Qed.
Lemma wp_put s0 (Q : unit → S → Prop) s : wp (put s0) Q s ↔ Q tt s0.
Proof. done. Qed.
Lemma wp_modify f (Q : unit → S → Prop) s : wp (modify f) Q s ↔ Q tt (f s).
Proof. done. Qed.

(** The loop rule: an invariant [I k] on the loop variables and the state,
    where [k] bounds the rounds that are left. *)
Section loop_rule.
Context {A R : Type} (body : A → M S (A + R)) (I : nat → A → S → Prop) (Q : R → S → Prop).
Hypothesis body_ok : ∀ k a s, I k a s →
  wp (body a) (λ r s', match r with
                       | inl a' => ∃ k', (k' < k)%nat ∧ I k' a' s'
                       | inr r => Q r s'
                       end) s.

Lemma wp_iterate fuel k a s :
  I k a s →
  wp (iterate fuel body a)
     (λ r s', match r with
              | inl a' => ∃ k', (k' + Pos.to_nat fuel ≤ k)%nat ∧ I k' a' s'
              | inr r => Q r s'
              end) s.
Proof using All.
  revert k a s. induction fuel as [p IH|p IH|]; intros k a s HI; simpl.
  - rewrite wp_bind. eapply wp_mono; [|by eapply body_ok].
    intros [a1|r] s1 H1; [|done]. simpl. destruct H1 as (k1 & Hlt1 & H1).
    rewrite wp_bind. eapply wp_mono; [|by eapply IH].
    intros [a2|r] s2 H2; [|done]. simpl. destruct H2 as (k2 & Hlt2 & H2).
    eapply wp_mono; [|by eapply IH].
    intros [a3|r] s3 H3; [|done]. destruct H3 as (k3 & Hlt3 & H3). exists k3. split; [lia|done].
  - rewrite wp_bind. eapply wp_mono; [|by eapply IH].
    intros [a2|r] s2 H2; [|done]. simpl. destruct H2 as (k2 & Hlt2 & H2).
    eapply wp_mono; [|by eapply IH].
    intros [a3|r] s3 H3; [|done]. destruct H3 as (k3 & Hlt3 & H3). exists k3. split; [lia|done].
  - eapply wp_mono; [|by eapply body_ok].
    intros [a1|r] s1 H1; [|done]. destruct H1 as (k1 & Hlt1 & H1). exists k1. split; [lia|done].
Qed.

Lemma wp_loop_nat fuel k a s :
  I k a s → (k < Pos.to_nat fuel)%nat → wp (loop fuel body a) Q s.
Proof using All.
  intros HI Hk. unfold loop. rewrite wp_bind.
  eapply wp_mono; [|by eapply wp_iterate].
  intros [a'|r] s' H; [|done]. destruct H as (k' & H & _). lia.
Qed.
End loop_rule.

(** The same with a measure of the loop variables. *)
Lemma wp_loop {A R} (body : A → M S (A + R)) (I : A → S → Prop) (μ : A → nat) (Q : R → S → Prop) :
  (∀ a s, I a s →
    wp (body a) (λ r s', match r with
                         | inl a' => I a' s' ∧ (μ a' < μ a)%nat
                         | inr r => Q r s'
                         end) s) →
  ∀ fuel a s, I a s → (μ a < Pos.to_nat fuel)%nat → wp (loop fuel body a) Q s.
Proof.
  intros Hbody fuel a s HI Hμ.
  apply (wp_loop_nat body (λ k a s, I a s ∧ k = μ a) Q) with (k := μ a); [|done|done].
  intros k a' s' [HI' ->]. eapply wp_mono; [|by apply Hbody].
  intros [a''|r] s'' H; [|done]. destruct H as [H1 H2]. by exists (μ a'').
Qed.
End wp_rules.

(** [lift] runs the component and leaves the rest of the state alone. *)
Lemma wp_lift {S T A} (proj : T → S) (upd : S → T → T) (m : M S A) Q t :
  wp (lift proj upd m) Q t ↔ wp m (λ a s, Q a (upd s t)) (proj t).
Proof. unfold wp, lift. by destruct (m (proj t)) as [[a s]| | | |]. Qed.

(** Running a bind whose first part is known. *)
Lemma bind_Ret {S A B} (m : M S A) (f : A → M S B) s a s' :
  m s = Ret (a, s') → bind m f s = f a s'.
Proof. unfold bind. by intros ->. Qed.

Lemma bind_Panic {S A B} (m : M S A) (f : A → M S B) s msg :
  m s = Panic msg → bind m f s = Panic msg.
Proof. unfold bind. by intros ->. Qed.
Lemma bind_Fault {S A B} (m : M S A) (f : A → M S B) s msg :
  m s = Fault msg → bind m f s = Fault msg.
Proof. unfold bind. by intros ->. Qed.

Lemma wp_bind_2 {S A B} (m : M S A) (f : A → M S B) Q s :
  wp m (λ a s', wp (f a) Q s') s → wp (bind m f) Q s.
Proof. apply wp_bind. Qed.

Lemma wp_bind_assoc {S A B C} (m : M S A) (f : A → M S B) (g : B → M S C) Q s :
  wp (bind (bind m f) g) Q s ↔ wp (bind m (λ a, bind (f a) g)) Q s.
Proof. unfold wp, bind. by destruct (m s) as [[a s']| | | |]. Qed.

(** Run the structural steps of the computation at the head of the goal. *)
Ltac wp_step :=
  cbv beta;
  lazymatch goal with
  | |- wp (bind _ _) _ _ => apply wp_bind_2
  | |- wp (ret _) _ _ => apply (proj2 (wp_ret _ _ _))
  | |- wp get _ _ => apply (proj2 (wp_get _ _))
  | |- wp (put _) _ _ => apply (proj2 (wp_put _ _ _))
  | |- wp (modify _) _ _ => apply (proj2 (wp_modify _ _ _))
  | |- wp (lift _ _ _) _ _ => apply (proj2 (wp_lift _ _ _ _ _))
  end; cbv beta.
Ltac wp_simp := repeat wp_step.

(** Continue after a call whose specification is [H]. *)
Tactic Notation "wp_call" constr(H) :=
  wp_simp; eapply wp_mono; [|by eapply H].
Tactic Notation "wp_apply" uconstr(H) :=
  wp_simp; eapply wp_mono; [|eapply H].

(** ** Lists *)

Lemma filter_all {A} (P : A → Prop) `{∀ x, Decision (P x)} (l : list A) :
  (∀ x, x ∈ l → P x) → filter P l = l.
Proof.
  induction l as [|x l IH]; intros Hl; [done|].
  rewrite filter_cons_True by (apply Hl; constructor).
  f_equal. apply IH. intros y Hy. apply Hl. by constructor.
Qed.

Lemma filter_out_length {A} `{EqDecision A} (x : A) (l : list A) :
  NoDup l → x ∈ l → S (length (filter (λ y, y ≠ x) l)) = length l.
Proof.
  induction 1 as [|y l Hy Hl IH]; [by intros ?%elem_of_nil|].
  rewrite elem_of_cons. intros [->|Hin].
  - rewrite filter_cons_False by tauto. simpl. f_equal.
    rewrite filter_all; [done|]. by intros z Hz ->.
  - rewrite filter_cons_True by (by intros ->). simpl. f_equal. by apply IH.
Qed.

(** Find the disjunct of the goal that is a hypothesis. *)
Ltac pick := solve [assumption | left; pick | right; pick].

(** ** Boolean tests as propositions *)

Ltac bool_to_prop :=
  repeat match goal with
  | H : (_ && _)%bool = true |- _ => apply andb_true_iff in H as [? ?]
  | H : (_ || _)%bool = false |- _ => apply orb_false_iff in H as [? ?]
  | H : Z.eqb _ _ = true |- _ => apply Z.eqb_eq in H
  | H : Z.eqb _ _ = false |- _ => apply Z.eqb_neq in H
  | H : Z.ltb _ _ = true |- _ => apply Z.ltb_lt in H
  | H : Z.ltb _ _ = false |- _ => apply Z.ltb_ge in H
  | H : Z.leb _ _ = true |- _ => apply Z.leb_le in H
  | H : Z.leb _ _ = false |- _ => apply Z.leb_gt in H
  | H : negb _ = true |- _ => apply negb_true_iff in H
  | H : negb _ = false |- _ => apply negb_false_iff in H
  end.

(** Case analysis on the test of the first [if] of the goal. *)
Ltac case_if :=
  match goal with
  | |- context [if ?b then _ else _] =>
      lazymatch type of b with
      | bool => let E := fresh "E" in destruct b eqn:E; bool_to_prop
      end
  end.

(** Rewrite a boolean test whose answer [lia] can find. *)
Ltac test_true b :=
  replace b with true by (symmetry; first
    [ apply Z.eqb_eq; lia | apply Z.ltb_lt; lia | apply Z.leb_le; lia ]).
Ltac test_false b :=
  replace b with false by (symmetry; first
    [ apply Z.eqb_neq; lia | apply Z.ltb_ge; lia | apply Z.leb_gt; lia ]).

(** Case analysis on every integer comparison of the goal. *)
Ltac zcases :=
  repeat match goal with
  | |- context [Z.eqb ?a ?b] => destruct (Z.eqb_spec a b)
  | |- context [Z.ltb ?a ?b] => destruct (Z.ltb_spec a b)
  | |- context [Z.leb ?a ?b] => destruct (Z.leb_spec a b)
  end; simpl; try lia.

(** [lia] with division and remainder by constants. *)
Ltac dlia := Z.to_euclidean_division_equations; lia.
