(* ===== verification/Riscv.v ===== *)
(** * Page and address arithmetic (kernel/riscv.h, kernel/memlayout.h)

    The macros of riscv.h on 64-bit values: page rounding, the fields of a
    page-table entry and the indices of an Sv39 virtual address, with the
    arithmetic facts the other components use in place of the bit patterns. *)

From Stdlib Require Import ZArith Lia.
From stdpp Require Import base numbers list gmap strings tactics.
From S2P Require Import Prelude.

Local Open Scope Z_scope.

Definition PGSIZE : Z := 4096.
Definition PGSHIFT : Z := 12.

Definition PGROUNDUP (sz : Z) : Z :=
  Z.land (u64 (u64 (sz + PGSIZE) - 1)) (u64 (Z.lnot (PGSIZE - 1))).
Definition PGROUNDDOWN (a : Z) : Z := Z.land a (u64 (Z.lnot (PGSIZE - 1))).

Definition PTE_V : Z := Z.shiftl 1 0.
Definition PTE_R : Z := Z.shiftl 1 1.
Definition PTE_W : Z := Z.shiftl 1 2.
Definition PTE_X : Z := Z.shiftl 1 3.
Definition PTE_U : Z := Z.shiftl 1 4.
Definition PTE_COW : Z := Z.shiftl 1 8.

Definition PA2PTE (pa : Z) : Z := u64 (Z.shiftl (Z.shiftr pa 12) 10).
Definition PTE2PA (pte : Z) : Z := u64 (Z.shiftl (Z.shiftr pte 10) 12).
Definition PTE_FLAGS (pte : Z) : Z := Z.land pte 0x3FF.

Definition PXMASK : Z := 0x1FF.
Definition PXSHIFT (level : Z) : Z := PGSHIFT + 9 * level.
Definition PX (level va : Z) : Z := Z.land (Z.shiftr va (PXSHIFT level)) PXMASK.

Definition MAXVA : Z := Z.shiftl 1 (9 + 9 + 9 + 12 - 1).

Definition SATP_SV39 : Z := Z.shiftl 8 60.
Definition MAKE_SATP (pagetable : Z) : Z := Z.lor SATP_SV39 (Z.shiftr pagetable 12).

Definition UART0_IRQ : Z := 10.
Definition VIRTIO0_IRQ : Z := 1.
Definition KERNBASE : Z := 0x80000000.
Definition PHYSTOP : Z := KERNBASE + 128 * 1024 * 1024.
Definition TRAMPOLINE : Z := MAXVA - PGSIZE.
Definition TRAPFRAME : Z := TRAMPOLINE - PGSIZE.
Definition KSTACK (p : Z) : Z := TRAMPOLINE - (p + 1) * 2 * PGSIZE.

(** A C condition on a masked bit: [x & mask] is non-zero. *)
Definition has (x mask : Z) : bool := negb (Z.land x mask =? 0).

(** A physical address the kernel may use for data: the direct map of RAM. *)
Definition in_ram (a : Z) : bool := (KERNBASE <=? a) && (a <? PHYSTOP).

(** ** Rounding *)

Lemma land_page_mask x :
  0 ≤ x < 2^64 → Z.land x (u64 (Z.lnot (PGSIZE - 1))) = PGSIZE * (x / PGSIZE).
Proof.
  intros Hx. change (u64 (Z.lnot (PGSIZE - 1))) with (Z.ldiff (Z.ones 64) (Z.ones 12)).
  assert (Z.land x (Z.ldiff (Z.ones 64) (Z.ones 12)) = Z.ldiff x (Z.ones 12)) as ->.
  { apply Z.bits_inj'; intros n Hn.
    rewrite Z.land_spec, !Z.ldiff_spec.
    destruct (decide (n < 64)).
    - rewrite (Z.ones_spec_low 64) by lia. done.
    - rewrite (Z.bits_above_log2 x n); [done|lia|].
      destruct (decide (x = 0)) as [->|]; [simpl; lia|].
      apply Z.log2_lt_pow2; [lia|].
      eapply Z.lt_le_trans; [apply Hx|]. apply Z.pow_le_mono_r; lia. }
  rewrite Z.ldiff_ones_r by lia.
  rewrite Z.shiftl_mul_pow2, Z.shiftr_div_pow2 by lia.
  change (2^12) with PGSIZE. lia.
Qed.

Lemma PGROUNDDOWN_spec a :
  0 ≤ a < 2^64 → PGROUNDDOWN a = PGSIZE * (a / PGSIZE).
Proof. apply land_page_mask. Qed.

Lemma PGROUNDUP_spec sz :
  0 ≤ sz ≤ 2^64 - PGSIZE →
  PGROUNDUP sz = PGSIZE * ((sz + PGSIZE - 1) / PGSIZE).
Proof.
  intros Hsz. unfold PGROUNDUP.
  replace (u64 (u64 (sz + PGSIZE) - 1)) with (sz + PGSIZE - 1).
  - rewrite land_page_mask; [done|]. unfold PGSIZE in *. lia.
  - unfold u64. rewrite Zminus_mod_idemp_l, Z.mod_small; [done|].
    unfold PGSIZE in *. lia.
Qed.

(** ** Page-table entries *)

Lemma has_V_PTE x : has x PTE_V = Z.testbit x 0.
Proof.
  unfold has, PTE_V. change (Z.shiftl 1 0) with (Z.ones 1).
  rewrite Z.land_ones by lia. rewrite <- Z.bit0_mod. by destruct (Z.testbit x 0).
Qed.

Lemma has_bit x n : 0 ≤ n → has x (Z.shiftl 1 n) = Z.testbit x n.
Proof.
  intros Hn. unfold has. rewrite Z.shiftl_1_l.
  destruct (Z.testbit x n) eqn:E.
  - apply negb_true_iff, Z.eqb_neq. intros H0.
    apply (f_equal (λ y, Z.testbit y n)) in H0.
    rewrite Z.land_spec, E, Z.pow2_bits_true, Z.bits_0 in H0 by lia. done.
  - apply negb_false_iff, Z.eqb_eq. apply Z.bits_inj'; intros k Hk.
    rewrite Z.land_spec, Z.bits_0.
    destruct (decide (n = k)) as [->|]; [by rewrite E|].
    rewrite Z.pow2_bits_false by lia. apply andb_false_r.
Qed.

Lemma range_land_ones z n : 0 ≤ n → 0 ≤ z < 2^n ↔ Z.land z (Z.ones n) = z.
Proof.
  intros Hn. rewrite Z.land_ones by done. split; [apply Z.mod_small|].
  intros <-. apply Z.mod_pos_bound. lia.
Qed.

Lemma lor_range x y n : 0 ≤ x < 2^n → 0 ≤ y < 2^n → 0 ≤ n → 0 ≤ Z.lor x y < 2^n.
Proof.
  intros Hx Hy Hn. rewrite range_land_ones in * by done.
  by rewrite Z.land_lor_distr_l, Hx, Hy.
Qed.

Lemma land_range x y n : 0 ≤ x < 2^n → 0 ≤ n → 0 ≤ Z.land x y < 2^n.
Proof.
  intros Hx Hn. rewrite range_land_ones in * by done.
  by rewrite <- Z.land_assoc, (Z.land_comm y), Z.land_assoc, Hx.
Qed.

(** A page-aligned physical address that fits the 44-bit page number. *)
Definition page_ok (p : Z) : Prop := 0 ≤ p < 2^56 ∧ p mod PGSIZE = 0.

Lemma PA2PTE_spec p : page_ok p → PA2PTE p = p / PGSIZE * 1024.
Proof.
  intros [Hp Ha]. unfold PA2PTE. rewrite Z.shiftr_div_pow2, Z.shiftl_mul_pow2 by lia.
  change (2^12) with PGSIZE. change (2^10) with 1024.
  apply u64_small. unfold PGSIZE in *. split; [apply Z.mul_nonneg_nonneg; [apply Z.div_pos|]; lia|].
  assert (p / 4096 < 2^44) by (apply Z.div_lt_upper_bound; lia). lia.
Qed.

Lemma PTE2PA_lor p fl :
  page_ok p → 0 ≤ fl < 1024 → PTE2PA (Z.lor (PA2PTE p) fl) = p.
Proof.
  intros Hp Hfl. pose proof Hp as [Hr Ha]. rewrite PA2PTE_spec by done.
  unfold PTE2PA. rewrite Z.shiftr_lor, (Z.shiftr_div_pow2 fl) by lia.
  change (2^10) with 1024. rewrite (Z.div_small fl) by lia.
  rewrite Z.lor_0_r, Z.shiftr_div_pow2, Z.shiftl_mul_pow2 by lia.
  change (2^10) with 1024. rewrite Z.div_mul by lia. change (2^12) with PGSIZE.
  pose proof (Z.div_mod p PGSIZE) as Hd. unfold PGSIZE in *.
  rewrite u64_small; lia.
Qed.

Lemma PTE_FLAGS_lor p fl :
  page_ok p → 0 ≤ fl < 1024 → PTE_FLAGS (Z.lor (PA2PTE p) fl) = fl.
Proof.
  intros Hp Hfl. rewrite PA2PTE_spec by done. unfold PTE_FLAGS.
  rewrite Z.land_lor_distr_l. change 0x3FF with (Z.ones 10).
  rewrite !Z.land_ones by lia. change (2^10) with 1024.
  rewrite Z.mod_mul by lia. rewrite Z.mod_small by lia. apply Z.lor_0_l.
Qed.

Lemma PTE_FLAGS_range pte : 0 ≤ PTE_FLAGS pte < 1024.
Proof.
  unfold PTE_FLAGS. change 0x3FF with (Z.ones 10). rewrite Z.land_ones by lia.
  apply Z.mod_pos_bound. lia.
Qed.

(** The bits of [PTE_FLAGS] are the low ten bits of the entry. *)
Lemma PTE_FLAGS_testbit pte n :
  0 ≤ n < 10 → Z.testbit (PTE_FLAGS pte) n = Z.testbit pte n.
Proof.
  intros Hn. unfold PTE_FLAGS. change 0x3FF with (Z.ones 10).
  rewrite Z.land_spec, Z.ones_spec_low by lia. apply andb_true_r.
Qed.

Lemma has_FLAGS pte n :
  0 ≤ n < 10 → has (PTE_FLAGS pte) (Z.shiftl 1 n) = has pte (Z.shiftl 1 n).
Proof. intros. rewrite !has_bit by lia. apply PTE_FLAGS_testbit. lia. Qed.

(** A bit of an entry built from an address and flags is a bit of the flags. *)
Lemma has_pte_lor p fl n :
  page_ok p → 0 ≤ fl < 1024 → 0 ≤ n < 10 →
  has (Z.lor (PA2PTE p) fl) (Z.shiftl 1 n) = has fl (Z.shiftl 1 n).
Proof.
  intros Hp Hfl Hn. rewrite <- has_FLAGS by lia. by rewrite PTE_FLAGS_lor.
Qed.

(** ** Virtual-address indices *)

Lemma PX_spec level va :
  0 ≤ level → PX level va = va / 2^(12 + 9 * level) mod 512.
Proof.
  intros. unfold PX, PXMASK, PXSHIFT, PGSHIFT. change 0x1FF with (Z.ones 9).
  rewrite Z.land_ones, Z.shiftr_div_pow2 by lia. done.
Qed.

Lemma PX_range level va : 0 ≤ level → 0 ≤ PX level va < 512.
Proof. intros. rewrite PX_spec by done. apply Z.mod_pos_bound. lia. Qed.

Lemma MAXVA_val : MAXVA = 2^38.
Proof. done. Qed.

Create Rewrite HintDb page.
#[export] Hint Rewrite PGROUNDDOWN_spec PGROUNDUP_spec using lia : page.
