(* ===== verification/Mem.v ===== *)
(** * Physical memory and the byte routines (kernel/string.c)

    Memory is a finite map from byte addresses to bytes; a byte that was never
    written reads as 0.  The routines of string.c are written as the loops the
    C code runs; the theorems give their effect as one pointwise equation, and
    that is what the other components use. *)

From Stdlib Require Import ZArith Lia.
From stdpp Require Import base numbers list gmap strings tactics.
From S2P Require Import Prelude.

Local Open Scope Z_scope.

Abbreviation memory := (gmap Z Z).

Definition load8 (m : memory) (a : Z) : Z := default 0 (m !! a).
Definition store8 (m : memory) (a v : Z) : memory := <[a := u8 v]> m.

(** Little-endian access to [n] bytes. *)
Fixpoint le_load (m : memory) (a : Z) (n : nat) : Z :=
  match n with
  | O => 0
  | S n => load8 m a + 256 * le_load m (a + 1) n
  end.

Fixpoint le_store (m : memory) (a : Z) (n : nat) (v : Z) : memory :=
  match n with
  | O => m
  | S n => le_store (store8 m a v) (a + 1) n (v / 256)
  end.

(** The [n] bytes of an integer, least significant first. *)
Fixpoint le_bytes (n : nat) (v : Z) : list Z :=
  match n with
  | O => []
  | S n => u8 v :: le_bytes n (v / 256)
  end.
Definition load64 (m : memory) (a : Z) : Z := le_load m a 8.
Definition store64 (m : memory) (a v : Z) : memory := le_store m a 8 v.

(** Every byte of memory is a byte. *)
Definition mem_bytes (m : memory) : Prop := ∀ a, 0 ≤ load8 m a < 256.

(** The bytes [l] are at address [a]. *)
Fixpoint bytes_at (m : memory) (a : Z) (l : list Z) : Prop :=
  match l with
  | [] => True
  | c :: l => load8 m a = c ∧ bytes_at m (a + 1) l
  end.

(** ** string.c *)

Fixpoint memset_loop (fuel : nat) (m : memory) (dst c i n : Z) : memory :=
  match fuel with
  | O => m
  | S fuel =>
      if u32 i <? n
      then memset_loop fuel (store8 m (u64 (dst + i)) c) dst c (s32 (i + 1)) n
      else m
  end.
Definition memset (m : memory) (dst c n : Z) : memory :=
  memset_loop (Z.to_nat n) m dst c 0 n.

Fixpoint memcmp_loop (n : nat) (m : memory) (s1 s2 : Z) : Z :=
  match n with
  | O => 0
  | S n =>
      if negb (load8 m s1 =? load8 m s2) then load8 m s1 - load8 m s2
      else memcmp_loop n m (u64 (s1 + 1)) (u64 (s2 + 1))
  end.
Definition memcmp (m : memory) (v1 v2 n : Z) : Z := memcmp_loop (Z.to_nat n) m v1 v2.

Fixpoint move_down (n : nat) (m : memory) (d s : Z) : memory :=
  match n with
  | O => m
  | S n => move_down n (store8 m (u64 (d - 1)) (load8 m (u64 (s - 1))))
                     (u64 (d - 1)) (u64 (s - 1))
  end.
Fixpoint move_up (n : nat) (m : memory) (d s : Z) : memory :=
  match n with
  | O => m
  | S n => move_up n (store8 m d (load8 m s)) (u64 (d + 1)) (u64 (s + 1))
  end.
Definition memmove (m : memory) (dst src n : Z) : memory :=
  if n =? 0 then m
  else if (src <? dst) && (dst <? u64 (src + n))
  then move_down (Z.to_nat n) m (u64 (dst + n)) (u64 (src + n))
  else move_up (Z.to_nat n) m dst src.

Definition memcpy (m : memory) (dst src n : Z) : memory := memmove m dst src n.

Fixpoint strncmp_loop (n : nat) (m : memory) (p q : Z) : Z :=
  match n with
  | O => 0
  | S n' =>
      if negb (load8 m p =? 0) && (load8 m p =? load8 m q)
      then strncmp_loop n' m (u64 (p + 1)) (u64 (q + 1))
      else load8 m p - load8 m q
  end.
Definition strncmp (m : memory) (p q n : Z) : Z := strncmp_loop (Z.to_nat n) m p q.

(** [while(n-- > 0) *s++ = 0;] *)
Fixpoint strncpy_pad (n : nat) (m : memory) (s : Z) : memory :=
  match n with
  | O => m
  | S n => strncpy_pad n (store8 m s 0) (u64 (s + 1))
  end.
(** The first loop's last test decrements [n] once more, so after a NUL (or
    at [n = 0]) the padding loop starts with what is left. *)
Fixpoint strncpy_loop (n : nat) (m : memory) (s t : Z) : memory :=
  match n with
  | O => m
  | S n =>
      let c := load8 m t in
      let m' := store8 m s c in
      if c =? 0 then strncpy_pad n m' (u64 (s + 1))
      else strncpy_loop n m' (u64 (s + 1)) (u64 (t + 1))
  end.
Definition strncpy (m : memory) (s t n : Z) : memory := strncpy_loop (Z.to_nat n) m s t.

(** [n] is the loop's counter before [--n]. *)
Fixpoint safestrcpy_loop (n : nat) (m : memory) (s t : Z) : memory :=
  match n with
  | O => store8 m s 0
  | S n =>
      let c := load8 m t in
      let m' := store8 m s c in
      if c =? 0 then store8 m' (u64 (s + 1)) 0
      else safestrcpy_loop n m' (u64 (s + 1)) (u64 (t + 1))
  end.
Definition safestrcpy (m : memory) (s t n : Z) : memory :=
  if n <=? 0 then m else safestrcpy_loop (Z.to_nat (n - 1)) m s t.

(** [None]: no NUL within [fuel] bytes. *)
Fixpoint strlen_loop (fuel : nat) (m : memory) (s n : Z) : option Z :=
  match fuel with
  | O => None
  | S fuel =>
      if load8 m (u64 (s + n)) =? 0 then Some n
      else strlen_loop fuel m s (s32 (n + 1))
  end.
Definition strlen (fuel : nat) (m : memory) (s : Z) : option Z := strlen_loop fuel m s 0.

#[global] Arguments memset : simpl never.
#[global] Arguments memmove : simpl never.
#[global] Arguments memcmp : simpl never.
#[global] Arguments strncmp : simpl never.
#[global] Arguments strncpy : simpl never.
#[global] Arguments safestrcpy : simpl never.
#[global] Arguments load64 : simpl never.
#[global] Arguments store64 : simpl never.
#[global] Arguments u8 : simpl never.

(** ** Pointwise facts *)

Lemma load8_store8 m a b v :
  load8 (store8 m a v) b = if b =? a then u8 v else load8 m b.
Proof.
  unfold load8, store8. destruct (Z.eqb_spec b a) as [->|].
  - by rewrite lookup_insert_eq.
  - by rewrite lookup_insert_ne.
Qed.

Lemma mem_bytes_store8 m a v : mem_bytes m → mem_bytes (store8 m a v).
Proof. intros H b. rewrite load8_store8. case_if; [apply u8_range|apply H]. Qed.

Lemma u8_load8 m a : mem_bytes m → u8 (load8 m a) = load8 m a.
Proof. intros H. apply Z.mod_small. apply H. Qed.

Lemma load8_le_store m a n v b :
  load8 (le_store m a n v) b =
    if (a <=? b) && (b <? a + Z.of_nat n)
    then u8 (v / 256 ^ (b - a)) else load8 m b.
Proof.
  revert m a v. induction n as [|n IH]; intros m a v; simpl.
  { by zcases. }
  rewrite IH, load8_store8. zcases; try done.
  - replace (b - a) with 0 by lia. by rewrite Z.pow_0_r, Z.div_1_r.
  - rewrite Zdiv_Zdiv by lia. f_equal. f_equal.
    replace (b - a) with (1 + (b - (a + 1))) by lia.
    rewrite Z.pow_add_r by lia. done.
Qed.

Lemma mem_bytes_le_store m a n v : mem_bytes m → mem_bytes (le_store m a n v).
Proof.
  revert m a v. induction n as [|n IH]; intros m a v H; simpl; [done|].
  apply IH. by apply mem_bytes_store8.
Qed.

Lemma le_load_ext m m' a n :
  (∀ b, a ≤ b < a + Z.of_nat n → load8 m' b = load8 m b) →
  le_load m' a n = le_load m a n.
Proof.
  revert a. induction n as [|n IH]; intros a H; simpl; [done|].
  rewrite H by lia. rewrite IH; [done|]. intros b Hb. apply H. lia.
Qed.

Lemma le_load_range m a n :
  mem_bytes m → 0 ≤ le_load m a n < 256 ^ Z.of_nat n.
Proof.
  intros Hm. revert a. induction n as [|n IH]; intros a; simpl le_load; [simpl; lia|].
  specialize (IH (a + 1)). specialize (Hm a).
  rewrite Nat2Z.inj_succ, Z.pow_succ_r by lia. lia.
Qed.

Lemma le_load_store m a n v :
  le_load (le_store m a n v) a n = v mod 256 ^ Z.of_nat n.
Proof.
  revert m a v. induction n as [|n IH]; intros m a v; simpl le_load; simpl le_store.
  { by rewrite Z.pow_0_r, Z.mod_1_r. }
  rewrite IH. rewrite load8_le_store.
  test_false (a + 1 <=? a). simpl. rewrite load8_store8, Z.eqb_refl.
  rewrite Nat2Z.inj_succ, Z.pow_succ_r by lia. unfold u8. change (2^8) with 256.
  rewrite Z.rem_mul_r; lia.
Qed.

(** *** 64-bit words *)

Lemma load64_range m a : mem_bytes m → 0 ≤ load64 m a < 2^64.
Proof. intros H. apply (le_load_range m a 8 H). Qed.

Lemma load64_store64_eq m a v : 0 ≤ v < 2^64 → load64 (store64 m a v) a = v.
Proof.
  intros Hv. unfold load64, store64. rewrite le_load_store. by apply Z.mod_small.
Qed.

Lemma load8_store64_ne m a v b :
  b < a ∨ a + 8 ≤ b → load8 (store64 m a v) b = load8 m b.
Proof.
  intros Hb. unfold store64. rewrite load8_le_store. by zcases.
Qed.

Lemma load64_ext m m' a :
  (∀ b, a ≤ b < a + 8 → load8 m' b = load8 m b) → load64 m' a = load64 m a.
Proof. intros. by apply le_load_ext. Qed.

Lemma load64_store64_ne m a v b :
  b + 8 ≤ a ∨ a + 8 ≤ b → load64 (store64 m a v) b = load64 m b.
Proof. intros Hb. apply load64_ext. intros c Hc. apply load8_store64_ne. lia. Qed.

Lemma mem_bytes_store64 m a v : mem_bytes m → mem_bytes (store64 m a v).
Proof. apply mem_bytes_le_store. Qed.

(** A word of zero bytes is zero. *)
Lemma load64_zero m a : (∀ b, a ≤ b < a + 8 → load8 m b = 0) → load64 m a = 0.
Proof. intros H. unfold load64. simpl. by rewrite !H by lia. Qed.

Lemma bytes_at_ext m m' a l :
  (∀ b, a ≤ b < a + Z.of_nat (length l) → load8 m' b = load8 m b) →
  bytes_at m a l → bytes_at m' a l.
Proof.
  revert a. induction l as [|c l IH]; intros a H; simpl; [done|].
  intros [Hc Hl]. simpl in H. split; [rewrite H by lia; done|].
  apply IH; [|done]. intros b Hb. apply H. lia.
Qed.

Lemma bytes_at_lookup m a l i c :
  bytes_at m a l → l !! i = Some c → load8 m (a + Z.of_nat i) = c.
Proof.
  revert a i. induction l as [|x l IH]; intros a [|i] H Hi; simpl in *; simplify_eq.
  - rewrite Z.add_0_r. by destruct H.
  - replace (a + Z.of_nat (S i)) with (a + 1 + Z.of_nat i) by lia. destruct H. by apply IH.
Qed.

(** ** The routines of string.c, pointwise *)

Lemma memset_loop_spec fuel m dst c i n a :
  0 ≤ dst → 0 ≤ i → i + Z.of_nat fuel = n → n < 2^31 → dst + n ≤ 2^64 →
  load8 (memset_loop fuel m dst c i n) a =
    if (dst + i <=? a) && (a <? dst + n) then u8 c else load8 m a.
Proof.
  revert m i. induction fuel as [|fuel IH]; intros m i Hd Hi Hn Hb Hw; simpl.
  { by zcases. }
  rewrite u32_small by lia. test_true (i <? n).
  rewrite s32_small, u64_small by lia.
  rewrite IH by lia. rewrite load8_store8. by zcases.
Qed.

Lemma load8_memset m dst c n a :
  0 ≤ dst → 0 ≤ n < 2^31 → dst + n ≤ 2^64 →
  load8 (memset m dst c n) a =
    if (dst <=? a) && (a <? dst + n) then u8 c else load8 m a.
Proof.
  intros. unfold memset. rewrite memset_loop_spec by lia. by rewrite Z.add_0_r.
Qed.

Lemma mem_bytes_memset m dst c n : mem_bytes m → mem_bytes (memset m dst c n).
Proof.
  unfold memset. generalize (Z.to_nat n) at 1. generalize 0 at 1.
  intros i k. revert m i. induction k as [|k IH]; intros m i Hm; simpl; [done|].
  case_if; [|done]. apply IH. by apply mem_bytes_store8.
Qed.

Lemma load8_move_up n m d s a :
  mem_bytes m → 0 ≤ d → 0 ≤ s → d + Z.of_nat n < 2^64 → s + Z.of_nat n < 2^64 →
  d ≤ s ∨ s + Z.of_nat n ≤ d →
  load8 (move_up n m d s) a =
    if (d <=? a) && (a <? d + Z.of_nat n) then load8 m (s + (a - d)) else load8 m a.
Proof.
  revert m d s. induction n as [|n IH]; intros m d s Hm Hd Hs Hdn Hsn Hov; simpl.
  { by zcases. }
  rewrite !u64_small by lia.
  rewrite IH; [|by apply mem_bytes_store8|lia..].
  rewrite !load8_store8, u8_load8 by done. zcases; try done; f_equal; lia.
Qed.

Lemma load8_move_down n m d s a :
  mem_bytes m → Z.of_nat n ≤ d < 2^64 → Z.of_nat n ≤ s < 2^64 → s ≤ d →
  load8 (move_down n m d s) a =
    if (d - Z.of_nat n <=? a) && (a <? d) then load8 m (s + (a - d)) else load8 m a.
Proof.
  revert m d s. induction n as [|n IH]; intros m d s Hm Hd Hs Hov; simpl.
  { by zcases. }
  rewrite !u64_small by lia.
  rewrite IH; [|by apply mem_bytes_store8|lia..].
  rewrite !load8_store8, u8_load8 by done. zcases; try done; f_equal; lia.
Qed.

Lemma load8_memmove m dst src n a :
  mem_bytes m → 0 ≤ n → 0 ≤ dst → 0 ≤ src → dst + n < 2^64 → src + n < 2^64 →
  load8 (memmove m dst src n) a =
    if (dst <=? a) && (a <? dst + n) then load8 m (src + (a - dst)) else load8 m a.
Proof.
  intros Hm Hn Hd Hs Hdn Hsn. unfold memmove. rewrite !(u64_small (_ + _)) by lia.
  destruct (Z.eqb_spec n 0) as [->|]; [by zcases|].
  destruct (_ && _) eqn:E.
  - bool_to_prop. rewrite load8_move_down by (done || lia).
    rewrite Z2Nat.id by lia. zcases; try done. f_equal; lia.
  - rewrite load8_move_up; [by rewrite Z2Nat.id by lia|done|lia..|].
    rewrite Z2Nat.id by lia. apply andb_false_iff in E.
    rewrite !Z.ltb_ge in E. lia.
Qed.

Lemma mem_bytes_move_down n m d s : mem_bytes m → mem_bytes (move_down n m d s).
Proof.
  revert m d s. induction n as [|n IH]; intros m d s Hm; simpl; [done|].
  apply IH. by apply mem_bytes_store8.
Qed.

Lemma mem_bytes_move_up n m d s : mem_bytes m → mem_bytes (move_up n m d s).
Proof.
  revert m d s. induction n as [|n IH]; intros m d s Hm; simpl; [done|].
  apply IH. by apply mem_bytes_store8.
Qed.

Lemma mem_bytes_memmove m dst src n : mem_bytes m → mem_bytes (memmove m dst src n).
Proof.
  intros Hm. unfold memmove. repeat case_if; auto using mem_bytes_move_down, mem_bytes_move_up.
Qed.

Create HintDb mem.
#[export] Hint Resolve mem_bytes_store8 mem_bytes_store64 mem_bytes_memset
  mem_bytes_memmove : mem.

(** ** Strings

    [cstr n m p]: the bytes of the C string at [p], at most [n] of them. *)

Fixpoint cstr (n : nat) (m : memory) (p : Z) : list Z :=
  match n with
  | O => []
  | S n => if load8 m p =? 0 then [] else load8 m p :: cstr n m (p + 1)
  end.

Lemma cstr_ext n m m' p :
  (∀ b, p ≤ b < p + Z.of_nat n → load8 m' b = load8 m b) → cstr n m' p = cstr n m p.
Proof.
  revert p. induction n as [|n IH]; intros p H; simpl; [done|].
  rewrite H by lia. case_if; [done|]. f_equal. apply IH. intros. apply H. lia.
Qed.

Lemma memcmp_loop_eq n m s1 s2 :
  0 ≤ s1 → 0 ≤ s2 → s1 + Z.of_nat n < 2^64 → s2 + Z.of_nat n < 2^64 →
  memcmp_loop n m s1 s2 = 0 ↔
  ∀ i, 0 ≤ i < Z.of_nat n → load8 m (s1 + i) = load8 m (s2 + i).
Proof.
  revert s1 s2. induction n as [|n IH]; intros s1 s2 H1 H2 Hw1 Hw2; simpl.
  { split; [intros _ i ?; lia|done]. }
  destruct (Z.eqb_spec (load8 m s1) (load8 m s2)) as [E|E]; simpl.
  - rewrite !u64_small, IH by lia. split; intros H i Hi.
    + destruct (decide (i = 0)) as [->|]; [by rewrite !Z.add_0_r|].
      replace (s1 + i) with (s1 + 1 + (i - 1)) by lia.
      replace (s2 + i) with (s2 + 1 + (i - 1)) by lia. apply H. lia.
    + rewrite <- !Z.add_assoc. apply H. lia.
  - split; [lia|]. intros H. specialize (H 0). rewrite !Z.add_0_r in H.
    exfalso. apply E, H. lia.
Qed.

(** The sign of [memcmp] is that of the first differing byte. *)
Lemma memcmp_loop_ne n m s1 s2 :
  0 ≤ s1 → 0 ≤ s2 → s1 + Z.of_nat n < 2^64 → s2 + Z.of_nat n < 2^64 →
  memcmp_loop n m s1 s2 ≠ 0 →
  ∃ i, 0 ≤ i < Z.of_nat n ∧
       (∀ j, 0 ≤ j < i → load8 m (s1 + j) = load8 m (s2 + j)) ∧
       load8 m (s1 + i) ≠ load8 m (s2 + i) ∧
       memcmp_loop n m s1 s2 = load8 m (s1 + i) - load8 m (s2 + i).
Proof.
  revert s1 s2. induction n as [|n IH]; intros s1 s2 H1 H2 Hw1 Hw2; simpl; [done|].
  destruct (Z.eqb_spec (load8 m s1) (load8 m s2)) as [E|E]; simpl.
  - rewrite !u64_small by lia. intros Hne.
    destruct (IH (s1 + 1) (s2 + 1)) as (i & Hi & Heq & Hne' & ->); try (done || lia).
    exists (i + 1). split; [lia|].
    replace (s1 + (i + 1)) with (s1 + 1 + i) by lia.
    replace (s2 + (i + 1)) with (s2 + 1 + i) by lia.
    split; [|done]. intros j Hj.
    destruct (decide (j = 0)) as [->|]; [by rewrite !Z.add_0_r|].
    replace (s1 + j) with (s1 + 1 + (j - 1)) by lia.
    replace (s2 + j) with (s2 + 1 + (j - 1)) by lia. apply Heq. lia.
  - intros _. exists 0. rewrite !Z.add_0_r. repeat split; (done || lia).
Qed.

Lemma strncmp_loop_eq n m p q :
  0 ≤ p → 0 ≤ q → p + Z.of_nat n < 2^64 → q + Z.of_nat n < 2^64 →
  strncmp_loop n m p q = 0 ↔ cstr n m p = cstr n m q.
Proof.
  revert p q. induction n as [|n IH]; intros p q Hp Hq Hwp Hwq; simpl; [done|].
  rewrite !u64_small by lia.
  destruct (Z.eqb_spec (load8 m p) 0) as [E|E]; simpl.
  - destruct (Z.eqb_spec (load8 m q) 0); [split; [done|lia]|].
    split; [lia|done].
  - destruct (Z.eqb_spec (load8 m p) (load8 m q)) as [E'|E'].
    + rewrite IH by lia. rewrite <- E'. destruct (Z.eqb_spec (load8 m p) 0); [done|].
      split; [by intros ->|]. by intros [=].
    + split; [lia|]. destruct (Z.eqb_spec (load8 m q) 0); [done|]. by intros [=].
Qed.

Lemma strlen_loop_spec fuel m s n :
  0 ≤ s → 0 ≤ n → n + Z.of_nat fuel < 2^31 → s + n + Z.of_nat fuel < 2^64 →
  (length (cstr fuel m (s + n)) < fuel)%nat →
  strlen_loop fuel m s n = Some (n + Z.of_nat (length (cstr fuel m (s + n)))).
Proof.
  revert n. induction fuel as [|fuel IH]; intros n Hs Hn Hb Hw; simpl; [lia|].
  rewrite u64_small by lia. destruct (Z.eqb_spec (load8 m (s + n)) 0) as [E|E]; simpl.
  - intros _. by rewrite Z.add_0_r.
  - intros Hl. rewrite s32_small by lia. rewrite <- Z.add_assoc in *.
    rewrite IH by lia. f_equal. lia.
Qed.

(** Copying a string to a disjoint buffer. *)
Lemma strncpy_pad_spec n m s a :
  0 ≤ s → s + Z.of_nat n < 2^64 →
  load8 (strncpy_pad n m s) a =
    if (s <=? a) && (a <? s + Z.of_nat n) then 0 else load8 m a.
Proof.
  revert m s. induction n as [|n IH]; intros m s Hs Hw; simpl; [by zcases|].
  rewrite u64_small, IH, load8_store8 by lia. zcases; done.
Qed.

Lemma strncpy_loop_spec n m s t a :
  mem_bytes m → 0 ≤ s → 0 ≤ t → s + Z.of_nat n < 2^64 → t + Z.of_nat n < 2^64 →
  s + Z.of_nat n ≤ t ∨ t + Z.of_nat n ≤ s →
  load8 (strncpy_loop n m s t) a =
    if (s <=? a) && (a <? s + Z.of_nat n)
    then default 0 (cstr n m t !! Z.to_nat (a - s)) else load8 m a.
Proof.
  revert m s t. induction n as [|n IH]; intros m s t Hm Hs Ht Hws Hwt Hov; simpl; [by zcases|].
  rewrite !u64_small by lia. destruct (Z.eqb_spec (load8 m t) 0) as [E|E].
  - rewrite strncpy_pad_spec, load8_store8, E by lia. zcases; done.
  - rewrite IH; [|by apply mem_bytes_store8|lia..].
    rewrite load8_store8, u8_load8 by done.
    rewrite (cstr_ext n m); cycle 1.
    { intros b Hb. rewrite load8_store8. by zcases. }
    zcases; try done.
    + replace (a - s) with 0 by lia. done.
    + replace (Z.to_nat (a - s)) with (S (Z.to_nat (a - (s + 1)))) by lia. done.
Qed.

Lemma safestrcpy_loop_frame n m s t a :
  0 ≤ s → s + Z.of_nat n < 2^64 - 1 →
  a < s ∨ s + Z.of_nat n < a → load8 (safestrcpy_loop n m s t) a = load8 m a.
Proof.
  revert m s t. induction n as [|n IH]; intros m s t Hs Hw Ha; simpl.
  { rewrite load8_store8. by zcases. }
  rewrite (u64_small (s + 1)) by lia. case_if.
  - rewrite !load8_store8. by zcases.
  - rewrite IH by lia. rewrite load8_store8. by zcases.
Qed.

(** The copy is the source string cut to [n] bytes, and a NUL follows it. *)
Lemma safestrcpy_loop_spec n m s t :
  mem_bytes m → 0 ≤ s → 0 ≤ t → s + Z.of_nat n < 2^64 - 1 → t + Z.of_nat n < 2^64 →
  s + Z.of_nat n < t ∨ t + Z.of_nat n ≤ s →
  cstr (S n) (safestrcpy_loop n m s t) s = cstr n m t ∧
  load8 (safestrcpy_loop n m s t) (s + Z.of_nat (length (cstr n m t))) = 0.
Proof.
  revert m s t. induction n as [|n IH]; intros m s t Hm Hs Ht Hws Hwt Hov.
  { simpl. rewrite Z.add_0_r, load8_store8, Z.eqb_refl. done. }
  simpl safestrcpy_loop. rewrite !u64_small by lia.
  change (cstr (S (S n)) ?m' s) with
    (if load8 m' s =? 0 then [] else load8 m' s :: cstr (S n) m' (s + 1)).
  change (cstr (S n) m t) with
    (if load8 m t =? 0 then [] else load8 m t :: cstr n m (t + 1)).
  destruct (Z.eqb_spec (load8 m t) 0) as [E|E].
  - simpl. rewrite Z.add_0_r, !load8_store8, E. by zcases.
  - destruct (IH (store8 m s (load8 m t)) (s + 1) (t + 1)) as [H1 H2];
      [by apply mem_bytes_store8|lia..|].
    assert (cstr n (store8 m s (load8 m t)) (t + 1) = cstr n m (t + 1)) as Hc.
    { apply cstr_ext. intros b Hb. rewrite load8_store8. by zcases. }
    rewrite Hc in H1, H2. rewrite safestrcpy_loop_frame by lia.
    rewrite load8_store8, Z.eqb_refl, u8_load8 by done.
    destruct (Z.eqb_spec (load8 m t) 0); [done|]. rewrite H1. split; [done|].
    simpl length. by replace (s + Z.of_nat (S (length (cstr n m (t + 1)))))
      with (s + 1 + Z.of_nat (length (cstr n m (t + 1)))) by lia.
Qed.

(** ** Properties of string.c *)

(** [memmove] is correct for every overlap of source and destination: each
    byte of the destination is the byte the source held before the call, and
    no other byte changes. *)
Theorem memmove_correct m dst src n a :
  mem_bytes m → 0 ≤ n → 0 ≤ dst → 0 ≤ src → dst + n < 2^64 → src + n < 2^64 →
  load8 (memmove m dst src n) a =
    if (dst <=? a) && (a <? dst + n) then load8 m (src + (a - dst)) else load8 m a.
Proof. apply load8_memmove. Qed.

Lemma memmove_correct_witness :
  load8 (memmove (le_store ∅ 100 3 0x030201) 101 100 3) 103 = 3.
Proof.
  rewrite (memmove_correct (le_store ∅ 100 3 0x030201) 101 100 3 103);
    [reflexivity|apply mem_bytes_le_store; intros a; by vm_compute|lia..].
Defined.

(** [safestrcpy(s, t, n)] leaves in [s] the string [t] cut to [n - 1] bytes,
    with a NUL behind it, and writes only the [n] bytes of [s]. *)
Theorem safestrcpy_correct m s t n :
  mem_bytes m → 0 < n → 0 ≤ s → 0 ≤ t → s + n < 2^64 → t + n < 2^64 →
  s + n ≤ t ∨ t + n ≤ s →
  let m' := safestrcpy m s t n in
  cstr (Z.to_nat n) m' s = cstr (Z.to_nat (n - 1)) m t ∧
  load8 m' (s + Z.of_nat (length (cstr (Z.to_nat (n - 1)) m t))) = 0 ∧
  ∀ a, a < s ∨ s + n ≤ a → load8 m' a = load8 m a.
Proof.
  intros Hm Hn Hs Ht Hws Hwt Hov m'. subst m'. unfold safestrcpy.
  test_false (n <=? 0).
  replace (Z.to_nat n) with (S (Z.to_nat (n - 1))) by lia.
  destruct (safestrcpy_loop_spec (Z.to_nat (n - 1)) m s t) as [H1 H2]; try (done || lia).
  split; [done|]. split; [done|].
  intros a Ha. apply safestrcpy_loop_frame; lia.
Qed.

Lemma safestrcpy_correct_witness :
  let m := le_store ∅ 100 4 0x00636261 in
  cstr 3 (safestrcpy m 200 100 3) 200 = [0x61; 0x62].
Proof.
  intros m. destruct (safestrcpy_correct m 200 100 3) as [H _];
    [apply mem_bytes_le_store; intros a; by vm_compute|lia..|exact H].
Defined.

(** From here on the routines are used through the equations above only. *)
#[global] Opaque memset memmove memcmp strncmp strncpy safestrcpy load64 store64.
