(* ===== verification/Bytes.v ===== *)
(** * Structures in byte buffers

    The C code reads and writes integers in blocks and stack buffers through
    casts.  A buffer is a list of bytes; [getn]/[putn] read and write an
    [k]-byte little-endian integer at an offset, [sub_bytes] and [overwrite]
    a range. *)

From Stdlib Require Import ZArith Lia.
From stdpp Require Import base numbers list gmap strings tactics.
From S2P Require Import Prelude Mem.

Local Open Scope Z_scope.

(** The integer of little-endian bytes. *)
Fixpoint le_value (l : list Z) : Z :=
  match l with
  | [] => 0
  | b :: l => b + 256 * le_value l
  end.

(** The [n] bytes at offset [off]. *)
Definition sub_bytes (l : list Z) (off n : nat) : list Z := take n (drop off l).
(** Store the bytes [v] at offset [off]. *)
Definition overwrite (l : list Z) (off : nat) (v : list Z) : list Z :=
  take off l ++ v ++ drop (off + length v) l.

Definition getn (k : nat) (l : list Z) (off : nat) : Z := le_value (sub_bytes l off k).
Definition putn (k : nat) (l : list Z) (off : nat) (v : Z) : list Z := overwrite l off (le_bytes k v).

Abbreviation get16 := (getn 2).
Abbreviation get32 := (getn 4).
Abbreviation get64 := (getn 8).
Abbreviation put16 := (putn 2).
Abbreviation put32 := (putn 4).

(** Conversions to the signed types. *)
Definition s16 (x : Z) : Z := (x + 2^15) mod 2^16 - 2^15.
Definition u16 (x : Z) : Z := x mod 2^16.

Definition bytes (l : list Z) : Prop := Forall (λ b, 0 ≤ b < 256) l.

Lemma length_le_bytes k v : length (le_bytes k v) = k.
Proof. revert v. induction k; intros; simpl; auto. Qed.
Lemma bytes_le_bytes k v : bytes (le_bytes k v).
Proof.
  unfold bytes. revert v. induction k as [|k IH]; intros v; cbn [le_bytes]; [constructor|].
  constructor; [apply u8_range|apply IH].
Qed.

Lemma le_value_bytes k v : le_value (le_bytes k v) = v mod 2^(8 * Z.of_nat k).
Proof.
  revert v. induction k as [|k IH]; intros v; [simpl; by rewrite Z.mod_1_r|].
  cbn [le_bytes le_value]. rewrite IH. unfold u8. change (2^8) with 256.
  replace (2 ^ (8 * Z.of_nat (S k))) with (256 * 2^(8 * Z.of_nat k))
    by (replace (8 * Z.of_nat (S k)) with (8 + 8 * Z.of_nat k) by lia; rewrite Z.pow_add_r by lia; done).
  by rewrite Z.rem_mul_r by lia.
Qed.

Lemma le_value_range l : bytes l → 0 ≤ le_value l < 2^(8 * Z.of_nat (length l)).
Proof.
  induction 1 as [|b l Hb Hl IH]; [simpl; lia|]. cbn [le_value length].
  replace (8 * Z.of_nat (S (length l))) with (8 + 8 * Z.of_nat (length l)) by lia.
  rewrite Z.pow_add_r by lia. lia.
Qed.

(** ** Ranges *)

Lemma length_overwrite l off v : (off + length v ≤ length l)%nat → length (overwrite l off v) = length l.
Proof. intros. unfold overwrite. rewrite !length_app, length_take, length_drop. lia. Qed.
Lemma length_sub l off n : (off + n ≤ length l)%nat → length (sub_bytes l off n) = n.
Proof. intros. unfold sub_bytes. rewrite length_take, length_drop. lia. Qed.
Lemma length_putn k l off v : (off + k ≤ length l)%nat → length (putn k l off v) = length l.
Proof. intros. unfold putn. apply length_overwrite. by rewrite length_le_bytes. Qed.

Lemma overwrite_lookup l off v i :
  (off + length v ≤ length l)%nat →
  overwrite l off v !! i =
    if decide (off ≤ i < off + length v)%nat then v !! (i - off)%nat else l !! i.
Proof.
  intros Hlen. unfold overwrite. case_decide.
  - rewrite lookup_app_r by (rewrite length_take; lia). rewrite length_take.
    rewrite Nat.min_l by lia. by rewrite lookup_app_l by lia.
  - destruct (decide (i < off)%nat).
    + rewrite lookup_app_l by (rewrite length_take; lia). by rewrite lookup_take_lt by lia.
    + rewrite lookup_app_r by (rewrite length_take; lia). rewrite length_take, Nat.min_l by lia.
      rewrite lookup_app_r by lia. rewrite lookup_drop. f_equal. lia.
Qed.

Lemma sub_overwrite_eq l off v : (off + length v ≤ length l)%nat → sub_bytes (overwrite l off v) off (length v) = v.
Proof.
  intros. unfold sub_bytes, overwrite.
  rewrite drop_app_length' by (rewrite length_take; lia). by rewrite take_app_length.
Qed.
Lemma sub_overwrite_ne l off v off' n :
  (off + length v ≤ length l)%nat → (off' + n ≤ off ∨ off + length v ≤ off')%nat →
  sub_bytes (overwrite l off v) off' n = sub_bytes l off' n.
Proof.
  intros Hl Hd. apply list_eq. intros i. unfold sub_bytes.
  destruct (decide (i < n)%nat); [|by rewrite !lookup_take_ge by lia].
  rewrite !lookup_take_lt, !lookup_drop by lia. rewrite overwrite_lookup by done.
  by rewrite decide_False by lia.
Qed.
Lemma overwrite_overwrite l off v w :
  length v = length w → (off + length v ≤ length l)%nat →
  overwrite (overwrite l off v) off w = overwrite l off w.
Proof.
  intros Hvw Hl. apply list_eq. intros i.
  rewrite !overwrite_lookup; rewrite ?length_overwrite by lia; try lia.
  repeat case_decide; (done || lia).
Qed.

Lemma getn_putn_eq k l off v :
  (off + k ≤ length l)%nat → getn k (putn k l off v) off = v mod 2^(8 * Z.of_nat k).
Proof.
  intros Hk. unfold getn, putn. pose proof (sub_overwrite_eq l off (le_bytes k v)) as E.
  rewrite length_le_bytes in E. rewrite E by done. apply le_value_bytes.
Qed.
Lemma getn_putn_ne k k' l off off' v :
  (off + k ≤ length l)%nat → (off' + k' ≤ off ∨ off + k ≤ off')%nat →
  getn k' (putn k l off v) off' = getn k' l off'.
Proof.
  intros. unfold getn, putn. by rewrite sub_overwrite_ne by (rewrite length_le_bytes; lia).
Qed.

Lemma bytes_overwrite l off v : bytes l → bytes v → bytes (overwrite l off v).
Proof.
  intros Hl Hv. unfold overwrite, bytes in *. apply Forall_app_2; [by apply Forall_take|].
  apply Forall_app_2; [done|by apply Forall_drop].
Qed.
Lemma bytes_sub l off n : bytes l → bytes (sub_bytes l off n).
Proof. intros. by apply Forall_take, Forall_drop. Qed.
Lemma getn_range k l off :
  bytes l → (off + k ≤ length l)%nat → 0 ≤ getn k l off < 2^(8 * Z.of_nat k).
Proof.
  intros Hl Hk. pose proof (le_value_range _ (bytes_sub l off k Hl)) as H.
  by rewrite length_sub in H by done.
Qed.
