(* ===== verification/Kalloc.v ===== *)
(** * The physical page allocator (kernel/kalloc.c)

    The free list threads through the first word of each free page, and
    [nump_using] counts the users of each page, which is what copy-on-write
    needs.  A critical section under [kmem.lock] or [nump_using_lock] is one
    step of the model. *)

From Stdlib Require Import ZArith Lia.
From stdpp Require Import base numbers list gmap strings tactics.
From S2P Require Import Prelude Riscv Mem.

Local Open Scope Z_scope.

(** [mem] is RAM; [freelist] is [kmem.freelist] (0 is the null pointer). *)
Record kst := KSt {
  mem : memory;
  freelist : Z;
  nump_using : gmap Z Z;
}.

Definition set_mem (f : memory → memory) (s : kst) : kst :=
  KSt (f (mem s)) (freelist s) (nump_using s).
Definition set_freelist (p : Z) (s : kst) : kst :=
  KSt (mem s) p (nump_using s).
Definition set_nump (i v : Z) (s : kst) : kst :=
  KSt (mem s) (freelist s) (<[i := v]> (nump_using s)).

(** The array has one entry per page below [PHYSTOP]; it starts zeroed. *)
Definition NREFS : Z := PGROUNDUP PHYSTOP / PGSIZE.
Definition nump (s : kst) (i : Z) : Z := default 0 (nump_using s !! i).

(** ** Memory access from kernel code

    A load or store outside the direct map of RAM traps. *)

Definition ram_range (a n : Z) : bool := (KERNBASE <=? a) && (a + n <=? PHYSTOP).

Definition rd64 (a : Z) : M kst Z := λ s,
  if ram_range a 8 then Ret (load64 (mem s) a, s) else Fault "load".
Definition wr64 (a v : Z) : M kst unit := λ s,
  if ram_range a 8 then Ret (tt, set_mem (λ m, store64 m a v) s) else Fault "store".
Definition kmemset (dst c n : Z) : M kst unit := λ s,
  if ram_range dst n then Ret (tt, set_mem (λ m, memset m dst c n) s) else Fault "memset".
Definition kmemmove (dst src n : Z) : M kst unit := λ s,
  if ram_range dst n && ram_range src n
  then Ret (tt, set_mem (λ m, memmove m dst src n) s) else Fault "memmove".

Definition ref_get (idx : Z) : M kst Z := λ s,
  if (0 <=? idx) && (idx <? NREFS) then Ret (nump s idx, s) else Fault "nump_using".
Definition ref_set (idx v : Z) : M kst unit := λ s,
  if (0 <=? idx) && (idx <? NREFS) then Ret (tt, set_nump idx v s) else Fault "nump_using".

(** ** kalloc.c *)

Definition kfree (pa : Z) : M kst unit :=
  let idx := s32 (pa / PGSIZE) in
  let* c := ref_get idx in
  ref_set idx (s32 (c - 1)) ;;;
  let* c := ref_get idx in
  if 1 <=? c then ret tt
  else
    (* Fill with junk to catch dangling refs. *)
    kmemset pa 1 PGSIZE ;;;
    let* s := get in
    wr64 pa (freelist s) ;;;
    modify (set_freelist pa).

Definition kalloc : M kst Z :=
  let* s := get in
  let r := freelist s in
  if r =? 0 then ret 0
  else
    let* next := rd64 r in
    modify (set_freelist next) ;;;
    kmemset r 5 PGSIZE ;;;
    let idxx := s32 (r / PGSIZE) in
    let* c := ref_get idxx in
    ref_set idxx (s32 (c + 1)) ;;;
    ret r.

Definition freerange (pa_start pa_end : Z) : M kst unit :=
  loop (2^52) (λ p,
    if u64 (p + PGSIZE) <=? pa_end
    then kfree p ;;; ret (inl (u64 (p + PGSIZE)))
    else ret (inr tt)) (PGROUNDUP pa_start).

(** [end_] is the linker's symbol [end]: the first address after the kernel. *)
Definition kinit (end_ : Z) : M kst unit :=
  loop (2^32) (λ i,
    if i <? NREFS
    then ref_set i 1 ;;; ret (inl (s32 (i + 1)))
    else ret (inr tt)) 0 ;;;
  freerange end_ PHYSTOP.

(** The kernel sharing a page it already uses (the increment of
    [nump_using] that [uvmcopy] performs under the lock). *)
Definition incref (pa : Z) : M kst unit :=
  let idxx := s32 (pa / PGSIZE) in
  let* c := ref_get idxx in
  ref_set idxx (s32 (c + 1)).

(** ** The allocator's invariant *)

(** A page of the allocator: aligned, in RAM, at or above [lo], which is the
    first page boundary after the kernel. *)
Definition managed (lo p : Z) : Prop :=
  lo ≤ p ∧ KERNBASE ≤ p ∧ p + PGSIZE ≤ PHYSTOP ∧ p mod PGSIZE = 0.

Definition in_page (p a : Z) : Prop := p ≤ a < p + PGSIZE.

(** The pages [l] are linked from [p] in memory. *)
Fixpoint free_chain (m : memory) (p : Z) (l : list Z) : Prop :=
  match l with
  | [] => p = 0
  | q :: l => p = q ∧ free_chain m (load64 m q) l
  end.

Record kinv (lo : Z) (s : kst) (fl : list Z) : Prop := KInv {
  ki_bytes : mem_bytes (mem s);
  ki_chain : free_chain (mem s) (freelist s) fl;
  ki_nodup : NoDup fl;
  ki_managed : ∀ p, p ∈ fl → managed lo p;
  ki_count : ∀ p, managed lo p → 0 ≤ nump s (p / PGSIZE) < 2^31;
  ki_free : ∀ p, managed lo p → nump s (p / PGSIZE) = 0 ↔ p ∈ fl;
}.

(** [s'] and [s] hold the same bytes outside the pages [ps]. *)
Definition same_outside (ps : list Z) (s s' : kst) : Prop :=
  ∀ a, (∀ p, p ∈ ps → ¬ in_page p a) → load8 (mem s') a = load8 (mem s) a.

(** ** Lemmas *)

Lemma managed_page_ok lo p : managed lo p → page_ok p.
Proof. unfold managed, page_ok, PHYSTOP, KERNBASE, PGSIZE. lia. Qed.

Lemma managed_nonzero lo p : managed lo p → p ≠ 0.
Proof. unfold managed, KERNBASE. lia. Qed.

Lemma managed_ram lo p a n :
  managed lo p → p ≤ a → 0 ≤ n → a + n ≤ p + PGSIZE → ram_range a n = true.
Proof.
  intros (_&?&?&_) ???. unfold ram_range. apply andb_true_iff.
  rewrite !Z.leb_le. lia.
Qed.

Lemma managed_page_ram lo p : managed lo p → ram_range p PGSIZE = true.
Proof. intros Hp. eapply managed_ram; [done|unfold PGSIZE; lia..]. Qed.

Lemma managed_idx lo p :
  managed lo p → s32 (p / PGSIZE) = p / PGSIZE ∧ 0 ≤ p / PGSIZE < NREFS.
Proof.
  intros (_&Hk&Hs&_). change NREFS with 557056.
  unfold PHYSTOP, KERNBASE, PGSIZE in *.
  assert (p / 4096 < 557056) by (apply Z.div_lt_upper_bound; lia).
  assert (0 ≤ p / 4096) by (apply Z.div_pos; lia).
  rewrite s32_small; lia.
Qed.

Lemma managed_idx_inj lo p q :
  managed lo p → managed lo q → p / PGSIZE = q / PGSIZE → p = q.
Proof.
  intros (_&_&_&Hp) (_&_&_&Hq) He.
  rewrite (Z.div_mod p PGSIZE), (Z.div_mod q PGSIZE), He, Hp, Hq by done. done.
Qed.

(** Distinct aligned pages do not overlap. *)
Lemma pages_disjoint p q a :
  p mod PGSIZE = 0 → q mod PGSIZE = 0 → in_page p a → in_page q a → p = q.
Proof. unfold in_page, PGSIZE. intros. dlia. Qed.

Lemma in_page_word p b : p ≤ b < p + 8 → in_page p b.
Proof. unfold in_page, PGSIZE. lia. Qed.

Lemma nump_set_nump s i v j :
  nump (set_nump i v s) j = if j =? i then v else nump s j.
Proof.
  unfold nump, set_nump; simpl. destruct (Z.eqb_spec j i) as [->|].
  - by rewrite lookup_insert_eq.
  - by rewrite lookup_insert_ne.
Qed.

Lemma free_chain_ext m m' p l :
  (∀ q, q ∈ l → load64 m' q = load64 m q) → free_chain m p l → free_chain m' p l.
Proof.
  revert p. induction l as [|q l IH]; intros p H; simpl; [done|].
  intros [-> Hl]. split; [done|]. rewrite H by by left.
  apply IH; [|done]. intros r Hr. apply H. by right.
Qed.

Lemma same_outside_refl ps s : same_outside ps s s.
Proof. done. Qed.

Lemma same_outside_trans ps s1 s2 s3 :
  same_outside ps s1 s2 → same_outside ps s2 s3 → same_outside ps s1 s3.
Proof. intros H1 H2 a Ha. rewrite H2, H1; auto. Qed.

Lemma same_outside_mono ps qs s s' :
  (∀ p, p ∈ ps → p ∈ qs) → same_outside ps s s' → same_outside qs s s'.
Proof. intros H Hs a Ha. apply Hs. auto. Qed.

(** The allocator does not read pages that are not free. *)
Lemma kinv_frame lo s s' fl :
  kinv lo s fl → mem_bytes (mem s') →
  (∀ p a, p ∈ fl → in_page p a → load8 (mem s') a = load8 (mem s) a) →
  freelist s' = freelist s → nump_using s' = nump_using s → kinv lo s' fl.
Proof.
  intros [Hb Hc Hn Hm Hr Hf] Hb' Hsame Hfl Hnu.
  split; unfold nump in *; rewrite ?Hnu; try done.
  rewrite Hfl. eapply free_chain_ext; [|done].
  intros q Hq. apply load64_ext. intros b Hb2.
  apply (Hsame q); [done|]. by apply in_page_word.
Qed.

(** *** Rules for the memory and counter accesses *)

Lemma wp_rd64 a (Q : Z → kst → Prop) s :
  ram_range a 8 = true → Q (load64 (mem s) a) s → wp (rd64 a) Q s.
Proof. unfold wp, rd64. by intros ->. Qed.

Lemma wp_wr64 a v (Q : unit → kst → Prop) s :
  ram_range a 8 = true → Q tt (set_mem (λ m, store64 m a v) s) → wp (wr64 a v) Q s.
Proof. unfold wp, wr64. by intros ->. Qed.

Lemma wp_kmemset dst c n (Q : unit → kst → Prop) s :
  ram_range dst n = true → Q tt (set_mem (λ m, memset m dst c n) s) →
  wp (kmemset dst c n) Q s.
Proof. unfold wp, kmemset. by intros ->. Qed.

Lemma wp_kmemmove dst src n (Q : unit → kst → Prop) s :
  ram_range dst n = true → ram_range src n = true →
  Q tt (set_mem (λ m, memmove m dst src n) s) → wp (kmemmove dst src n) Q s.
Proof. unfold wp, kmemmove. by intros -> ->. Qed.

Lemma wp_ref_get lo p (Q : Z → kst → Prop) s :
  managed lo p → Q (nump s (p / PGSIZE)) s → wp (ref_get (s32 (p / PGSIZE))) Q s.
Proof.
  intros Hp. destruct (managed_idx _ _ Hp) as [-> Hi]. unfold wp, ref_get.
  test_true (0 <=? p / PGSIZE). by test_true (p / PGSIZE <? NREFS).
Qed.

Lemma wp_ref_set lo p v (Q : unit → kst → Prop) s :
  managed lo p → Q tt (set_nump (p / PGSIZE) v s) → wp (ref_set (s32 (p / PGSIZE)) v) Q s.
Proof.
  intros Hp. destruct (managed_idx _ _ Hp) as [-> Hi]. unfold wp, ref_set.
  test_true (0 <=? p / PGSIZE). by test_true (p / PGSIZE <? NREFS).
Qed.

(** Changing the count of a page in use, to a positive value. *)
Lemma kinv_set_nump lo s fl p v :
  kinv lo s fl → managed lo p → p ∉ fl → 0 < v < 2^31 →
  kinv lo (set_nump (p / PGSIZE) v s) fl.
Proof.
  intros [Hb Hc Hn Hm Hr Hf] Hp Hnin Hv. split; try done.
  - intros q Hq. rewrite nump_set_nump. case_if; [lia|]. by apply Hr.
  - intros q Hq. rewrite nump_set_nump. case_if; [|by apply Hf].
    assert (q = p) as -> by by eapply managed_idx_inj. split; [lia|done].
Qed.

Lemma set_nump_same s i : nump_using s !! i = Some (nump s i) → set_nump i (nump s i) s = s.
Proof. intros H. unfold set_nump. rewrite insert_id by done. by destruct s. Qed.

(** ** Specifications *)

Lemma kalloc_spec lo s fl :
  kinv lo s fl →
  wp kalloc (λ r s',
    match fl with
    | [] => r = 0 ∧ s' = s
    | p :: fl' =>
        r = p ∧ kinv lo s' fl' ∧
        nump_using s' = <[p / PGSIZE := 1]> (nump_using s) ∧
        same_outside [p] s s' ∧ ∀ a, in_page p a → load8 (mem s') a = 5
    end) s.
Proof.
  intros Hinv. pose proof Hinv as [Hb Hc Hn Hm Hr Hf]. unfold kalloc. wp_simp.
  destruct fl as [|p fl']; simpl in Hc; [by rewrite Hc|].
  destruct Hc as [-> Hc]. assert (managed lo p) as Hp by (apply Hm; by left).
  pose proof (managed_nonzero _ _ Hp). test_false (p =? 0).
  pose proof (managed_page_ok _ _ Hp) as Hpo. unfold page_ok in Hpo.
  wp_simp. apply wp_rd64; [eapply managed_ram; [done|unfold PGSIZE in *; lia..]|].
  wp_simp. apply wp_kmemset; [eapply managed_ram; [done|unfold PGSIZE in *; lia..]|].
  wp_simp. eapply wp_ref_get; [done|].
  wp_simp. eapply wp_ref_set; [done|]. wp_simp.
  assert (nump s (p / PGSIZE) = 0) as H0 by (apply Hf; [done|by left]).
  change (nump (set_mem _ _) ?i) with (nump s i). rewrite H0.
  change (s32 (0 + 1)) with 1.
  assert (∀ a, load8 (memset (mem s) p 5 PGSIZE) a =
    if (p <=? a) && (a <? p + PGSIZE) then 5 else load8 (mem s) a) as Hms.
  { intros a. rewrite load8_memset by (unfold PGSIZE in *; lia). done. }
  apply list.NoDup_cons in Hn as [Hnin Hn].
  split; [done|]. split; [|split; [done|split]].
  - split; simpl; try exact Hn.
    + by apply mem_bytes_memset.
    + eapply free_chain_ext; [|done]. intros q Hq. apply load64_ext.
      intros b Hb'. rewrite Hms. case_if; [|done]. destruct Hnin.
      assert (p = q) as ->; [|done].
      apply (pages_disjoint p q b); [apply Hp|apply Hm; by right| |by apply in_page_word].
      unfold in_page. lia.
    + intros q Hq. apply Hm. by right.
    + intros q Hq. rewrite nump_set_nump. case_if; [lia|]. by apply Hr.
    + intros q Hq. rewrite nump_set_nump. case_if.
      * assert (q = p) as -> by by eapply managed_idx_inj. split; [lia|done].
      * change (nump (set_mem _ _) ?i) with (nump s i). rewrite Hf by done.
        rewrite elem_of_cons. split; [|by right]. by intros [->|?].
  - intros a Ha. simpl. rewrite Hms. case_if; [|done].
    destruct (Ha p); [by left|]. unfold in_page. lia.
  - intros a Ha. simpl. rewrite Hms. unfold in_page in Ha. by zcases.
Qed.

Lemma kfree_spec lo s fl p :
  kinv lo s fl → managed lo p → p ∉ fl →
  wp (kfree p) (λ _ s',
    let c := nump s (p / PGSIZE) in
    nump_using s' = <[p / PGSIZE := c - 1]> (nump_using s) ∧
    kinv lo s' (if c =? 1 then p :: fl else fl) ∧
    same_outside (if c =? 1 then [p] else []) s s') s.
Proof.
  intros Hinv Hp Hnin. pose proof Hinv as [Hb Hc Hn Hm Hr Hf].
  pose proof (managed_page_ok _ _ Hp) as Hpo. unfold page_ok in Hpo.
  assert (1 ≤ nump s (p / PGSIZE) < 2^31) as Hcnt.
  { specialize (Hr p Hp). specialize (Hf p Hp).
    destruct (decide (nump s (p / PGSIZE) = 0)); [by destruct Hnin; apply Hf|lia]. }
  unfold kfree. wp_simp. eapply wp_ref_get; [done|]. wp_simp.
  eapply wp_ref_set; [done|]. wp_simp. eapply wp_ref_get; [done|].
  rewrite nump_set_nump, Z.eqb_refl, s32_small by lia. simpl.
  destruct (Z.eqb_spec (nump s (p / PGSIZE)) 1) as [E|E].
  - rewrite E. test_false (1 <=? 1 - 1). change (1 - 1) with 0.
    wp_simp. apply wp_kmemset; [eapply managed_ram; [done|unfold PGSIZE in *; lia..]|].
    wp_simp. apply wp_wr64; [eapply managed_ram; [done|unfold PGSIZE in *; lia..]|].
    wp_simp. simpl. split; [done|].
    assert (∀ a, ¬ in_page p a →
      load8 (store64 (memset (mem s) p 1 PGSIZE) p (freelist s)) a = load8 (mem s) a) as Hs.
    { intros a Ha. unfold in_page, PGSIZE in *. rewrite load8_store64_ne by lia.
      rewrite load8_memset by lia. by zcases. }
    assert (0 ≤ freelist s < 2^64) as Hfr.
    { destruct fl as [|q fl]; simpl in Hc; [lia|]. destruct Hc as [-> _].
      assert (managed lo q) as Hq by (apply Hm; by left).
      apply managed_page_ok in Hq. unfold page_ok in Hq. lia. }
    split.
    + split; simpl.
      * by apply mem_bytes_store64, mem_bytes_memset.
      * split; [done|]. rewrite load64_store64_eq by done.
        eapply free_chain_ext; [|done]. intros q Hq. apply load64_ext. intros b Hb'.
        apply Hs. intros Hin. destruct Hnin.
        assert (p = q) as ->; [|done].
        apply (pages_disjoint p q b); [apply Hp|by apply Hm|done|by apply in_page_word].
      * by apply list.NoDup_cons.
      * intros q [->|Hq]%elem_of_cons; auto.
      * intros q Hq. unfold nump; simpl. destruct (decide (q / PGSIZE = p / PGSIZE)) as [->|].
        { rewrite lookup_insert_eq. simpl. lia. }
        rewrite lookup_insert_ne by done. by apply Hr.
      * intros q Hq. unfold nump; simpl. destruct (decide (q / PGSIZE = p / PGSIZE)) as [He|He].
        { assert (q = p) as -> by by eapply managed_idx_inj. rewrite lookup_insert_eq.
          split; [by left|done]. }
        rewrite lookup_insert_ne by done.
        change (default 0 (nump_using s !! (q / PGSIZE))) with (nump s (q / PGSIZE)).
        rewrite Hf by done. rewrite elem_of_cons. split; [by right|]. by intros [->|?].
    + intros a Ha. simpl. apply Hs. apply Ha. by left.
  - test_true (1 <=? nump s (p / PGSIZE) - 1). wp_simp. split; [done|].
    split; [|done]. apply kinv_set_nump; try done. lia.
Qed.

(** Sharing a page in use adds one user. *)
Lemma incref_spec lo s fl p :
  kinv lo s fl → managed lo p → p ∉ fl → nump s (p / PGSIZE) < 2^31 - 1 →
  wp (incref p) (λ _ s',
    s' = set_nump (p / PGSIZE) (nump s (p / PGSIZE) + 1) s ∧ kinv lo s' fl) s.
Proof.
  intros Hinv Hp Hnin Hov. pose proof (ki_count _ _ _ Hinv p Hp) as Hcnt.
  unfold incref. wp_simp. eapply wp_ref_get; [done|]. wp_simp.
  eapply wp_ref_set; [done|]. rewrite s32_small by lia. split; [done|].
  apply kinv_set_nump; try done. lia.
Qed.

Lemma freerange_spec lo end_ s :
  KERNBASE ≤ end_ ≤ PHYSTOP → lo = PGROUNDUP end_ →
  kinv lo s [] → (∀ p, managed lo p → nump s (p / PGSIZE) = 1) →
  wp (freerange end_ PHYSTOP) (λ _ s', ∃ fl, kinv lo s' fl ∧ ∀ p, managed lo p → p ∈ fl) s.
Proof.
  intros Hend Hlo Hinv Hone.
  assert (lo mod PGSIZE = 0 ∧ KERNBASE ≤ lo ≤ PHYSTOP) as [Hal Hr].
  { subst lo. rewrite PGROUNDUP_spec by (unfold PHYSTOP, KERNBASE, PGSIZE in *; lia).
    unfold PHYSTOP, KERNBASE, PGSIZE in *. dlia. }
  unfold freerange. rewrite <- Hlo. clear Hlo Hend end_.
  apply (wp_loop _ (λ p s', ∃ fl, kinv lo s' fl ∧ p mod PGSIZE = 0 ∧ lo ≤ p ≤ PHYSTOP ∧
      (∀ q, managed lo q → q ∈ fl ↔ q < p) ∧
      (∀ q, managed lo q → p ≤ q → nump s' (q / PGSIZE) = 1))
    (λ p, Z.to_nat (PHYSTOP - p))).
  - intros p s1 (fl & Hk & Hp & Hlp & Hfl & H1).
    rewrite u64_small by (unfold PHYSTOP, KERNBASE, PGSIZE in *; lia).
    destruct (Z.leb_spec (p + PGSIZE) PHYSTOP) as [Hle|Hgt]; wp_simp.
    + assert (managed lo p) as Hm by (unfold managed; lia).
      assert (p ∉ fl) as Hnin by (rewrite Hfl by done; lia).
      eapply wp_mono; [|by apply kfree_spec]. cbv beta zeta.
      rewrite (H1 p Hm) by lia. simpl. intros _ s2 (Hn2 & Hk2 & _). wp_simp.
      split; [|unfold PHYSTOP, KERNBASE, PGSIZE in *; lia].
      exists (p :: fl). split; [done|].
      split; [unfold PGSIZE in *; dlia|]. split; [unfold PGSIZE in *; lia|].
      assert (∀ q, managed lo q → q < p + PGSIZE → q = p ∨ q < p) as Hnext.
      { intros q (_&_&_&Hq) ?. unfold PGSIZE in *. dlia. }
      split.
      * intros q Hq. rewrite elem_of_cons, (Hfl q Hq).
        specialize (Hnext q Hq). unfold PGSIZE in *. lia.
      * intros q Hq Hge. unfold nump. rewrite Hn2, lookup_insert_ne.
        { apply H1; [done|unfold PGSIZE in *; lia]. }
        intros He. assert (p = q) by by eapply managed_idx_inj. unfold PGSIZE in *; lia.
    + exists fl. split; [done|]. intros q Hq. apply Hfl; [done|].
      destruct Hq as (_&_&Hq&Hqa). unfold PHYSTOP, KERNBASE, PGSIZE in *. dlia.
  - exists []. split; [done|]. split; [done|]. split; [lia|]. split.
    + intros q Hq. split; [by intros ?%elem_of_nil|]. destruct Hq. lia.
    + intros q Hq _. by apply Hone.
  - unfold PHYSTOP, KERNBASE in *. lia.
Qed.

Lemma kinit_refs_spec s :
  wp (loop (2^32) (λ i, if i <? NREFS then ref_set i 1 ;;; ret (inl (s32 (i + 1)))
                        else ret (inr tt)) 0)
     (λ _ s', mem s' = mem s ∧ freelist s' = freelist s ∧
              ∀ i, 0 ≤ i < NREFS → nump s' i = 1) s.
Proof.
  change NREFS with 557056.
  apply (wp_loop _ (λ i s', mem s' = mem s ∧ freelist s' = freelist s ∧ 0 ≤ i ≤ 557056 ∧
           ∀ j, 0 ≤ j < i → nump s' j = 1) (λ i, Z.to_nat (557056 - i))).
  - intros i s1 (Hm & Hf & Hi & Hj). destruct (Z.ltb_spec i 557056); wp_simp.
    + unfold wp, ref_set. change NREFS with 557056. test_true (0 <=? i). test_true (i <? 557056).
      simpl. rewrite s32_small by lia. split; [|lia].
      split; [done|]. split; [done|]. split; [lia|].
      intros j Hj'. rewrite nump_set_nump. case_if; [done|]. apply Hj. lia.
    + split; [done|]. split; [done|]. intros j Hj'. apply Hj. lia.
  - split; [done|]. split; [done|]. split; [lia|]. intros; lia.
  - lia.
Qed.

(** ** Properties *)

(** C8: [kinit] turns all of RAM above the kernel into free pages: afterwards the
    allocator's invariant holds, every page between the end of the kernel and
    [PHYSTOP] is on the free list, and both loops terminate without a fault. *)
Theorem kinit_correct s end_ :
  mem_bytes (mem s) → freelist s = 0 → KERNBASE ≤ end_ ≤ PHYSTOP →
  wp (kinit end_)
     (λ _ s', ∃ fl, kinv (PGROUNDUP end_) s' fl ∧
                    ∀ p, p ∈ fl ↔ managed (PGROUNDUP end_) p) s.
Proof.
  intros Hb Hf Hend. unfold kinit. wp_simp.
  eapply wp_mono; [|apply kinit_refs_spec]. intros _ s1 (Hm1 & Hf1 & Hn1).
  assert (∀ p, managed (PGROUNDUP end_) p → nump s1 (p / PGSIZE) = 1) as Hone.
  { intros p Hp. apply Hn1. by apply managed_idx in Hp as [_ ?]. }
  eapply wp_mono; [|eapply freerange_spec; [done|done| |done]].
  - intros _ s2 (fl & Hk & Hall). exists fl. split; [done|].
    intros p. split; [apply Hk|apply Hall].
  - split; rewrite ?Hm1, ?Hf1, ?Hf; try done.
    + by apply NoDup_nil_2.
    + by intros p ?%elem_of_nil.
    + intros p Hp. rewrite Hone by done. lia.
    + intros p Hp. rewrite Hone by done. split; [lia|by intros ?%elem_of_nil].
Qed.

Lemma kinit_correct_witness :
  wp (kinit (PHYSTOP - 3 * PGSIZE))
     (λ _ s', ∃ fl, kinv (PGROUNDUP (PHYSTOP - 3 * PGSIZE)) s' fl ∧
                    ∀ p, p ∈ fl ↔ managed (PGROUNDUP (PHYSTOP - 3 * PGSIZE)) p)
     (KSt ∅ 0 ∅).
Proof.
  apply (kinit_correct (KSt ∅ 0 ∅)); [by intros a; vm_compute|done|].
  by vm_compute.
Defined.

(** ** The allocator as an abstract reference counter

    What the allocator promises its clients: a table of reference counts, one
    per page.  [AAlloc] hands out a page nobody uses (and fails only when
    every page is in use), [AShare] and [AFree] add and remove one user of a
    page in use. *)

Module AbsAlloc.
Inductive op := AAlloc | AShare (p : Z) | AFree (p : Z).

Definition upd (h : Z → Z) (p v : Z) : Z → Z := λ q, if q =? p then v else h q.

Inductive astep (lo : Z) (h : Z → Z) : op → Z → (Z → Z) → Prop :=
  | step_alloc p : managed lo p → h p = 0 → astep lo h AAlloc p (upd h p 1)
  | step_full : (∀ p, managed lo p → h p ≠ 0) → astep lo h AAlloc 0 h
  | step_share p : managed lo p → 0 < h p →
      astep lo h (AShare p) 0 (upd h p (h p + 1))
  | step_free p : managed lo p → 0 < h p →
      astep lo h (AFree p) 0 (upd h p (h p - 1)).

(** A client may only share and free pages that are in use; the counter is
    an [int], so a page has fewer than 2^31 users. *)
Definition enabled (lo : Z) (h : Z → Z) (o : op) : Prop :=
  match o with
  | AAlloc => True
  | AShare p => managed lo p ∧ 0 < h p < 2^31 - 1
  | AFree p => managed lo p ∧ 0 < h p
  end.

(** The code behind each operation. *)
Definition run (o : op) : M kst Z :=
  match o with
  | AAlloc => kalloc
  | AShare p => incref p ;;; ret 0
  | AFree p => kfree p ;;; ret 0
  end.

(** The abstraction relation. *)
Definition abs (lo : Z) (s : kst) (h : Z → Z) : Prop :=
  (∃ fl, kinv lo s fl) ∧ ∀ p, managed lo p → nump s (p / PGSIZE) = h p.

Lemma abs_upd lo s s' h p v fl :
  abs lo s h → managed lo p → kinv lo s' fl →
  nump_using s' = <[p / PGSIZE := v]> (nump_using s) → abs lo s' (upd h p v).
Proof.
  intros [_ Habs] Hp Hk Hn. split; [by exists fl|]. intros q Hq.
  unfold upd, nump. rewrite Hn. destruct (Z.eqb_spec q p) as [->|Hne].
  - by rewrite lookup_insert_eq.
  - rewrite lookup_insert_ne; [by apply Habs|].
    intros He. apply Hne. by eapply managed_idx_inj.
Qed.

Lemma run_refines lo s h o :
  abs lo s h → enabled lo h o →
  wp (run o) (λ r s', ∃ h', astep lo h o r h' ∧ abs lo s' h') s.
Proof.
  intros Habs Hen. pose proof Habs as [[fl Hk] Hh].
  destruct o as [|p|p]; simpl in *.
  - eapply wp_mono; [|by apply kalloc_spec]. intros r s' H.
    destruct fl as [|p fl'].
    + destruct H as [-> ->]. exists h. split; [|done]. apply step_full.
      intros p Hp. rewrite <- (Hh p Hp). rewrite (ki_free _ _ _ Hk p Hp).
      by intros ?%elem_of_nil.
    + destruct H as (-> & Hk' & Hn & _).
      assert (managed lo p) as Hp by (apply Hk; by left).
      exists (upd h p 1). split; [|by eapply abs_upd]. apply step_alloc; [done|].
      rewrite <- (Hh p Hp). apply (ki_free _ _ _ Hk p Hp). by left.
  - destruct Hen as [Hp Hc]. wp_simp.
    assert (p ∉ fl) as Hnin by (rewrite <- (ki_free _ _ _ Hk p Hp), Hh by done; lia).
    eapply wp_mono; [|apply (incref_spec lo s fl); [done..|rewrite Hh by done; lia]].
    cbv beta. intros _ s' [-> Hk']. wp_simp.
    exists (upd h p (h p + 1)). split; [by apply step_share; [|lia]|].
    eapply abs_upd; [done..|]. simpl. by rewrite Hh.
  - destruct Hen as [Hp Hc]. wp_simp.
    assert (p ∉ fl) as Hnin by (rewrite <- (ki_free _ _ _ Hk p Hp), Hh by done; lia).
    eapply wp_mono; [|by apply kfree_spec]. cbv beta zeta.
    intros _ s' (Hn & Hk' & _). wp_simp.
    exists (upd h p (h p - 1)). split; [by apply step_free|].
    eapply abs_upd; [done..|]. by rewrite Hn, Hh.
Qed.

(** Any sequence of operations a client is allowed to make. *)
Inductive asteps (lo : Z) : (Z → Z) → list (op * Z) → (Z → Z) → Prop :=
  | asteps_nil h : asteps lo h [] h
  | asteps_cons h o r h' tr h'' :
      astep lo h o r h' → asteps lo h' tr h'' → asteps lo h ((o, r) :: tr) h''.

(** A client script chooses each operation from the results so far. *)
Fixpoint run_script (n : nat) (script : list (op * Z) → op) (tr : list (op * Z))
  : M kst (list (op * Z)) :=
  match n with
  | O => ret []
  | S n =>
      let o := script tr in
      let* r := run o in
      let* rest := run_script n script (tr ++ [(o, r)]) in
      ret ((o, r) :: rest)
  end.

(** The script only makes allowed calls, whatever the allocator answered. *)
Definition well_behaved (lo : Z) (h0 : Z → Z) (script : list (op * Z) → op) : Prop :=
  ∀ tr h, asteps lo h0 tr h → enabled lo h (script tr).

Lemma asteps_snoc lo h0 tr h o r h' :
  asteps lo h0 tr h → astep lo h o r h' → asteps lo h0 (tr ++ [(o, r)]) h'.
Proof.
  induction 1 as [|h1 o1 r1 h1' tr1 h1'' H1 _ IH]; intros Hs; simpl.
  - eapply asteps_cons; [done|constructor].
  - eapply asteps_cons; [done|]. by apply IH.
Qed.

Lemma run_script_refines lo h0 script n tr h s :
  well_behaved lo h0 script → asteps lo h0 tr h → abs lo s h →
  wp (run_script n script tr) (λ tr' s', ∃ h', asteps lo h tr' h' ∧ abs lo s' h') s.
Proof.
  intros Hwb. revert tr h s. induction n as [|n IH]; intros tr h s Htr Habs; simpl.
  { wp_simp. exists h. split; [constructor|done]. }
  wp_simp. eapply wp_mono; [|apply run_refines; [done|by apply Hwb]].
  intros r s1 (h1 & Hs1 & Habs1). wp_simp.
  eapply wp_mono; [|apply (IH _ h1); [by eapply asteps_snoc|done]].
  intros tr' s2 (h2 & Hs2 & Habs2). wp_simp.
  exists h2. split; [by eapply asteps_cons|done].
Qed.
End AbsAlloc.

(** C7: Refinement: the free list and the counters of kalloc.c implement the
    abstract reference counter.  From a state that represents the counts
    [h], every sequence of allowed calls of any client returns (no fault, no
    panic), and its answers are a run of the abstract counter: a page handed
    out had no user, a call fails only when every page has a user. *)
Theorem kalloc_refines_refcount lo h s script n :
  AbsAlloc.abs lo s h → AbsAlloc.well_behaved lo h script →
  wp (AbsAlloc.run_script n script [])
     (λ tr s', ∃ h', AbsAlloc.asteps lo h tr h' ∧ AbsAlloc.abs lo s' h') s.
Proof.
  intros Habs Hwb. eapply AbsAlloc.run_script_refines; [done|constructor|done].
Qed.

(** ** A concrete allocator state

    [demo_kst k]: the last [k] pages of RAM are free.  Used to evaluate the
    definitions on concrete inputs. *)

Module Demo.
Definition page (i : nat) : Z := PHYSTOP - PGSIZE * (Z.of_nat i + 1).
Fixpoint pages (k : nat) : list Z :=
  match k with O => [] | S k => page k :: pages k end.
Definition head (k : nat) : Z := match k with O => 0 | S k => page k end.
Fixpoint chain (k : nat) : memory :=
  match k with O => ∅ | S k => store64 (chain k) (page k) (head k) end.
Definition demo_kst (k : nat) : kst := KSt (chain k) (head k) ∅.
Definition lo (k : nat) : Z := PHYSTOP - PGSIZE * Z.of_nat k.

Lemma elem_pages k p : p ∈ pages k ↔ ∃ i, (i < k)%nat ∧ p = page i.
Proof.
  induction k as [|k IH]; simpl.
  - split; [by intros ?%elem_of_nil|]. intros (i & ? & _). lia.
  - rewrite elem_of_cons, IH. split.
    + intros [->|(i & ? & ->)]; [exists k|exists i]; (split; [lia|done]).
    + intros (i & Hi & ->). destruct (decide (i = k)) as [->|]; [by left|].
      right. exists i. split; [lia|done].
Qed.

Lemma page_lt i j : (i < j)%nat → page j + PGSIZE ≤ page i.
Proof. unfold page, PGSIZE. lia. Qed.

Lemma chain_bytes k : mem_bytes (chain k).
Proof.
  induction k as [|k IH]; simpl; [by intros a; vm_compute|].
  by apply mem_bytes_store64.
Qed.

Lemma chain_linked j k :
  (k ≤ 1000)%nat → (j ≤ k)%nat → free_chain (chain k) (head j) (pages j).
Proof.
  intros Hk. induction j as [|j IH]; intros Hj; simpl; [done|].
  split; [done|].
  assert (load64 (chain k) (page j) = head j) as ->; [|apply IH; lia].
  clear IH. induction k as [|k IHk]; [lia|]. simpl.
  destruct (decide (j = k)) as [->|].
  - apply load64_store64_eq. destruct k as [|k]; simpl; [lia|].
    unfold page, PHYSTOP, KERNBASE, PGSIZE. lia.
  - rewrite load64_store64_ne; [apply IHk; lia|].
    assert (page k + PGSIZE ≤ page j) as H by (apply page_lt; lia).
    unfold PGSIZE in H. lia.
Qed.

Lemma demo_kinv k : (k ≤ 1000)%nat → kinv (lo k) (demo_kst k) (pages k).
Proof.
  intros Hk. split; simpl.
  - apply chain_bytes.
  - by apply chain_linked.
  - clear Hk. induction k as [|k IH]; simpl; [constructor|].
    apply list.NoDup_cons. split; [|done]. intros (i & Hi & He)%elem_pages.
    apply page_lt in Hi. unfold PGSIZE in *. lia.
  - intros p (i & Hi & ->)%elem_pages.
    unfold managed, lo, page, PHYSTOP, KERNBASE, PGSIZE. dlia.
  - intros p Hp. unfold nump; simpl. rewrite lookup_empty. simpl. lia.
  - intros p (Hl & _ & Hs & Ha). unfold nump; simpl. rewrite lookup_empty. simpl.
    split; [|done]. intros _. apply elem_pages.
    exists (Z.to_nat ((PHYSTOP - p) / PGSIZE - 1)).
    unfold lo, page, PHYSTOP, KERNBASE, PGSIZE in *. split; dlia.
Qed.
End Demo.

Lemma kalloc_refines_refcount_witness :
  wp (AbsAlloc.run_script 3 (λ _, AbsAlloc.AAlloc) [])
     (λ tr s', ∃ h', AbsAlloc.asteps (Demo.lo 2) (λ _, 0) tr h' ∧
                     AbsAlloc.abs (Demo.lo 2) s' h') (Demo.demo_kst 2).
Proof.
  apply (kalloc_refines_refcount (Demo.lo 2) (λ _, 0) (Demo.demo_kst 2)).
  - split; [exists (Demo.pages 2); apply Demo.demo_kinv; lia|]. by intros p _.
  - by intros tr h _.
Defined.

(** The same run, evaluated: two pages, then out of memory. *)
Example kalloc_demo :
  wp (AbsAlloc.run_script 3 (λ _, AbsAlloc.AAlloc) [])
     (λ tr _, tr.*2 = [PHYSTOP - 2 * PGSIZE; PHYSTOP - PGSIZE; 0]) (Demo.demo_kst 2).
Proof. by vm_compute. Qed.
