(* ===== verification/Vm.v ===== *)
(** * Virtual memory (kernel/vm.c)

    Page tables live in physical memory as the hardware sees them: every
    function below reads and writes 64-bit entries of 4096-byte pages.  A
    pointer is its address, 0 is the null pointer, and the C result [-1] is
    the integer -1.  Kernel-side buffers that the C code passes as [char *]
    are byte lists.  The facts about these functions are in VmTree.v and the
    files after it. *)

From Stdlib Require Import ZArith Lia.
From stdpp Require Import base numbers list gmap strings tactics.
From S2P Require Import Prelude Riscv Mem Kalloc.

Local Open Scope Z_scope.

(** A loop over page addresses takes at most one step per 64-bit page. *)
Definition page_fuel : positive := 2^53.

(** [for(i = from; i < from + n; i++) body] *)
Fixpoint for_up {S} (n : nat) (from : Z) (body : Z → M S unit) : M S unit :=
  match n with
  | O => ret tt
  | S n => body from ;;; for_up n (from + 1) body
  end.

(** Bytes between a kernel buffer and physical memory. *)
Fixpoint store_bytes (m : memory) (a : Z) (l : list Z) : memory :=
  match l with
  | [] => m
  | c :: l => store_bytes (store8 m a c) (a + 1) l
  end.
Fixpoint load_bytes (m : memory) (a : Z) (n : nat) : list Z :=
  match n with
  | O => []
  | S n => load8 m a :: load_bytes m (a + 1) n
  end.
Definition wr_bytes (a : Z) (l : list Z) : M kst unit := λ s,
  if ram_range a (Z.of_nat (length l))
  then Ret (tt, set_mem (λ m, store_bytes m a l) s) else Fault "store".
Definition rd_bytes (a : Z) (n : nat) : M kst (list Z) := λ s,
  if ram_range a (Z.of_nat n) then Ret (load_bytes (mem s) a n, s) else Fault "load".

(** ** Walking a page table *)

Fixpoint walk_loop (level : nat) (pagetable va : Z) (alloc : bool) : M kst Z :=
  match level with
  | O => ret (pagetable + 8 * PX 0 va)
  | S level' =>
      let pte := pagetable + 8 * PX (Z.of_nat level) va in
      let* e := rd64 pte in
      if has e PTE_V then walk_loop level' (PTE2PA e) va alloc
      else if negb alloc then ret 0
      else
        let* pagetable := kalloc in
        if pagetable =? 0 then ret 0
        else
          kmemset pagetable 0 PGSIZE ;;;
          wr64 pte (Z.lor (PA2PTE pagetable) PTE_V) ;;;
          walk_loop level' pagetable va alloc
  end.

Definition walk (pagetable va : Z) (alloc : bool) : M kst Z :=
  if MAXVA <=? va then panic "walk" else walk_loop 2 pagetable va alloc.

Definition walkaddr (pagetable va : Z) : M kst Z :=
  if MAXVA <=? va then ret 0
  else
    let* pte := walk pagetable va false in
    if pte =? 0 then ret 0
    else
      let* e := rd64 pte in
      if negb (has e PTE_V) then ret 0
      else if negb (has e PTE_U) then ret 0
      else ret (PTE2PA e).

(** ** Mapping and unmapping *)

Definition mappages (pagetable va size pa perm : Z) : M kst Z :=
  if size =? 0 then panic "mappages: size"
  else
    let a := PGROUNDDOWN va in
    let last := PGROUNDDOWN (u64 (va + size - 1)) in
    loop page_fuel (λ '(a, pa),
      let* pte := walk pagetable a true in
      if pte =? 0 then ret (inr (-1))
      else
        let* e := rd64 pte in
        if has e PTE_V then panic "mappages: remap"
        else
          wr64 pte (Z.lor (Z.lor (PA2PTE pa) perm) PTE_V) ;;;
          if a =? last then ret (inr 0)
          else ret (inl (u64 (a + PGSIZE), u64 (pa + PGSIZE)))) (a, pa).

Definition kvmmap (kpgtbl va pa sz perm : Z) : M kst unit :=
  let* r := mappages kpgtbl va sz pa perm in
  if negb (r =? 0) then panic "kvmmap" else ret tt.

Definition uvmunmap (pagetable va npages : Z) (do_free : bool) : M kst unit :=
  if negb (va mod PGSIZE =? 0) then panic "uvmunmap: not aligned"
  else
    loop page_fuel (λ a,
      if a <? u64 (va + u64 (npages * PGSIZE)) then
        let* pte := walk pagetable a false in
        if pte =? 0 then panic "uvmunmap: walk"
        else
          let* e := rd64 pte in
          if negb (has e PTE_V) then panic "uvmunmap: not mapped"
          else if PTE_FLAGS e =? PTE_V then panic "uvmunmap: not a leaf"
          else
            (if do_free then kfree (PTE2PA e) else ret tt) ;;;
            wr64 pte 0 ;;;
            ret (inl (u64 (a + PGSIZE)))
      else ret (inr tt)) va.

Definition uvmcreate : M kst Z :=
  let* pagetable := kalloc in
  if pagetable =? 0 then ret 0
  else kmemset pagetable 0 PGSIZE ;;; ret pagetable.

(** [src] holds the [sz] bytes of the program. *)
Definition uvmfirst (pagetable : Z) (src : list Z) : M kst unit :=
  let sz := Z.of_nat (length src) in
  if PGSIZE <=? sz then panic "uvmfirst: more than a page"
  else
    let* mem := kalloc in
    kmemset mem 0 PGSIZE ;;;
    mappages pagetable 0 PGSIZE mem
      (Z.lor (Z.lor (Z.lor PTE_W PTE_R) PTE_X) PTE_U) ;;;
    wr_bytes mem src.

Definition uvmdealloc (pagetable oldsz newsz : Z) : M kst Z :=
  if oldsz <=? newsz then ret oldsz
  else
    (if PGROUNDUP newsz <? PGROUNDUP oldsz then
       let npages := s32 ((PGROUNDUP oldsz - PGROUNDUP newsz) / PGSIZE) in
       uvmunmap pagetable (PGROUNDUP newsz) (u64 npages) true
     else ret tt) ;;;
    ret newsz.

Definition uvmalloc (pagetable oldsz newsz xperm : Z) : M kst Z :=
  if newsz <? oldsz then ret oldsz
  else
    let oldsz := PGROUNDUP oldsz in
    loop page_fuel (λ a,
      if a <? newsz then
        let* mem := kalloc in
        if mem =? 0 then
          uvmdealloc pagetable a oldsz ;;; ret (inr 0)
        else
          kmemset mem 0 PGSIZE ;;;
          let* r := mappages pagetable a PGSIZE mem (Z.lor (Z.lor PTE_R PTE_U) xperm) in
          if negb (r =? 0) then
            kfree mem ;;; uvmdealloc pagetable a oldsz ;;; ret (inr 0)
          else ret (inl (u64 (a + PGSIZE)))
      else ret (inr newsz)) oldsz.

(** [depth] bounds the recursion; a page table has three levels. *)
Fixpoint freewalk (depth : nat) (pagetable : Z) : M kst unit :=
  match depth with
  | O => λ _, NoFuel
  | S depth =>
      for_up 512 0 (λ i,
        let* pte := rd64 (pagetable + 8 * i) in
        if has pte PTE_V && (Z.land pte (Z.lor (Z.lor PTE_R PTE_W) PTE_X) =? 0) then
          let child := PTE2PA pte in
          freewalk depth child ;;;
          wr64 (pagetable + 8 * i) 0
        else if has pte PTE_V then panic "freewalk: leaf"
        else ret tt) ;;;
      kfree pagetable
  end.

Definition uvmfree (pagetable sz : Z) : M kst unit :=
  (if 0 <? sz then uvmunmap pagetable 0 (PGROUNDUP sz / PGSIZE) true else ret tt) ;;;
  freewalk 3 pagetable.

(** ** Copy-on-write *)

Definition uvmcopy (old new sz : Z) : M kst Z :=
  loop page_fuel (λ i,
    if i <? sz then
      let* pte := walk old i false in
      if pte =? 0 then panic "uvmcopy: pte should exist"
      else
        let* e := rd64 pte in
        if negb (has e PTE_V) then panic "uvmcopy: page not present"
        else
          let pa := PTE2PA e in
          let flags := PTE_FLAGS e in
          let* flags :=
            if has flags PTE_W then
              let flags := Z.lor (Z.land flags (Z.lnot PTE_W)) PTE_COW in
              wr64 pte (Z.lor (PA2PTE pa) flags) ;;; ret flags
            else ret flags in
          let* r := mappages new i PGSIZE pa flags in
          if negb (r =? 0) then
            uvmunmap new 0 (i / PGSIZE) true ;;; ret (inr (-1))
          else
            incref pa ;;;
            ret (inl (u64 (i + PGSIZE)))
    else ret (inr 0)) 0.

Definition removecopy (pt va sz : Z) : M kst Z :=
  let va := PGROUNDDOWN va in
  if MAXVA <=? va then ret 1
  else if negb (sz =? 0) && ((u64 (sz - PGSIZE) <? va) && (va <? sz)) then ret 1
  else
    let* pte := walk pt va false in
    let* e := rd64 pte in
    if negb (has e PTE_V) || negb (has e PTE_COW) then ret 1
    else
      let flags := PTE_FLAGS e in
      let flags := Z.land flags (Z.lnot PTE_COW) in
      let flags := Z.lor flags PTE_W in
      let* mem := kalloc in
      if mem =? 0 then panic "removecopy: kalloc error"
      else
        let* e := rd64 pte in
        let pa := PTE2PA e in
        kmemmove mem pa PGSIZE ;;;
        wr64 pte (Z.lor (PA2PTE mem) flags) ;;;
        kfree pa ;;;
        ret 0.

Definition uvmclear (pagetable va : Z) : M kst unit :=
  let* pte := walk pagetable va false in
  if pte =? 0 then panic "uvmclear"
  else
    let* e := rd64 pte in
    wr64 pte (Z.land e (Z.lnot PTE_U)).

(** ** Copying between user and kernel *)

(** [src] holds the [len] bytes to copy out. *)
Definition copyout (pagetable dstva : Z) (src : list Z) : M kst Z :=
  loop (Pos.of_succ_nat (length src)) (λ '(dstva, src),
    match src with
    | [] => ret (inr 0)
    | _ =>
        let len := Z.of_nat (length src) in
        let va0 := PGROUNDDOWN dstva in
        let* pa0 := walkaddr pagetable va0 in
        if pa0 =? 0 then ret (inr (-1))
        else
          let* pte := walk pagetable va0 false in
          let* e := rd64 pte in
          let* pa0 :=
            if has e PTE_COW then
              removecopy pagetable va0 0 ;;;
              walkaddr pagetable va0
            else ret pa0 in
          let n := PGSIZE - (dstva - va0) in
          let n := if len <? n then len else n in
          wr_bytes (pa0 + (dstva - va0)) (take (Z.to_nat n) src) ;;;
          ret (inl (u64 (va0 + PGSIZE), drop (Z.to_nat n) src))
    end) (dstva, src).

(** The result is the C result and the bytes written to [dst]. *)
Definition copyin (pagetable srcva len : Z) : M kst (Z * list Z) :=
  loop (Pos.of_succ_nat (Z.to_nat len)) (λ '(dst, srcva, len),
    if 0 <? len then
      let va0 := PGROUNDDOWN srcva in
      let* pa0 := walkaddr pagetable va0 in
      if pa0 =? 0 then ret (inr (-1, dst))
      else
        let n := PGSIZE - (srcva - va0) in
        let n := if len <? n then len else n in
        let* bs := rd_bytes (pa0 + (srcva - va0)) (Z.to_nat n) in
        ret (inl (dst ++ bs, u64 (va0 + PGSIZE), len - n))
    else ret (inr (0, dst))) ([], srcva, len).

(** The inner loop of [copyinstr] over the [n] bytes at [p]: what it appends
    to [dst], and whether it met the NUL. *)
Fixpoint copy_until_nul (n : nat) (m : memory) (p : Z) : list Z * bool :=
  match n with
  | O => ([], false)
  | S n =>
      if load8 m p =? 0 then ([0], true)
      else let '(l, b) := copy_until_nul n m (p + 1) in (load8 m p :: l, b)
  end.

Definition copyinstr (pagetable srcva max : Z) : M kst (Z * list Z) :=
  loop (Pos.of_succ_nat (Z.to_nat max)) (λ '(dst, srcva, max, got_null),
    if negb got_null && (0 <? max) then
      let va0 := PGROUNDDOWN srcva in
      let* pa0 := walkaddr pagetable va0 in
      if pa0 =? 0 then ret (inr (-1, dst))
      else
        let n := PGSIZE - (srcva - va0) in
        let n := if max <? n then max else n in
        let* s := get in
        if negb (ram_range (pa0 + (srcva - va0)) n) then fault "load"
        else
          let '(l, b) := copy_until_nul (Z.to_nat n) (mem s) (pa0 + (srcva - va0)) in
          ret (inl (dst ++ l, u64 (va0 + PGSIZE),
                    (if b then max - Z.of_nat (length l) + 1 else max - n), b))
    else ret (inr (if got_null : bool then 0 else -1, dst)))
    ([], srcva, max, false).

(** ** The kernel's own page table

    [etext] and [trampoline] are symbols of the linker script and of
    trampoline.S. *)

Definition NPROC : nat := 64.

(** [proc_mapstacks] of proc.c: a page for each process's kernel stack. *)
Definition proc_mapstacks (kpgtbl : Z) : M kst unit :=
  for_each (seq 0 NPROC) (λ i,
    let* pa := kalloc in
    if pa =? 0 then panic "kalloc"
    else kvmmap kpgtbl (KSTACK (Z.of_nat i)) pa PGSIZE (Z.lor PTE_R PTE_W)).

Definition kvmmake (etext trampoline : Z) : M kst Z :=
  let UART0 := 0x10000000 in
  let VIRTIO0 := 0x10001000 in
  let PLIC := 0x0c000000 in
  let* kpgtbl := kalloc in
  kmemset kpgtbl 0 PGSIZE ;;;
  kvmmap kpgtbl UART0 UART0 PGSIZE (Z.lor PTE_R PTE_W) ;;;
  kvmmap kpgtbl VIRTIO0 VIRTIO0 PGSIZE (Z.lor PTE_R PTE_W) ;;;
  kvmmap kpgtbl PLIC PLIC 0x400000 (Z.lor PTE_R PTE_W) ;;;
  kvmmap kpgtbl KERNBASE KERNBASE (etext - KERNBASE) (Z.lor PTE_R PTE_X) ;;;
  kvmmap kpgtbl etext etext (PHYSTOP - etext) (Z.lor PTE_R PTE_W) ;;;
  kvmmap kpgtbl TRAMPOLINE trampoline PGSIZE (Z.lor PTE_R PTE_X) ;;;
  proc_mapstacks kpgtbl ;;;
  ret kpgtbl.
(** The value of [kernel_pagetable]. *)
Definition kvminit (etext trampoline : Z) : M kst Z := kvmmake etext trampoline.
