(* ===== verification/VmTree.v ===== *)
(** * Page tables as trees

    The data structure that [walk] traverses, as a mathematical object: a
    finite map from (level, key) to the page that holds that node, and a
    finite map from virtual page numbers to leaf entries.  [pt_repr] says
    that memory holds such a tree; the specification of [walk] relates the C
    traversal to lookups in these two maps. *)

From Stdlib Require Import ZArith Lia.
From stdpp Require Import base numbers list gmap strings tactics.
From S2P Require Import Prelude Riscv Mem Kalloc Vm.

Local Open Scope Z_scope.

Record ptree := PT {
  nodes : gmap (nat * Z) Z;   (** (level, key) to the page of the node *)
  leaf : gmap Z Z;            (** virtual page number to level-0 entry *)
}.

Definition set_leaf (v e : Z) (t : ptree) : ptree := PT (nodes t) (<[v := e]> (leaf t)).

Definition node_page (t : ptree) (q : Z) : Prop := ∃ n, nodes t !! n = Some q.

(** The entry of index [j] at level [l]; [j] counts entries from address 0. *)
Definition dirent (o : option Z) : Z :=
  match o with Some p => Z.lor (PA2PTE p) PTE_V | None => 0 end.
Definition entry (t : ptree) (l : nat) (j : Z) : Z :=
  match l with
  | O => default 0 (leaf t !! j)
  | S l' => dirent (nodes t !! (l', j))
  end.

(** The key of the level-[l] node on the path to [va]. *)
Definition key (l : nat) (va : Z) : Z := va / 2^(12 + 9 * (Z.of_nat l + 1)).
Definition vpn (va : Z) : Z := va / PGSIZE.

Record pt_ok (lo root : Z) (t : ptree) : Prop := PtOk {
  po_root : nodes t !! (2%nat, 0) = Some root;
  po_keys : ∀ l k p, nodes t !! (l, k) = Some p →
    (l ≤ 2)%nat ∧ 0 ≤ k ∧ (l = 2%nat → k = 0);
  po_parent : ∀ l k p, nodes t !! (l, k) = Some p → (l < 2)%nat →
    is_Some (nodes t !! (S l, k / 512));
  po_leaf : ∀ v e, leaf t !! v = Some e →
    0 ≤ v < 2^26 ∧ 0 ≤ e < 2^64 ∧ is_Some (nodes t !! (0%nat, v / 512));
  po_inj : ∀ n1 n2 p, nodes t !! n1 = Some p → nodes t !! n2 = Some p → n1 = n2;
  po_managed : ∀ n p, nodes t !! n = Some p → managed lo p;
}.

Definition pt_mem (m : memory) (t : ptree) : Prop :=
  ∀ l k p i, nodes t !! (l, k) = Some p → 0 ≤ i < 512 →
    load64 m (p + 8 * i) = entry t l (512 * k + i).

(** Memory holds the tree [t] rooted at [root], and each node has one user. *)
Record pt_repr (lo : Z) (s : kst) (root : Z) (t : ptree) : Prop := PtRepr {
  pr_ok : pt_ok lo root t;
  pr_mem : pt_mem (mem s) t;
  pr_own : ∀ q, node_page t q → nump s (q / PGSIZE) = 1;
}.

(** [t'] is [t] with more nodes, taken from the free pages [fl]. *)
Record pt_grow (fl : list Z) (t t' : ptree) : Prop := PtGrow {
  pg_nodes : nodes t ⊆ nodes t';
  pg_pages : ∀ q, node_page t' q → node_page t q ∨ q ∈ fl;
}.

(** ** Frames

    What an operation may change: free pages and the pages of [T]. *)
Record kframe (T : Z → Prop) (s : kst) (fl : list Z) (s' : kst) (fl' : list Z) : Prop := KFrame {
  kf_free : ∀ q, q ∈ fl' → q ∈ fl ∨ T q;
  kf_mem : ∀ q a, q mod PGSIZE = 0 → q ∉ fl → ¬ T q → in_page q a →
    load8 (mem s') a = load8 (mem s) a;
  kf_nump : ∀ q, q mod PGSIZE = 0 → q ∉ fl → ¬ T q →
    nump s' (q / PGSIZE) = nump s (q / PGSIZE);
}.

Definition no_page : Z → Prop := λ _, False.

Lemma kframe_refl T s fl : kframe T s fl s fl.
Proof. split; auto. Qed.

Lemma kframe_trans T1 T2 s1 f1 s2 f2 s3 f3 (T : Z → Prop) :
  kframe T1 s1 f1 s2 f2 → kframe T2 s2 f2 s3 f3 →
  (∀ q, T1 q → T q) → (∀ q, T2 q → T q ∨ q ∈ f1) → kframe T s1 f1 s3 f3.
Proof.
  intros [F1 M1 N1] [F2 M2 N2] H1 H2. split.
  - intros q Hq. destruct (F2 q Hq) as [?|?]; [destruct (F1 q); auto|].
    destruct (H2 q); auto.
  - intros q a Ha Hnf Hnt Hin.
    assert (q ∉ f2) by (intros ?; destruct (F1 q); auto).
    rewrite (M2 q); [|done..|intros ?; destruct (H2 q); auto|done].
    rewrite (M1 q); auto.
  - intros q Ha Hnf Hnt.
    assert (q ∉ f2) by (intros ?; destruct (F1 q); auto).
    rewrite (N2 q); [|done..|intros ?; destruct (H2 q); auto].
    apply N1; auto.
Qed.

Lemma kframe_mono (T T' : Z → Prop) s fl s' fl' :
  (∀ q, T q → T' q ∨ q ∈ fl) → kframe T s fl s' fl' → kframe T' s fl s' fl'.
Proof.
  intros H [F Mm N]. split.
  - intros q Hq. destruct (F q Hq) as [|?]; [auto|]. destruct (H q); auto.
  - intros q a ????. apply (Mm q); auto. intros ?; destruct (H q); auto.
  - intros q ???. apply N; auto. intros ?; destruct (H q); auto.
Qed.

(** Writing in a page [p] of [T] that is not free. *)
Lemma kframe_write (T : Z → Prop) lo s fl p f :
  kinv lo s fl → managed lo p → p ∉ fl → T p →
  (∀ a, ¬ in_page p a → load8 (f (mem s)) a = load8 (mem s) a) →
  mem_bytes (f (mem s)) →
  kframe T s fl (set_mem f s) fl ∧ kinv lo (set_mem f s) fl.
Proof.
  intros Hk Hp Hnin HT Hf Hb. split.
  - split; [auto| |done]. intros q a Hq Hnf HnT Hin. simpl. apply Hf. intros Hpa.
    assert (p = q) as -> by (eapply pages_disjoint; [apply Hp|..]; done). done.
  - eapply kinv_frame; [done|done| |done..]. intros q a Hq Hin. simpl. apply Hf.
    intros Hpa. assert (p = q) as ->; [|done].
    eapply pages_disjoint; [apply Hp|by apply (ki_managed _ _ _ Hk)|done..].
Qed.

(** The allocator's specifications in terms of frames. *)
Lemma kalloc_frame lo s fl :
  kinv lo s fl →
  wp kalloc (λ r s',
    (r = 0 ∧ fl = [] ∧ s' = s) ∨
    (∃ fl', fl = (r :: fl') ∧ kinv lo s' fl' ∧ kframe no_page s fl s' fl' ∧
            managed lo r ∧ (r ∉ fl') ∧
            nump s' (r / PGSIZE) = 1)) s.
Proof.
  intros Hk. eapply wp_mono; [|by apply kalloc_spec].
  intros r s' H. destruct fl as [|p fl']; [by left; destruct H as [-> ->]|right].
  destruct H as (-> & Hk' & Hn & Hs & _). exists fl'.
  assert (managed lo p) as Hp by (apply (ki_managed _ _ _ Hk); by left).
  split; [done|]. split; [done|]. split; [|split; [done|split]].
  - split.
    + intros q Hq. left. by right.
    + intros q a Hq Hnf _ Hin. apply Hs. intros p' ->%list_elem_of_singleton Hin'.
      assert (p = q) as -> by (eapply pages_disjoint; [apply Hp|done..]).
      apply Hnf. by left.
    + intros q Hq Hnf _. unfold nump. rewrite Hn, lookup_insert_ne; [done|].
      intros He. apply Hnf, elem_of_cons. left. destruct Hp as (_&_&_&Hp).
      unfold PGSIZE in *. dlia.
  - pose proof (ki_nodup _ _ _ Hk) as Hnd. by apply list.NoDup_cons in Hnd as [? _].
  - unfold nump. by rewrite Hn, lookup_insert_eq.
Qed.

Lemma kfree_frame lo s fl p :
  kinv lo s fl → managed lo p → p ∉ fl →
  wp (kfree p) (λ _ s', ∃ fl',
    kinv lo s' fl' ∧ kframe (λ q, q = p) s fl s' fl' ∧
    nump s' (p / PGSIZE) = nump s (p / PGSIZE) - 1 ∧
    (nump s (p / PGSIZE) = 1 → fl' = p :: fl) ∧
    (nump s (p / PGSIZE) ≠ 1 → fl' = fl ∧ ∀ a, load8 (mem s') a = load8 (mem s) a)) s.
Proof.
  intros Hk Hp Hnin. eapply wp_mono; [|by apply kfree_spec].
  cbv beta zeta. intros _ s' (Hn & Hk' & Hs). eexists. split; [done|].
  split; [|split; [|split]].
  - split.
    + intros q. destruct (_ =? 1); [|auto]. intros [->|?]%elem_of_cons; auto.
    + intros q a Hq Hnf Hne Hin. apply Hs. intros p'. destruct (_ =? 1).
      * intros ->%list_elem_of_singleton Hin'. apply Hne. symmetry.
        eapply pages_disjoint; [apply Hp|done..].
      * by intros ?%elem_of_nil.
    + intros q Hq Hnf Hne. unfold nump. rewrite Hn, lookup_insert_ne; [done|].
      intros He. apply Hne. destruct Hp as (_&_&_&Hp). unfold PGSIZE in *. dlia.
  - unfold nump. by rewrite Hn, lookup_insert_eq.
  - by intros ->.
  - intros Hne. destruct (Z.eqb_spec (nump s (p / PGSIZE)) 1); [done|].
    split; [done|]. intros a. apply Hs. by intros p' ?%elem_of_nil.
Qed.

(** Sharing a page changes no memory. *)
Lemma incref_frame lo s fl p :
  kinv lo s fl → managed lo p → p ∉ fl → nump s (p / PGSIZE) < 2^31 - 1 →
  wp (incref p) (λ _ s',
    kinv lo s' fl ∧ kframe (λ q, q = p) s fl s' fl ∧ mem s' = mem s ∧
    nump s' (p / PGSIZE) = nump s (p / PGSIZE) + 1) s.
Proof.
  intros Hk Hp Hnin Hlt. eapply wp_mono; [|by apply incref_spec].
  cbv beta. intros _ s' [-> Hk']. split; [done|]. split; [|split; [done|]].
  - split; [auto|done|]. intros q Hq Hnf Hne. rewrite nump_set_nump.
    case_if; [|done]. destruct Hne. destruct Hp as (_&_&_&Hp). unfold PGSIZE in *. dlia.
  - by rewrite nump_set_nump, Z.eqb_refl.
Qed.

(** ** The path of [walk] *)

Lemma key_step l va :
  0 ≤ va → 512 * key (S l) va + PX (Z.of_nat (S l)) va = key l va.
Proof.
  intros Hva. rewrite PX_spec by lia. unfold key.
  replace (12 + 9 * (Z.of_nat (S l) + 1)) with (12 + 9 * (Z.of_nat l + 1) + 9) by lia.
  replace (9 * Z.of_nat (S l)) with (9 * (Z.of_nat l + 1)) by lia.
  rewrite Z.pow_add_r by lia. change (2^9) with 512.
  rewrite <- Zdiv_Zdiv by lia. symmetry. apply Z.div_mod. lia.
Qed.

Lemma key_div l va : 0 ≤ va → key (S l) va = key l va / 512.
Proof.
  intros Hva. rewrite <- (key_step l va Hva).
  pose proof (PX_range (Z.of_nat (S l)) va). dlia.
Qed.

Lemma key_leaf va : 0 ≤ va → 512 * key 0 va + PX 0 va = vpn va.
Proof.
  intros Hva. rewrite PX_spec by lia. unfold key, vpn.
  change (2^(12 + 9 * (Z.of_nat 0 + 1))) with (4096 * 512).
  change (2^(12 + 9 * 0)) with 4096. unfold PGSIZE.
  rewrite <- Zdiv_Zdiv by lia. symmetry. apply Z.div_mod. lia.
Qed.

Lemma key_root va : 0 ≤ va < MAXVA → key 2 va = 0.
Proof.
  intros Hva. unfold key. rewrite MAXVA_val in Hva. apply Z.div_small. simpl Z.of_nat. lia.
Qed.

(** The address [walk] returns for a tree. *)
Definition pte_addr (t : ptree) (va : Z) : Z :=
  match nodes t !! (0%nat, key 0 va) with
  | Some p => p + 8 * PX 0 va
  | None => 0
  end.

Section tree.
Context {lo root : Z} {t : ptree}.

Lemma path_none l va :
  pt_ok lo root t → 0 ≤ va → (l ≤ 2)%nat →
  nodes t !! (l, key l va) = None → nodes t !! (0%nat, key 0 va) = None.
Proof.
  intros Hok Hva. induction l as [|l IH]; intros Hl Hn; [done|].
  apply IH; [lia|]. destruct (nodes t !! (l, key l va)) as [p|] eqn:E; [|done].
  destruct (po_parent _ _ _ Hok l _ _ E) as [q Hq]; [lia|].
  rewrite <- key_div, Hn in Hq by done. done.
Qed.

(** A node that is not there has no children. *)
Lemma entry_no_node l k i :
  pt_ok lo root t → 0 ≤ i < 512 → (l ≤ 2)%nat →
  nodes t !! (l, k) = None → entry t l (512 * k + i) = 0.
Proof.
  intros Hok Hi Hl Hn. assert ((512 * k + i) / 512 = k) as Hk by dlia.
  destruct l as [|l]; simpl.
  - destruct (leaf t !! (512 * k + i)) as [e|] eqn:E; [|done].
    destruct (po_leaf _ _ _ Hok _ _ E) as (_ & _ & [p Hp]).
    rewrite Hk, Hn in Hp. done.
  - destruct (nodes t !! (l, 512 * k + i)) as [p|] eqn:E; [|done].
    destruct (po_parent _ _ _ Hok _ _ _ E) as [q Hq]; [lia|].
    rewrite Hk, Hn in Hq. done.
Qed.

Lemma dirent_some p : managed lo p → has (dirent (Some p)) PTE_V = true ∧
  PTE2PA (dirent (Some p)) = p.
Proof.
  intros Hp%managed_page_ok. simpl. unfold PTE_V. split.
  - rewrite has_pte_lor by (done || lia). done.
  - rewrite PTE2PA_lor; done.
Qed.

Lemma dirent_range p : managed lo p → 0 ≤ dirent (Some p) < 2^64.
Proof.
  intros Hp. simpl. apply lor_range; [|done|done].
  unfold PA2PTE. apply u64_range.
Qed.

Lemma node_ram n p i :
  pt_ok lo root t → nodes t !! n = Some p → 0 ≤ i < 512 →
  ram_range (p + 8 * i) 8 = true ∧
  (∀ a, p + 8 * i ≤ a < p + 8 * i + 8 → in_page p a).
Proof.
  intros Hok Hn Hi. pose proof (po_managed _ _ _ Hok _ _ Hn) as Hp. split.
  - eapply managed_ram; [done|lia|lia|unfold PGSIZE; lia].
  - intros a Ha. unfold in_page, PGSIZE. lia.
Qed.
End tree.

Lemma node_used lo s fl root t q :
  kinv lo s fl → pt_repr lo s root t → node_page t q → managed lo q ∧ (q ∉ fl).
Proof.
  intros Hk [Hok _ Hown] Hq. pose proof Hq as [n Hn].
  assert (managed lo q) as Hm by by eapply po_managed. split; [done|].
  intros Hin%(ki_free _ _ _ Hk q Hm). rewrite Hown in Hin; [lia|by exists n].
Qed.

(** A tree is unchanged by what happens in other pages. *)
Lemma pt_repr_frame T lo s fl s' fl' root t :
  kinv lo s fl → kframe T s fl s' fl' → (∀ q, node_page t q → ¬ T q) →
  pt_repr lo s root t → pt_repr lo s' root t.
Proof.
  intros Hk [_ Fm Fn] HT Hr. pose proof Hr as [Hok Hmem Hown]. split; [done| |].
  - intros l k p i Hn Hi. rewrite <- (Hmem l k p i Hn Hi).
    destruct (node_ram _ _ _ Hok Hn Hi) as [_ Hin].
    assert (node_page t p) as Hp by by exists (l, k).
    destruct (node_used _ _ _ _ _ _ Hk Hr Hp) as [Hm Hnf].
    apply load64_ext. intros b Hb. apply (Fm p); [apply Hm|done|by apply HT|by apply Hin].
  - intros q Hq. destruct (node_used _ _ _ _ _ _ Hk Hr Hq) as [Hm Hnf].
    rewrite Fn; [by apply Hown|apply Hm|done|by apply HT].
Qed.

(** ** Specification of [walk] *)

Lemma walk_loop_lookup lo s root t va l p :
  pt_repr lo s root t → 0 ≤ va < MAXVA → (l ≤ 2)%nat →
  nodes t !! (l, key l va) = Some p →
  wp (walk_loop l p va false) (λ r s', r = pte_addr t va ∧ s' = s) s.
Proof.
  intros [Hok Hmem _] Hva. revert p. induction l as [|l IH]; intros p Hl Hn.
  { simpl. wp_simp. unfold pte_addr. by rewrite Hn. }
  change (walk_loop (S l) p va false) with
    (let* e := rd64 (p + 8 * PX (Z.of_nat (S l)) va) in
     if has e PTE_V then walk_loop l (PTE2PA e) va false else ret 0).
  pose proof (PX_range (Z.of_nat (S l)) va ltac:(lia)) as Hpx.
  destruct (node_ram _ _ _ Hok Hn Hpx) as [Hram _].
  wp_simp. apply wp_rd64; [done|].
  rewrite (Hmem _ _ _ _ Hn Hpx), key_step by lia. simpl entry.
  destruct (nodes t !! (l, key l va)) as [q|] eqn:E.
  - destruct (dirent_some (lo:=lo) q) as [HV HP]; [by eapply po_managed|].
    rewrite HV, HP. apply IH; [lia|done].
  - simpl. unfold pte_addr. rewrite (path_none l va Hok) by (done || lia). done.
Qed.

Lemma walk_lookup lo s root t va :
  pt_repr lo s root t → 0 ≤ va < MAXVA →
  wp (walk root va false) (λ r s', r = pte_addr t va ∧ s' = s) s.
Proof.
  intros Hr Hva. unfold walk. test_false (MAXVA <=? va).
  eapply walk_loop_lookup; [done..|]. rewrite key_root by done.
  apply Hr.
Qed.

(** The page and index of an existing entry. *)
Lemma pte_addr_entry lo s fl root t va :
  kinv lo s fl → pt_repr lo s root t → 0 ≤ va < MAXVA → pte_addr t va ≠ 0 →
  ∃ p, nodes t !! (0%nat, key 0 va) = Some p ∧ pte_addr t va = p + 8 * PX 0 va ∧
       ram_range (pte_addr t va) 8 = true ∧
       load64 (mem s) (pte_addr t va) = default 0 (leaf t !! vpn va).
Proof.
  intros Hk [Hok Hmem _] Hva. unfold pte_addr.
  destruct (nodes t !! (0%nat, key 0 va)) as [p|] eqn:E; [|done]. intros _.
  pose proof (PX_range 0 va ltac:(lia)) as Hpx.
  destruct (node_ram _ _ _ Hok E Hpx) as [Hram _].
  exists p. split; [done|]. split; [done|]. split; [done|].
  rewrite (Hmem _ _ _ _ E Hpx), key_leaf by lia. done.
Qed.

(** Entries exist for every mapped page. *)
Lemma pte_addr_mapped lo s root t va e :
  pt_repr lo s root t → 0 ≤ va → leaf t !! vpn va = Some e → pte_addr t va ≠ 0.
Proof.
  intros [Hok _ _] Hva Hl. destruct (po_leaf _ _ _ Hok _ _ Hl) as (_ & _ & [p Hp]).
  unfold pte_addr. replace (key 0 va) with (vpn va / 512).
  - rewrite Hp. apply (po_managed _ _ _ Hok) in Hp.
    pose proof (PX_range 0 va ltac:(lia)). unfold managed, KERNBASE in Hp. lia.
  - rewrite <- key_leaf by done. pose proof (PX_range 0 va ltac:(lia)). dlia.
Qed.

(** Two cells of the tree are equal only if node and index are. *)
Lemma cell_inj lo root t n1 p1 i1 n2 p2 i2 :
  pt_ok lo root t → nodes t !! n1 = Some p1 → nodes t !! n2 = Some p2 →
  0 ≤ i1 < 512 → 0 ≤ i2 < 512 →
  (n1 = n2 ∧ i1 = i2) ∨ p1 + 8 * i1 + 8 ≤ p2 + 8 * i2 ∨ p2 + 8 * i2 + 8 ≤ p1 + 8 * i1.
Proof.
  intros Hok H1 H2 Hi1 Hi2. destruct (decide (p1 = p2)) as [<-|Hne].
  - assert (n1 = n2) as <- by by eapply po_inj. destruct (decide (i1 = i2)); [by left|].
    right. lia.
  - right. apply (po_managed _ _ _ Hok) in H1 as (_&_&_&Ha1).
    apply (po_managed _ _ _ Hok) in H2 as (_&_&_&Ha2).
    unfold PGSIZE in *. dlia.
Qed.

(** Storing a leaf entry. *)
Lemma pt_store_leaf lo s fl root t va e :
  kinv lo s fl → pt_repr lo s root t → 0 ≤ va < MAXVA → pte_addr t va ≠ 0 →
  0 ≤ e < 2^64 →
  let s' := set_mem (λ m, store64 m (pte_addr t va) e) s in
  kinv lo s' fl ∧ pt_repr lo s' root (set_leaf (vpn va) e t) ∧
  kframe (node_page t) s fl s' fl.
Proof.
  intros Hk Hr Hva Hne He s'.
  destruct (pte_addr_entry _ _ _ _ _ _ Hk Hr Hva Hne) as (p & Hp & Ha & _ & _).
  pose proof (PX_range 0 va ltac:(lia)) as Hpx. pose proof Hr as [Hok Hmem Hown].
  assert (node_page t p) as Hnp by by exists (0%nat, key 0 va).
  destruct (node_used _ _ _ _ _ _ Hk Hr Hnp) as [Hm Hnf].
  destruct (kframe_write (node_page t) lo s fl p (λ m, store64 m (pte_addr t va) e))
    as [Hfr Hk']; try done.
  { intros a Hna. apply load8_store64_ne. rewrite Ha.
    unfold in_page, PGSIZE in Hna. lia. }
  { apply mem_bytes_store64. apply Hk. }
  split; [done|]. split; [|done]. split; [| |done].
  - destruct Hok as [O1 O2 O3 O4 O5 O6]. split; try done. simpl. intros v e'.
    rewrite lookup_insert. case_decide as Hv; [|apply O4]. intros [= <-]. subst v.
    split; [|split; [done|]].
    + rewrite MAXVA_val in Hva. unfold vpn, PGSIZE. dlia.
    + rewrite <- key_leaf by lia. exists p.
      replace ((512 * key 0 va + PX 0 va) / 512) with (key 0 va) by dlia. done.
  - intros l k q i Hn Hi. simpl in Hn. simpl mem.
    destruct (cell_inj _ _ _ (l, k) q i (0%nat, key 0 va) p (PX 0 va) Hok Hn Hp Hi Hpx)
      as [[[= -> ->] ->]|Hd].
    + assert (q = p) as -> by by rewrite Hn in Hp; injection Hp.
      rewrite Ha, load64_store64_eq by done. simpl. rewrite key_leaf by lia.
      by rewrite lookup_insert_eq.
    + rewrite load64_store64_ne by (rewrite Ha; lia). rewrite (Hmem l k q i Hn Hi).
      destruct l as [|l]; simpl; [|done]. rewrite lookup_insert_ne; [done|].
      rewrite <- key_leaf by lia. intros Heq.
      assert (k = key 0 va ∧ i = PX 0 va) as [-> ->] by lia.
      assert (q = p) as -> by by rewrite Hn in Hp; injection Hp. lia.
Qed.

(** *** Adding a node

    What [walk] does when a directory entry is invalid and [alloc] is set:
    a zeroed page becomes the child. *)

Definition add_node (l : nat) (k q : Z) (t : ptree) : ptree :=
  PT (<[(l, k) := q]> (nodes t)) (leaf t).

Lemma add_node_ok lo root t l k q p :
  pt_ok lo root t → (l < 2)%nat → 0 ≤ k → nodes t !! (S l, k / 512) = Some p →
  nodes t !! (l, k) = None → managed lo q → ¬ node_page t q →
  pt_ok lo root (add_node l k q t).
Proof.
  intros [O1 O2 O3 O4 O5 O6] Hl Hk Hp Hn Hq Hfresh. unfold add_node.
  assert (∀ n, is_Some (nodes t !! n) → is_Some (<[(l, k) := q]> (nodes t) !! n)) as Hmono.
  { intros n Hs. rewrite lookup_insert. by case_decide. }
  split; simpl.
  - rewrite lookup_insert_ne; [done|]. intros [= ->]. lia.
  - intros l' k' p'. rewrite lookup_insert. case_decide as E; [|apply O2].
    injection E as <- <-. intros _. split; [lia|]. split; [done|lia].
  - intros l' k' p'. rewrite lookup_insert. case_decide as E.
    + injection E as <- <-. intros _ _. apply Hmono. by exists p.
    + intros H' Hl'. apply Hmono. by eapply O3.
  - intros v e H'. destruct (O4 v e H') as (?&?&?). auto.
  - intros n1 n2 p'. rewrite !lookup_insert. repeat case_decide.
    + congruence.
    + intros [= ->] H2. destruct Hfresh. by exists n2.
    + intros H1 [= ->]. destruct Hfresh. by exists n1.
    + apply O5.
  - intros n p'. rewrite lookup_insert. case_decide; [by intros [= <-]|apply O6].
Qed.

Lemma add_node_mem lo root t m m' l k q p i :
  pt_ok lo root t → pt_mem m t → (l < 2)%nat → 0 ≤ i < 512 →
  nodes t !! (S l, k) = Some p → nodes t !! (l, 512 * k + i) = None →
  managed lo q → ¬ node_page t q →
  (∀ j, 0 ≤ j < 512 → load64 m' (q + 8 * j) = 0) →
  load64 m' (p + 8 * i) = dirent (Some q) →
  (∀ n r j, nodes t !! n = Some r → 0 ≤ j < 512 → (n, j) ≠ ((S l, k), i) →
     load64 m' (r + 8 * j) = load64 m (r + 8 * j)) →
  pt_mem m' (add_node l (512 * k + i) q t).
Proof.
  intros Hok Hmem Hl Hi Hp Hn Hq Hfresh Hz Hc Hrest l' k' r j Hn' Hj.
  unfold add_node in *. simpl in Hn'. rewrite lookup_insert in Hn'. case_decide as E.
  - injection E as <- <-. injection Hn' as <-. rewrite Hz by done.
    symmetry. rewrite <- (entry_no_node (lo:=lo) (root:=root) (t:=t) l (512 * k + i) j)
      by (done || lia).
    destruct l as [|l]; simpl; [done|]. rewrite lookup_insert_ne; [done|]. intros [= ?]; lia.
  - destruct (decide (((l', k'), j) = ((S l, k), i))) as [E'|E'].
    + injection E' as -> -> ->. assert (r = p) as -> by congruence.
      rewrite Hc. simpl. by rewrite lookup_insert_eq.
    + rewrite (Hrest _ _ _ Hn' Hj E'), (Hmem _ _ _ _ Hn' Hj).
      destruct l' as [|l']; simpl; [done|]. rewrite lookup_insert_ne; [done|].
      intros [= <- Heq]. apply E'.
      assert (k' = k ∧ j = i) as [-> ->] by lia. done.
Qed.

(** The state after the allocation step of [walk]. *)
Lemma pt_add_node lo s fl root t l va p q :
  kinv lo s fl → pt_repr lo s root t → 0 ≤ va < MAXVA → (l < 2)%nat →
  nodes t !! (S l, key (S l) va) = Some p → nodes t !! (l, key l va) = None →
  managed lo q → (q ∉ fl) → nump s (q / PGSIZE) = 1 → ¬ node_page t q →
  let s' := set_mem (λ m, store64 (memset m q 0 PGSIZE)
              (p + 8 * PX (Z.of_nat (S l)) va) (Z.lor (PA2PTE q) PTE_V)) s in
  kinv lo s' fl ∧ pt_repr lo s' root (add_node l (key l va) q t) ∧
  kframe (λ r, r = q ∨ node_page t r) s fl s' fl.
Proof.
  intros Hk Hr Hva Hl Hp Hn Hq Hqf Hq1 Hfresh s'. pose proof Hr as [Hok Hmem Hown].
  pose proof (PX_range (Z.of_nat (S l)) va ltac:(lia)) as Hpx.
  assert (node_page t p) as Hnp by by exists (S l, key (S l) va).
  destruct (node_used _ _ _ _ _ _ Hk Hr Hnp) as [Hpm Hpf].
  assert (p ≠ q) as Hpq by (intros ->; done).
  assert (0 ≤ q ∧ q + PGSIZE < 2^64) as Hqr
    by (destruct Hq as (_&?&?&_); unfold PHYSTOP, KERNBASE in *; lia).
  assert (∀ a, ¬ in_page q a → load8 (memset (mem s) q 0 PGSIZE) a = load8 (mem s) a) as Hms.
  { intros a Ha. rewrite load8_memset by (unfold PGSIZE in *; lia).
    unfold in_page in Ha. by zcases. }
  pose proof (kframe_write (λ r, r = q ∨ node_page t r) lo s fl q
    (λ m, memset m q 0 PGSIZE) Hk Hq Hqf (or_introl eq_refl) Hms
    (mem_bytes_memset _ _ _ _ (ki_bytes _ _ _ Hk))) as [Hf1 Hk1].
  pose proof (kframe_write (λ r, r = q ∨ node_page t r) lo _ fl p
    (λ m, store64 m (p + 8 * PX (Z.of_nat (S l)) va) (Z.lor (PA2PTE q) PTE_V))
    Hk1 Hpm Hpf (or_intror Hnp)) as [Hf2 Hk2].
  { intros a Ha. apply load8_store64_ne. unfold in_page, PGSIZE in Ha. lia. }
  { apply mem_bytes_store64, Hk1. }
  split; [exact Hk2|]. split; [|eapply kframe_trans; [exact Hf1|exact Hf2|by auto..]].
  assert (∀ r j, managed lo r → 0 ≤ j < 512 → r ≠ q →
    ∀ a, r + 8 * j ≤ a < r + 8 * j + 8 → ¬ in_page q a) as Hdis.
  { intros r j Hm Hj Hne a Ha Hin. apply Hne.
    eapply (pages_disjoint r q a); [apply Hm|apply Hq| |done].
    unfold in_page, PGSIZE. lia. }
  assert (0 ≤ key (S l) va) as Hkey by (apply Z.div_pos; lia).
  rewrite <- key_step in Hn |- * by lia. split.
  - apply (add_node_ok lo root t l _ q p Hok Hl); [lia| |exact Hn|exact Hq|exact Hfresh].
    by replace ((512 * key (S l) va + PX (Z.of_nat (S l)) va) / 512)
      with (key (S l) va) by dlia.
  - apply (add_node_mem lo root t (mem s) _ l _ q p _ Hok Hmem Hl Hpx Hp Hn Hq Hfresh);
      simpl mem.
    + intros j Hj. apply load64_zero. intros b Hb. rewrite load8_store64_ne.
      * rewrite load8_memset by (unfold PGSIZE in *; lia).
        test_true (q <=? b). replace (b <? q + PGSIZE) with true; [done|].
        symmetry. apply Z.ltb_lt. unfold PGSIZE. lia.
      * destruct Hpm as (_&_&_&Hpa), Hq as (_&_&_&Hqa). unfold PGSIZE in *. dlia.
    + apply load64_store64_eq. by apply (dirent_range (lo:=lo) q).
    + intros [l1 k1] r j Hn1 Hj Hne.
      assert (managed lo r) as Hrm by by eapply po_managed.
      destruct (cell_inj _ _ _ (l1, k1) r j (S l, key (S l) va) p _ Hok Hn1 Hp Hj Hpx)
        as [[E ->]|Hd]; [destruct Hne; by rewrite E|].
      rewrite load64_store64_ne by lia. apply load64_ext. intros b Hb.
      apply Hms. apply (Hdis r j); [done..| |done]. intros ->. apply Hfresh. by eexists.
  - intros r (n & Hn'). simpl in Hn'. change (nump s' ?x) with (nump s x).
    rewrite lookup_insert in Hn'. case_decide; [by injection Hn' as <-|].
    apply Hown. by exists n.
Qed.

Lemma pt_grow_trans fl1 fl2 t1 t2 t3 :
  pt_grow fl1 t1 t2 → pt_grow fl2 t2 t3 → (∀ q, q ∈ fl2 → q ∈ fl1) → pt_grow fl1 t1 t3.
Proof.
  intros [N1 P1] [N2 P2] H. split; [by etrans|].
  intros q Hq. destruct (P2 q Hq) as [Hq'|?]; [destruct (P1 q Hq')|]; auto.
Qed.

Lemma pt_grow_refl fl t : pt_grow fl t t.
Proof. split; auto. Qed.

(** What a call that may add nodes to the tree [t] leaves behind; [t'] is the
    tree and [fl'] the free list afterwards, a suffix of the one before. *)
Record walk_post (lo root : Z) (s : kst) (fl : list Z) (t : ptree)
    (s' : kst) (fl' : list Z) (t' : ptree) : Prop := WalkPost {
  wk_inv : kinv lo s' fl';
  wk_repr : pt_repr lo s' root t';
  wk_grow : pt_grow fl t t';
  wk_frame : kframe (node_page t) s fl s' fl';
  wk_free : fl' `suffix_of` fl;
}.

Lemma walk_post_refl lo root s fl t :
  kinv lo s fl → pt_repr lo s root t → walk_post lo root s fl t s fl t.
Proof. intros. split; auto using pt_grow_refl, kframe_refl. Qed.

Lemma walk_post_trans lo root s1 f1 t1 s2 f2 t2 s3 f3 t3 :
  walk_post lo root s1 f1 t1 s2 f2 t2 → walk_post lo root s2 f2 t2 s3 f3 t3 →
  walk_post lo root s1 f1 t1 s3 f3 t3.
Proof.
  intros [K1 R1 G1 F1 S1] [K2 R2 G2 F2 S2].
  assert (∀ q, q ∈ f2 → q ∈ f1) as Hsub.
  { intros q Hq. destruct S1 as [pre ->]. apply elem_of_app. auto. }
  split; auto.
  - eapply pt_grow_trans; eauto.
  - eapply kframe_trans; [exact F1|exact F2|auto|]. apply (pg_pages _ _ _ G1).
  - by etrans.
Qed.

Lemma walk_loop_alloc lo root va l : ∀ s fl t p,
  kinv lo s fl → pt_repr lo s root t → 0 ≤ va < MAXVA → (l ≤ 2)%nat →
  nodes t !! (l, key l va) = Some p →
  wp (walk_loop l p va true) (λ r s', ∃ fl' t',
    walk_post lo root s fl t s' fl' t' ∧ leaf t' = leaf t ∧
    (r = 0 ∧ fl' = [] ∨ r ≠ 0 ∧ r = pte_addr t' va)) s.
Proof.
  induction l as [|l IH]; intros s fl t p Hk Hr Hva Hl Hn.
  { simpl. wp_simp. exists fl, t. split; [by apply walk_post_refl|]. split; [done|].
    right. unfold pte_addr. rewrite Hn. split; [|done].
    apply (po_managed _ _ _ (pr_ok _ _ _ _ Hr)) in Hn.
    pose proof (PX_range 0 va ltac:(lia)). unfold managed, KERNBASE in Hn. lia. }
  change (walk_loop (S l) p va true) with
    (let* e := rd64 (p + 8 * PX (Z.of_nat (S l)) va) in
     if has e PTE_V then walk_loop l (PTE2PA e) va true else
     let* pagetable := kalloc in
     if pagetable =? 0 then ret 0
     else
       kmemset pagetable 0 PGSIZE ;;;
       wr64 (p + 8 * PX (Z.of_nat (S l)) va) (Z.lor (PA2PTE pagetable) PTE_V) ;;;
       walk_loop l pagetable va true).
  pose proof (PX_range (Z.of_nat (S l)) va ltac:(lia)) as Hpx.
  pose proof Hr as [Hok Hmem Hown].
  destruct (node_ram _ _ _ Hok Hn Hpx) as [Hram _].
  wp_simp. apply wp_rd64; [done|].
  rewrite (Hmem _ _ _ _ Hn Hpx), key_step by lia. simpl entry.
  destruct (nodes t !! (l, key l va)) as [q|] eqn:E.
  { destruct (dirent_some (lo:=lo) q) as [HV HP]; [by eapply po_managed|].
    rewrite HV, HP. by apply IH; [..|lia|]. }
  replace (has (dirent None) PTE_V) with false by done.
  wp_simp. eapply wp_mono; [|by apply kalloc_frame].
  intros q s1 [(-> & -> & ->)|(fl1 & -> & Hk1 & Hf1 & Hq & Hqf & Hq1)].
  { simpl. wp_simp. exists [], t. split; [by apply walk_post_refl|]. split; [done|]. by left. }
  pose proof (managed_nonzero _ _ Hq). test_false (q =? 0).
  assert (¬ node_page t q) as Hfresh.
  { intros Hnp. destruct (node_used _ _ _ _ _ _ Hk Hr Hnp) as [_ Hnf]. apply Hnf. by left. }
  assert (pt_repr lo s1 root t) as Hr1 by (eapply pt_repr_frame; [exact Hk|exact Hf1|..]; auto).
  destruct (pt_add_node lo s1 fl1 root t l va p q Hk1 Hr1 Hva ltac:(lia) Hn E Hq Hqf Hq1 Hfresh)
    as (Hk2 & Hr2 & Hf2).
  wp_simp. apply wp_kmemset; [eapply managed_ram; [done|unfold PGSIZE; lia..]|].
  wp_simp. apply wp_wr64; [done|].
  eapply wp_mono; [|eapply (IH _ fl1 (add_node l (key l va) q t)); [exact Hk2|exact Hr2|done|lia|]].
  2: { simpl. by rewrite lookup_insert_eq. }
  intros r s3 (fl3 & t3 & Hp3 & Hl3 & Hres). exists fl3, t3.
  split; [|done]. eapply walk_post_trans; [|exact Hp3]. split; [done|done| | |].
  - split.
    + simpl. by apply insert_subseteq.
    + intros x [n Hx]. simpl in Hx. rewrite lookup_insert in Hx. case_decide.
      * injection Hx as <-. right. by left.
      * left. by exists n.
  - eapply kframe_trans; [exact Hf1|exact Hf2|by intros ? []|].
    intros x [->|?]; [right; by left|by left].
  - by exists [q].
Qed.

Lemma walk_alloc lo s fl root t va :
  kinv lo s fl → pt_repr lo s root t → 0 ≤ va < MAXVA →
  wp (walk root va true) (λ r s', ∃ fl' t',
    walk_post lo root s fl t s' fl' t' ∧ leaf t' = leaf t ∧
    (r = 0 ∧ fl' = [] ∨ r ≠ 0 ∧ r = pte_addr t' va)) s.
Proof.
  intros Hk Hr Hva. unfold walk. test_false (MAXVA <=? va).
  apply walk_loop_alloc; [done..|]. rewrite key_root by done. apply Hr.
Qed.
