(* ===== verification/VmOps.v ===== *)
(** * Specifications of the page-table operations

    [mappages], [uvmunmap], [uvmcopy] and [removecopy] on the trees of
    VmTree.v.  A user mapping is described by [umap]; [dframe] describes what
    an operation does to the rest of memory and to the reference counts. *)

From Stdlib Require Import ZArith Lia.
From stdpp Require Import base numbers list gmap strings tactics.
From S2P Require Import Prelude Riscv Mem Kalloc Vm VmTree.

Local Open Scope Z_scope.

(** ** Entries and user mappings *)

Definition mkpte (p f : Z) : Z := Z.lor (PA2PTE p) f.
#[global] Arguments mkpte : simpl never.
#[global] Arguments PTE2PA : simpl never.
#[global] Arguments PA2PTE : simpl never.

(** Page [v] of the tree maps the page [p] with flags [f]. *)
Record umap (lo : Z) (t : ptree) (v p f : Z) : Prop := UMap {
  um_leaf : leaf t !! v = Some (mkpte p f);
  um_page : managed lo p;
  um_flags : 0 ≤ f < 1024;
  um_valid : has f PTE_V = true;
  um_nodir : f ≠ PTE_V;
}.

Lemma mkpte_range p f : 0 ≤ f < 1024 → 0 ≤ mkpte p f < 2^64.
Proof.
  intros Hf. apply lor_range; [apply u64_range|lia|lia].
Qed.

Section mkpte.
Context {lo p f : Z} (Hp : managed lo p) (Hf : 0 ≤ f < 1024).

Lemma mkpte_pa : PTE2PA (mkpte p f) = p.
Proof using All. apply PTE2PA_lor; [by eapply managed_page_ok|done]. Qed.
Lemma mkpte_flags : PTE_FLAGS (mkpte p f) = f.
Proof using All. apply PTE_FLAGS_lor; [by eapply managed_page_ok|done]. Qed.
Lemma mkpte_has n : 0 ≤ n < 10 → has (mkpte p f) (Z.shiftl 1 n) = has f (Z.shiftl 1 n).
Proof using All. intros. apply has_pte_lor; [by eapply managed_page_ok|done..]. Qed.
Lemma mkpte_V : has (mkpte p f) PTE_V = has f PTE_V.
Proof using All. by apply (mkpte_has 0). Qed.
Lemma mkpte_W : has (mkpte p f) PTE_W = has f PTE_W.
Proof using All. by apply (mkpte_has 2). Qed.
Lemma mkpte_U : has (mkpte p f) PTE_U = has f PTE_U.
Proof using All. by apply (mkpte_has 4). Qed.
Lemma mkpte_COW : has (mkpte p f) PTE_COW = has f PTE_COW.
Proof using All. by apply (mkpte_has 8). Qed.
End mkpte.

Lemma umap_inj lo t v p f p' f' : umap lo t v p f → umap lo t v p' f' → p = p' ∧ f = f'.
Proof.
  intros [L P F _ _] [L' P' F' _ _]. rewrite L in L'. injection L' as E.
  split; [rewrite <- (mkpte_pa P F), E|rewrite <- (mkpte_flags P F), E].
  - by apply (mkpte_pa P').
  - by apply (mkpte_flags P').
Qed.

(** The flags [uvmcopy] gives to both mappings of a shared page. *)
Definition cow_flags (f : Z) : Z :=
  if has f PTE_W then Z.lor (Z.land f (Z.lnot PTE_W)) PTE_COW else f.
(** The flags [removecopy] gives to the private copy. *)
Definition priv_flags (f : Z) : Z := Z.lor (Z.land f (Z.lnot PTE_COW)) PTE_W.

(** A bit of the new flags, for each of the ten flag bits. *)
Lemma has_set_clear f c w n :
  0 ≤ c → 0 ≤ w → 0 ≤ n →
  has (Z.lor (Z.land f (Z.lnot (Z.shiftl 1 c))) (Z.shiftl 1 w)) (Z.shiftl 1 n) =
  (has f (Z.shiftl 1 n) && negb (n =? c)) || (n =? w).
Proof.
  intros Hc Hw Hn. rewrite !has_bit by done.
  rewrite Z.lor_spec, Z.land_spec, Z.lnot_spec, !Z.shiftl_1_l by done.
  rewrite !Z.pow2_bits_eqb by done. by rewrite (Z.eqb_sym c), (Z.eqb_sym w).
Qed.

Lemma cow_flags_range f : 0 ≤ f < 1024 → 0 ≤ cow_flags f < 1024.
Proof.
  intros Hf. unfold cow_flags. case_if; [|done]. change 1024 with (2^10).
  apply lor_range; [|done|done]. by apply land_range.
Qed.
Lemma priv_flags_range f : 0 ≤ f < 1024 → 0 ≤ priv_flags f < 1024.
Proof.
  intros Hf. unfold priv_flags. change 1024 with (2^10).
  apply lor_range; [|done|done]. by apply land_range.
Qed.

Lemma cow_flags_has f n :
  0 ≤ n → n ≠ 2 → n ≠ 8 → has (cow_flags f) (Z.shiftl 1 n) = has f (Z.shiftl 1 n).
Proof.
  intros Hn H2 H8. unfold cow_flags. case_if; [|done]. unfold PTE_W, PTE_COW.
  rewrite has_set_clear by lia. test_false (n =? 2). test_false (n =? 8).
  by rewrite andb_true_r, orb_false_r.
Qed.
Lemma cow_flags_W f : has (cow_flags f) PTE_W = false.
Proof.
  unfold cow_flags. case_if; [|done]. unfold PTE_W, PTE_COW.
  rewrite has_set_clear by lia. by rewrite andb_false_r.
Qed.
Lemma cow_flags_COW f : has (cow_flags f) PTE_COW = has f PTE_W || has f PTE_COW.
Proof.
  unfold cow_flags. case_if; [|done]. unfold PTE_W, PTE_COW.
  rewrite has_set_clear by lia. by rewrite orb_true_r.
Qed.
Lemma cow_flags_V f : has (cow_flags f) PTE_V = has f PTE_V.
Proof. by apply cow_flags_has. Qed.
Lemma cow_flags_U f : has (cow_flags f) PTE_U = has f PTE_U.
Proof. by apply cow_flags_has. Qed.

Lemma priv_flags_has f n :
  0 ≤ n → n ≠ 2 → n ≠ 8 → has (priv_flags f) (Z.shiftl 1 n) = has f (Z.shiftl 1 n).
Proof.
  intros Hn H2 H8. unfold priv_flags, PTE_W, PTE_COW.
  rewrite has_set_clear by lia. test_false (n =? 2). test_false (n =? 8).
  by rewrite andb_true_r, orb_false_r.
Qed.
Lemma priv_flags_V f : has (priv_flags f) PTE_V = has f PTE_V.
Proof. by apply priv_flags_has. Qed.
Lemma priv_flags_U f : has (priv_flags f) PTE_U = has f PTE_U.
Proof. by apply priv_flags_has. Qed.
Lemma priv_flags_W f : has (priv_flags f) PTE_W = true.
Proof.
  unfold priv_flags, PTE_W, PTE_COW. rewrite has_set_clear by lia. by rewrite orb_true_r.
Qed.
Lemma priv_flags_COW f : has (priv_flags f) PTE_COW = false.
Proof.
  unfold priv_flags, PTE_W, PTE_COW. rewrite has_set_clear by lia.
  by rewrite andb_false_r.
Qed.

(** Setting a flag that is set changes nothing. *)
Lemma lor_set f n : 0 ≤ n → has f (Z.shiftl 1 n) = true → Z.lor f (Z.shiftl 1 n) = f.
Proof.
  intros Hn Hf. rewrite has_bit in Hf by done. apply Z.bits_inj'. intros k Hk.
  rewrite Z.lor_spec, Z.shiftl_1_l, Z.pow2_bits_eqb by done.
  destruct (Z.eqb_spec n k) as [->|]; [by rewrite Hf|apply orb_false_r].
Qed.

Lemma cow_flags_nodir f : f ≠ PTE_V → has f PTE_V = true → cow_flags f ≠ PTE_V.
Proof.
  intros Hne HV E. destruct (has f PTE_W) eqn:HW.
  - assert (has (cow_flags f) PTE_COW = true) as H by (rewrite cow_flags_COW, HW; done).
    by rewrite E in H.
  - unfold cow_flags in E. by rewrite HW in E.
Qed.
Lemma priv_flags_nodir f : priv_flags f ≠ PTE_V.
Proof. intros E. pose proof (priv_flags_W f) as H. by rewrite E in H. Qed.

(** ** Reference counts of a range of mappings *)

(** The pages mapped at [v], ..., [v + n - 1]. *)
Fixpoint upages (t : ptree) (v : Z) (n : nat) : list Z :=
  match n with
  | O => []
  | S n => PTE2PA (default 0 (leaf t !! v)) :: upages t (v + 1) n
  end.

(** How often the page [q] is in the list. *)
Fixpoint occ (q : Z) (l : list Z) : Z :=
  match l with
  | [] => 0
  | p :: l => (if p =? q then 1 else 0) + occ q l
  end.

Lemma occ_nonneg q l : 0 ≤ occ q l.
Proof. induction l as [|p l IH]; simpl; [done|]. case_if; lia. Qed.
Lemma occ_app q l1 l2 : occ q (l1 ++ l2) = occ q l1 + occ q l2.
Proof. induction l1 as [|p l IH]; simpl; [done|]. lia. Qed.
Lemma occ_pos q l : q ∈ l ↔ 0 < occ q l.
Proof.
  induction l as [|p l IH]; simpl.
  - split; [by intros ?%elem_of_nil|lia].
  - rewrite elem_of_cons, IH. pose proof (occ_nonneg q l).
    destruct (Z.eqb_spec p q); split; lia.
Qed.

Lemma occ_notin q l : q ∉ l → occ q l = 0.
Proof. rewrite occ_pos. pose proof (occ_nonneg q l). lia. Qed.

Lemma occ_nodup q l : NoDup l → occ q l ≤ 1.
Proof.
  induction 1 as [|p l Hp _ IH]; simpl; [lia|].
  destruct (Z.eqb_spec p q) as [->|]; [rewrite occ_notin by done|]; lia.
Qed.

Lemma upages_ext t t' v n :
  (∀ w, v ≤ w < v + Z.of_nat n → leaf t' !! w = leaf t !! w) → upages t' v n = upages t v n.
Proof.
  revert v. induction n as [|n IH]; intros v H; simpl; [done|].
  rewrite H by lia. f_equal. apply IH. intros. apply H. lia.
Qed.

Lemma upages_snoc t v n :
  upages t v (S n) = upages t v n ++ [PTE2PA (default 0 (leaf t !! (v + Z.of_nat n)))].
Proof.
  revert v. induction n as [|n IH]; intros v.
  - simpl. by rewrite Z.add_0_r.
  - change (upages t v (S (S n))) with
      (PTE2PA (default 0 (leaf t !! v)) :: upages t (v + 1) (S n)).
    rewrite IH. simpl. by replace (v + 1 + Z.of_nat n) with (v + Z.of_nat (S n)) by lia.
Qed.

Lemma elem_upages t v n q :
  q ∈ upages t v n ↔ ∃ w, v ≤ w < v + Z.of_nat n ∧ q = PTE2PA (default 0 (leaf t !! w)).
Proof.
  revert v. induction n as [|n IH]; intros v; simpl.
  - split; [by intros ?%elem_of_nil|]. intros (w & ? & _). lia.
  - rewrite elem_of_cons, IH. split.
    + intros [->|(w & ? & ->)]; [exists v|exists w]; (split; [lia|done]).
    + intros (w & Hw & ->). destruct (decide (w = v)) as [->|]; [by left|].
      right. exists w. split; [lia|done].
Qed.

(** ** Frames with changes of reference counts

    [d q] is the change of the count of page [q].  A page outside [T] that
    was in use and keeps a user keeps its bytes. *)
Definition dframe (lo : Z) (T : Z → Prop) (d : Z → Z) (s : kst) (fl : list Z) (s' : kst)
  : Prop :=
  ∀ q, managed lo q → q ∉ fl → ¬ T q → 0 < nump s (q / PGSIZE) + d q →
    nump s' (q / PGSIZE) = nump s (q / PGSIZE) + d q ∧
    ∀ a, in_page q a → load8 (mem s') a = load8 (mem s) a.

Definition dzero : Z → Z := λ _, 0.

Lemma kframe_dframe lo T s fl s' fl' :
  kframe T s fl s' fl' → dframe lo T dzero s fl s'.
Proof.
  intros [_ Mm N] q Hm Hf HT _. unfold dzero. rewrite N by (done || apply Hm).
  split; [lia|]. intros a. apply Mm; [apply Hm|done..].
Qed.

Lemma dframe_refl lo T s fl : dframe lo T dzero s fl s.
Proof. eapply kframe_dframe, kframe_refl. Qed.

Lemma used_pos lo s fl q :
  kinv lo s fl → managed lo q → (q ∉ fl) ↔ 0 < nump s (q / PGSIZE).
Proof.
  intros Hk Hm. rewrite <- (ki_free _ _ _ Hk q Hm).
  pose proof (ki_count _ _ _ Hk q Hm). lia.
Qed.

Lemma dframe_trans lo (T T1 T2 : Z → Prop) d1 d2 d s1 f1 s2 f2 s3 :
  kinv lo s1 f1 → kinv lo s2 f2 →
  dframe lo T1 d1 s1 f1 s2 → dframe lo T2 d2 s2 f2 s3 →
  (∀ q, T1 q → T q) → (∀ q, T2 q → T q ∨ q ∈ f1) →
  (∀ q, managed lo q → d q = d1 q + d2 q) → (∀ q, 0 ≤ d1 q ∨ d2 q ≤ 0) →
  dframe lo T d s1 f1 s3.
Proof.
  intros K1 K2 D1 D2 H1 H2 Hd Hs q Hm Hf HT Hpos. rewrite (Hd q Hm) in *.
  pose proof (proj1 (used_pos _ _ _ _ K1 Hm) Hf) as Hp1.
  destruct (D1 q Hm Hf) as [N1 M1]; [auto|destruct (Hs q); lia|].
  destruct (D2 q Hm) as [N2 M2].
  - apply (used_pos _ _ _ _ K2 Hm). destruct (Hs q); lia.
  - intros HT2. destruct (H2 q HT2); done.
  - lia.
  - split; [lia|]. intros a Ha. rewrite M2, M1; done.
Qed.

Lemma dframe_weaken lo (T T' : Z → Prop) d d' s fl s' :
  (∀ q, T q → T' q ∨ q ∈ fl) → (∀ q, managed lo q → ¬ T' q → d q = d' q) →
  dframe lo T d s fl s' → dframe lo T' d' s fl s'.
Proof.
  intros HT Hd D q Hm Hf HT' Hpos. rewrite <- Hd in * by done.
  apply D; auto. intros ?; destruct (HT q); auto.
Qed.

Lemma dframe_mono lo (T T' : Z → Prop) d d' s fl s' :
  (∀ q, T q → T' q ∨ q ∈ fl) → (∀ q, managed lo q → d q = d' q) →
  dframe lo T d s fl s' → dframe lo T' d' s fl s'.
Proof. intros HT Hd. apply dframe_weaken; auto. Qed.

(** A tree is unchanged when its nodes keep their single user. *)
Lemma pt_repr_dframe lo T d s fl s' root t :
  kinv lo s fl → dframe lo T d s fl s' →
  (∀ q, node_page t q → ¬ T q ∧ d q = 0) → pt_repr lo s root t → pt_repr lo s' root t.
Proof.
  intros Hk D HT Hr. pose proof Hr as [Hok Hmem Hown].
  assert (∀ q, node_page t q → nump s' (q / PGSIZE) = 1 ∧
    ∀ a, in_page q a → load8 (mem s') a = load8 (mem s) a) as Hsame.
  { intros q Hq. destruct (HT q Hq) as [HnT H0].
    destruct (node_used _ _ _ _ _ _ Hk Hr Hq) as [Hm Hnf].
    destruct (D q Hm Hnf HnT) as [N Mm]; [rewrite H0, Hown by done; lia|].
    rewrite H0, (Hown q Hq) in N. auto. }
  split; [done| |by intros q Hq; apply Hsame].
  intros l k p i Hn Hi. rewrite <- (Hmem l k p i Hn Hi).
  destruct (node_ram _ _ _ Hok Hn Hi) as [_ Hin]. apply load64_ext. intros b Hb.
  apply (Hsame p); [by exists (l, k)|by apply Hin].
Qed.

(** ** Addresses of whole pages *)

Lemma page_va_round va : 0 ≤ va < 2^64 → va mod PGSIZE = 0 → PGROUNDDOWN va = va.
Proof. intros Hva Ha. rewrite PGROUNDDOWN_spec by done. unfold PGSIZE in *. dlia. Qed.

Lemma page_va_last va :
  0 ≤ va < MAXVA → va mod PGSIZE = 0 → PGROUNDDOWN (u64 (va + PGSIZE - 1)) = va.
Proof.
  rewrite MAXVA_val. intros Hva Ha. rewrite u64_small by (unfold PGSIZE; lia).
  rewrite PGROUNDDOWN_spec by (unfold PGSIZE; lia). unfold PGSIZE in *. dlia.
Qed.

Lemma vpn_page v : vpn (v * PGSIZE) = v.
Proof. unfold vpn. apply Z.div_mul. done. Qed.

Lemma page_va_range v : 0 ≤ v < 2^26 → 0 ≤ v * PGSIZE < MAXVA ∧ (v * PGSIZE) mod PGSIZE = 0.
Proof. rewrite MAXVA_val. unfold PGSIZE. intros. dlia. Qed.

(** Storing a leaf is a step that adds no node. *)
Lemma walk_post_store lo s fl root t va e :
  kinv lo s fl → pt_repr lo s root t → 0 ≤ va < MAXVA → pte_addr t va ≠ 0 → 0 ≤ e < 2^64 →
  walk_post lo root s fl t (set_mem (λ m, store64 m (pte_addr t va) e) s) fl
    (set_leaf (vpn va) e t).
Proof.
  intros Hk Hr Hva Hne He.
  destruct (pt_store_leaf lo s fl root t va e Hk Hr Hva Hne He) as (Hk' & Hr' & Hf).
  split; [done|done| |done|done]. split; [done|]. intros q Hq. by left.
Qed.

(** ** mappages on one page *)

Lemma mappages_page lo s fl root t va pa perm :
  kinv lo s fl → pt_repr lo s root t → 0 ≤ va < MAXVA → va mod PGSIZE = 0 →
  0 ≤ perm < 1024 → has (default 0 (leaf t !! vpn va)) PTE_V = false →
  wp (mappages root va PGSIZE pa perm) (λ r s', ∃ fl' t',
    walk_post lo root s fl t s' fl' t' ∧
    (r = 0 ∧ leaf t' = <[vpn va := mkpte pa (Z.lor perm PTE_V)]> (leaf t) ∨
     r = -1 ∧ leaf t' = leaf t ∧ fl' = [])) s.
Proof.
  intros Hk Hr Hva Hal Hperm Hinv. unfold mappages.
  replace (PGSIZE =? 0) with false by done.
  rewrite (page_va_round va), (page_va_last va) by (done || rewrite MAXVA_val in Hva; lia).
  apply (wp_loop _ (λ '(a, p) s', a = va ∧ p = pa ∧ s' = s) (λ _, 0%nat));
    [|done|lia].
  intros [a p] s0 (-> & -> & ->). wp_simp.
  eapply wp_mono; [|by apply (walk_alloc lo s fl root t va)].
  intros r s1 (fl1 & t1 & Hp1 & Hl1 & [(-> & ->)|(Hr0 & ->)]).
  { simpl. wp_simp. exists [], t1. split; [done|]. right. auto. }
  destruct (Z.eqb_spec (pte_addr t1 va) 0); [done|].
  pose proof Hp1 as [Hk1 Hr1 _ _ _].
  destruct (pte_addr_entry _ _ _ _ _ _ Hk1 Hr1 Hva Hr0) as (p0 & _ & _ & Hram & Hld).
  wp_simp. apply wp_rd64; [done|]. rewrite Hld, Hl1, Hinv.
  wp_simp. apply wp_wr64; [done|]. rewrite Z.eqb_refl. wp_simp.
  rewrite <- Z.lor_assoc. change (Z.lor (PA2PTE pa) ?f) with (mkpte pa f).
  assert (0 ≤ mkpte pa (Z.lor perm PTE_V) < 2^64) as Hpte.
  { apply mkpte_range. change 1024 with (2^10). by apply lor_range. }
  exists fl1, (set_leaf (vpn va) (mkpte pa (Z.lor perm PTE_V)) t1). split.
  - eapply walk_post_trans; [exact Hp1|]. by apply walk_post_store.
  - left. split; [done|]. simpl. by rewrite Hl1.
Qed.

(** ** uvmunmap *)

Lemma kfree_dframe lo s fl p :
  kinv lo s fl → managed lo p → p ∉ fl →
  wp (kfree p) (λ _ s', ∃ fl',
    kinv lo s' fl' ∧ nump s' (p / PGSIZE) = nump s (p / PGSIZE) - 1 ∧
    dframe lo no_page (λ q, if q =? p then -1 else 0) s fl s') s.
Proof.
  intros Hk Hp Hnin. eapply wp_mono; [|by apply (kfree_frame lo s fl)].
  intros _ s' (fl' & Hk' & Hf & Hn & _ & Hkeep). exists fl'. split; [done|]. split; [done|].
  intros q Hq Hqf _ Hpos. destruct (Z.eqb_spec q p) as [->|Hne].
  - split; [lia|]. intros a _. apply Hkeep. lia.
  - destruct Hf as [_ Fm Fn]. rewrite Fn by (done || apply Hq).
    split; [lia|]. intros a. by apply Fm; [apply Hq|..].
Qed.

(** The leaves after [uvmunmap] of [k] pages from [v]. *)
Definition unmapped (t : ptree) (v : Z) (k : nat) (t' : ptree) : Prop :=
  nodes t' = nodes t ∧
  ∀ w, leaf t' !! w =
    if (v <=? w) && (w <? v + Z.of_nat k) then Some 0 else leaf t !! w.

Lemma unmapped_S t v k t' :
  unmapped t v k t' → unmapped t v (S k) (set_leaf (v + Z.of_nat k) 0 t').
Proof.
  intros [Hn Hl]. split; [done|]. intros w. simpl. rewrite lookup_insert.
  case_decide as E; [subst w; by zcases|]. rewrite Hl. by zcases.
Qed.

(** The change of reference counts: one user less per mapping, if the pages
    are freed. *)
Definition freed (do_free : bool) (t : ptree) (v : Z) (k : nat) (q : Z) : Z :=
  if do_free then - occ q (upages t v k) else 0.

(** What [uvmunmap] requires of each page of the range. *)
Definition unmappable (lo : Z) (do_free : bool) (t : ptree) (v : Z) : Prop :=
  ∃ e, leaf t !! v = Some e ∧ has e PTE_V = true ∧ PTE_FLAGS e ≠ PTE_V ∧
       (do_free = true → managed lo (PTE2PA e) ∧ ¬ node_page t (PTE2PA e)).

Section uvmunmap.
Context (lo root : Z) (do_free : bool) (s : kst) (fl : list Z) (t : ptree) (v0 : Z) (n : nat).
Context (Hk : kinv lo s fl) (Hr : pt_repr lo s root t).
Context (Hv0 : 0 ≤ v0) (Hvn : v0 + Z.of_nat n ≤ 2^26).
Context (Hmap : ∀ v, v0 ≤ v < v0 + Z.of_nat n → unmappable lo do_free t v).
Context (Hocc : do_free = true →
  ∀ q, managed lo q → occ q (upages t v0 n) ≤ nump s (q / PGSIZE)).

(** The loop invariant: [k] pages are unmapped. *)
Definition unmap_inv (k : nat) (s' : kst) : Prop := ∃ fl' t',
  kinv lo s' fl' ∧ pt_repr lo s' root t' ∧ unmapped t v0 k t' ∧
  dframe lo (node_page t) (freed do_free t v0 k) s fl s' ∧
  (do_free = true → ∀ q, managed lo q →
     occ q (upages t (v0 + Z.of_nat k) (n - k)) ≤ nump s' (q / PGSIZE)).

Definition unmap_body (a : Z) : M kst (Z + unit) :=
  let* pte := walk root a false in
  if pte =? 0 then panic "uvmunmap: walk"
  else
    let* e := rd64 pte in
    if negb (has e PTE_V) then panic "uvmunmap: not mapped"
    else if PTE_FLAGS e =? PTE_V then panic "uvmunmap: not a leaf"
    else
      (if do_free then kfree (PTE2PA e) else ret tt) ;;;
      wr64 pte 0 ;;;
      ret (inl (u64 (a + PGSIZE))).

Lemma unmap_step k s1 :
  (k < n)%nat → unmap_inv k s1 →
  wp (unmap_body ((v0 + Z.of_nat k) * PGSIZE))
     (λ r s2, r = inl ((v0 + Z.of_nat (S k)) * PGSIZE) ∧ unmap_inv (S k) s2) s1.
Proof using All.
  intros Hkn (f1 & t1 & Hk1 & Hr1 & Hun & Hd1 & Hacc).
  set (v := v0 + Z.of_nat k) in *. set (a := v * PGSIZE).
  destruct (page_va_range v) as [Hva Hal]; [lia|]. fold a in Hva, Hal.
  destruct (Hmap v) as (e & Hl & HV & HF & Hfr); [lia|].
  assert (leaf t1 !! v = Some e) as Hl1 by (rewrite (proj2 Hun); zcases; done).
  assert (vpn a = v) as Hvpn by apply vpn_page.
  assert (pte_addr t1 a ≠ 0) as Hne
    by (eapply pte_addr_mapped; [done|lia|by rewrite Hvpn]).
  destruct (pte_addr_entry _ _ _ _ _ _ Hk1 Hr1 Hva Hne) as (p0 & _ & _ & Hram & Hld).
  rewrite Hvpn, Hl1 in Hld. simpl in Hld.
  unfold unmap_body. wp_simp. eapply wp_mono; [|by apply (walk_lookup lo s1 root t1 a)].
  intros r s1' [-> ->]. destruct (Z.eqb_spec (pte_addr t1 a) 0); [done|].
  wp_simp. apply wp_rd64; [done|]. rewrite Hld, HV. simpl.
  destruct (Z.eqb_spec (PTE_FLAGS e) PTE_V); [done|].
  assert (u64 (a + PGSIZE) = (v0 + Z.of_nat (S k)) * PGSIZE) as Hnext.
  { rewrite MAXVA_val in Hva. unfold a, v, PGSIZE in *. rewrite u64_small; lia. }
  rewrite Hnext. wp_simp.
  apply (wp_mono _ (λ _ s2, ∃ f2, kinv lo s2 f2 ∧ pt_repr lo s2 root t1 ∧
    dframe lo (node_page t) (freed do_free t v0 (S k)) s fl s2 ∧
    (do_free = true → ∀ q, managed lo q →
       occ q (upages t (v0 + Z.of_nat (S k)) (n - S k)) ≤ nump s2 (q / PGSIZE)))).
  { intros _ s2 (f2 & Hk2 & Hr2 & Hd2 & Hacc2). wp_simp. apply wp_wr64; [done|].
    wp_simp. split; [done|].
    pose proof (walk_post_store lo s2 f2 root t1 a 0 Hk2 Hr2 Hva Hne ltac:(lia))
      as [Hk3 Hr3 _ Hf3 _]. rewrite Hvpn in Hr3.
    exists f2, (set_leaf v 0 t1). split; [done|]. split; [done|].
    split; [by apply unmapped_S|]. split; [|done].
    eapply (dframe_trans lo _ _ (node_page t1)); [exact Hk|exact Hk2|exact Hd2| |done|..].
    - by eapply kframe_dframe.
    - intros q [x Hx]. rewrite (proj1 Hun) in Hx. left. by exists x.
    - intros q _. unfold dzero. lia.
    - intros q. right. unfold dzero. lia. }
  destruct do_free; [|wp_simp; exists f1; split; [done|split; [done|split; [done|]]]; done].
  destruct (Hfr eq_refl) as [Hm Hnn]. specialize (Hacc eq_refl). set (p := PTE2PA e) in *.
  assert (upages t v (n - k) = p :: upages t (v0 + Z.of_nat (S k)) (n - S k)) as Hup.
  { replace (n - k)%nat with (S (n - S k)) by lia. simpl. rewrite Hl. simpl.
    by replace (v + 1) with (v0 + Z.of_nat (S k)) by (unfold v; lia). }
  rewrite Hup in Hacc. simpl in Hacc.
  assert (p ∉ f1) as Hpf.
  { apply (used_pos _ _ _ _ Hk1 Hm). specialize (Hacc p Hm). rewrite Z.eqb_refl in Hacc.
    pose proof (occ_nonneg p (upages t (v0 + Z.of_nat (S k)) (n - S k))). lia. }
  eapply wp_mono; [|by apply (kfree_dframe lo s1 f1)].
  intros _ s2 (f2 & Hk2 & Hn2 & Hd2). exists f2. split; [done|]. split; [|split].
  - eapply (pt_repr_dframe lo _ _ s1 f1); [done|exact Hd2| |done].
    intros q [x Hx]. split; [auto|]. rewrite (proj1 Hun) in Hx.
    destruct (Z.eqb_spec q p) as [->|]; [|done]. destruct Hnn. by exists x.
  - eapply (dframe_trans lo _ (node_page t) no_page); [exact Hk|exact Hk1|exact Hd1|exact Hd2|..].
    + done.
    + by intros q [].
    + intros q _. unfold freed. rewrite upages_snoc, occ_app. fold v. rewrite Hl. simpl.
      fold p. rewrite (Z.eqb_sym p q). case_if; lia.
    + intros q. right. case_if; lia.
  - intros _ q Hq. specialize (Hacc q Hq). destruct (Z.eqb_spec p q) as [E|Hne'].
    + rewrite <- E in *. rewrite Hn2. lia.
    + destruct (decide (q ∈ f1)) as [Hin|Hnin].
      * rewrite <- (ki_free _ _ _ Hk1 q Hq) in Hin.
        pose proof (ki_count _ _ _ Hk2 q Hq). lia.
      * pose proof (proj1 (used_pos _ _ _ _ Hk1 Hq) Hnin).
        destruct (Hd2 q Hq Hnin) as [-> _]; [auto|..];
          destruct (Z.eqb_spec q p); try congruence; lia.
Qed.

Lemma uvmunmap_spec :
  wp (uvmunmap root (v0 * PGSIZE) (Z.of_nat n) do_free) (λ _ s', ∃ fl' t',
    kinv lo s' fl' ∧ pt_repr lo s' root t' ∧ unmapped t v0 n t' ∧
    dframe lo (node_page t) (freed do_free t v0 n) s fl s') s.
Proof using All.
  unfold uvmunmap. rewrite Z.mod_mul by done. simpl negb.
  replace (u64 (v0 * PGSIZE + u64 (Z.of_nat n * PGSIZE)))
    with ((v0 + Z.of_nat n) * PGSIZE)
    by (unfold PGSIZE; rewrite (u64_small (_ * _)), u64_small; lia).
  apply (wp_loop _ (λ a s', ∃ k, (k ≤ n)%nat ∧ a = (v0 + Z.of_nat k) * PGSIZE ∧ unmap_inv k s')
    (λ a, Z.to_nat ((v0 + Z.of_nat n) * PGSIZE - a))).
  - intros a s1 (k & Hkn & -> & Hinv). destruct (Z.ltb_spec ((v0 + Z.of_nat k) * PGSIZE)
      ((v0 + Z.of_nat n) * PGSIZE)) as [Hlt|Hge].
    + assert (k < n)%nat by (unfold PGSIZE in *; lia).
      eapply wp_mono; [|by apply (unmap_step k s1)]. intros r s2 [-> Hinv2].
      split; [exists (S k); split; [lia|done]|unfold PGSIZE in *; lia].
    + wp_simp. assert (k = n) as -> by (unfold PGSIZE in *; lia).
      destruct Hinv as (f' & t' & ? & ? & ? & ? & _). by exists f', t'.
  - exists 0%nat. split; [lia|]. split; [f_equal; lia|]. exists fl, t.
    split; [done|]. split; [done|]. split; [split; [done|intros w; by zcases]|].
    split.
    + eapply dframe_mono; [| |apply (dframe_refl lo (node_page t))]; [by left|].
      intros q _. unfold dzero, freed. by destruct do_free.
    + intros Hf q Hq. rewrite Z.add_0_r, Nat.sub_0_r. by apply Hocc.
  - unfold PGSIZE, page_fuel. lia.
Qed.
End uvmunmap.
