(* ===== verification/VmView.v ===== *)
(** * The user's view of an address space

    What a user program sees of its memory, as the RISC-V MMU translates it:
    [uload] and [uwritable].  [aspace] is a user address space of a number of
    pages.  The theorems about growing, forking and copy-on-write are stated
    with these. *)

From Stdlib Require Import ZArith Lia.
From stdpp Require Import base numbers list gmap strings tactics.
From S2P Require Import Prelude Riscv Mem Kalloc Vm VmTree VmOps.

Local Open Scope Z_scope.

(** ** The user's view

    The byte a user load at [va] returns, and whether a user store at [va]
    succeeds without a page fault: the translation of the RISC-V MMU through
    the leaf entries of the tree. *)

Definition uload (m : memory) (t : ptree) (va : Z) : option Z :=
  match leaf t !! vpn va with
  | Some e => if has e PTE_V && has e PTE_U
              then Some (load8 m (PTE2PA e + va mod PGSIZE)) else None
  | None => None
  end.

Definition uwritable (t : ptree) (va : Z) : bool :=
  match leaf t !! vpn va with
  | Some e => has e PTE_V && has e PTE_U && has e PTE_W
  | None => false
  end.

(** A user address space of [n] pages: every page is mapped, to a page of the
    allocator that is in use and is not a page-table page. *)
Record aspace (lo : Z) (s : kst) (root : Z) (t : ptree) (n : nat) : Prop := ASpace {
  as_repr : pt_repr lo s root t;
  as_size : Z.of_nat n ≤ 2^26;
  as_user : ∀ v, 0 ≤ v < Z.of_nat n → ∃ p f, umap lo t v p f ∧
    ¬ node_page t p ∧ 0 < nump s (p / PGSIZE);
}.

Lemma in_page_offset p va : 0 ≤ va → in_page p (p + va mod PGSIZE).
Proof.
  intros. unfold in_page, PGSIZE. pose proof (Z.mod_pos_bound va 4096 ltac:(lia)). lia.
Qed.

Lemma vpn_range va n : 0 ≤ va < n * PGSIZE → 0 ≤ vpn va < n.
Proof. unfold vpn, PGSIZE. intros. dlia. Qed.

(** Two leaves for the same page with the same V and U bits read the same. *)
Lemma uload_mkpte lo m t va p f :
  managed lo p → 0 ≤ f < 1024 → leaf t !! vpn va = Some (mkpte p f) →
  uload m t va = if has f PTE_V && has f PTE_U
                 then Some (load8 m (p + va mod PGSIZE)) else None.
Proof.
  intros Hp Hf Hl. unfold uload. rewrite Hl.
  by rewrite (mkpte_V Hp Hf), (mkpte_U Hp Hf), (mkpte_pa Hp Hf).
Qed.

Lemma uwritable_mkpte lo t va p f :
  managed lo p → 0 ≤ f < 1024 → leaf t !! vpn va = Some (mkpte p f) →
  uwritable t va = has f PTE_V && has f PTE_U && has f PTE_W.
Proof.
  intros Hp Hf Hl. unfold uwritable. rewrite Hl.
  by rewrite (mkpte_V Hp Hf), (mkpte_U Hp Hf), (mkpte_W Hp Hf).
Qed.

(** The view through a shared leaf. *)
Lemma uload_cow lo s s' t t' va p f :
  umap lo t (vpn va) p f → 0 ≤ va →
  (∀ a, in_page p a → load8 (mem s') a = load8 (mem s) a) →
  leaf t' !! vpn va = Some (mkpte p (cow_flags f)) ∨ leaf t' !! vpn va = Some (mkpte p f) →
  uload (mem s') t' va = uload (mem s) t va.
Proof.
  intros [L P F _ _] Hva Hm [L'|L'].
  - rewrite (uload_mkpte lo _ _ _ _ _ P (cow_flags_range f F) L').
    rewrite (uload_mkpte lo _ _ _ _ _ P F L), cow_flags_V, cow_flags_U.
    by rewrite Hm by by apply in_page_offset.
  - rewrite (uload_mkpte lo _ _ _ _ _ P F L'), (uload_mkpte lo _ _ _ _ _ P F L).
    by rewrite Hm by by apply in_page_offset.
Qed.

Lemma aspace_used lo s fl root t n v p f :
  kinv lo s fl → aspace lo s root t n → 0 ≤ v < Z.of_nat n → umap lo t v p f →
  ¬ node_page t p ∧ 0 < nump s (p / PGSIZE) ∧ p ∉ fl.
Proof.
  intros K [_ _ U] Hv Hu. destruct (U v Hv) as (p' & f' & Hu' & Hn & Hpos).
  destruct (umap_inj _ _ _ _ _ _ _ Hu Hu') as [<- <-]. split; [done|]. split; [done|].
  by apply (used_pos _ _ _ _ K (um_page _ _ _ _ _ Hu)).
Qed.

(** A view survives a frame that keeps its page. *)
Lemma uload_dframe lo T d s fl s' root t n va :
  kinv lo s fl → aspace lo s root t n → 0 ≤ va < Z.of_nat n * PGSIZE →
  dframe lo T d s fl s' →
  (∀ p f, umap lo t (vpn va) p f → ¬ T p ∧ 0 < nump s (p / PGSIZE) + d p) →
  ∃ p f, umap lo t (vpn va) p f ∧
    (∀ a, in_page p a → load8 (mem s') a = load8 (mem s) a) ∧
    uload (mem s') t va = uload (mem s) t va.
Proof.
  intros K A Hva D HT. pose proof (vpn_range _ _ Hva) as Hv.
  destruct (as_user _ _ _ _ _ A _ Hv) as (p & f & Hu & _ & _).
  destruct (aspace_used _ _ _ _ _ _ _ _ _ K A Hv Hu) as (_ & _ & Hpf).
  destruct (HT p f Hu) as [HnT Hpos].
  destruct (D p (um_page _ _ _ _ _ Hu) Hpf HnT Hpos) as [_ Hm].
  exists p, f. split; [done|]. split; [done|].
  eapply uload_cow; [done|lia|done|]. right. apply Hu.
Qed.

(** An address space keeps its pages and its view when only its page table
    and free pages change. *)
Lemma aspace_kept lo s fl root t n s' t' :
  kinv lo s fl → aspace lo s root t n → dframe lo (node_page t) dzero s fl s' →
  pt_repr lo s' root t' → pt_grow fl t t' →
  (∀ v, 0 ≤ v < Z.of_nat n → leaf t' !! v = leaf t !! v) →
  aspace lo s' root t' n ∧
  ∀ va, 0 ≤ va < Z.of_nat n * PGSIZE → uload (mem s') t' va = uload (mem s) t va.
Proof.
  intros K A D R' G Hl. split.
  - split; [done|apply A|]. intros v Hv. destruct (as_user _ _ _ _ _ A v Hv) as (p & f & Hu & _).
    destruct (aspace_used _ _ _ _ _ _ _ _ _ K A Hv Hu) as (Hn & Hpos & Hpf).
    pose proof Hu as [L P F V N]. exists p, f. split; [split; try done; by rewrite Hl|].
    split; [intros Hx; by destruct (pg_pages _ _ _ G p Hx)|].
    destruct (D p P Hpf Hn) as [-> _]; unfold dzero; lia.
  - intros va Hva. transitivity (uload (mem s') t va).
    + unfold uload. by rewrite Hl by by apply vpn_range.
    + edestruct (uload_dframe lo _ _ s fl s' root t n va K A Hva D) as (?&?&_&_&H); [|exact H].
      intros p f Hu. destruct (aspace_used _ _ _ _ _ _ _ _ _ K A (vpn_range _ _ Hva) Hu)
        as (? & ? & _). unfold dzero. split; [done|lia].
Qed.
