(* ===== verification/VmUser.v ===== *)
(** * Access to user memory from the kernel

    [walkaddr] and [copyin] (kernel/vm.c) against the user's view, and the
    error paths of [removecopy]. *)

From Stdlib Require Import ZArith Lia.
From stdpp Require Import base numbers list gmap strings tactics.
From S2P Require Import Prelude Riscv Mem Kalloc Vm VmTree VmOps VmView.

Local Open Scope Z_scope.

(** Every user mapping of the tree is a page of the allocator. *)
Definition user_ok (lo : Z) (t : ptree) : Prop :=
  ∀ v e, leaf t !! v = Some e → has e PTE_V = true → has e PTE_U = true →
    managed lo (PTE2PA e).

(** The physical page behind [va], 0 if there is none. *)
Definition upage (t : ptree) (va : Z) : Z :=
  let e := default 0 (leaf t !! vpn va) in
  if has e PTE_V && has e PTE_U then PTE2PA e else 0.

Lemma walkaddr_spec lo s fl root t va :
  kinv lo s fl → pt_repr lo s root t → 0 ≤ va →
  wp (walkaddr root va) (λ r s', r = upage t va ∧ s' = s) s.
Proof.
  intros K R Hva. unfold walkaddr. destruct (Z.leb_spec MAXVA va) as [Hge|Hlt].
  - wp_simp. split; [|done]. unfold upage. destruct (leaf t !! vpn va) as [e|] eqn:E; [|done].
    destruct (po_leaf _ _ _ (pr_ok _ _ _ _ R) _ _ E) as [Hv _]. rewrite MAXVA_val in Hge.
    unfold vpn, PGSIZE in Hv. dlia.
  - wp_simp. eapply wp_mono; [|by apply (walk_lookup lo s root t va)].
    intros r s' [-> ->]. destruct (Z.eqb_spec (pte_addr t va) 0) as [E0|E0].
    + wp_simp. split; [|done]. unfold upage. destruct (leaf t !! vpn va) as [e|] eqn:E; [|done].
      by destruct (pte_addr_mapped lo s root t va e R Hva E).
    + destruct (pte_addr_entry _ _ _ _ _ _ K R (conj Hva Hlt) E0) as (p & _ & _ & Hram & Hld).
      wp_simp. apply wp_rd64; [done|]. rewrite Hld. unfold upage. cbv zeta.
      destruct (has _ PTE_V); [|by wp_simp]. by destruct (has _ PTE_U); wp_simp.
Qed.

(** The user's view in terms of [upage]. *)
Lemma uload_upage lo t m va :
  user_ok lo t →
  uload m t va = if upage t va =? 0 then None else Some (load8 m (upage t va + va mod PGSIZE)).
Proof.
  intros H. unfold uload, upage. destruct (leaf t !! vpn va) as [e|] eqn:E; [|done].
  cbn [from_option id]. destruct (has e PTE_V) eqn:HV; [|done].
  destruct (has e PTE_U) eqn:HU; [|done]. simpl.
  pose proof (managed_nonzero _ _ (H _ _ E HV HU)). by test_false (PTE2PA e =? 0).
Qed.

(** Addresses of one page have the same [upage]. *)
Lemma upage_same t va va' : vpn va = vpn va' → upage t va = upage t va'.
Proof. intros E. unfold upage. by rewrite E. Qed.

Lemma load_bytes_lookup m a n i :
  (i < n)%nat → load_bytes m a n !! i = Some (load8 m (a + Z.of_nat i)).
Proof.
  revert a i. induction n as [|n IH]; intros a i Hi; [lia|]. simpl.
  destruct i as [|i]; simpl; [by rewrite Z.add_0_r|]. rewrite IH by lia.
  do 2 f_equal. lia.
Qed.
Lemma load_bytes_length m a n : length (load_bytes m a n) = n.
Proof. revert a. induction n as [|n IH]; intros a; simpl; [done|]. by rewrite IH. Qed.

Lemma page_bounds va :
  0 ≤ va → 0 ≤ PGSIZE * (va / PGSIZE) ≤ va ∧ va < PGSIZE * (va / PGSIZE) + PGSIZE.
Proof. intros. unfold PGSIZE. dlia. Qed.

Lemma same_page va i :
  0 ≤ va → 0 ≤ i → va - PGSIZE * (va / PGSIZE) + i < PGSIZE →
  (va + i) / PGSIZE = va / PGSIZE ∧
  va - PGSIZE * (va / PGSIZE) + i = (va + i) mod PGSIZE.
Proof. intros. unfold PGSIZE in *. dlia. Qed.

(** ** copyin *)

Section copyin.
Context (lo root : Z) (s : kst) (fl : list Z) (t : ptree) (srcva len : Z).
Context (K : kinv lo s fl) (R : pt_repr lo s root t) (U : user_ok lo t).
Context (Hsrc : 0 ≤ srcva) (Hlen : 0 ≤ len) (Hmax : srcva + len + PGSIZE < 2^64).

(** [dst] holds the user bytes from [srcva] on. *)
Definition reads (dst : list Z) : Prop :=
  ∀ i b, dst !! i = Some b → uload (mem s) t (srcva + Z.of_nat i) = Some b.

Definition copyin_inv (a : list Z * Z * Z) (s' : kst) : Prop :=
  let '(dst, va, rest) := a in
  s' = s ∧ reads dst ∧ 0 ≤ rest ∧ Z.of_nat (length dst) + rest = len ∧
  (0 < rest → va = srcva + Z.of_nat (length dst)).

Lemma reads_app dst bs va :
  reads dst → va = srcva + Z.of_nat (length dst) → upage t va ≠ 0 →
  (∀ i b, bs !! i = Some b → vpn (va + Z.of_nat i) = vpn va ∧
     b = load8 (mem s) (upage t va + (va + Z.of_nat i) mod PGSIZE)) →
  reads (dst ++ bs).
Proof using U.
  intros Hd -> Hne Hb i b Hi. apply lookup_app_Some in Hi as [Hi|[Hge Hi]]; [by apply Hd|].
  destruct (Hb _ _ Hi) as [Hv ->].
  replace (srcva + Z.of_nat (length dst) + Z.of_nat (i - length dst))
    with (srcva + Z.of_nat i) in * by lia.
  rewrite (uload_upage lo) by done. rewrite (upage_same t _ _ Hv).
  destruct (Z.eqb_spec (upage t (srcva + Z.of_nat (length dst))) 0); [done|].
  do 3 f_equal.
Qed.

Lemma upage_managed va : upage t va ≠ 0 → managed lo (upage t va).
Proof using U.
  unfold upage. destruct (leaf t !! vpn va) as [e|] eqn:E; [|done]. cbn [from_option id].
  destruct (has e PTE_V) eqn:HV; [|done]. destruct (has e PTE_U) eqn:HU; [|done].
  intros _. by apply (U _ _ E).
Qed.

Lemma copyin_spec :
  wp (copyin root srcva len) (λ '(r, dst) s', s' = s ∧
    (r = 0 ∧ Z.of_nat (length dst) = len ∧ reads dst ∨
     r = -1 ∧ ∃ i, 0 ≤ i < len ∧ uload (mem s) t (srcva + i) = None)) s.
Proof using All.
  unfold copyin. apply (wp_loop _ copyin_inv (λ '(_, _, rest), Z.to_nat rest)).
  2: { split; [done|]. split; [by intros i b|]. simpl. split; [lia|split; [lia|lia]]. }
  2: { lia. }
  intros [[dst va] rest] s1 (-> & Hd & Hr0 & Hsum & Hva).
  destruct (Z.ltb_spec 0 rest) as [Hpos|Hz].
  2: { wp_simp. split; [done|]. left. split; [done|]. split; [lia|done]. }
  specialize (Hva Hpos). assert (0 ≤ va < 2^64) as Hvr by (unfold PGSIZE in *; lia).
  rewrite (PGROUNDDOWN_spec va) by done. set (va0 := PGSIZE * (va / PGSIZE)).
  assert (vpn va0 = vpn va) as Hvpn by (unfold vpn, va0; by rewrite Z.mul_comm, Z.div_mul).
  assert (0 ≤ va0 ≤ va ∧ va < va0 + PGSIZE) as Hva0
    by (apply page_bounds; lia).
  cbv zeta. wp_simp. eapply wp_mono; [|apply (walkaddr_spec lo s fl root t va0 K R); lia].
  intros r s2 [-> ->]. rewrite (upage_same t _ _ Hvpn).
  destruct (Z.eqb_spec (upage t va) 0) as [E|E].
  { wp_simp. split; [done|]. right. split; [done|]. exists (Z.of_nat (length dst)).
    split; [lia|]. rewrite <- Hva, (uload_upage lo) by done.
    by destruct (Z.eqb_spec (upage t va) 0). }
  set (n := if rest <? PGSIZE - (va - va0) then rest else PGSIZE - (va - va0)).
  assert (0 < n ≤ rest ∧ va - va0 + n ≤ PGSIZE) as Hn.
  { unfold n. destruct (Z.ltb_spec rest (PGSIZE - (va - va0))); lia. }
  pose proof (upage_managed va E) as Hm.
  wp_simp. unfold wp, rd_bytes. rewrite Z2Nat.id by lia.
  rewrite (managed_ram lo (upage t va)) by (done || lia). cbv beta iota.
  split; [|rewrite ?length_app; lia].
  split; [done|]. rewrite length_app, load_bytes_length. split; [|split; [lia|split; [lia|]]].
  - eapply reads_app; [done|exact Hva|done|]. intros i b Hi.
    pose proof (lookup_lt_Some _ _ _ Hi) as Hlt. rewrite load_bytes_length in Hlt.
    rewrite load_bytes_lookup in Hi by done. injection Hi as <-.
    destruct (same_page va (Z.of_nat i)) as [Hq <-]; [lia..|fold va0; lia|].
    split; [done|]. f_equal. fold va0. lia.
  - intros Hmore. unfold n in *.
    destruct (Z.ltb_spec rest (PGSIZE - (va - va0))); [lia|].
    rewrite u64_small by (unfold PGSIZE in *; lia). lia.
Qed.
End copyin.

(** [copyin] copies exactly the bytes the user sees: it returns 0 and the
    bytes of the range when every address of the range is mapped for the user,
    and -1 only when some address is not; it changes nothing and never reads
    outside RAM. *)
Theorem copyin_correct lo root s fl t srcva len :
  kinv lo s fl → pt_repr lo s root t → user_ok lo t →
  0 ≤ srcva → 0 ≤ len → srcva + len + PGSIZE < 2^64 →
  wp (copyin root srcva len) (λ '(r, dst) s', s' = s ∧
    (r = 0 ∧ Z.of_nat (length dst) = len ∧
       (∀ i b, dst !! i = Some b → uload (mem s) t (srcva + Z.of_nat i) = Some b) ∨
     r = -1 ∧ ∃ i, 0 ≤ i < len ∧ uload (mem s) t (srcva + i) = None)) s.
Proof. intros. by eapply copyin_spec. Qed.

(** ** The error paths of removecopy *)

(** The size test of [removecopy] never holds for a page-aligned size. *)
Lemma removecopy_guard va sz :
  0 ≤ va → va mod PGSIZE = 0 → 0 ≤ sz < 2^64 → sz mod PGSIZE = 0 →
  negb (sz =? 0) && ((u64 (sz - PGSIZE) <? va) && (va <? sz)) = false.
Proof.
  intros Hva Hal Hsz Hsal. destruct (Z.eqb_spec sz 0) as [|Hne]; [done|]. simpl.
  rewrite u64_small by (unfold PGSIZE in *; dlia).
  apply andb_false_iff. unfold PGSIZE in *.
  destruct (Z.ltb_spec va sz); [left|by right]. apply Z.ltb_ge. dlia.
Qed.


Lemma wp_exact {S A} (m : M S A) s a s' : wp m (λ r s'', r = a ∧ s'' = s') s → m s = Ret (a, s').
Proof. intros (r & s'' & E & -> & ->)%wp_returns. done. Qed.

(** What [removecopy] does when it cannot make a private copy.  An address
    beyond the address space and a page that is not a valid copy-on-write page
    give 1 and change nothing; when no memory is left it panics; and when the
    page table has no leaf table for the address, [walk] returns the null
    pointer and the kernel dereferences it. *)
Theorem removecopy_error_paths lo s fl root t va sz :
  kinv lo s fl → pt_repr lo s root t → 0 ≤ va < 2^64 → va mod PGSIZE = 0 →
  0 ≤ sz < 2^64 → sz mod PGSIZE = 0 →
  let e := default 0 (leaf t !! vpn va) in
  (MAXVA ≤ va → removecopy root va sz s = Ret (1, s)) ∧
  (va < MAXVA → pte_addr t va = 0 → removecopy root va sz s = Fault "load") ∧
  (va < MAXVA → pte_addr t va ≠ 0 → has e PTE_V && has e PTE_COW = false →
     removecopy root va sz s = Ret (1, s)) ∧
  (va < MAXVA → pte_addr t va ≠ 0 → has e PTE_V && has e PTE_COW = true → fl = [] →
     removecopy root va sz s = Panic "removecopy: kalloc error").
Proof.
  intros K R Hva Hal Hsz Hsal e. unfold removecopy. cbv zeta.
  rewrite page_va_round by done. rewrite removecopy_guard by (done || lia).
  assert (va < MAXVA → walk root va false s = Ret (pte_addr t va, s)) as Hwalk.
  { intros Hlt. apply wp_exact. by apply (walk_lookup lo); [|lia]. }
  assert (va < MAXVA → pte_addr t va ≠ 0 → rd64 (pte_addr t va) s = Ret (e, s)) as Hread.
  { intros Hlt Hne. destruct (pte_addr_entry _ _ _ _ _ _ K R (conj (proj1 Hva) Hlt) Hne)
      as (p & _ & _ & Hram & Hld). unfold rd64. by rewrite Hram, Hld. }
  split; [|split; [|split]].
  - intros Hge. by test_true (MAXVA <=? va).
  - intros Hlt H0. test_false (MAXVA <=? va). unfold bind. rewrite (Hwalk Hlt), H0. done.
  - intros Hlt Hne Hb. test_false (MAXVA <=? va). unfold bind.
    rewrite (Hwalk Hlt), (Hread Hlt Hne). rewrite <- negb_andb, Hb. done.
  - intros Hlt Hne Hb ->. test_false (MAXVA <=? va). unfold bind.
    rewrite (Hwalk Hlt), (Hread Hlt Hne). rewrite <- negb_andb, Hb. simpl.
    pose proof (wp_exact kalloc s 0 s (kalloc_spec lo s [] K)) as ->. done.
Qed.
