(* ===== verification/VmAlloc.v ===== *)
(** * Creating and growing address spaces

    [uvmcreate] and [uvmalloc] (kernel/vm.c): the empty page table, and
    growing an address space by fresh zeroed pages, all or nothing. *)

From Stdlib Require Import ZArith Lia.
From stdpp Require Import base numbers list gmap strings tactics.
From S2P Require Import Prelude Riscv Mem Kalloc Vm VmTree VmOps VmView.

Local Open Scope Z_scope.

(** ** The empty page table *)

Definition pt_empty (root : Z) : ptree := PT {[(2%nat, 0) := root]} ∅.

Lemma pt_empty_ok lo root : managed lo root → pt_ok lo root (pt_empty root).
Proof.
  intros Hm. split; simpl.
  - apply lookup_singleton_eq.
  - intros l k p [[= <- <-] <-]%lookup_singleton_Some. split; [lia|]. split; [lia|done].
  - intros l k p [[= <- <-] <-]%lookup_singleton_Some. lia.
  - intros v e. by rewrite lookup_empty.
  - intros n1 n2 p [<- _]%lookup_singleton_Some [<- _]%lookup_singleton_Some. done.
  - intros n p [_ <-]%lookup_singleton_Some. done.
Qed.

Lemma pt_empty_nodes root q : node_page (pt_empty root) q ↔ q = root.
Proof.
  split.
  - intros [n Hn]. simpl in Hn. by apply lookup_singleton_Some in Hn as [_ <-].
  - intros ->. exists (2%nat, 0). apply lookup_singleton_eq.
Qed.

(** Zeroing a page that is not free. *)
Lemma kmemset_page lo s fl q :
  kinv lo s fl → managed lo q → q ∉ fl →
  wp (kmemset q 0 PGSIZE) (λ _ s',
    kinv lo s' fl ∧ kframe (λ r, r = q) s fl s' fl ∧ nump_using s' = nump_using s ∧
    ∀ a, in_page q a → load8 (mem s') a = 0) s.
Proof.
  intros K Hq Hqf. apply wp_kmemset; [by eapply managed_page_ram|].
  assert (∀ a, load8 (memset (mem s) q 0 PGSIZE) a =
    if (q <=? a) && (a <? q + PGSIZE) then 0 else load8 (mem s) a) as Hms.
  { intros a. destruct Hq as (_&?&?&_). unfold PHYSTOP, KERNBASE, PGSIZE in *.
    by rewrite load8_memset by lia. }
  destruct (kframe_write (λ r, r = q) lo s fl q (λ m, memset m q 0 PGSIZE) K Hq Hqf eq_refl)
    as [F K'].
  - intros a Ha. rewrite Hms. unfold in_page in Ha. by zcases.
  - apply mem_bytes_memset, K.
  - split; [done|]. split; [done|]. split; [done|]. intros a Ha. simpl. rewrite Hms.
    unfold in_page in Ha. by zcases.
Qed.

Lemma uvmcreate_spec lo s fl :
  kinv lo s fl →
  wp uvmcreate (λ r s',
    (r = 0 ∧ fl = [] ∧ s' = s) ∨
    (∃ fl', fl = r :: fl' ∧ kinv lo s' fl' ∧ kframe no_page s fl s' fl' ∧
            pt_repr lo s' r (pt_empty r))) s.
Proof.
  intros K. unfold uvmcreate. wp_simp. eapply wp_mono; [|by apply kalloc_frame].
  intros r s1 [(-> & -> & ->)|(fl' & -> & K1 & F1 & Hr & Hrf & Hr1)].
  { simpl. wp_simp. by left. }
  pose proof (managed_nonzero _ _ Hr). test_false (r =? 0). wp_simp.
  eapply wp_mono; [|by apply (kmemset_page lo s1 fl' r)].
  intros _ s2 (K2 & F2 & Hn2 & Hz). wp_simp. right. exists fl'.
  split; [done|]. split; [done|]. split.
  - eapply kframe_trans; [exact F1|exact F2|by intros q []|]. intros q ->. right. by left.
  - split; [by apply pt_empty_ok| |].
    + intros l k p i Hn Hi. simpl in Hn. apply lookup_singleton_Some in Hn as [[= <- <-] <-]. simpl.
      rewrite lookup_singleton_ne by done. simpl. apply load64_zero. intros b Hb.
      apply Hz. unfold in_page, PGSIZE. lia.
    + intros q ->%pt_empty_nodes. unfold nump in *. by rewrite Hn2.
Qed.

(** ** Shrinking *)

Lemma PGROUNDUP_page v : 0 ≤ v ≤ 2^26 → PGROUNDUP (v * PGSIZE) = v * PGSIZE.
Proof. intros Hv. unfold PGSIZE in *. rewrite PGROUNDUP_spec by (unfold PGSIZE; lia). unfold PGSIZE. dlia. Qed.

Section uvmdealloc.
Context (lo root : Z) (s : kst) (fl : list Z) (t : ptree) (v0 : Z) (n : nat).
Context (Hk : kinv lo s fl) (Hr : pt_repr lo s root t).
Context (Hv0 : 0 ≤ v0) (Hvn : v0 + Z.of_nat n ≤ 2^26).
Context (Hmap : ∀ v, v0 ≤ v < v0 + Z.of_nat n → unmappable lo true t v).
Context (Hocc : ∀ q, managed lo q → occ q (upages t v0 n) ≤ nump s (q / PGSIZE)).

(** The pages between the two sizes are unmapped and lose one user each. *)
Lemma uvmdealloc_spec oldsz newsz :
  newsz ≤ oldsz → PGROUNDUP newsz = v0 * PGSIZE →
  PGROUNDUP oldsz = (v0 + Z.of_nat n) * PGSIZE →
  wp (uvmdealloc root oldsz newsz) (λ r s', r = newsz ∧ ∃ fl' t',
    kinv lo s' fl' ∧ pt_repr lo s' root t' ∧ unmapped t v0 n t' ∧
    dframe lo (node_page t) (freed true t v0 n) s fl s') s.
Proof using All.
  intros Hle Hnew Hold. unfold uvmdealloc. rewrite Hnew, Hold.
  assert (n = 0%nat → unmapped t v0 n t ∧ dframe lo (node_page t) (freed true t v0 n) s fl s)
    as Hzero.
  { intros ->. split; [split; [done|intros w; by zcases]|].
    eapply dframe_mono; [| |apply (dframe_refl lo (node_page t))]; [by left|done]. }
  destruct (Z.leb_spec oldsz newsz) as [Hge|Hlt].
  { wp_simp. assert (oldsz = newsz) as -> by lia. split; [done|]. exists fl, t.
    rewrite Hold in Hnew. destruct Hzero; [unfold PGSIZE in *; lia|done]. }
  wp_simp. destruct (Z.ltb_spec (v0 * PGSIZE) ((v0 + Z.of_nat n) * PGSIZE)) as [Hlt'|Hge].
  - replace (u64 (s32 (((v0 + Z.of_nat n) * PGSIZE - v0 * PGSIZE) / PGSIZE)))
      with (Z.of_nat n).
    2: { replace ((v0 + Z.of_nat n) * PGSIZE - v0 * PGSIZE) with (Z.of_nat n * PGSIZE) by lia.
      rewrite Z.div_mul by done. rewrite s32_small, u64_small; lia. }
    eapply wp_mono; [|by apply (uvmunmap_spec lo root true s fl t v0 n)].
    intros ? s' Hpost. wp_simp. done.
  - wp_simp. split; [done|]. exists fl, t. destruct Hzero; [unfold PGSIZE in *; lia|done].
Qed.
End uvmdealloc.

(** ** Growing *)

(** The flags of a page added by [uvmalloc]. *)
Definition alloc_flags (xperm : Z) : Z := Z.lor (Z.lor (Z.lor PTE_R PTE_U) xperm) PTE_V.

Lemma alloc_flags_ok xperm : 0 ≤ xperm < 1024 →
  0 ≤ alloc_flags xperm < 1024 ∧ has (alloc_flags xperm) PTE_V = true ∧
  has (alloc_flags xperm) PTE_U = true ∧ alloc_flags xperm ≠ PTE_V.
Proof.
  intros Hx.
  assert (∀ b, 0 ≤ b → Z.testbit (alloc_flags xperm) b =
    Z.testbit (Z.lor PTE_R PTE_U) b || Z.testbit xperm b || Z.testbit PTE_V b) as Hb.
  { intros b ?. unfold alloc_flags. by rewrite !Z.lor_spec. }
  split; [|split; [|split]].
  - unfold alloc_flags. change 1024 with (2^10).
    apply lor_range; [apply lor_range|..]; done || lia.
  - unfold PTE_V. rewrite has_bit, Hb by lia. rewrite orb_true_r. done.
  - unfold PTE_U. rewrite has_bit, Hb by lia. done.
  - intros E. specialize (Hb 1 ltac:(lia)). rewrite E in Hb. done.
Qed.

Section uvmalloc.
Context (lo root : Z) (s : kst) (fl : list Z) (t : ptree) (xperm oldsz newsz v0 : Z) (n : nat).
Context (Hk : kinv lo s fl) (Hr : pt_repr lo s root t) (Hx : 0 ≤ xperm < 1024).
Context (Hv0 : 0 ≤ v0) (Hvn : v0 + Z.of_nat n ≤ 2^26).
Context (Hold : 0 ≤ oldsz ≤ newsz) (Hv0sz : PGROUNDUP oldsz = v0 * PGSIZE).
Context (Hnsz : ∀ k, v0 ≤ k → k * PGSIZE < newsz ↔ k < v0 + Z.of_nat n).
Context (Hinvalid : ∀ v, v0 ≤ v < v0 + Z.of_nat n →
  has (default 0 (leaf t !! v)) PTE_V = false).

(** The pages [ps] were taken from the free list, zeroed and mapped. *)
Record alloc_inv (ps : list Z) (s' : kst) (f' : list Z) (t' : ptree) : Prop := AllocInv {
  ai_inv : kinv lo s' f';
  ai_repr : pt_repr lo s' root t';
  ai_grow : pt_grow fl t t';
  ai_free : ∀ q, q ∈ f' → q ∈ fl;
  ai_frame : dframe lo (node_page t) dzero s fl s';
  ai_nodup : NoDup ps;
  ai_page : ∀ p, p ∈ ps → p ∈ fl ∧ nump s' (p / PGSIZE) = 1 ∧ ¬ node_page t' p ∧
    ∀ a, in_page p a → load8 (mem s') a = 0;
  ai_leaf : ∀ i p, ps !! i = Some p → leaf t' !! (v0 + Z.of_nat i) = Some (mkpte p (alloc_flags xperm));
  ai_rest : ∀ v, ¬ (v0 ≤ v < v0 + Z.of_nat (length ps)) → leaf t' !! v = leaf t !! v;
}.

Lemma alloc_pages ps s' f' t' :
  alloc_inv ps s' f' t' → upages t' v0 (length ps) = ps.
Proof using All.
  intros H. pose proof (ai_page _ _ _ _ H) as Hp. pose proof (ai_leaf _ _ _ _ H) as Hl.
  clear - Hx Hp Hl Hk. revert v0 Hl. induction ps as [|p ps IH]; intros v Hl; [done|].
  simpl length. simpl upages. pose proof (Hl 0%nat p eq_refl) as E.
  rewrite Z.add_0_r in E. rewrite E. cbn [from_option id].
  destruct (Hp p) as [Hin _]; [by left|].
  rewrite (mkpte_pa (ki_managed _ _ _ Hk p Hin)) by by apply alloc_flags_ok. f_equal.
  apply IH; [intros q Hq; apply Hp; by right|]. intros i q Hi.
  rewrite <- (Hl (S i) q Hi). f_equal. lia.
Qed.

(** Undoing the allocation. *)
Definition alloc_undone (s' : kst) : Prop := ∃ f' t',
  kinv lo s' f' ∧ pt_repr lo s' root t' ∧ pt_grow fl t t' ∧
  (∀ v, has (default 0 (leaf t' !! v)) PTE_V = has (default 0 (leaf t !! v)) PTE_V) ∧
  (∀ v, ¬ (v0 ≤ v < v0 + Z.of_nat n) → leaf t' !! v = leaf t !! v) ∧
  dframe lo (node_page t) dzero s fl s'.

Lemma alloc_undo ps s' f' t' :
  alloc_inv ps s' f' t' → (length ps ≤ n)%nat →
  wp (uvmdealloc root ((v0 + Z.of_nat (length ps)) * PGSIZE) (v0 * PGSIZE))
     (λ _ s'', alloc_undone s'') s'.
Proof using All.
  intros H Hlen. pose proof (alloc_pages _ _ _ _ H) as Hup.
  pose proof H as [K R G SF D ND Pg Lf Rs].
  pose proof (alloc_flags_ok xperm Hx) as (Hfr & HV & _ & Hd).
  eapply wp_mono; [|eapply (uvmdealloc_spec lo root s' f' t' v0 (length ps));
    [done..|lia| | | | |]].
  - intros _ s'' (_ & f'' & t'' & K'' & R'' & [Hn Hl] & D''). exists f'', t''.
    split; [done|]. split; [done|]. split; [|split; [|split]].
    + destruct G as [Gn Gp]. split; [by rewrite Hn|]. intros q [x Hq]. rewrite Hn in Hq.
      apply Gp. by exists x.
    + intros v. rewrite Hl. destruct ((v0 <=? v) && _) eqn:E; bool_to_prop.
      * by rewrite Hinvalid by lia.
      * rewrite Rs; [done|]. apply andb_false_iff in E as [E|E]; bool_to_prop; lia.
    + intros v Hv. rewrite Hl, Rs by lia. by zcases.
    + eapply (dframe_trans lo _ _ (λ q, node_page t' q ∨ q ∈ ps));
        [exact Hk|exact K|exact D| |done|..].
      * eapply (dframe_weaken lo (node_page t') _ _ dzero); [by auto| |exact D''].
        intros q _ Hq. unfold freed. rewrite Hup, occ_notin; [done|auto].
      * intros q [Hq|Hq]; [by apply (pg_pages _ _ _ G)|]. right. by apply Pg.
      * done.
      * intros q. by left.
  - intros v Hv. destruct (lookup_lt_is_Some_2 ps (Z.to_nat (v - v0))) as [p Hp]; [lia|].
    pose proof (Lf _ _ Hp) as Hl. rewrite Z2Nat.id in Hl by lia.
    replace (v0 + (v - v0)) with v in Hl by lia.
    assert (p ∈ ps) as Hin by by eapply list_elem_of_lookup_2.
    destruct (Pg p Hin) as (Hpfl & _ & Hpn & _).
    pose proof (ki_managed _ _ _ Hk p Hpfl) as Hm. exists (mkpte p (alloc_flags xperm)).
    split; [done|]. rewrite (mkpte_V Hm Hfr), (mkpte_flags Hm Hfr), (mkpte_pa Hm Hfr). done.
  - intros q Hq. rewrite Hup. destruct (decide (q ∈ ps)) as [Hin|Hnin].
    + destruct (Pg q Hin) as (_ & -> & _). by apply occ_nodup.
    + rewrite occ_notin by done. by apply (ki_count _ _ _ K).
  - unfold PGSIZE. lia.
  - apply PGROUNDUP_page. lia.
  - apply PGROUNDUP_page. lia.
Qed.

(** What the pages [ps] keep when free pages and page-table pages change. *)
Lemma alloc_kept ps s' f' t' T s'' f'' t'' :
  alloc_inv ps s' f' t' → kinv lo s'' f'' → kframe T s' f' s'' f'' → pt_grow f' t' t'' →
  (∀ q, T q → node_page t' q ∨ q ∈ f') → (∀ q, q ∈ f'' → q ∈ f') →
  pt_grow fl t t'' ∧ (∀ q, q ∈ f'' → q ∈ fl) ∧ dframe lo (node_page t) dzero s fl s'' ∧
  ∀ p, p ∈ ps → p ∈ fl ∧ (p ∉ f') ∧ nump s'' (p / PGSIZE) = 1 ∧ ¬ node_page t'' p ∧
    ∀ a, in_page p a → load8 (mem s'') a = 0.
Proof using All.
  intros [K R G SF D ND Pg Lf Rs] K'' F'' G'' HT Hsub.
  split; [by eapply pt_grow_trans|]. split; [auto|]. split.
  - eapply (dframe_trans lo _ _ T); [exact Hk|exact K|exact D|by eapply kframe_dframe|done|..].
    + intros q Hq. destruct (HT q Hq) as [Hn|Hf]; [by apply (pg_pages _ _ _ G)|right; auto].
    + done.
    + intros q. by left.
  - intros p Hp. destruct (Pg p Hp) as (Hpf & Hn1 & Hnp & Hz).
    pose proof (ki_managed _ _ _ Hk p Hpf) as Hm.
    assert (p ∉ f') as Hnf by (apply (used_pos _ _ _ _ K Hm); lia).
    assert (¬ T p) as HnT by (intros Ht; destruct (HT p Ht); done).
    split; [done|]. split; [done|]. split; [|split].
    + rewrite (kf_nump _ _ _ _ _ F'' p); [done|apply Hm|done..].
    + intros Hx'. destruct (pg_pages _ _ _ G'' p Hx'); done.
    + intros a Ha. rewrite (kf_mem _ _ _ _ _ F'' p); [by apply Hz|apply Hm|done..].
Qed.

(** Taking and zeroing a page. *)
Lemma alloc_take ps s' m f1 t' :
  alloc_inv ps s' (m :: f1) t' →
  wp (kalloc) (λ r s1, r = m ∧ wp (kmemset m 0 PGSIZE) (λ _ s2,
    kinv lo s2 f1 ∧ pt_repr lo s2 root t' ∧ managed lo m ∧ (m ∉ f1) ∧ ¬ node_page t' m ∧
    nump s2 (m / PGSIZE) = 1 ∧ (∀ a, in_page m a → load8 (mem s2) a = 0) ∧
    kframe no_page s' (m :: f1) s2 f1) s1) s'.
Proof using All.
  intros [K R G SF D ND Pg Lf Rs].
  eapply wp_mono; [|by apply kalloc_frame].
  intros r s1 [(_ & ? & _)|(f1' & [= <- <-] & K1 & F1 & Hm & Hmf & Hm1)]; [done|].
  split; [done|]. eapply wp_mono; [|by apply (kmemset_page lo s1 f1 m)].
  intros _ s2 (K2 & F2 & Hn2 & Hz).
  assert (¬ node_page t' m) as Hnm.
  { intros Hx'. destruct (node_used _ _ _ _ _ _ K R Hx') as [_ []]. by left. }
  split; [done|]. split; [|split; [done|split; [done|split; [done|split; [|split; [done|]]]]]].
  - eapply pt_repr_frame; [exact K1|exact F2|by intros q Hq ->|].
    eapply pt_repr_frame; [exact K|exact F1|by intros q Hq []|done].
  - unfold nump in *. by rewrite Hn2.
  - eapply kframe_trans; [exact F1|exact F2|by intros q []|]. intros q ->. right. by left.
Qed.

(** After the fresh page [m] and page-table pages were taken. *)
Lemma alloc_mapped ps s' m f1 t' s2 s3 f3 t3 :
  alloc_inv ps s' (m :: f1) t' → kinv lo s2 f1 → kframe no_page s' (m :: f1) s2 f1 →
  m ∉ f1 → nump s2 (m / PGSIZE) = 1 → (∀ a, in_page m a → load8 (mem s2) a = 0) →
  ¬ node_page t' m → walk_post lo root s2 f1 t' s3 f3 t3 →
  ¬ node_page t3 m ∧ (m ∉ f3) ∧ nump s3 (m / PGSIZE) = 1 ∧
  (∀ a, in_page m a → load8 (mem s3) a = 0) ∧
  pt_grow (m :: f1) t' t3 ∧ kframe (node_page t') s' (m :: f1) s3 f3.
Proof using All.
  intros [K R G SF D ND Pg Lf Rs] K2 F2 Hmf Hm1 Hz Hnm [K3 R3 G3 F3 S3].
  pose proof (ki_managed _ _ _ K m ltac:(by left)) as (_ & _ & _ & Hm).
  split; [|split; [|split; [|split; [|split]]]].
  - intros Hx'. destruct (pg_pages _ _ _ G3 m Hx'); done.
  - intros Hin. apply Hmf. destruct S3 as [pre ->]. apply elem_of_app. by right.
  - by rewrite (kf_nump _ _ _ _ _ F3 m).
  - intros a Ha. rewrite (kf_mem _ _ _ _ _ F3 m); auto.
  - destruct G3 as [N3 P3]. split; [done|]. intros q Hq.
    destruct (P3 q Hq); [by left|right; by right].
  - eapply kframe_trans; [exact F2|exact F3|by intros q []|by auto].
Qed.

Lemma alloc_extend ps s' m f1 t' s3 f3 t3 :
  alloc_inv ps s' (m :: f1) t' → kinv lo s3 f3 → pt_repr lo s3 root t3 →
  kframe (node_page t') s' (m :: f1) s3 f3 → pt_grow (m :: f1) t' t3 →
  f3 `suffix_of` f1 → nump s3 (m / PGSIZE) = 1 → ¬ node_page t3 m →
  (∀ a, in_page m a → load8 (mem s3) a = 0) →
  leaf t3 = <[v0 + Z.of_nat (length ps) := mkpte m (alloc_flags xperm)]> (leaf t') →
  alloc_inv (ps ++ [m]) s3 f3 t3.
Proof using All.
  intros H K3 R3 F3 G3 [pre ->] Hm1 Hmn Hz Hl. pose proof H as [K R G SF D ND Pg Lf Rs].
  destruct (alloc_kept ps s' (m :: pre ++ f3) t' _ s3 f3 t3 H K3 F3 G3) as (G4 & SF4 & D4 & P4).
  { by left. }
  { intros q Hq. right. apply elem_of_app. by right. }
  split; try done.
  - apply list.NoDup_app. split; [done|]. split; [|apply list.NoDup_singleton].
    intros p Hp ->%list_elem_of_singleton. destruct (P4 m Hp) as (_ & Hnin & _).
    apply Hnin. by left.
  - intros p [Hp| ->%list_elem_of_singleton]%elem_of_app.
    + destruct (P4 p Hp) as (? & _ & ? & ? & ?). done.
    + split; [|done]. apply SF. by left.
  - intros i p Hi. rewrite Hl. apply lookup_snoc_Some in Hi as [[Hlt Hi]|[-> <-]].
    + rewrite lookup_insert_ne by lia. by apply Lf.
    + by rewrite lookup_insert_eq.
  - intros v Hv. rewrite length_app in Hv. simpl in Hv. rewrite Hl, lookup_insert_ne by lia.
    apply Rs. lia.
Qed.

Definition alloc_body (a : Z) : M kst (Z + Z) :=
  let* mem := kalloc in
  if mem =? 0 then
    uvmdealloc root a (v0 * PGSIZE) ;;; ret (inr 0)
  else
    kmemset mem 0 PGSIZE ;;;
    let* r := mappages root a PGSIZE mem (Z.lor (Z.lor PTE_R PTE_U) xperm) in
    if negb (r =? 0) then
      kfree mem ;;; uvmdealloc root a (v0 * PGSIZE) ;;; ret (inr 0)
    else ret (inl (u64 (a + PGSIZE))).

Definition allocated (k : nat) (s' : kst) : Prop :=
  ∃ ps f' t', length ps = k ∧ alloc_inv ps s' f' t'.

Lemma alloc_step k s' :
  (k < n)%nat → allocated k s' →
  wp (alloc_body ((v0 + Z.of_nat k) * PGSIZE))
     (λ r s'', r = inl ((v0 + Z.of_nat (S k)) * PGSIZE) ∧ allocated (S k) s'' ∨
               r = inr 0 ∧ alloc_undone s'') s'.
Proof using All.
  intros Hkn (ps & f' & t' & <- & H). pose proof H as [K R G SF D ND Pg Lf Rs].
  set (v := v0 + Z.of_nat (length ps)) in *. set (a := v * PGSIZE).
  destruct (page_va_range v) as [Hva Hal]; [lia|]. fold a in Hva, Hal.
  assert (vpn a = v) as Hvpn by apply vpn_page.
  unfold alloc_body. wp_simp. destruct f' as [|m f1].
  { eapply wp_mono; [|by apply kalloc_frame].
    intros r s1 [(-> & _ & ->)|(? & ? & _)]; [|done]. simpl.
    wp_simp. eapply wp_mono; [|eapply alloc_undo; [done|lia]].
    intros ? s2 ?. wp_simp. by right. }
  eapply wp_mono; [|by apply (alloc_take ps s' m f1 t')]. intros r s1 [-> Hw].
  pose proof (ki_managed _ _ _ K m ltac:(by left)) as Hm.
  pose proof (managed_nonzero _ _ Hm). test_false (m =? 0).
  wp_simp. eapply wp_mono; [|exact Hw].
  intros _ s2 (K2 & R2 & _ & Hmf & Hnm & Hm1 & Hz & F2). wp_simp.
  eapply wp_mono; [|eapply (mappages_page lo s2 f1 root t' a m); [done..| |]].
  2: { change 1024 with (2^10). apply lor_range; done || lia. }
  2: { rewrite Hvpn, Rs by lia. apply Hinvalid. lia. }
  intros r s3 (f3 & t3 & Hwp & Hres).
  pose proof (alloc_mapped ps s' m f1 t' s2 s3 f3 t3 H K2 F2 Hmf Hm1 Hz Hnm Hwp)
    as (Hmn & Hmf3 & Hm3 & Hz3 & G3 & F3). pose proof Hwp as [K3 R3 _ _ S3].
  destruct Hres as [[-> Hl3]|(-> & Hl3 & ->)]; simpl negb; cbv iota.
  - wp_simp. left. split.
    { f_equal. rewrite MAXVA_val in Hva. subst a v. unfold PGSIZE in *.
      rewrite u64_small; lia. }
    exists (ps ++ [m]), f3, t3. split; [rewrite length_app; simpl; lia|].
    rewrite Hvpn in Hl3. change (Z.lor (Z.lor (Z.lor PTE_R PTE_U) xperm) PTE_V)
      with (alloc_flags xperm) in Hl3.
    by eapply (alloc_extend ps s' m f1 t').
  - wp_simp. eapply wp_mono; [|by apply (kfree_frame lo s3 [] m)].
    intros _ s4 (f4 & K4 & F4 & _ & E4 & _). rewrite (E4 Hm3) in *. clear f4 E4.
    wp_simp. eapply wp_mono; [|eapply (alloc_undo ps s4 [m] t3); [|lia]].
    { intros ? s5 ?. wp_simp. by right. }
    assert (kframe (λ q, q = m ∨ node_page t' q) s' (m :: f1) s4 [m]) as F.
    { eapply kframe_trans; [exact F3|exact F4|by auto|]. intros q ->. by left; left. }
    destruct (alloc_kept ps s' (m :: f1) t' _ s4 [m] t3 H K4 F G3) as (G4 & SF4 & D4 & P4).
    { intros q [->|?]; [right; by left|by left]. }
    { intros q ->%list_elem_of_singleton. by left. }
    split; try done.
    + eapply pt_repr_frame; [exact K3|exact F4| |done]. by intros q Hq ->.
    + intros p Hp. destruct (P4 p Hp) as (? & _ & ? & ? & ?). done.
    + intros i p Hp. rewrite Hl3. by apply Lf.
    + intros w Hw'. rewrite Hl3. by apply Rs.
Qed.

Lemma uvmalloc_spec :
  wp (uvmalloc root oldsz newsz xperm) (λ r s',
    r = newsz ∧ allocated n s' ∨ r = 0 ∧ alloc_undone s') s.
Proof using All.
  unfold uvmalloc. test_false (newsz <? oldsz). rewrite Hv0sz.
  apply (wp_loop _ (λ a s', ∃ k, (k ≤ n)%nat ∧ a = (v0 + Z.of_nat k) * PGSIZE ∧ allocated k s')
    (λ a, Z.to_nat (2^26 * PGSIZE - a))).
  - intros a s1 (k & Hkn & -> & Hinv). pose proof (Hnsz (v0 + Z.of_nat k) ltac:(lia)) as Hiff.
    destruct (Z.ltb_spec ((v0 + Z.of_nat k) * PGSIZE) newsz) as [Hlt|Hge].
    + eapply wp_mono; [|apply (alloc_step k s1); [lia|done]].
      intros r s2 [[-> Hinv2]|[-> Hf]].
      * split; [exists (S k); split; [lia|done]|unfold PGSIZE in *; lia].
      * by right.
    + wp_simp. assert (k = n) as -> by lia. by left.
  - exists 0%nat. split; [lia|]. split; [lia|]. exists [], fl, t. split; [done|].
    split; try done; [apply pt_grow_refl|apply dframe_refl|by apply NoDup_nil_2|].
    by intros p ?%elem_of_nil.
  - unfold PGSIZE, page_fuel. lia.
Qed.
End uvmalloc.

(** ** Growing an address space *)

(** An address space of [n] pages for [oldsz] bytes, to be grown by [k] pages
    to [newsz] bytes. *)
Record grow_pre (lo : Z) (s : kst) (fl : list Z) (root : Z) (t : ptree)
    (oldsz newsz xperm : Z) (n k : nat) : Prop := GrowPre {
  gp_inv : kinv lo s fl;
  gp_space : aspace lo s root t n;
  gp_size : 0 ≤ oldsz ≤ newsz ∧ newsz < 2^63;
  gp_old : PGROUNDUP oldsz = Z.of_nat n * PGSIZE;
  gp_new : PGROUNDUP newsz = Z.of_nat (n + k) * PGSIZE;
  gp_max : Z.of_nat (n + k) ≤ 2^26;
  gp_perm : 0 ≤ xperm < 1024;
  gp_free : ∀ v, Z.of_nat n ≤ v < Z.of_nat (n + k) →
    has (default 0 (leaf t !! v)) PTE_V = false;
}.

Lemma grow_spec lo s fl root t oldsz newsz xperm n k :
  grow_pre lo s fl root t oldsz newsz xperm n k →
  wp (uvmalloc root oldsz newsz xperm) (λ r s',
    r = newsz ∧ allocated lo root s fl t xperm (Z.of_nat n) k s' ∨
    r = 0 ∧ alloc_undone lo root s fl t (Z.of_nat n) k s') s.
Proof.
  intros [K A Hsz Ho Hn Hm Hp Hf].
  apply uvmalloc_spec; try done; try lia; [apply A| |intros v Hv; apply Hf; lia].
  intros w Hw. rewrite PGROUNDUP_spec in Hn by (unfold PGSIZE; lia).
  unfold PGSIZE in *. dlia.
Qed.

(** The pages of a successful growth, as the user sees them. *)
Lemma allocated_view lo root s fl t xperm n k ps s' f' t' :
  kinv lo s fl → aspace lo s root t n → Z.of_nat (n + k) ≤ 2^26 → 0 ≤ xperm < 1024 →
  length ps = k → alloc_inv lo root s fl t xperm (Z.of_nat n) ps s' f' t' →
  aspace lo s' root t' (n + k) ∧
  ∀ va, Z.of_nat n * PGSIZE ≤ va < Z.of_nat (n + k) * PGSIZE →
    uload (mem s') t' va = Some 0 ∧
    uwritable t' va = has (alloc_flags xperm) PTE_W.
Proof.
  intros K A Hmax Hx <- H. pose proof H as [K' R' G SF D ND Pg Lf Rs].
  pose proof (alloc_flags_ok xperm Hx) as (Hfr & HV & HU & Hd).
  destruct (aspace_kept lo s fl root t n s' t' K A D R' G) as [A' _].
  { intros v Hv. apply Rs. lia. }
  assert (∀ v, Z.of_nat n ≤ v < Z.of_nat (n + length ps) → ∃ p, p ∈ ps ∧ managed lo p ∧
    leaf t' !! v = Some (mkpte p (alloc_flags xperm))) as Hnew.
  { intros v Hv. destruct (lookup_lt_is_Some_2 ps (Z.to_nat (v - Z.of_nat n))) as [p Hp]; [lia|].
    assert (p ∈ ps) as Hin by by eapply list_elem_of_lookup_2. exists p. split; [done|].
    split; [by apply (ki_managed _ _ _ K), Pg|]. rewrite <- (Lf _ _ Hp). f_equal. lia. }
  split.
  - split; [done|done|]. intros v Hv. destruct (decide (v < Z.of_nat n)) as [Hlt|Hge].
    { apply (as_user _ _ _ _ _ A'). lia. }
    destruct (Hnew v) as (p & Hin & Hm & Hl); [lia|]. destruct (Pg p Hin) as (_ & Hn1 & Hnn & _).
    exists p, (alloc_flags xperm). split; [done|]. split; [done|lia].
  - intros va Hva. destruct (Hnew (vpn va)) as (p & Hin & Hm & Hl).
    { unfold vpn, PGSIZE in *. dlia. }
    destruct (Pg p Hin) as (_ & _ & _ & Hz). split.
    + rewrite (uload_mkpte lo _ _ _ _ _ Hm Hfr Hl), HV, HU. simpl.
      rewrite Hz; [done|]. apply in_page_offset. unfold PGSIZE in *. lia.
    + by rewrite (uwritable_mkpte lo _ _ _ _ Hm Hfr Hl), HV, HU.
Qed.

(** C9: [uvmalloc] grows an address space all or nothing.  On success the new
    pages are mapped, read as zero and are writable exactly when the caller
    asked for it; on failure (result 0) nothing of the new range is mapped.  In
    both cases the old pages read as before, and no page outside the page
    table and the free list changes its contents or its reference count. *)
Theorem uvmalloc_all_or_nothing lo s fl root t oldsz newsz xperm n k :
  grow_pre lo s fl root t oldsz newsz xperm n k →
  wp (uvmalloc root oldsz newsz xperm) (λ r s', ∃ fl' t',
    kinv lo s' fl' ∧
    (r = newsz ∧ aspace lo s' root t' (n + k) ∧
       (∀ va, Z.of_nat n * PGSIZE ≤ va < Z.of_nat (n + k) * PGSIZE →
          uload (mem s') t' va = Some 0 ∧ uwritable t' va = has (alloc_flags xperm) PTE_W)
     ∨ r = 0 ∧ aspace lo s' root t' n ∧
       (∀ va, Z.of_nat n * PGSIZE ≤ va < Z.of_nat (n + k) * PGSIZE →
          uload (mem s') t' va = None)) ∧
    (∀ va, 0 ≤ va < Z.of_nat n * PGSIZE → uload (mem s') t' va = uload (mem s) t va) ∧
    (∀ q, managed lo q → (q ∉ fl) → ¬ node_page t q →
       nump s' (q / PGSIZE) = nump s (q / PGSIZE) ∧
       ∀ a, in_page q a → load8 (mem s') a = load8 (mem s) a)) s.
Proof.
  intros Hpre. pose proof Hpre as [K A Hsz Ho Hn Hm Hp Hf].
  assert (∀ s', dframe lo (node_page t) dzero s fl s' → ∀ q, managed lo q → (q ∉ fl) →
    ¬ node_page t q → nump s' (q / PGSIZE) = nump s (q / PGSIZE) ∧
    ∀ a, in_page q a → load8 (mem s') a = load8 (mem s) a) as Hframe.
  { intros s' D q Hq Hqf Hqn. pose proof (proj1 (used_pos _ _ _ _ K Hq) Hqf).
    destruct (D q Hq Hqf Hqn) as [E ?]; [unfold dzero; lia|]. rewrite E. unfold dzero.
    split; [lia|done]. }
  eapply wp_mono; [|by eapply grow_spec].
  intros r s' [[-> (ps & f' & t' & Hlen & H)]|[-> (f' & t' & K' & R' & G & NV & Rs & D)]];
    exists f', t'.
  - destruct (allocated_view lo root s fl t xperm n k ps s' f' t' K A Hm Hp Hlen H) as [A' Hv'].
    pose proof H as [K' R' G SF D _ _ _ Rs].
    destruct (aspace_kept lo s fl root t n s' t' K A D R' G) as [_ Hold]; [intros; apply Rs; lia|].
    split; [done|]. split; [by left|]. split; [done|by apply Hframe].
  - destruct (aspace_kept lo s fl root t n s' t' K A D R' G) as [A' Hold]; [intros; apply Rs; lia|].
    split; [done|]. split; [right; split; [done|split; [done|]]|split; [done|by apply Hframe]].
    intros va Hva. unfold uload. specialize (NV (vpn va)).
    rewrite Hf in NV by (unfold vpn, PGSIZE in *; dlia).
    destruct (leaf t' !! vpn va) as [e|]; [|done]. simpl in NV. by rewrite NV.
Qed.
