(* ===== verification/VmCopy.v ===== *)
(** * Specification of uvmcopy (the copy-on-write fork of an address space)

    After a successful [uvmcopy] both trees map the same pages, no mapping is
    writable, and each page has one more user per mapping.  When memory for
    the child's page table runs out, the child's mappings are removed again
    and every reference count is what it was. *)

From Stdlib Require Import ZArith Lia.
From stdpp Require Import base numbers list gmap strings tactics.
From S2P Require Import Prelude Riscv Mem Kalloc Vm VmTree VmOps.

Local Open Scope Z_scope.

(** The first [k] user pages of [t], with copy-on-write flags; everything
    else is as in [base]. *)
Definition cow_leaves (lo : Z) (t : ptree) (k : nat) (base : ptree) (t' : ptree) : Prop :=
  ∀ v, (0 ≤ v < Z.of_nat k → ∀ p f, umap lo t v p f →
          leaf t' !! v = Some (mkpte p (cow_flags f))) ∧
       (¬ (0 ≤ v < Z.of_nat k) → leaf t' !! v = leaf base !! v).

Lemma cow_leaves_0 lo t b : cow_leaves lo t 0 b b.
Proof. intros v. split; [lia|done]. Qed.

(** One more page: either its leaf already is the shared one, or it is set. *)
Lemma cow_leaves_S lo t k b t1 t2 p f :
  cow_leaves lo t k b t1 → umap lo t (Z.of_nat k) p f →
  leaf t2 !! Z.of_nat k = Some (mkpte p (cow_flags f)) →
  (∀ v, v ≠ Z.of_nat k → leaf t2 !! v = leaf t1 !! v) →
  cow_leaves lo t (S k) b t2.
Proof.
  intros Hc Hu Hk Hrest v. destruct (decide (v = Z.of_nat k)) as [->|Hne].
  - split; [|lia]. intros _ p' f' Hu'. by destruct (umap_inj _ _ _ _ _ _ _ Hu Hu') as [<- <-].
  - rewrite Hrest by done. destruct (Hc v) as [H1 H2]. split; intros; [|apply H2; lia].
    eapply H1; [lia|done].
Qed.

Section uvmcopy.
Context (lo root1 root2 : Z) (s : kst) (fl : list Z) (t1 t2 : ptree) (sz : Z) (n : nat).
Context (Hk : kinv lo s fl) (Hr1 : pt_repr lo s root1 t1) (Hr2 : pt_repr lo s root2 t2).
Context (Hsz : 0 ≤ sz) (Hnsz : Z.of_nat n = (sz + PGSIZE - 1) / PGSIZE)
        (Hn26 : Z.of_nat n ≤ 2^26).
Context (Hsep : ∀ q, node_page t1 q → ¬ node_page t2 q).
Context (Hmap : ∀ v, 0 ≤ v < Z.of_nat n → ∃ p f, umap lo t1 v p f ∧
           ¬ node_page t1 p ∧ ¬ node_page t2 p ∧
           0 < nump s (p / PGSIZE) ∧ nump s (p / PGSIZE) + Z.of_nat n < 2^31).
Context (Hnew : ∀ v, 0 ≤ v < Z.of_nat n → has (default 0 (leaf t2 !! v)) PTE_V = false).

Definition both_nodes (q : Z) : Prop := node_page t1 q ∨ node_page t2 q.
Definition added (k : nat) (q : Z) : Z := occ q (upages t1 0 k).

(** The state after the parent's first [j] and the child's first [k] pages. *)
Record copy_inv (j k : nat) (s' : kst) (f' : list Z) (t1' t2' : ptree) : Prop := CopyInv {
  ci_inv : kinv lo s' f';
  ci_old : pt_repr lo s' root1 t1';
  ci_new : pt_repr lo s' root2 t2';
  ci_nodes : nodes t1' = nodes t1;
  ci_oldleaf : cow_leaves lo t1 j t1 t1';
  ci_newleaf : cow_leaves lo t1 k t2 t2';
  ci_grow : pt_grow fl t2 t2';
  ci_free : f' `suffix_of` fl;
  ci_frame : dframe lo both_nodes (added k) s fl s';
}.

Lemma copy_inv_0 : copy_inv 0 0 s fl t1 t2.
Proof using All.
  split; try done; try apply cow_leaves_0; [apply pt_grow_refl|apply dframe_refl].
Qed.

(** The pages being copied stay in use and are not page-table pages. *)
Lemma data_page j k s' f' t1' t2' v p f :
  copy_inv j k s' f' t1' t2' → 0 ≤ v < Z.of_nat n → umap lo t1 v p f →
  nump s' (p / PGSIZE) = nump s (p / PGSIZE) + added k p ∧
  0 < nump s (p / PGSIZE) ∧ nump s (p / PGSIZE) + Z.of_nat n < 2^31 ∧
  (p ∉ fl) ∧ (p ∉ f') ∧ ¬ node_page t1' p ∧ ¬ node_page t2' p.
Proof using All.
  intros [K O N Hnd _ _ G SF D] Hv Hu.
  destruct (Hmap v Hv) as (p' & f0 & Hu' & Hn1 & Hn2 & Hpos & Hov).
  destruct (umap_inj _ _ _ _ _ _ _ Hu Hu') as [<- <-].
  pose proof (um_page _ _ _ _ _ Hu) as Hm.
  assert (p ∉ fl) as Hpf by by apply (used_pos _ _ _ _ Hk Hm).
  pose proof (occ_nonneg p (upages t1 0 k)) as H0. unfold added in *.
  destruct (D p Hm Hpf) as [Hnum _]; [by intros [?|?]|lia|].
  split; [done|]. split; [done|]. split; [done|]. split; [done|]. split; [|split].
  - apply (used_pos _ _ _ _ K Hm). lia.
  - intros [x Hx]. rewrite Hnd in Hx. apply Hn1. by exists x.
  - intros Hx. destruct (pg_pages _ _ _ G p Hx); done.
Qed.

Lemma occ_le_n (k : nat) q : occ q (upages t1 0 k) ≤ Z.of_nat k.
Proof using All.
  clear.
  generalize 0. induction k as [|k IH]; intros v; simpl; [lia|].
  specialize (IH (v + 1)). case_if; lia.
Qed.

(** The child's nodes and the parent's nodes stay apart. *)
Lemma nodes_apart j k s' f' t1' t2' q :
  copy_inv j k s' f' t1' t2' → node_page t1' q → ¬ node_page t2' q.
Proof using All.
  intros [K O N Hnd _ _ G SF D] [x Hx] Hq2. rewrite Hnd in Hx.
  assert (node_page t1 q) as Hq1 by by exists x.
  destruct (pg_pages _ _ _ G q Hq2) as [?|Hin]; [by apply (Hsep q)|].
  by destruct (node_used _ _ _ _ _ _ Hk Hr1 Hq1) as [_ ?].
Qed.

(** Setting the parent's leaf to its shared form. *)
Lemma copy_share k s' f' t1' t2' p f :
  copy_inv k k s' f' t1' t2' → (k < n)%nat → umap lo t1 (Z.of_nat k) p f →
  pte_addr t1' (Z.of_nat k * PGSIZE) ≠ 0 →
  copy_inv (S k) k (set_mem (λ m, store64 m (pte_addr t1' (Z.of_nat k * PGSIZE))
                             (mkpte p (cow_flags f))) s') f'
    (set_leaf (Z.of_nat k) (mkpte p (cow_flags f)) t1') t2'.
Proof using All.
  intros Hc Hkn Hu Hne. pose proof Hc as [K O N Hnd OL NL G SF D].
  destruct (page_va_range (Z.of_nat k)) as [Hva _]; [lia|].
  pose proof (um_flags _ _ _ _ _ Hu) as Hf.
  pose proof (walk_post_store lo s' f' root1 t1' (Z.of_nat k * PGSIZE)
    (mkpte p (cow_flags f)) K O Hva Hne (mkpte_range _ _ (cow_flags_range f Hf)))
    as [K' O' _ F' _].
  rewrite vpn_page in O'. split; try done.
  - eapply (pt_repr_frame (node_page t1')); [exact K|exact F'| |done].
    intros q Hq2 Hq1. by eapply nodes_apart.
  - eapply cow_leaves_S; [done|exact Hu|simpl; by rewrite lookup_insert_eq|].
    intros v Hv. simpl. by rewrite lookup_insert_ne.
  - eapply (dframe_trans lo _ _ (node_page t1')); [exact Hk|exact K|exact D| |done|..].
    + by eapply kframe_dframe.
    + intros q [x Hx]. rewrite Hnd in Hx. left. left. by exists x.
    + intros q _. unfold dzero. lia.
    + intros q. right. done.
Qed.

(** A page that is not writable is already in its shared form. *)
Lemma copy_noshare k s' f' t1' t2' p f :
  copy_inv k k s' f' t1' t2' → umap lo t1 (Z.of_nat k) p f → cow_flags f = f →
  copy_inv (S k) k s' f' t1' t2'.
Proof using All.
  intros [K O N Hnd OL NL G SF D] Hu Hf. split; try done.
  eapply cow_leaves_S; [done|exact Hu| |done].
  destruct (OL (Z.of_nat k)) as [_ ->]; [|lia]. rewrite Hf. apply Hu.
Qed.

(** The child maps the page: the frame of [mappages] on the child. *)
Lemma copy_grow j k s' f' t1' t2' s'' f'' t2'' :
  copy_inv j k s' f' t1' t2' → walk_post lo root2 s' f' t2' s'' f'' t2'' →
  pt_repr lo s'' root1 t1' ∧ pt_grow fl t2 t2'' ∧ dframe lo both_nodes (added k) s fl s''.
Proof using All.
  intros Hc [K' N' G' F' S']. pose proof Hc as [K O N Hnd OL NL G SF D].
  split; [|split].
  - eapply (pt_repr_frame (node_page t2')); [exact K|exact F'| |done].
    intros q Hq1 Hq2. by eapply nodes_apart.
  - eapply pt_grow_trans; [exact G|exact G'|]. intros q Hq.
    destruct SF as [pre ->]. apply elem_of_app. by right.
  - eapply (dframe_trans lo _ _ (node_page t2')); [exact Hk|exact K|exact D| |done|..].
    + by eapply kframe_dframe.
    + intros q Hq. destruct (pg_pages _ _ _ G q Hq); [left; by right|by right].
    + intros q _. unfold dzero. lia.
    + intros q. right. done.
Qed.

(** Success: the child's leaf is set, and the page has one more user. *)
Lemma copy_success k s' f' t1' t2' p f s'' f'' t2'' :
  copy_inv (S k) k s' f' t1' t2' → (k < n)%nat → umap lo t1 (Z.of_nat k) p f →
  walk_post lo root2 s' f' t2' s'' f'' t2'' →
  leaf t2'' = <[Z.of_nat k := mkpte p (cow_flags f)]> (leaf t2') →
  wp (incref p) (λ _ s3, copy_inv (S k) (S k) s3 f'' t1' t2'') s''.
Proof using All.
  intros Hc Hkn Hu Hwp Hl2. pose proof Hc as [K O N Hnd OL NL G SF D].
  pose proof Hwp as [K' N' G' F' S'].
  destruct (copy_grow _ _ _ _ _ _ _ _ _ Hc Hwp) as (O' & Gr & D').
  destruct (data_page _ _ _ _ _ _ (Z.of_nat k) p f Hc ltac:(lia) Hu)
    as (Hnum & Hpos & Hov & Hpf & Hpf' & Hp1 & Hp2).
  pose proof (um_page _ _ _ _ _ Hu) as Hm.
  assert (nump s'' (p / PGSIZE) = nump s' (p / PGSIZE)) as Hn''
    by (apply (kf_nump _ _ _ _ _ F'); [apply Hm|done..]).
  assert (p ∉ f'') as Hpf'' by (intros Hin; apply Hpf'; destruct S' as [pre ->];
    apply elem_of_app; by right).
  assert (¬ node_page t2'' p) as Hp2'.
  { intros Hx. destruct (pg_pages _ _ _ G' p Hx); done. }
  pose proof (occ_le_n k p) as Hle. unfold added in Hnum.
  eapply wp_mono; [|eapply (incref_frame lo s'' f'' p); [done..|lia]].
  intros _ s3 (K3 & F3 & Hm3 & Hn3). split; try done.
  - eapply pt_repr_frame; [exact K'|exact F3| |done]. intros q Hq ->. done.
  - eapply pt_repr_frame; [exact K'|exact F3| |done]. intros q Hq ->. done.
  - eapply cow_leaves_S; [exact NL|exact Hu|by rewrite Hl2, lookup_insert_eq|].
    intros v Hv. by rewrite Hl2, lookup_insert_ne.
  - by etrans.
  - assert (∀ q, added (S k) q = added k q + if p =? q then 1 else 0) as Hadd.
    { intros q. unfold added. rewrite upages_snoc, occ_app, Z.add_0_l.
      rewrite (um_leaf _ _ _ _ _ Hu). cbn [occ from_option id].
      rewrite (mkpte_pa Hm (um_flags _ _ _ _ _ Hu)). lia. }
    intros q Hq Hqf HT Hpq. rewrite Hadd in *.
    fold (added k p) in Hnum.
    pose proof (proj1 (used_pos _ _ _ _ Hk Hq) Hqf).
    assert (0 ≤ added k q) by apply occ_nonneg.
    destruct (D' q Hq Hqf HT) as [Dn Dm]; [lia|].
    split; [|by rewrite Hm3]. destruct (Z.eqb_spec p q) as [<-|Hne]; [lia|].
    rewrite (kf_nump _ _ _ _ _ F3 q); [lia|apply Hq| |congruence].
    apply (used_pos _ _ _ _ K' Hq). lia.
Qed.

(** A leaf of the child that was copied. *)
Lemma copied_leaf j k s' f' t1' t2' v :
  copy_inv j k s' f' t1' t2' → (k ≤ n)%nat → 0 ≤ v < Z.of_nat k →
  ∃ p f, umap lo t1 v p f ∧ leaf t2' !! v = Some (mkpte p (cow_flags f)) ∧
         leaf t1 !! v = Some (mkpte p f).
Proof using All.
  intros Hc Hkn Hv. destruct (Hmap v) as (p & f & Hu & _); [lia|].
  exists p, f. split; [done|]. split; [|apply Hu].
  destruct (ci_newleaf _ _ _ _ _ _ Hc v) as [H _]. by apply H.
Qed.

Lemma copied_pages j k s' f' t1' t2' :
  copy_inv j k s' f' t1' t2' → (k ≤ n)%nat → upages t2' 0 k = upages t1 0 k.
Proof using All.
  intros Hc Hkn.
  assert (∀ v m, 0 ≤ v → v + Z.of_nat m ≤ Z.of_nat k → upages t2' v m = upages t1 v m)
    as H; [|apply H; lia].
  intros v m. revert v. induction m as [|m IH]; intros v Hv Hm; simpl; [done|].
  destruct (copied_leaf _ _ _ _ _ _ v Hc Hkn) as (p & f & Hu & -> & ->); [lia|].
  pose proof (um_flags _ _ _ _ _ Hu). simpl. f_equal; [|apply IH; lia].
  rewrite !(mkpte_pa (um_page _ _ _ _ _ Hu)) by (done || by apply cow_flags_range). done.
Qed.

Lemma page_copied j k s' f' t1' t2' q :
  copy_inv j k s' f' t1' t2' → (k ≤ n)%nat → q ∈ upages t1 0 k →
  managed lo q ∧ nump s' (q / PGSIZE) = nump s (q / PGSIZE) + added k q ∧
  0 < nump s (q / PGSIZE) ∧ (q ∉ f') ∧ ¬ node_page t1' q ∧ ¬ node_page t2' q.
Proof using All.
  intros Hc Hkn (v & Hv & ->)%elem_upages.
  destruct (copied_leaf _ _ _ _ _ _ v Hc) as (p & f & Hu & _ & ->); [lia..|].
  cbn [from_option id]. pose proof (um_page _ _ _ _ _ Hu) as Hm.
  rewrite (mkpte_pa Hm (um_flags _ _ _ _ _ Hu)).
  destruct (data_page _ _ _ _ _ _ v p f Hc ltac:(lia) Hu) as (?&?&?&?&?&?&?). done.
Qed.

(** The state after a failure: the parent's pages are shared as far as the
    loop came, the child maps nothing, and every count is what it was. *)
Definition copy_failed (s' : kst) : Prop := ∃ j f' t1' t2',
  (j ≤ n)%nat ∧ kinv lo s' f' ∧ pt_repr lo s' root1 t1' ∧ pt_repr lo s' root2 t2' ∧
  nodes t1' = nodes t1 ∧ cow_leaves lo t1 j t1 t1' ∧ pt_grow fl t2 t2' ∧
  (∀ v, has (default 0 (leaf t2' !! v)) PTE_V = has (default 0 (leaf t2 !! v)) PTE_V) ∧
  dframe lo both_nodes dzero s fl s'.

Lemma copied_unmappable j k s' f' t1' t2' t2'' :
  copy_inv j k s' f' t1' t2' → (k ≤ n)%nat → leaf t2'' = leaf t2' →
  (∀ q, node_page t2'' q → node_page t2' q ∨ q ∈ f') →
  ∀ v, 0 ≤ v < 0 + Z.of_nat k → unmappable lo true t2'' v.
Proof using All.
  intros Hc Hkn Hl2 Hpg v Hv.
  destruct (copied_leaf _ _ _ _ _ _ v Hc) as (p & f & Hu & Hl & _); [lia..|].
  pose proof (um_flags _ _ _ _ _ Hu) as Hf. pose proof (um_page _ _ _ _ _ Hu) as Hm.
  pose proof (cow_flags_range f Hf) as Hcf.
  destruct (data_page _ _ _ _ _ _ v p f Hc ltac:(lia) Hu) as (_&_&_&_&Hpf'&_&Hp2).
  exists (mkpte p (cow_flags f)). rewrite Hl2. split; [done|]. split; [|split].
  - rewrite (mkpte_V Hm Hcf), cow_flags_V. apply Hu.
  - rewrite (mkpte_flags Hm Hcf). apply cow_flags_nodir; apply Hu.
  - intros _. rewrite (mkpte_pa Hm Hcf). split; [done|]. intros Hx.
    destruct (Hpg p Hx); done.
Qed.

Lemma copy_failure k s' f' t1' t2' s'' t2'' :
  copy_inv (S k) k s' f' t1' t2' → (k < n)%nat →
  walk_post lo root2 s' f' t2' s'' [] t2'' → leaf t2'' = leaf t2' →
  wp (uvmunmap root2 0 (Z.of_nat k) true) (λ _ s3, copy_failed s3) s''.
Proof using All.
  intros Hc Hkn Hwp Hl2. pose proof Hc as [K O N Hnd OL NL G SF D].
  pose proof Hwp as [K' N' G' F' S'].
  destruct (copy_grow _ _ _ _ _ _ _ _ _ Hc Hwp) as (O' & Gr & D').
  pose proof (copied_pages _ _ _ _ _ _ Hc ltac:(lia)) as Hup.
  rewrite <- (upages_ext t2' t2'' 0 k) in Hup by (intros; by rewrite Hl2).
  pose proof (copied_unmappable _ _ _ _ _ _ t2'' Hc ltac:(lia) Hl2 (pg_pages _ _ _ G')) as Hun.
  eapply wp_mono; [|eapply (uvmunmap_spec lo root2 true s'' [] t2'' 0 k); try done; try lia].
  2: { intros _ q Hq. rewrite Hup. destruct (decide (q ∈ upages t1 0 k)) as [Hin|Hnin].
    - destruct (page_copied _ _ _ _ _ _ q Hc ltac:(lia) Hin) as (_&Hnum&?&?&_&?).
      rewrite (kf_nump _ _ _ _ _ F' q); [unfold added in Hnum; lia|apply Hq|done..].
    - rewrite (occ_notin _ _ Hnin). pose proof (ki_count _ _ _ K' q Hq). lia. }
  intros _ s3 (f3 & t3 & K3 & R3 & [Hn3 Hl3] & D3).
  exists (S k), f3, t1', t3. split; [lia|]. split; [done|].
  assert (∀ q, node_page t2'' q → node_page t2 q ∨ q ∈ fl) as Hpg
    by apply (pg_pages _ _ _ Gr).
  split; [|split; [done|split; [done|split; [done|]]]].
  { eapply (pt_repr_dframe lo _ _ s'' []); [done|exact D3| |done].
    intros q Hq1. split.
    - intros Hq2. destruct Hq1 as [x Hx]. rewrite Hnd in Hx.
      pose proof (ex_intro _ x Hx : node_page t1 q) as Hq1.
      destruct (Hpg q Hq2) as [?|Hin]; [by apply (Hsep q)|].
      by destruct (node_used _ _ _ _ _ _ Hk Hr1 Hq1).
    - unfold freed. rewrite Hup, occ_notin; [done|]. intros Hin.
      by destruct (page_copied _ _ _ _ _ _ q Hc ltac:(lia) Hin) as (_&_&_&_&?&_). }
  split; [|split].
  - destruct Gr as [Gn Gp]. split; [by rewrite Hn3|]. intros q [x Hx]. rewrite Hn3 in Hx.
    apply Gp. by exists x.
  - intros v. rewrite Hl3, Hl2. destruct (NL v) as [_ NLo].
    destruct ((0 <=? v) && (v <? 0 + Z.of_nat k)) eqn:E; bool_to_prop.
    + by rewrite Hnew by lia.
    + rewrite NLo; [done|]. apply andb_false_iff in E as [E|E]; bool_to_prop; lia.
  - eapply (dframe_trans lo _ _ (node_page t2'')); [exact Hk|exact K'|exact D'|exact D3|done|..].
    + intros q Hq. destruct (Hpg q Hq); [left; by right|by right].
    + intros q _. unfold dzero, freed, added. rewrite Hup. lia.
    + intros q. left. apply occ_nonneg.
Qed.

(** One iteration of the loop, from its test on. *)
Definition copy_body (i : Z) : M kst (Z + Z) :=
  let* pte := walk root1 i false in
  if pte =? 0 then panic "uvmcopy: pte should exist"
  else
    let* e := rd64 pte in
    if negb (has e PTE_V) then panic "uvmcopy: page not present"
    else
      let pa := PTE2PA e in
      let flags := PTE_FLAGS e in
      let* flags :=
        if has flags PTE_W then
          let flags := Z.lor (Z.land flags (Z.lnot PTE_W)) PTE_COW in
          wr64 pte (Z.lor (PA2PTE pa) flags) ;;; ret flags
        else ret flags in
      let* r := mappages root2 i PGSIZE pa flags in
      if negb (r =? 0) then
        uvmunmap root2 0 (i / PGSIZE) true ;;; ret (inr (-1))
      else
        incref pa ;;;
        ret (inl (u64 (i + PGSIZE))).

Definition copied (k : nat) (s' : kst) : Prop := ∃ f' t1' t2', copy_inv k k s' f' t1' t2'.

Lemma copy_step k s' :
  (k < n)%nat → copied k s' →
  wp (copy_body (Z.of_nat k * PGSIZE))
     (λ r s'', r = inl (Z.of_nat (S k) * PGSIZE) ∧ copied (S k) s'' ∨
               r = inr (-1) ∧ copy_failed s'') s'.
Proof using All.
  intros Hkn (f' & t1' & t2' & Hc). pose proof Hc as [K O N Hnd OL NL G SF D].
  set (v := Z.of_nat k) in *. set (i := v * PGSIZE).
  destruct (page_va_range v) as [Hva Hal]; [lia|]. fold i in Hva, Hal.
  destruct (Hmap v) as (p & f & Hu & _); [lia|].
  pose proof (um_page _ _ _ _ _ Hu) as Hm. pose proof (um_flags _ _ _ _ _ Hu) as Hf.
  assert (vpn i = v) as Hvpn by apply vpn_page.
  assert (leaf t1' !! v = Some (mkpte p f)) as Hl1
    by (destruct (OL v) as [_ ->]; [apply Hu|lia]).
  assert (pte_addr t1' i ≠ 0) as Hne by (eapply pte_addr_mapped; [done|lia|by rewrite Hvpn]).
  destruct (pte_addr_entry _ _ _ _ _ _ K O Hva Hne) as (p0 & _ & _ & Hram & Hld).
  rewrite Hvpn, Hl1 in Hld. cbn [from_option id] in Hld.
  unfold copy_body. wp_simp. eapply wp_mono; [|by apply (walk_lookup lo s' root1 t1' i)].
  intros r s1 [-> ->]. destruct (Z.eqb_spec (pte_addr t1' i) 0); [done|].
  wp_simp. apply wp_rd64; [done|]. rewrite Hld, (mkpte_V Hm Hf), (um_valid _ _ _ _ _ Hu).
  cbn [negb]. cbv zeta. rewrite (mkpte_pa Hm Hf), (mkpte_flags Hm Hf). wp_simp.
  apply (wp_mono _ (λ fl' s2, fl' = cow_flags f ∧ ∃ t1'', copy_inv (S k) k s2 f' t1'' t2')).
  2: { unfold cow_flags. destruct (has f PTE_W) eqn:HW; wp_simp.
    - apply wp_wr64; [done|]. wp_simp. split; [done|].
      pose proof (copy_share k s' f' t1' t2' p f Hc Hkn Hu Hne) as Hs.
      unfold cow_flags in Hs. rewrite HW in Hs. eexists. exact Hs.
    - split; [done|]. exists t1'. eapply copy_noshare; [done|exact Hu|].
      unfold cow_flags. by rewrite HW. }
  intros fl' s2 (-> & t1'' & Hc2). pose proof Hc2 as [K2 O2 N2 _ _ NL2 _ _ _].
  assert (leaf t2' !! v = leaf t2 !! v) as Hl2 by (destruct (NL2 v) as [_ ->]; [done|lia]).
  eapply wp_bind_2, wp_mono; [|eapply (mappages_page lo s2 f' root2 t2' i p (cow_flags f));
    [done..|by apply cow_flags_range|rewrite Hvpn, Hl2; apply Hnew; lia]].
  intros r s3 (f3 & t2'' & Hwp & [[-> Hl]|(-> & Hl & ->)]); simpl negb; cbv iota.
  - assert (Z.lor (cow_flags f) PTE_V = cow_flags f) as HV
      by (apply lor_set; [lia|]; etrans; [apply cow_flags_V|apply Hu]).
    rewrite Hvpn, HV in Hl.
    eapply wp_bind_2, wp_mono; [|by eapply copy_success].
    intros ? s4 Hc4. wp_simp. left. split; [|by exists f3, t1'', t2''].
    f_equal. rewrite MAXVA_val in Hva. subst i. unfold PGSIZE in *. rewrite u64_small; lia.
  - replace (i / PGSIZE) with v by (symmetry; by apply Z.div_mul).
    eapply wp_bind_2, wp_mono; [|by eapply copy_failure].
    intros ? s4 H4. wp_simp. by right.
Qed.

Lemma uvmcopy_spec :
  wp (uvmcopy root1 root2 sz)
     (λ r s', r = 0 ∧ copied n s' ∨ r = -1 ∧ copy_failed s') s.
Proof using All.
  unfold uvmcopy.
  apply (wp_loop _ (λ i s', ∃ k, (k ≤ n)%nat ∧ i = Z.of_nat k * PGSIZE ∧ copied k s')
    (λ i, Z.to_nat (2^26 * PGSIZE - i))).
  - intros i s1 (k & Hkn & -> & Hinv).
    destruct (Z.ltb_spec (Z.of_nat k * PGSIZE) sz) as [Hlt|Hge].
    + assert (k < n)%nat by (unfold PGSIZE in *; dlia).
      eapply wp_mono; [|by apply (copy_step k s1)]. intros r s2 [[-> Hinv2]|[-> Hf]].
      * split; [exists (S k); split; [lia|done]|unfold PGSIZE in *; lia].
      * by right.
    + wp_simp. assert (k = n) as -> by (unfold PGSIZE in *; dlia). by left.
  - exists 0%nat. split; [lia|]. split; [lia|]. exists fl, t1, t2. apply copy_inv_0.
  - unfold PGSIZE, page_fuel. lia.
Qed.
End uvmcopy.
