(* ===== verification/VmCow.v ===== *)
(** * Copy-on-write

    The theorems about the two operations that implement copy-on-write: [uvmcopy], which shares
    the pages of the parent at a fork, and [removecopy], which gives a process
    its own copy of a shared page when it stores to it. *)

From Stdlib Require Import ZArith Lia.
From stdpp Require Import base numbers list gmap strings tactics.
From S2P Require Import Prelude Riscv Mem Kalloc Vm VmTree VmOps VmView VmUser VmCopy.

Local Open Scope Z_scope.

(** ** uvmcopy *)

Section fork.
Context (lo root1 root2 : Z) (s : kst) (fl : list Z) (t1 t2 : ptree) (sz : Z) (n : nat).

(** The parent's address space of [n] pages and the child's page table,
    which maps none of them yet. *)
Record fork_pre : Prop := ForkPre {
  fp_inv : kinv lo s fl;
  fp_parent : aspace lo s root1 t1 n;
  fp_child : pt_repr lo s root2 t2;
  fp_sz : 0 ≤ sz ∧ Z.of_nat n = (sz + PGSIZE - 1) / PGSIZE;
  fp_sep : ∀ q, node_page t1 q → ¬ node_page t2 q;
  fp_user : ∀ v p f, 0 ≤ v < Z.of_nat n → umap lo t1 v p f →
    ¬ node_page t2 p ∧ nump s (p / PGSIZE) + Z.of_nat n < 2^31;
  fp_new : ∀ v, 0 ≤ v < Z.of_nat n → has (default 0 (leaf t2 !! v)) PTE_V = false;
}.

Lemma fork_spec :
  fork_pre →
  wp (uvmcopy root1 root2 sz) (λ r s',
    r = 0 ∧ copied lo root1 root2 s fl t1 t2 n s' ∨
    r = -1 ∧ copy_failed lo root1 root2 s fl t1 t2 n s') s.
Proof using Type.
  intros [K [P N U] C [? ?] Sp Us Nw]. apply (uvmcopy_spec lo); try done.
  intros v Hv. destruct (U v Hv) as (p & f & Hu & Hn & Hpos).
  destruct (Us v p f Hv Hu). by exists p, f.
Qed.

(** A page of the parent is in use and is not a page-table page. *)
Lemma fork_data (va : Z) :
  fork_pre → 0 ≤ va < Z.of_nat n * PGSIZE →
  ∃ p f, umap lo t1 (vpn va) p f ∧ (p ∉ fl) ∧ ¬ both_nodes t1 t2 p.
Proof using Type.
  intros [K [P N U] C _ Sp Us _] Hva. pose proof (vpn_range _ _ Hva) as Hv.
  destruct (U _ Hv) as (p & f & Hu & Hn & Hpos). exists p, f. split; [done|].
  destruct (Us _ p f Hv Hu) as [Hn2 _]. split.
  - apply (used_pos _ _ _ _ K (um_page _ _ _ _ _ Hu)). done.
  - by intros [?|?].
Qed.

(** What the parent reads is not changed by any frame of [uvmcopy]. *)
Lemma fork_parent_view d s' t1' j :
  fork_pre → (∀ q, 0 ≤ d q) → dframe lo (both_nodes t1 t2) d s fl s' →
  cow_leaves lo t1 j t1 t1' →
  ∀ va, 0 ≤ va < Z.of_nat n * PGSIZE → uload (mem s') t1' va = uload (mem s) t1 va.
Proof using Type.
  intros Hpre Hd D OL va Hva. destruct (fork_data va Hpre Hva) as (p & f & Hu & Hpf & Hpn).
  pose proof (um_page _ _ _ _ _ Hu) as Hm.
  pose proof (proj1 (used_pos _ _ _ _ (fp_inv Hpre) Hm) Hpf). specialize (Hd p).
  destruct (D p Hm Hpf Hpn) as [_ Hmem]; [lia|].
  eapply uload_cow; [done|lia|done|]. destruct (OL (vpn va)) as [O1 O2].
  destruct (decide (0 ≤ vpn va < Z.of_nat j)) as [Hj|Hj]; [left; by apply O1|right].
  rewrite (O2 Hj). apply Hu.
Qed.
End fork.

(** C5: A successful [uvmcopy] makes the child an exact, private-by-need copy:
    parent and child read the same bytes as the parent did before, at every
    address of the parent's memory; no page of either is writable, so that the
    first store of either faults; and each page has one user more for each
    time the parent maps it. *)
Theorem uvmcopy_shares lo root1 root2 s fl t1 t2 sz n :
  fork_pre lo root1 root2 s fl t1 t2 sz n →
  wp (uvmcopy root1 root2 sz) (λ r s', r = 0 → ∃ fl' t1' t2',
    kinv lo s' fl' ∧ pt_repr lo s' root1 t1' ∧ pt_repr lo s' root2 t2' ∧
    (∀ va, 0 ≤ va < Z.of_nat n * PGSIZE →
       uload (mem s') t1' va = uload (mem s) t1 va ∧
       uload (mem s') t2' va = uload (mem s) t1 va ∧
       uwritable t1' va = false ∧ uwritable t2' va = false) ∧
    (∀ q, managed lo q → (q ∉ fl) → ¬ node_page t1 q → ¬ node_page t2 q →
       nump s' (q / PGSIZE) = nump s (q / PGSIZE) + occ q (upages t1 0 n))) s.
Proof.
  intros Hpre. eapply wp_mono; [|by eapply fork_spec].
  intros r s' [[-> (f' & t1' & t2' & Hc)]|[-> _]] Hr; [clear Hr|done].
  pose proof Hc as [K O N _ OL NL _ _ D]. exists f', t1', t2'.
  split; [done|]. split; [done|]. split; [done|]. split.
  - intros va Hva. destruct (fork_data lo root1 root2 s fl t1 t2 sz n va Hpre Hva)
      as (p & f & Hu & Hpf & Hpn).
    pose proof (um_page _ _ _ _ _ Hu) as Hm. pose proof (um_flags _ _ _ _ _ Hu) as Hf.
    pose proof (vpn_range _ _ Hva) as Hv. pose proof (cow_flags_range f Hf) as Hcf.
    destruct (OL (vpn va)) as [O1 _], (NL (vpn va)) as [N1 _].
    specialize (O1 Hv p f Hu). specialize (N1 Hv p f Hu).
    split; [|split; [|split]].
    + eapply fork_parent_view; [done| |exact D|done|done]. intros q. apply occ_nonneg.
    + pose proof (proj1 (used_pos _ _ _ _ (fp_inv _ _ _ _ _ _ _ _ _ Hpre) Hm) Hpf).
      pose proof (occ_nonneg p (upages t1 0 n)).
      destruct (D p Hm Hpf Hpn) as [_ Hmem]; [unfold added; lia|].
      eapply uload_cow; [done|lia|done|by left].
    + by rewrite (uwritable_mkpte lo _ _ _ _ Hm Hcf O1), cow_flags_W, andb_false_r.
    + by rewrite (uwritable_mkpte lo _ _ _ _ Hm Hcf N1), cow_flags_W, andb_false_r.
  - intros q Hq Hqf Hn1 Hn2.
    pose proof (proj1 (used_pos _ _ _ _ (fp_inv _ _ _ _ _ _ _ _ _ Hpre) Hq) Hqf).
    pose proof (occ_nonneg q (upages t1 0 n)).
    apply (D q Hq Hqf); [by intros [?|?]|unfold added; lia].
Qed.

(** ** Running out of memory *)

(** The page-table pages, below the root, on the paths to the first [n] pages;
    those a table does not have yet must come from the free list. *)
Definition path_nodes (n : nat) : list (nat * Z) :=
  v ← seqZ 0 (Z.of_nat n); (λ l, (l, key l (v * PGSIZE))) <$> [0%nat; 1%nat].
Definition missing (t : ptree) (n : nat) : gset (nat * Z) := list_to_set (path_nodes n) ∖ dom (nodes t).

Lemma elem_path_nodes n x : x ∈ path_nodes n ↔ ∃ v l, 0 ≤ v < Z.of_nat n ∧ (l ≤ 1)%nat ∧ x = (l, key l (v * PGSIZE)).
Proof.
  unfold path_nodes. rewrite list_elem_of_bind. split.
  - intros (v & Hx & Hv%elem_of_seqZ). apply list_elem_of_fmap in Hx as (l & -> & Hl).
    exists v, l. split; [lia|]. split; [|done]. apply elem_of_cons in Hl as [ -> | ->%list_elem_of_singleton ]; lia.
  - intros (v & l & Hv & Hl & ->). exists v. split; [|apply elem_of_seqZ; lia].
    apply list_elem_of_fmap. exists l. split; [done|]. destruct l as [|[|l]]; [by left|by right; left|lia].
Qed.

(** A table that maps the pages has all of these nodes. *)
Lemma mapped_path lo s root t v e l :
  pt_repr lo s root t → leaf t !! v = Some e → (l ≤ 2)%nat → is_Some (nodes t !! (l, key l (v * PGSIZE))).
Proof.
  intros [Hok _ _] Hl Hl2. destruct (po_leaf _ _ _ Hok _ _ Hl) as (Hv & _ & [p Hp]).
  destruct (nodes t !! (l, key l (v * PGSIZE))) as [q|] eqn:E; [by eexists|].
  assert (0 ≤ v * PGSIZE) as Hva by (unfold PGSIZE; lia).
  pose proof (path_none l (v * PGSIZE) Hok Hva Hl2 E) as H0.
  replace (key 0 (v * PGSIZE)) with (v / 512) in H0; [congruence|].
  unfold key, PGSIZE. change (2 ^ (12 + 9 * (Z.of_nat 0 + 1))) with (512 * 4096).
  by rewrite Z.div_mul_cancel_r by lia.
Qed.

(** New nodes are free pages, each used once. *)
Lemma grown_nodes (lo : Z) (s : kst) (root : Z) (fl : list Z) (t t' : ptree) (X : gset (nat * Z)) :
  pt_repr lo s root t' → pt_grow fl t t' →
  (∀ x, x ∈ X → nodes t !! x = None ∧ is_Some (nodes t' !! x)) → (size X ≤ length fl)%nat.
Proof.
  intros [Hok _ _] [Gn Gp] HX. set (page := λ x, default 0 (nodes t' !! x)).
  unfold size, set_size. simpl. rewrite <- (length_fmap page (elements X)). apply submseteq_length, NoDup_submseteq.
  - apply NoDup_fmap_2_strong; [|apply NoDup_elements]. intros x y Hx%elem_of_elements Hy%elem_of_elements E.
    destruct (HX x Hx) as [_ [p Hp]], (HX y Hy) as [_ [q Hq]]. unfold page in E. rewrite Hp, Hq in E. simpl in E. subst q.
    by eapply (po_inj _ _ _ Hok).
  - intros q Hq. apply list_elem_of_fmap in Hq as (x & -> & Hx%elem_of_elements).
    destruct (HX x Hx) as [Hn [p Hp]]. unfold page. rewrite Hp. simpl.
    destruct (Gp p) as [[y Hy]|]; [by exists x| |done]. exfalso.
    pose proof (lookup_weaken _ _ _ _ Hy Gn) as Hy'. pose proof (po_inj _ _ _ Hok _ _ _ Hp Hy') as ->. congruence.
Qed.

(** Success needs a free page for each missing node. *)
Lemma copied_enough lo root1 root2 s fl t1 t2 sz n s' :
  fork_pre lo root1 root2 s fl t1 t2 sz n → copied lo root1 root2 s fl t1 t2 n s' → (size (missing t2 n) ≤ length fl)%nat.
Proof.
  intros Hpre (f' & t1' & t2' & [_ _ N _ _ NL G _ _]). apply (grown_nodes lo s' root2 fl t2 t2'); [done|done|].
  intros x Hm. unfold missing in Hm. apply elem_of_difference in Hm as [Hx Hnx]. split; [by apply not_elem_of_dom|].
  apply elem_of_list_to_set, elem_path_nodes in Hx as (v & l & Hv & Hl & ->).
  destruct (as_user _ _ _ _ _ (fp_parent _ _ _ _ _ _ _ _ _ Hpre) v Hv) as (p & f & Hu & _).
  destruct (NL v) as [Hleaf _]. eapply mapped_path; [done|by apply (Hleaf Hv p f)|lia].
Qed.

(** C6: When the free pages do not suffice for the page-table pages the child
    needs, [uvmcopy] returns -1 with the page tables well formed; the parent
    reads what it read before, the child maps nothing, and the reference count
    of every page that is not a page-table page of the two is what it was:
    nothing leaks and nothing is freed twice. *)
Theorem uvmcopy_failure_restores lo root1 root2 s fl t1 t2 sz n :
  fork_pre lo root1 root2 s fl t1 t2 sz n → (length fl < size (missing t2 n))%nat →
  wp (uvmcopy root1 root2 sz) (λ r s', r = -1 ∧ ∃ fl' t1' t2',
    kinv lo s' fl' ∧ pt_repr lo s' root1 t1' ∧ pt_repr lo s' root2 t2' ∧
    (∀ va, 0 ≤ va < Z.of_nat n * PGSIZE →
       uload (mem s') t1' va = uload (mem s) t1 va ∧ uload (mem s') t2' va = None) ∧
    (∀ q, managed lo q → (q ∉ fl) → ¬ node_page t1 q → ¬ node_page t2 q →
       nump s' (q / PGSIZE) = nump s (q / PGSIZE))) s.
Proof.
  intros Hpre Hshort. eapply wp_mono; [|by eapply fork_spec].
  intros r s' [[-> Hc]|[-> (j & f' & t1' & t2' & Hj & K & O & N & _ & OL & _ & NV & D)]].
  { pose proof (copied_enough _ _ _ _ _ _ _ _ _ _ Hpre Hc). lia. }
  split; [done|].
  exists f', t1', t2'. split; [done|]. split; [done|]. split; [done|]. split.
  - intros va Hva. split; [eapply fork_parent_view; [done| |exact D|done|done]; done|].
    pose proof (fp_new _ _ _ _ _ _ _ _ _ Hpre _ (vpn_range _ _ Hva)) as Hinv.
    rewrite <- NV in Hinv. unfold uload. destruct (leaf t2' !! vpn va) as [e|]; [|done].
    simpl in Hinv. by rewrite Hinv.
  - intros q Hq Hqf Hn1 Hn2.
    pose proof (proj1 (used_pos _ _ _ _ (fp_inv _ _ _ _ _ _ _ _ _ Hpre) Hq) Hqf).
    destruct (D q Hq Hqf) as [E _]; [by intros [?|?]|unfold dzero; lia|].
    rewrite E. unfold dzero. lia.
Qed.

(** ** removecopy *)

Lemma kmemmove_page lo s fl r p :
  kinv lo s fl → managed lo r → managed lo p → r ∉ fl → r ≠ p →
  wp (kmemmove r p PGSIZE) (λ _ s',
    kinv lo s' fl ∧ kframe (λ q, q = r) s fl s' fl ∧ nump_using s' = nump_using s ∧
    ∀ i, 0 ≤ i < PGSIZE → load8 (mem s') (r + i) = load8 (mem s) (p + i)) s.
Proof.
  intros K Hr Hp Hrf Hne.
  assert (∀ a, load8 (memmove (mem s) r p PGSIZE) a =
    if (r <=? a) && (a <? r + PGSIZE) then load8 (mem s) (p + (a - r)) else load8 (mem s) a)
    as Hmm.
  { intros a. apply load8_memmove; [apply K|..]; destruct Hr as (_&?&?&_), Hp as (_&?&?&_);
      unfold PHYSTOP, KERNBASE, PGSIZE in *; lia. }
  apply wp_kmemmove; [by eapply managed_page_ram..|].
  destruct (kframe_write (λ q, q = r) lo s fl r (λ m, memmove m r p PGSIZE)) as [F K'];
    try done.
  - intros a Ha. rewrite Hmm. unfold in_page in Ha. by zcases.
  - apply mem_bytes_memmove, K.
  - split; [done|]. split; [done|]. split; [done|]. intros i Hi. simpl. rewrite Hmm. zcases.
    f_equal. lia.
Qed.

(** Reading the entry of a mapped page. *)
Lemma umap_entry lo s fl root t va p f :
  kinv lo s fl → pt_repr lo s root t → 0 ≤ va < MAXVA → umap lo t (vpn va) p f →
  pte_addr t va ≠ 0 ∧ ram_range (pte_addr t va) 8 = true ∧
  load64 (mem s) (pte_addr t va) = mkpte p f.
Proof.
  intros K R Hva Hu.
  assert (pte_addr t va ≠ 0) as Hne by (eapply pte_addr_mapped; [done|lia|apply Hu]).
  destruct (pte_addr_entry _ _ _ _ _ _ K R Hva Hne) as (p0 & _ & _ & Hram & Hld).
  rewrite (um_leaf _ _ _ _ _ Hu) in Hld. done.
Qed.

(** The tail of [removecopy]: copy to the fresh page [r], install it, drop
    the old one. *)
Lemma removecopy_tail lo s fl root t va p f r :
  kinv lo s fl → pt_repr lo s root t → 0 ≤ va < MAXVA → umap lo t (vpn va) p f →
  ¬ node_page t p → p ∉ fl → managed lo r → r ∉ fl → ¬ node_page t r → r ≠ p →
  nump s (r / PGSIZE) = 1 →
  wp (kmemmove r p PGSIZE ;;;
      wr64 (pte_addr t va) (mkpte r (priv_flags f)) ;;;
      kfree p ;;; ret 0) (λ res s', res = 0 ∧ ∃ fl',
    kinv lo s' fl' ∧ (r ∉ fl') ∧
    nump s' (r / PGSIZE) = 1 ∧ nump s' (p / PGSIZE) = nump s (p / PGSIZE) - 1 ∧
    pt_repr lo s' root (set_leaf (vpn va) (mkpte r (priv_flags f)) t) ∧
    (∀ i, 0 ≤ i < PGSIZE → load8 (mem s') (r + i) = load8 (mem s) (p + i)) ∧
    dframe lo (λ q, q = r ∨ node_page t q) (λ q, if q =? p then -1 else 0) s fl s') s.
Proof.
  intros K R Hva Hu Hnp Hpf Hr Hrf Hnr Hrp Hr1.
  pose proof (um_page _ _ _ _ _ Hu) as Hm. pose proof (um_flags _ _ _ _ _ Hu) as Hf.
  destruct (umap_entry _ _ _ _ _ _ _ _ K R Hva Hu) as (Hne & Hram & _).
  wp_simp. eapply wp_mono; [|by apply (kmemmove_page lo s fl r p)].
  intros ? s1 (K1 & F1 & Hnu & Hcopy). wp_simp. apply wp_wr64; [done|].
  assert (pt_repr lo s1 root t) as R1
    by (eapply pt_repr_frame; [exact K|exact F1| |done]; intros q Hq ->; done).
  pose proof (walk_post_store lo s1 fl root t va _ K1 R1 Hva Hne
    (mkpte_range r _ (priv_flags_range f Hf))) as [K2 R2 _ F2 _].
  set (s2 := set_mem _ s1) in *.
  assert (kframe (λ q, q = r ∨ node_page t q) s fl s2 fl) as F12
    by (eapply kframe_trans; [exact F1|exact F2|auto..]).
  wp_simp. eapply wp_mono; [|by apply (kfree_dframe lo s2 fl p)].
  intros ? s3 (f3 & K3 & Hn3 & D3). wp_simp. split; [done|]. exists f3.
  assert (∀ q, managed lo q → q ∉ fl → q ≠ p → 0 < nump s2 (q / PGSIZE) →
    nump s3 (q / PGSIZE) = nump s2 (q / PGSIZE) ∧
    ∀ a, in_page q a → load8 (mem s3) a = load8 (mem s2) a) as Hkeep.
  { intros q Hq Hqf Hqp Hpos. destruct (D3 q Hq Hqf) as [E Em]; [by intros []| |].
    - test_false (q =? p). lia.
    - split; [|done]. rewrite E. test_false (q =? p). lia. }
  assert (∀ i, nump s2 i = nump s i) as Hnum by (intros i; unfold nump; simpl; by rewrite Hnu).
  rewrite Hnum in Hn3.
  destruct (Hkeep r Hr Hrf Hrp) as [Hnr3 Hmr3]; [rewrite Hnum; lia|].
  assert (nump s3 (r / PGSIZE) = 1) as Hr3 by (rewrite Hnr3, Hnum; done).
  split; [done|]. split; [apply (used_pos _ _ _ _ K3 Hr); lia|]. split; [done|].
  split; [done|]. split; [|split].
  - eapply (pt_repr_dframe lo _ _ s2 fl); [done|exact D3| |done].
    intros q Hq. split; [by intros []|]. destruct (Z.eqb_spec q p) as [->|]; [|done]. by destruct Hnp.
  - intros i Hi. rewrite Hmr3 by (unfold in_page; lia). rewrite <- Hcopy by done.
    apply (kf_mem _ _ _ _ _ F2 r); [apply Hr|done|done|unfold in_page; lia].
  - eapply (dframe_trans lo _ _ no_page); [exact K|exact K2|eapply kframe_dframe, F12|exact D3|by auto|..].
    + by intros q [].
    + intros q _. unfold dzero. lia.
    + intros q. by left.
Qed.

(** [removecopy] on a copy-on-write page, with [r] the next free page. *)
Lemma removecopy_spec lo s r fl root t va sz p f :
  kinv lo s (r :: fl) → pt_repr lo s root t → 0 ≤ va < MAXVA → va mod PGSIZE = 0 →
  0 ≤ sz < 2^64 → sz mod PGSIZE = 0 →
  umap lo t (vpn va) p f → has f PTE_COW = true →
  ¬ node_page t p → p ∉ r :: fl →
  wp (removecopy root va sz) (λ res s', res = 0 ∧ ∃ fl',
    kinv lo s' fl' ∧ managed lo r ∧ ¬ node_page t r ∧ (r ∉ fl') ∧
    nump s' (r / PGSIZE) = 1 ∧ nump s' (p / PGSIZE) = nump s (p / PGSIZE) - 1 ∧
    pt_repr lo s' root (set_leaf (vpn va) (mkpte r (priv_flags f)) t) ∧
    (∀ i, 0 ≤ i < PGSIZE → load8 (mem s') (r + i) = load8 (mem s) (p + i)) ∧
    dframe lo (node_page t) (λ q, if q =? p then -1 else 0) s (r :: fl) s') s.
Proof.
  intros K R Hva Hal Hsz Hsal Hu HC Hnp Hpf. pose proof (um_page _ _ _ _ _ Hu) as Hm.
  pose proof (um_flags _ _ _ _ _ Hu) as Hf. pose proof (priv_flags_range f Hf) as Hpr.
  destruct (umap_entry _ _ _ _ _ _ _ _ K R Hva Hu) as (Hne & Hram & Hld).
  unfold removecopy. cbv zeta. rewrite page_va_round by (rewrite MAXVA_val in Hva; lia || done).
  test_false (MAXVA <=? va). rewrite removecopy_guard by (done || lia).
  wp_simp. eapply wp_mono; [|by apply (walk_lookup lo s root t va)].
  intros ? s0 [-> ->]. wp_simp. apply wp_rd64; [done|].
  rewrite Hld, (mkpte_V Hm Hf), (mkpte_COW Hm Hf), HC, (um_valid _ _ _ _ _ Hu).
  cbn [negb orb]. rewrite (mkpte_flags Hm Hf). wp_simp.
  eapply wp_mono; [|by apply (kalloc_frame lo s (r :: fl))].
  intros r' s1 [(_ & ? & _)|(fl1 & [= <- <-] & K1 & F1 & Hr & Hrf & Hr1)]; [done|].
  pose proof (managed_nonzero _ _ Hr). test_false (r =? 0).
  assert (¬ node_page t r) as Hnr.
  { intros Hx. destruct (node_used _ _ _ _ _ _ K R Hx) as [_ []]. by left. }
  assert (r ≠ p ∧ p ∉ fl) as [Hrp Hpf1] by (apply not_elem_of_cons in Hpf as [? ?]; done).
  assert (pt_repr lo s1 root t) as R1
    by (eapply pt_repr_frame; [exact K|exact F1| |done]; by intros q Hq []).
  destruct (umap_entry _ _ _ _ _ _ _ _ K1 R1 Hva Hu) as (_ & _ & Hld1).
  apply wp_bind_2, wp_rd64; [done|]. rewrite Hld1, (mkpte_pa Hm Hf).
  change (Z.lor (Z.land f (Z.lnot PTE_COW)) PTE_W) with (priv_flags f).
  change (Z.lor (PA2PTE r) ?x) with (mkpte r x).
  eapply wp_mono; [|by apply (removecopy_tail lo s1 fl root t va p f r)].
  intros res s' (-> & f' & K' & Hrf' & Hr' & Hp' & R' & Hcp & D'). split; [done|]. exists f'.
  assert (nump s1 (p / PGSIZE) = nump s (p / PGSIZE)) as E
    by (apply (kf_nump _ _ _ _ _ F1); [apply Hm|done|by intros []]).
  repeat (split; [done || lia|]). split.
  - intros i Hi. rewrite Hcp by done.
    apply (kf_mem _ _ _ _ _ F1 p); [apply Hm|done|by intros []|unfold in_page; lia].
  - eapply (dframe_trans lo _ no_page); [exact K|exact K1| |exact D'|..].
    + by eapply kframe_dframe.
    + by intros q [].
    + intros q [->|?]; [right; by left|by left].
    + intros q _. unfold dzero. lia.
    + intros q. by left.
Qed.

(** The state at a store to the copy-on-write page at [va] (it maps [p]): the
    faulting process has [n] pages, another process has [n2]; if the other
    one maps [p] too then the count of [p] says so. *)
Record cow_pre (lo : Z) (s : kst) (r : Z) (fl : list Z) (root : Z) (t : ptree) (n : nat)
    (root2 : Z) (t2 : ptree) (n2 : nat) (va p f : Z) : Prop := CowPre {
  cp_inv : kinv lo s (r :: fl);
  cp_self : aspace lo s root t n;
  cp_other : aspace lo s root2 t2 n2;
  cp_va : 0 ≤ va < Z.of_nat n * PGSIZE ∧ va mod PGSIZE = 0;
  cp_map : umap lo t (vpn va) p f;
  cp_cow : has f PTE_COW = true;
  cp_sep : ∀ q, node_page t q → ¬ node_page t2 q;
  cp_sep1 : ∀ v q g, umap lo t v q g → ¬ node_page t2 q;
  cp_sep2 : ∀ v q g, umap lo t2 v q g → ¬ node_page t q;
  cp_count : ∀ v g, umap lo t2 v p g → 1 < nump s (p / PGSIZE);
  cp_alias : ∀ v g, umap lo t v p g → v ≠ vpn va → 1 < nump s (p / PGSIZE);
}.

(** C4: A copy-on-write fault gives the faulting process a private, writable copy
    and nobody notices: it reads what it read before at every address and may
    now store to the page; the other process reads what it read before, also
    after any store [c] to an address of the private page. *)
Theorem removecopy_isolates lo s r fl root t n root2 t2 n2 va p f sz :
  cow_pre lo s r fl root t n root2 t2 n2 va p f → 0 ≤ sz < 2^64 → sz mod PGSIZE = 0 →
  wp (removecopy root va sz) (λ res s', res = 0 ∧ ∃ fl' t',
    kinv lo s' fl' ∧ pt_repr lo s' root t' ∧ pt_repr lo s' root2 t2 ∧
    uwritable t' va = has f PTE_U ∧
    nump s' (PTE2PA (default 0 (leaf t' !! vpn va)) / PGSIZE) = 1 ∧
    (∀ a, 0 ≤ a < Z.of_nat n * PGSIZE → uload (mem s') t' a = uload (mem s) t a) ∧
    (∀ a, 0 ≤ a < Z.of_nat n2 * PGSIZE → ∀ i c, 0 ≤ i < PGSIZE →
       uload (store8 (mem s') (PTE2PA (default 0 (leaf t' !! vpn va)) + i) c) t2 a =
       uload (mem s) t2 a)) s.
Proof.
  intros [K A A2 [Hva Hal] Hu HC Sp S1 S2 Ct Al] Hsz Hsal.
  pose proof (vpn_range _ _ Hva) as Hv.
  destruct (aspace_used _ _ _ _ _ _ _ _ _ K A Hv Hu) as (Hnp & Hpos & Hpf).
  pose proof (um_flags _ _ _ _ _ Hu) as Hf. pose proof (priv_flags_range f Hf) as Hpr.
  assert (0 ≤ va < MAXVA) as Hva'.
  { rewrite MAXVA_val. pose proof (as_size _ _ _ _ _ A). unfold PGSIZE in *. lia. }
  eapply wp_mono; [|by apply (removecopy_spec lo s r fl root t va sz p f); try apply A].
  intros res s' (-> & fl' & K' & Hr & Hnr & Hrf & Hr1 & _ & R' & Hcp & D).
  split; [done|]. exists fl', (set_leaf (vpn va) (mkpte r (priv_flags f)) t).
  assert (leaf (set_leaf (vpn va) (mkpte r (priv_flags f)) t) !! vpn va =
    Some (mkpte r (priv_flags f))) as Hl' by (simpl; by rewrite lookup_insert_eq).
  rewrite Hl'. cbn [default from_option id]. rewrite (mkpte_pa Hr Hpr).
  split; [done|]. split; [done|]. split; [|split; [|split; [done|split]]].
  - eapply pt_repr_dframe; [exact K|exact D| |apply A2]. intros q Hq. split.
    + intros Hq1. by apply (Sp q).
    + destruct (Z.eqb_spec q p) as [->|]; [|done]. by destruct (S1 _ _ _ Hu).
  - rewrite (uwritable_mkpte lo _ _ _ _ Hr Hpr Hl'), priv_flags_W, andb_true_r.
    by rewrite priv_flags_V, priv_flags_U, (um_valid _ _ _ _ _ Hu).
  - intros a Ha. destruct (decide (vpn a = vpn va)) as [E|E].
    + pose proof Hu as [L P _ _ _]. rewrite <- E in L.
      rewrite (uload_mkpte lo _ _ a _ _ Hr Hpr) by (by rewrite E). rewrite (uload_mkpte lo _ _ _ _ _ P Hf L).
      rewrite priv_flags_V, priv_flags_U.
      by rewrite Hcp by (apply Z.mod_pos_bound; done).
    + transitivity (uload (mem s') t a).
      * unfold uload. simpl. by rewrite lookup_insert_ne.
      * edestruct (uload_dframe lo _ _ s _ s' root t n a K A Ha D) as (?&?&_&_&H); [|exact H].
        intros q g Hq. destruct (aspace_used _ _ _ _ _ _ _ _ _ K A (vpn_range _ _ Ha) Hq)
          as (? & ? & _). split; [done|].
        destruct (Z.eqb_spec q p) as [->|]; [|lia]. pose proof (Al _ _ Hq E). lia.
  - intros a Ha i c Hi.
    edestruct (uload_dframe lo _ _ s _ s' root2 t2 n2 a K A2 Ha D) as (q&g&Hq&Hm&H).
    { intros q g Hq. destruct (aspace_used _ _ _ _ _ _ _ _ _ K A2 (vpn_range _ _ Ha) Hq)
        as (? & ? & _). split; [by eapply S2|].
      destruct (Z.eqb_spec q p) as [->|]; [|lia]. pose proof (Ct _ _ Hq). lia. }
    rewrite <- H. apply (uload_cow lo (KSt (mem s') 0 ∅) (KSt (store8 (mem s') (r + i) c) 0 ∅)
      t2 t2 a q g); [done|lia| |right; apply Hq].
    intros b Hb. simpl. rewrite load8_store8. case_if; [|done]. subst b.
    destruct (aspace_used _ _ _ _ _ _ _ _ _ K A2 (vpn_range _ _ Ha) Hq) as (_ & _ & Hqf).
    destruct Hqf. apply elem_of_cons. left.
    eapply (pages_disjoint q r (r + i)); [apply (um_page _ _ _ _ _ Hq)|apply Hr|done|].
    unfold in_page. lia.
Qed.

(** After a successful [uvmcopy] both page tables are address spaces of [n]
    pages with the same leaves, and their page tables share no page. *)
Lemma copied_spaces lo root1 root2 s fl t1 t2 sz n s' :
  fork_pre lo root1 root2 s fl t1 t2 sz n → copied lo root1 root2 s fl t1 t2 n s' →
  ∃ fl' t1' t2', kinv lo s' fl' ∧ aspace lo s' root1 t1' n ∧ aspace lo s' root2 t2' n ∧
    (∀ v, 0 ≤ v < Z.of_nat n → ∃ p f, umap lo t1 v p f ∧ (p ∉ fl) ∧ ¬ both_nodes t1 t2 p ∧
       nump s' (p / PGSIZE) = nump s (p / PGSIZE) + occ p (upages t1 0 n) ∧
       umap lo t1' v p (cow_flags f) ∧ umap lo t2' v p (cow_flags f)) ∧
    nodes t1' = nodes t1 ∧ pt_grow fl t2 t2' ∧
    (∀ v, ¬ (0 ≤ v < Z.of_nat n) → leaf t1' !! v = leaf t1 !! v ∧ leaf t2' !! v = leaf t2 !! v).
Proof.
  intros Hpre (f' & t1' & t2' & [K O N Hnd OL NL G SF D]). exists f', t1', t2'.
  pose proof (fp_inv _ _ _ _ _ _ _ _ _ Hpre) as K0.
  assert (∀ v, 0 ≤ v < Z.of_nat n → ∃ p f, umap lo t1 v p f ∧ (p ∉ fl) ∧ ¬ both_nodes t1 t2 p ∧
    nump s' (p / PGSIZE) = nump s (p / PGSIZE) + occ p (upages t1 0 n) ∧
    umap lo t1' v p (cow_flags f) ∧ umap lo t2' v p (cow_flags f)) as Hmaps.
  { intros v Hv. destruct (fork_data _ _ _ _ _ _ _ _ _ (v * PGSIZE) Hpre)
      as (p & f & Hu & Hpf & Hpn); [unfold PGSIZE; lia|]. rewrite vpn_page in Hu.
    pose proof Hu as [L P F V Nd]. exists p, f. split; [done|]. split; [done|]. split; [done|].
    pose proof (proj1 (used_pos _ _ _ _ K0 P) Hpf). pose proof (occ_nonneg p (upages t1 0 n)).
    destruct (OL v) as [O1 _], (NL v) as [N1 _]. specialize (O1 Hv p f Hu).
    specialize (N1 Hv p f Hu). pose proof (cow_flags_range f F).
    split; [apply (D p P Hpf Hpn); unfold added; lia|].
    split; (split; [done|done|done|by rewrite cow_flags_V|by apply cow_flags_nodir]). }
  split; [done|]. split; [|split; [|split; [done|split; [done|split; [done|]]]]].
  - split; [done|apply (fp_parent _ _ _ _ _ _ _ _ _ Hpre)|]. intros v Hv.
    destruct (Hmaps v Hv) as (p & f & Hu & Hpf & Hpn & E & Hu1 & _).
    exists p, (cow_flags f). split; [done|]. split.
    + intros [x Hx]. rewrite Hnd in Hx. apply Hpn. left. by exists x.
    + pose proof (proj1 (used_pos _ _ _ _ K0 (um_page _ _ _ _ _ Hu)) Hpf).
      pose proof (occ_nonneg p (upages t1 0 n)). lia.
  - split; [done|apply (fp_parent _ _ _ _ _ _ _ _ _ Hpre)|]. intros v Hv.
    destruct (Hmaps v Hv) as (p & f & Hu & Hpf & Hpn & E & _ & Hu2).
    exists p, (cow_flags f). split; [done|]. split.
    + intros Hx. destruct (pg_pages _ _ _ G p Hx); [|done]. apply Hpn. by right.
    + pose proof (proj1 (used_pos _ _ _ _ K0 (um_page _ _ _ _ _ Hu)) Hpf).
      pose proof (occ_nonneg p (upages t1 0 n)). lia.
  - intros v Hv. destruct (OL v) as [_ O1], (NL v) as [_ N1]. auto.
Qed.
