(* ===== verification/VmDemo.v ===== *)
(** * Concrete address spaces

    States reached from a machine with a few free pages by running the code
    itself: two page tables, one grown by a page, then forked.  They show that
    the hypotheses of the theorems about growing, forking and copy-on-write
    can hold, and they are the witnesses of those theorems. *)

From Stdlib Require Import ZArith Lia.
From stdpp Require Import base numbers list gmap strings tactics.
From S2P Require Import Prelude Riscv Mem Kalloc Vm VmTree VmOps VmView VmUser VmAlloc VmCopy VmCow.

Local Open Scope Z_scope.

Definition two_tables : M kst (Z * Z) :=
  let* r1 := uvmcreate in
  let* r2 := uvmcreate in
  ret (r1, r2).

(** The first page table is grown to one page. *)
Definition grown : M kst (Z * Z * Z) :=
  let* (r1, r2) := two_tables in
  let* x := uvmalloc r1 0 PGSIZE PTE_W in
  ret (r1, r2, x).

(** The second page table becomes a copy of the first; the last component
    of the answer is the head of the free list. *)
Definition forked : M kst (Z * Z * Z * Z) :=
  let* (r1, r2, x) := grown in
  let* c := uvmcopy r1 r2 x in
  let* s := get in
  ret (r1, r2, c, freelist s).

Definition answer {S A} (m : M S A) (s : S) (dflt : A) : A :=
  match m s with Ret (a, _) => a | _ => dflt end.

Lemma wp_answer {S A} (m : M S A) Q s d :
  wp m Q s → wp m (λ a s', Q a s' ∧ a = answer m s d) s.
Proof. unfold wp, answer. by destruct (m s) as [[a s']| | | |]. Qed.

(** *** With [k] free pages to begin with *)

Section few.
Context (k : nat).
Hypothesis Hk : (2 ≤ k ≤ 1000)%nat.
Local Abbreviation lo := (Demo.lo k).
Local Abbreviation s0 := (Demo.demo_kst k).

(** Two empty page tables. *)
Record two_ok (r1 r2 : Z) (s : kst) (fl : list Z) : Prop := TwoOk {
  to_inv : kinv lo s fl;
  to_1 : pt_repr lo s r1 (pt_empty r1);
  to_2 : pt_repr lo s r2 (pt_empty r2);
  to_ne : r1 ≠ r2;
}.

Lemma two_tables_ok : wp two_tables (λ '(r1, r2) s, ∃ fl, two_ok r1 r2 s fl) s0.
Proof using Hk.
  assert (kinv lo s0 (Demo.pages k)) as K by (apply Demo.demo_kinv; lia).
  assert (∃ p q l, Demo.pages k = p :: q :: l ∧ p ≠ q) as (g1 & g2 & fl & Ep & Hg).
  { pose proof (ki_nodup _ _ _ K) as Hd. destruct k as [|[|k']]; [lia..|]. simpl in *. eexists _, _, _. split; [done|].
    intros E. rewrite E in Hd. apply list.NoDup_cons in Hd as [Hn _]. apply Hn. by left. }
  rewrite Ep in K. unfold two_tables. wp_simp. eapply wp_mono; [|by apply (uvmcreate_spec lo s0)].
  intros r1 s1 [(_ & ? & _)|(f1 & E1 & K1 & F1 & R1)]; [done|]. wp_simp.
  injection E1 as <- <-.
  eapply wp_mono; [|by apply (uvmcreate_spec lo s1)].
  intros r2 s2 [(_ & ? & _)|(f2 & E2 & K2 & F2 & R2)]; [done|]. wp_simp.
  exists f2. split; [done| |done|].
  - eapply pt_repr_frame; [exact K1|exact F2| |done]. by intros q Hq [].
  - injection E2 as <- <-. done.
Qed.

Lemma two_ok_grow r1 r2 s fl :
  two_ok r1 r2 s fl → grow_pre lo s fl r1 (pt_empty r1) 0 PGSIZE PTE_W 0 1.
Proof using Type.
  clear. intros [K R1 R2 Hne]. split; try done.
  - split; [done|done|]. simpl. lia.
Qed.

(** The grown address space and the second, empty page table. *)
Definition fork_state (r1 r2 : Z) (s : kst) : Prop := ∃ fl t1 p,
  fork_pre lo r1 r2 s fl t1 (pt_empty r2) PGSIZE 1 ∧
  umap lo t1 0 p (alloc_flags PTE_W) ∧ nump s (p / PGSIZE) = 1 ∧
  ∀ v, v ≠ 0 → leaf t1 !! v = None.

Hypothesis grown_ends : (answer grown s0 (0, 0, 0)).2 = PGSIZE.

Lemma grown_ok : wp grown (λ '(r1, r2, x) s, x = PGSIZE ∧ fork_state r1 r2 s) s0.
Proof using Hk grown_ends.
  eapply wp_mono; [|apply (wp_answer _ (λ '(r1, r2, x) s,
    x = PGSIZE ∧ fork_state r1 r2 s ∨ x = 0) _ (0, 0, 0))].
  { intros [[r1 r2] x] s [[H|H] E]; [done|]. pose proof grown_ends as G.
    rewrite <- E in G. simpl in G. by rewrite H in G. }
  unfold grown. wp_simp. eapply wp_mono; [|apply two_tables_ok].
  intros [r1 r2] s (fl & H). pose proof H as [K R1 R2 Hne]. wp_simp.
  pose proof (two_ok_grow _ _ _ _ H) as Hg.
  eapply wp_mono; [|by eapply grow_spec].
  intros x s' [[-> (ps & f' & t' & Hlen & Ha)]|[-> _]]; wp_simp; [left|by right].
  split; [done|].
  destruct (allocated_view lo r1 s fl _ PTE_W 0 1 ps s' f' t' K (gp_space _ _ _ _ _ _ _ _ _ _ Hg)
    ltac:(simpl; lia) ltac:(done) Hlen Ha) as [A' _].
  pose proof Ha as [K' R' G SF D ND Pg Lf Rs].
  destruct ps as [|p [|]]; [done| |done]. destruct (Pg p) as (Hpf & Hp1 & Hpn & _); [by left|].
  assert (umap lo t' 0 p (alloc_flags PTE_W)) as Hu.
  { destruct (alloc_flags_ok PTE_W) as (?&?&?&?); [done|].
    split; try done; [by apply (Lf 0%nat)|by apply (ki_managed _ _ _ K)]. }
  assert (r2 ∉ fl) as Hr2f by (eapply (node_used lo s fl r2); [done|done|by apply pt_empty_nodes]).
  exists f', t', p. split; [|split; [done|split; [done|]]].
  2: { intros v Hv. by rewrite Rs by (simpl; lia). }
  split; try done.
  - eapply pt_repr_dframe; [exact K|exact D| |done]. intros q ->%pt_empty_nodes.
    split; [|done]. intros ?%pt_empty_nodes. congruence.
  - intros q Hq ->%pt_empty_nodes. destruct (pg_pages _ _ _ G r2 Hq) as [E%pt_empty_nodes|]; [|done].
    congruence.
  - intros v q g Hv Hq. assert (v = 0) as -> by lia.
    destruct (umap_inj _ _ _ _ _ _ _ Hu Hq) as [<- <-]. split; [|lia].
    intros ->%pt_empty_nodes. done.
Qed.

End few.

(** Twelve free pages suffice for a fork, six do not: the two page tables take
    two, the first page and its path three, and the child needs two more. *)
Abbreviation lo := (Demo.lo 12).
Abbreviation s0 := (Demo.demo_kst 12).
Lemma grown_succeeds : (answer grown s0 (0, 0, 0)).2 = PGSIZE.
Proof. by vm_compute. Qed.
Lemma forked_succeeds :
  match answer forked s0 (0, 0, 0, 0) with (_, c, f) => (c =? 0) && negb (f =? 0) end = true.
Proof. by vm_compute. Qed.
Lemma grown_twelve : wp grown (λ '(r1, r2, x) s, x = PGSIZE ∧ fork_state 12 r1 r2 s) s0.
Proof. apply grown_ok; [lia|apply grown_succeeds]. Qed.

Lemma uvmalloc_all_or_nothing_witness : ∃ s fl r,
  grow_pre lo s fl r (pt_empty r) 0 PGSIZE PTE_W 0 1 ∧
  wp (uvmalloc r 0 PGSIZE PTE_W) (λ x s', ∃ fl' t',
    kinv lo s' fl' ∧
    (x = PGSIZE ∧ aspace lo s' r t' (0 + 1) ∧
       (∀ va, Z.of_nat 0 * PGSIZE ≤ va < Z.of_nat (0 + 1) * PGSIZE →
          uload (mem s') t' va = Some 0 ∧ uwritable t' va = has (alloc_flags PTE_W) PTE_W)
     ∨ x = 0 ∧ aspace lo s' r t' 0 ∧
       (∀ va, Z.of_nat 0 * PGSIZE ≤ va < Z.of_nat (0 + 1) * PGSIZE →
          uload (mem s') t' va = None)) ∧
    (∀ va, 0 ≤ va < Z.of_nat 0 * PGSIZE → uload (mem s') t' va = uload (mem s) (pt_empty r) va) ∧
    (∀ q, managed lo q → (q ∉ fl) → ¬ node_page (pt_empty r) q →
       nump s' (q / PGSIZE) = nump s (q / PGSIZE) ∧
       ∀ a, in_page q a → load8 (mem s') a = load8 (mem s) a)) s.
Proof.
  destruct (proj1 (wp_returns _ _ _) (two_tables_ok 12 ltac:(lia))) as ([r1 r2] & s & _ & fl & H).
  exists s, fl, r1. split; [exact (two_ok_grow 12 r1 r2 s fl H)|].
  exact (uvmalloc_all_or_nothing lo s fl r1 (pt_empty r1) 0 PGSIZE PTE_W 0 1
    (two_ok_grow 12 r1 r2 s fl H)).
Defined.

Lemma fork_state_ex : ∃ r1 r2 s fl t1, fork_pre lo r1 r2 s fl t1 (pt_empty r2) PGSIZE 1.
Proof.
  destruct (proj1 (wp_returns _ _ _) grown_twelve)
    as ([[r1 r2] x] & s & _ & _ & fl & t1 & p & H & _). by exists r1, r2, s, fl, t1.
Qed.

Lemma uvmcopy_shares_witness : ∃ r1 r2 s (fl : list Z) t1,
  wp (uvmcopy r1 r2 PGSIZE) (λ r s', r = 0 → ∃ fl' t1' t2',
    kinv lo s' fl' ∧ pt_repr lo s' r1 t1' ∧ pt_repr lo s' r2 t2' ∧
    (∀ va, 0 ≤ va < Z.of_nat 1 * PGSIZE →
       uload (mem s') t1' va = uload (mem s) t1 va ∧
       uload (mem s') t2' va = uload (mem s) t1 va ∧
       uwritable t1' va = false ∧ uwritable t2' va = false) ∧
    (∀ q, managed lo q → (q ∉ fl) → ¬ node_page t1 q → ¬ node_page (pt_empty r2) q →
       nump s' (q / PGSIZE) = nump s (q / PGSIZE) + occ q (upages t1 0 1))) s.
Proof.
  destruct fork_state_ex as (r1 & r2 & s & fl & t1 & H). exists r1, r2, s, fl, t1.
  exact (uvmcopy_shares lo r1 r2 s fl t1 (pt_empty r2) PGSIZE 1 H).
Defined.

(** One free page is left after the first page table has grown. *)
Lemma grown_six_succeeds : (answer grown (Demo.demo_kst 6) (0, 0, 0)).2 = PGSIZE.
Proof. by vm_compute. Qed.
Lemma grown_six_free :
  match grown (Demo.demo_kst 6) with Ret (_, s) => load64 (mem s) (freelist s) =? 0 | _ => false end = true.
Proof. by vm_compute. Qed.
Lemma chain_short m p l : load64 m p = 0 → free_chain m p l → (∀ q, q ∈ l → q ≠ 0) → (length l ≤ 1)%nat.
Proof.
  intros H0. destruct l as [|q [|q' l]]; simpl; [lia..|]. intros (-> & E & _) Hq. exfalso.
  apply (Hq q'); [by right; left|]. congruence.
Qed.

Lemma uvmcopy_failure_restores_witness : ∃ r1 r2 s (fl : list Z) t1,
  (length fl < size (missing (pt_empty r2) 1))%nat ∧
  wp (uvmcopy r1 r2 PGSIZE) (λ r s', r = -1 ∧ ∃ fl' t1' t2',
    kinv (Demo.lo 6) s' fl' ∧ pt_repr (Demo.lo 6) s' r1 t1' ∧ pt_repr (Demo.lo 6) s' r2 t2' ∧
    (∀ va, 0 ≤ va < Z.of_nat 1 * PGSIZE →
       uload (mem s') t1' va = uload (mem s) t1 va ∧ uload (mem s') t2' va = None) ∧
    (∀ q, managed (Demo.lo 6) q → (q ∉ fl) → ¬ node_page t1 q → ¬ node_page (pt_empty r2) q →
       nump s' (q / PGSIZE) = nump s (q / PGSIZE))) s.
Proof.
  destruct (proj1 (wp_returns _ _ _) (grown_ok 6 ltac:(lia) grown_six_succeeds))
    as ([[r1 r2] x] & s & E & _ & fl & t1 & p & H & _).
  assert (length fl < size (missing (pt_empty r2) 1))%nat as Hshort.
  { pose proof grown_six_free as F. rewrite E in F. apply Z.eqb_eq in F. destruct H as [K _ _ _ _ _ _].
    assert (length fl ≤ 1)%nat as Hl.
    { eapply chain_short; [exact F|apply (ki_chain _ _ _ K)|]. intros q Hq. eapply managed_nonzero, (ki_managed _ _ _ K), Hq. }
    enough (size (missing (pt_empty r2) 1) = 2%nat) by lia.
    unfold missing. replace (dom (nodes (pt_empty r2))) with ({[(2%nat, 0)]} : gset (nat * Z)); [by vm_compute|].
    unfold pt_empty. simpl. by rewrite dom_singleton_L. }
  exists r1, r2, s, fl, t1. split; [exact Hshort|].
  exact (uvmcopy_failure_restores (Demo.lo 6) r1 r2 s fl t1 (pt_empty r2) PGSIZE 1 H Hshort).
Defined.

(** Parent and child after the fork: the child's first page is shared. *)
Definition cow_state (r1 r2 : Z) (s : kst) : Prop := ∃ r fl t1 t2 p f,
  cow_pre lo s r fl r2 t2 1 r1 t1 1 0 p f.

Lemma forked_cow r1 r2 s fl t1 p s' :
  fork_pre lo r1 r2 s fl t1 (pt_empty r2) PGSIZE 1 →
  umap lo t1 0 p (alloc_flags PTE_W) → nump s (p / PGSIZE) = 1 →
  (∀ v, v ≠ 0 → leaf t1 !! v = None) →
  copied lo r1 r2 s fl t1 (pt_empty r2) 1 s' → freelist s' ≠ 0 →
  cow_state r1 r2 s'.
Proof.
  intros Hpre Hu0 Hn0 Hl0 Hc Hfree.
  destruct (copied_spaces _ _ _ _ _ _ _ _ _ _ Hpre Hc)
    as (f' & t1' & t2' & K & A1 & A2 & Hm & Hnd & G & Hrest).
  destruct (Hm 0 ltac:(lia)) as (q & f & Hu & Hqf & Hqn & Hnum & Hu1 & Hu2).
  destruct (umap_inj _ _ _ _ _ _ _ Hu0 Hu) as [<- <-].
  assert (occ p (upages t1 0 1) = 1) as Hocc.
  { simpl. rewrite (um_leaf _ _ _ _ _ Hu). cbn [from_option id].
    rewrite (mkpte_pa (um_page _ _ _ _ _ Hu) (um_flags _ _ _ _ _ Hu)).
    by rewrite Z.eqb_refl. }
  destruct f' as [|r fl']; [by destruct Hfree; apply (ki_chain _ _ _ K)|].
  exists r, fl', t1', t2', p, (cow_flags (alloc_flags PTE_W)).
  assert (∀ x, node_page t2' x → ¬ node_page t1' x) as Hsep.
  { intros x Hx [y Hy]. rewrite Hnd in Hy. assert (node_page t1 x) as Hx1 by by exists y.
    destruct (pg_pages _ _ _ G x Hx) as [?|Hin].
    - by apply (fp_sep _ _ _ _ _ _ _ _ _ Hpre x).
    - by destruct (node_used _ _ _ _ _ _ (fp_inv _ _ _ _ _ _ _ _ _ Hpre)
        (as_repr _ _ _ _ _ (fp_parent _ _ _ _ _ _ _ _ _ Hpre)) Hx1). }
  assert (∀ v x g t', (t' = t1' ∨ t' = t2') → umap lo t' v x g → v = 0 ∧ x = p) as Honly.
  { intros v x g t' Ht Hx. destruct (decide (v = 0)) as [->|Hv].
    - split; [done|]. destruct Ht as [-> | ->];
        [by destruct (umap_inj _ _ _ _ _ _ _ Hx Hu1)|by destruct (umap_inj _ _ _ _ _ _ _ Hx Hu2)].
    - destruct (Hrest v ltac:(lia)) as [E1 E2]. destruct Hx as [L _ _ _ _].
      destruct Ht as [-> | ->]; rewrite ?E1, ?E2, ?Hl0 in L by done; done. }
  destruct (aspace_used _ _ _ _ _ _ 0 _ _ K A1 ltac:(simpl; lia) Hu1) as (Hp1 & _ & _).
  destruct (aspace_used _ _ _ _ _ _ 0 _ _ K A2 ltac:(simpl; lia) Hu2) as (Hp2 & _ & _).
  split; try done; try (intros; rewrite Hnum, Hn0, Hocc; done).
  - intros v x g Hx. by destruct (Honly v x g t2' (or_intror eq_refl) Hx) as [_ ->].
  - intros v x g Hx. by destruct (Honly v x g t1' (or_introl eq_refl) Hx) as [_ ->].
Qed.

Lemma forked_ok : wp forked (λ '(r1, r2, c, f) s, cow_state r1 r2 s) s0.
Proof.
  eapply wp_mono; [|apply (wp_answer _ (λ '(r1, r2, c, f) s,
    c = 0 ∧ (f ≠ 0 → cow_state r1 r2 s) ∨ c = -1) _ (0, 0, 0, 0))].
  { intros [[[r1 r2] c] f] s [H E]. pose proof forked_succeeds as G.
    rewrite <- E in G. bool_to_prop. destruct H as [[_ H]|H]; [by apply H|lia]. }
  unfold forked. wp_simp. eapply wp_mono; [|apply grown_twelve].
  intros [[r1 r2] x] s (-> & fl & t1 & p & Hpre & Hu & Hn & Hl). wp_simp.
  eapply wp_mono; [|by eapply fork_spec].
  intros c s' [[-> Hc]|[-> _]]; wp_simp; [left|by right]. split; [done|].
  intros Hf. by eapply forked_cow.
Qed.

Lemma removecopy_isolates_witness : ∃ s r1 r2 t1 t2 p f,
  umap lo t2 (vpn 0) p f ∧ has f PTE_COW = true ∧
  wp (removecopy r2 0 PGSIZE) (λ res s', res = 0 ∧ ∃ fl' t',
    kinv lo s' fl' ∧ pt_repr lo s' r2 t' ∧ pt_repr lo s' r1 t1 ∧
    uwritable t' 0 = has f PTE_U ∧
    nump s' (PTE2PA (default 0 (leaf t' !! vpn 0)) / PGSIZE) = 1 ∧
    (∀ a, 0 ≤ a < Z.of_nat 1 * PGSIZE → uload (mem s') t' a = uload (mem s) t2 a) ∧
    (∀ a, 0 ≤ a < Z.of_nat 1 * PGSIZE → ∀ i c, 0 ≤ i < PGSIZE →
       uload (store8 (mem s') (PTE2PA (default 0 (leaf t' !! vpn 0)) + i) c) t1 a =
       uload (mem s) t1 a)) s.
Proof.
  destruct (proj1 (wp_returns _ _ _) forked_ok)
    as ([[[r1 r2] c] g] & s & _ & r & fl & t1 & t2 & p & f & H).
  exists s, r1, r2, t1, t2, p, f. split; [apply H|]. split; [apply H|].
  exact (removecopy_isolates lo s r fl r2 t2 1 r1 t1 1 0 p f PGSIZE H
    ltac:(unfold PGSIZE; lia) eq_refl).
Defined.

Lemma copyin_correct_witness : ∃ root s t,
  uload (mem s) t 100 ≠ None ∧
  wp (copyin root 0 100) (λ '(r, dst) s', s' = s ∧
    (r = 0 ∧ Z.of_nat (length dst) = 100 ∧
       (∀ i b, dst !! i = Some b → uload (mem s) t (0 + Z.of_nat i) = Some b) ∨
     r = -1 ∧ ∃ i, 0 ≤ i < 100 ∧ uload (mem s) t (0 + i) = None)) s.
Proof.
  destruct (proj1 (wp_returns _ _ _) grown_twelve)
    as ([[r1 r2] x] & s & _ & _ & fl & t1 & p & [K [R _ _] _ _ _ _ _] & Hu & _ & Hl).
  pose proof Hu as [L P F _ _]. exists r1, s, t1. split.
  - by rewrite (uload_mkpte _ _ _ 100 _ _ P F L).
  - apply (copyin_correct lo r1 s fl t1 0 100); [exact K|exact R| |lia|lia|unfold PGSIZE; lia].
    intros v e He _ _. destruct (decide (v = 0)) as [->|Hv]; [|by rewrite Hl in He].
    rewrite L in He. injection He as <-. by rewrite (mkpte_pa P F).
Defined.

Lemma removecopy_error_paths_witness : ∃ root s,
  removecopy root (2^30) PGSIZE s = Fault "load".
Proof.
  destruct (proj1 (wp_returns _ _ _) (two_tables_ok 12 ltac:(lia))) as ([r1 r2] & s & _ & fl & [K R1 _ _]).
  exists r1, s.
  pose proof (removecopy_error_paths lo s fl r1 (pt_empty r1) (2^30) PGSIZE K R1) as H.
  destruct H as (_ & H & _); [lia|done|unfold PGSIZE; lia|done|].
  apply H; [rewrite MAXVA_val; lia|]. unfold pte_addr, pt_empty. simpl.
  by rewrite lookup_singleton_ne.
Defined.
