(* ===== verification/Proc.v ===== *)
(** * Processes (kernel/proc.c, kernel/proc.h)

    The process table and every operation of proc.c except the choice of the
    next process, which is in Sched.v.  The model follows one CPU: a function
    runs from one [swtch] to the next, so a function that gives up the CPU is
    split there ([yield_out]/[yield_in], [sleep_out]/[sleep_in], one scan of
    [wait]).  The spinlocks the CPU holds are part of the state; acquiring a
    held lock or releasing a free one panics, as in spinlock.c.  The file
    system is used through the interface [FileOps]. *)

From Stdlib Require Import ZArith Lia.
From stdpp Require Import base numbers list gmap strings tactics.
From S2P Require Import Prelude Riscv Mem Kalloc Vm.

Local Open Scope Z_scope.

Definition NOFILE : nat := 16.

Inductive procstate := UNUSED | USED | SLEEPING | RUNNABLE | RUNNING | ZOMBIE.
#[global] Instance procstate_eq_dec : EqDecision procstate.
Proof. solve_decision. Defined.

(** A sleep channel is the address of some kernel object; the address of a
    process structure is written with its index in the table, the address of
    a global variable with its name. *)
Inductive channel := NoChan | ChProc (i : nat) | ChAddr (a : Z) | ChGlobal (name : string).
#[global] Instance channel_eq_dec : EqDecision channel.
Proof. solve_decision. Defined.

(** The locks of proc.c and trap.c, locks in allocated structures, and the
    other global locks by name. *)
Inductive lock := LProc (i : nat) | LPid | LWait | LTicks | LOther (a : Z) | LGlobal (name : string).
#[global] Instance lock_eq_dec : EqDecision lock.
Proof. solve_decision. Defined.

(** [struct context]: [ra], [sp] and [s0]-[s11]. *)
Record context := Context { ra : Z; sp : Z; sregs : list Z }.

(** [struct proc].  A pointer to a process is its index in the table. *)
Record proc := Proc {
  state : procstate;
  chan : channel;
  killed_ : Z;
  xstate : Z;
  pid : Z;
  parent : option nat;
  kstack : Z;
  sz : Z;
  pagetable : Z;
  trapframe : Z;
  ctx : context;
  ofile : list Z;
  cwd : Z;
  name : list Z;
  rtime : Z;
  ctime : Z;
  etime : Z;
  pticks : Z;
  current_ticks : Z;
  sigalarm : Z;
  handler : Z;
  interval : Z;
  read_count : Z;
  curr_queue : Z;
  prev_queue : Z;
  time_wait : Z;
  time_run_queue : Z;
  tick_ctr : Z;
  queue_level : Z;
  last_exec : Z;
  in_time : Z;
  run_time : Z;
  wait_time : Z;
  sleep_time : Z;
  priority : Z;
  dynamic_priority : Z;
  num_shed : Z;
}.

#[global] Instance eta_context : Eta context := λ c, Context (ra c) (sp c) (sregs c).
#[global] Instance eta_proc : Eta proc := λ p,
  Proc (state p) (chan p) (killed_ p) (xstate p) (pid p) (parent p) (kstack p) (sz p)
    (pagetable p) (trapframe p) (ctx p) (ofile p) (cwd p) (name p) (rtime p) (ctime p)
    (etime p) (pticks p) (current_ticks p) (sigalarm p) (handler p) (interval p)
    (read_count p) (curr_queue p) (prev_queue p) (time_wait p) (time_run_queue p)
    (tick_ctr p) (queue_level p) (last_exec p) (in_time p) (run_time p) (wait_time p)
    (sleep_time p) (priority p) (dynamic_priority p) (num_shed p).

(** A zeroed structure, as the C program starts with. *)
Definition proc0 : proc :=
  Proc UNUSED NoChan 0 0 0 None 0 0 0 0 (Context 0 0 (replicate 12 0)) (replicate NOFILE 0) 0
    (replicate 16 0) 0 0 0 0 0 0 0 0 0 0 0 0 0 0 0 0 0 0 0 0 0 0 0.

(** ** The state of the kernel

    [F] is the state of the file system.  [cur] is [mycpu()->proc] and [held]
    are the locks this CPU holds, newest first. *)
Record sys (F : Type) := Sys {
  kmem : kst;
  procs : list proc;
  cur : option nat;
  held : list lock;
  initproc : option nat;
  nextpid : Z;
  ticks : Z;
  files : F;
}.
Arguments Sys {F}. Arguments kmem {F}. Arguments procs {F}. Arguments cur {F}.
Arguments held {F}. Arguments initproc {F}. Arguments nextpid {F}. Arguments ticks {F}.
Arguments files {F}.

#[global] Instance eta_sys F : Eta (sys F) := λ s,
  Sys (kmem s) (procs s) (cur s) (held s) (initproc s) (nextpid s) (ticks s) (files s).

(** Addresses of the trampoline page and of [forkret] (from the linker). *)
Class Symbols := { sym_trampoline : Z; sym_forkret : Z }.

(** What proc.c needs from the file layer: file.c, log.c and fs.c. *)
Class FileOps (F : Type) := {
  filedup : Z → M (sys F) Z;
  fileclose : Z → M (sys F) unit;
  idup : Z → M (sys F) Z;
  iput : Z → M (sys F) unit;
  begin_op : M (sys F) unit;
  end_op : M (sys F) unit;
  namei : list Z → M (sys F) Z;
}.

Section proc.
Context {F : Type} `{Symbols} `{FileOps F}.
Implicit Types (i : nat).

(** ** Access to the state *)

Definition kern {A} (m : M kst A) : M (sys F) A :=
  lift kmem (λ k s, s <| kmem := k |>) m.

Definition getp i : M (sys F) proc := λ s,
  match procs s !! i with
  | Some p => Ret (p, s)
  | None => Fault "proc"
  end.
Definition updp i (f : proc → proc) : M (sys F) unit :=
  let* p := getp i in
  modify (λ s, s <| procs := <[i := f p]> (procs s) |>).

Definition acquire (l : lock) : M (sys F) unit := λ s,
  if decide (l ∈ held s) then Panic "acquire" else Ret (tt, s <| held ::= cons l |>).
Definition release (l : lock) : M (sys F) unit := λ s,
  if decide (l ∈ held s) then Ret (tt, s <| held ::= filter (λ l', l' ≠ l) |>)
  else Panic "release".

Definition gticks : M (sys F) Z := let* s := get in ret (ticks s).

(** The indices of the table, in the order of [for(p = proc; p < &proc[NPROC]; p++)]. *)
Definition table : list nat := seq 0 NPROC.

(** The current process; dereferencing a null [myproc()] faults. *)
Definition myproc : M (sys F) nat := λ s,
  match cur s with
  | Some i => Ret (i, s)
  | None => Fault "myproc"
  end.

(** ** Start-up *)

Definition procinit : M (sys F) unit :=
  for_each table (λ i,
    updp i (λ p, p <| state := UNUSED |> <| kstack := KSTACK (Z.of_nat i) |>)).

Definition allocpid : M (sys F) Z :=
  acquire LPid ;;;
  let* s := get in
  let pid := nextpid s in
  modify (λ s, s <| nextpid := s32 (pid + 1) |>) ;;;
  release LPid ;;;
  ret pid.

(** ** Page tables of processes *)

Definition proc_pagetable i : M (sys F) Z :=
  let* p := getp i in
  let* pagetable := kern uvmcreate in
  if pagetable =? 0 then ret 0
  else
    let* r := kern (mappages pagetable TRAMPOLINE PGSIZE sym_trampoline (Z.lor PTE_R PTE_X)) in
    if r <? 0 then
      kern (uvmfree pagetable 0) ;;; ret 0
    else
      let* r := kern (mappages pagetable TRAPFRAME PGSIZE (trapframe p) (Z.lor PTE_R PTE_W)) in
      if r <? 0 then
        kern (uvmunmap pagetable TRAMPOLINE 1 false) ;;;
        kern (uvmfree pagetable 0) ;;;
        ret 0
      else ret pagetable.

Definition proc_freepagetable (pagetable sz : Z) : M (sys F) unit :=
  kern (uvmunmap pagetable TRAMPOLINE 1 false) ;;;
  kern (uvmunmap pagetable TRAPFRAME 1 false) ;;;
  kern (uvmfree pagetable sz).

(** ** Creating and freeing *)

(** The accounting fields [freeproc] and [allocproc] clear. *)
Definition clear_alarm (p : proc) : proc :=
  p <| pticks := 0 |> <| handler := 0 |> <| sigalarm := 0 |> <| interval := -1 |>
    <| current_ticks := 0 |> <| curr_queue := -1 |> <| prev_queue := -1 |>
    <| time_wait := 0 |> <| time_run_queue := 0 |>.
Definition clear_sched (now prio : Z) (p : proc) : proc :=
  p <| tick_ctr := 0 |> <| queue_level := 0 |> <| last_exec := now |>
    <| wait_time := 0 |> <| run_time := 0 |> <| priority := prio |>
    <| dynamic_priority := 0 |> <| sleep_time := 0 |> <| num_shed := 0 |>.

Definition freeproc i : M (sys F) unit :=
  let* p := getp i in
  (if negb (trapframe p =? 0) then kern (kfree (trapframe p)) else ret tt) ;;;
  updp i (λ p, p <| trapframe := 0 |>) ;;;
  (if negb (pagetable p =? 0) then proc_freepagetable (pagetable p) (sz p) else ret tt) ;;;
  let* now := gticks in
  updp i (λ p, clear_sched (s32 now) 0 (clear_alarm
    (p <| pagetable := 0 |> <| sz := 0 |> <| pid := 0 |> <| parent := None |>
       <| name ::= (λ n, <[0%nat := 0]> n) |> <| chan := NoChan |> <| killed_ := 0 |>
       <| xstate := 0 |> <| state := UNUSED |>))).

(** One scan for an unused entry; its lock stays held. *)
Definition find_unused : M (sys F) (option nat) :=
  for_find table (λ i,
    acquire (LProc i) ;;;
    let* p := getp i in
    if decide (state p = UNUSED) then ret (Some i)
    else release (LProc i) ;;; ret None).

Definition allocproc : M (sys F) (option nat) :=
  let* r := find_unused in
  let* r := match r with Some i => ret (Some i) | None => find_unused end in
  match r with
  | None => ret None
  | Some i =>
      let* pid := allocpid in
      let* now := gticks in
      updp i (λ p, clear_sched (s32 now) 50 (clear_alarm (p <| Proc.pid := pid |> <| state := USED |>))) ;;;
      let* tf := kern kalloc in
      updp i (λ p, p <| trapframe := tf |>) ;;;
      if tf =? 0 then
        freeproc i ;;; release (LProc i) ;;; ret None
      else
        let* pt := proc_pagetable i in
        updp i (λ p, p <| pagetable := pt |>) ;;;
        if pt =? 0 then
          freeproc i ;;; release (LProc i) ;;; ret None
        else
          let* now := gticks in
          updp i (λ p, clear_sched (s32 now) 50 (clear_alarm
            (p <| ctx := Context sym_forkret (u64 (kstack p + PGSIZE)) (replicate 12 0) |>
               <| rtime := 0 |> <| etime := 0 |> <| ctime := now |>))) ;;;
          ret (Some i)
  end.

(** [initcode], the first user program. *)
Definition initcode : list Z :=
  [0x17; 0x05; 0x00; 0x00; 0x13; 0x05; 0x45; 0x02;
   0x97; 0x05; 0x00; 0x00; 0x93; 0x85; 0x35; 0x02;
   0x93; 0x08; 0x70; 0x00; 0x73; 0x00; 0x00; 0x00;
   0x93; 0x08; 0x20; 0x00; 0x73; 0x00; 0x00; 0x00;
   0xef; 0xf0; 0x9f; 0xff; 0x2f; 0x69; 0x6e; 0x69;
   0x74; 0x00; 0x00; 0x24; 0x00; 0x00; 0x00; 0x00;
   0x00; 0x00; 0x00; 0x00].

(** [safestrcpy(p->name, s, sizeof(p->name))] on byte lists: at most 15
    bytes of [s] up to its NUL, then a NUL; the rest of [name] is kept. *)
Fixpoint until_nul (s : list Z) : list Z :=
  match s with
  | [] => []
  | c :: s => if c =? 0 then [] else c :: until_nul s
  end.
Definition set_name (s : list Z) (p : proc) : proc :=
  let n := take 15 (until_nul s) ++ [0] in
  p <| name := n ++ drop (length n) (name p) |>.

(** "initcode" *)
Definition initcode_name : list Z := [105; 110; 105; 116; 99; 111; 100; 101; 0].

(** Offsets in [struct trapframe]. *)
Definition tf_kernel_satp : Z := 0.
Definition tf_kernel_sp : Z := 8.
Definition tf_kernel_trap : Z := 16.
Definition tf_epc : Z := 24.
Definition tf_kernel_hartid : Z := 32.
Definition tf_sp : Z := 48.
Definition tf_a0 : Z := 112.
Definition tf_size : Z := 288.

Definition userinit : M (sys F) unit :=
  let* r := allocproc in
  modify (λ s, s <| initproc := r |>) ;;;
  match r with
  | None => fault "userinit"
  | Some i =>
      let* p := getp i in
      kern (uvmfirst (pagetable p) initcode) ;;;
      updp i (λ p, p <| sz := PGSIZE |>) ;;;
      kern (wr64 (trapframe p + tf_epc) 0) ;;;
      kern (wr64 (trapframe p + tf_sp) PGSIZE) ;;;
      updp i (set_name initcode_name) ;;;
      let* ip := namei [47] in
      updp i (λ p, p <| cwd := ip |>) ;;;
      updp i (λ p, p <| state := RUNNABLE |>) ;;;
      release (LProc i)
  end.

Definition growproc (n : Z) : M (sys F) Z :=
  let* i := myproc in
  let* p := getp i in
  let sz0 := sz p in
  if 0 <? n then
    let* sz1 := kern (uvmalloc (pagetable p) sz0 (u64 (sz0 + n)) PTE_W) in
    if sz1 =? 0 then ret (-1)
    else updp i (λ p, p <| sz := sz1 |>) ;;; ret 0
  else if n <? 0 then
    let* sz1 := kern (uvmdealloc (pagetable p) sz0 (u64 (sz0 + n))) in
    updp i (λ p, p <| sz := sz1 |>) ;;; ret 0
  else updp i (λ p, p <| sz := sz0 |>) ;;; ret 0.

Definition fork : M (sys F) Z :=
  let* i := myproc in
  let* r := allocproc in
  match r with
  | None => ret (-1)
  | Some np =>
      let* p := getp i in
      let* q := getp np in
      let* c := kern (uvmcopy (pagetable p) (pagetable q) (sz p)) in
      if c <? 0 then
        freeproc np ;;; release (LProc np) ;;; ret (-1)
      else
        updp np (λ q, q <| sz := sz p |>) ;;;
        kern (kmemmove (trapframe q) (trapframe p) tf_size) ;;;
        kern (wr64 (trapframe q + tf_a0) 0) ;;;
        for_each (seq 0 NOFILE) (λ fd,
          let* p := getp i in
          let f := default 0 (ofile p !! fd) in
          if negb (f =? 0) then
            let* f' := filedup f in
            updp np (λ q, q <| ofile ::= (λ l, <[fd := f']> l) |>)
          else ret tt) ;;;
        let* ip := idup (cwd p) in
        updp np (λ q, q <| cwd := ip |>) ;;;
        updp np (set_name (name p)) ;;;
        let* q := getp np in
        let pid := Proc.pid q in
        release (LProc np) ;;;
        acquire LWait ;;;
        updp np (λ q, q <| parent := Some i |>) ;;;
        release LWait ;;;
        acquire (LProc np) ;;;
        updp np (λ q, q <| state := RUNNABLE |>) ;;;
        release (LProc np) ;;;
        ret pid
  end.

(** ** Sleeping and waking up *)

Definition wake (now : Z) (p : proc) : proc :=
  p <| state := RUNNABLE |> <| last_exec := s32 now |> <| tick_ctr := 0 |>
    <| in_time := s32 now |>.

Definition wakeup (c : channel) : M (sys F) unit :=
  for_each table (λ i,
    let* s := get in
    if decide (cur s = Some i) then ret tt
    else
      acquire (LProc i) ;;;
      let* p := getp i in
      let* now := gticks in
      (if decide (state p = SLEEPING ∧ chan p = c) then updp i (wake now) else ret tt) ;;;
      release (LProc i)).

(** [sched] up to the switch, and what the scheduler does when it comes
    back: [c->proc = 0; release(&p->lock)]. *)
Definition sched_out : M (sys F) unit :=
  let* i := myproc in
  let* s := get in
  if negb (bool_decide (LProc i ∈ held s)) then panic "sched p->lock"
  else if negb (length (held s) =? 1)%nat then panic "sched locks"
  else
    let* p := getp i in
    if decide (state p = RUNNING) then panic "sched running"
    else
      modify (λ s, s <| cur := None |>) ;;;
      release (LProc i).

(** The scheduler switches to process [i], whose lock it holds. *)
Definition dispatch i : M (sys F) unit :=
  updp i (λ p, p <| state := RUNNING |>) ;;;
  modify (λ s, s <| cur := Some i |>).

Definition yield_out : M (sys F) unit :=
  let* i := myproc in
  acquire (LProc i) ;;;
  updp i (λ p, p <| state := RUNNABLE |>) ;;;
  sched_out.
Definition yield_in : M (sys F) unit :=
  let* i := myproc in
  release (LProc i).

Definition sleep_out (c : channel) (lk : lock) : M (sys F) unit :=
  let* i := myproc in
  acquire (LProc i) ;;;
  release lk ;;;
  updp i (λ p, p <| chan := c |>) ;;;
  updp i (λ p, p <| state := SLEEPING |>) ;;;
  sched_out.
Definition sleep_in (lk : lock) : M (sys F) unit :=
  let* i := myproc in
  updp i (λ p, p <| chan := NoChan |>) ;;;
  release (LProc i) ;;;
  acquire lk.

Definition kill (pid : Z) : M (sys F) Z :=
  let* r := for_find table (λ i,
    acquire (LProc i) ;;;
    let* p := getp i in
    if Proc.pid p =? pid then
      let* now := gticks in
      updp i (λ p, p <| killed_ := 1 |>) ;;;
      (if decide (state p = SLEEPING) then updp i (wake now) else ret tt) ;;;
      release (LProc i) ;;;
      ret (Some 0)
    else release (LProc i) ;;; ret None) in
  ret (default (-1) r).

Definition setkilled i : M (sys F) unit :=
  acquire (LProc i) ;;; updp i (λ p, p <| killed_ := 1 |>) ;;; release (LProc i).
Definition killed i : M (sys F) Z :=
  acquire (LProc i) ;;;
  let* p := getp i in
  release (LProc i) ;;;
  ret (killed_ p).

(** ** Exit and wait *)

(** [if(pp->parent == p)] compares pointers. *)
Definition is_child i (p : proc) : bool := bool_decide (parent p = Some i).

Definition proc_chan (o : option nat) : channel :=
  match o with Some i => ChProc i | None => NoChan end.

Definition reparent i : M (sys F) unit :=
  for_each table (λ j,
    let* pp := getp j in
    if is_child i pp then
      let* s := get in
      updp j (λ p, p <| parent := initproc s |>) ;;;
      wakeup (proc_chan (initproc s))
    else ret tt).

(** [exit] up to its last switch; the process never runs again. *)
Definition exit (status : Z) : M (sys F) unit :=
  let* i := myproc in
  let* s := get in
  if decide (initproc s = Some i) then panic "init exiting"
  else
    for_each (seq 0 NOFILE) (λ fd,
      let* p := getp i in
      let f := default 0 (ofile p !! fd) in
      if negb (f =? 0) then
        fileclose f ;;;
        updp i (λ p, p <| ofile ::= (λ l, <[fd := 0]> l) |>)
      else ret tt) ;;;
    begin_op ;;;
    let* p := getp i in
    iput (cwd p) ;;;
    end_op ;;;
    updp i (λ p, p <| cwd := 0 |>) ;;;
    acquire LWait ;;;
    reparent i ;;;
    let* p := getp i in
    wakeup (proc_chan (parent p)) ;;;
    acquire (LProc i) ;;;
    let* now := gticks in
    updp i (λ p, p <| xstate := status |> <| state := ZOMBIE |> <| etime := now |>) ;;;
    release LWait ;;;
    sched_out.

(** The scan of [wait] from entry [l] on: the pid of a reaped child or -1,
    or whether there are children. *)
Fixpoint wait_loop (l : list nat) i (addr : Z) (havekids : bool) : M (sys F) (bool + Z) :=
  match l with
  | [] => ret (inl havekids)
  | j :: l =>
      let* pp := getp j in
      if is_child i pp then
        acquire (LProc j) ;;;
        let* pp := getp j in
        if decide (state pp = ZOMBIE) then
          let pid := Proc.pid pp in
          let* p := getp i in
          let* r := if negb (addr =? 0)
                    then kern (copyout (pagetable p) addr (le_bytes 4 (u32 (xstate pp))))
                    else ret 0 in
          if r <? 0 then
            release (LProc j) ;;; release LWait ;;; ret (inr (-1))
          else
            freeproc j ;;; release (LProc j) ;;; release LWait ;;; ret (inr pid)
        else
          release (LProc j) ;;;
          wait_loop l i addr true
      else wait_loop l i addr havekids
  end.

(** One pass of [wait] with [wait_lock] held: [Some] result, or [None] when
    the process went to sleep. *)
Definition wait_pass (addr : Z) : M (sys F) (option Z) :=
  let* i := myproc in
  let* r := wait_loop table i addr false in
  match r with
  | inr r => ret (Some r)
  | inl havekids =>
      let* k := if negb havekids then ret 1 else killed i in
      if negb (k =? 0) then release LWait ;;; ret (Some (-1))
      else sleep_out (ChProc i) LWait ;;; ret None
  end.
Definition wait (addr : Z) : M (sys F) (option Z) :=
  acquire LWait ;;; wait_pass addr.
Definition wait_again (addr : Z) : M (sys F) (option Z) :=
  sleep_in LWait ;;; wait_pass addr.

(** [waitx]: also the waiting and running time; they are not written when
    no child was reaped. *)
Fixpoint waitx_loop (l : list nat) i (addr : Z) (havekids : bool)
  : M (sys F) (bool + Z * (Z * Z)) :=
  match l with
  | [] => ret (inl havekids)
  | j :: l =>
      let* np := getp j in
      if is_child i np then
        acquire (LProc j) ;;;
        let* np := getp j in
        if decide (state np = ZOMBIE) then
          let pid := Proc.pid np in
          let times := (u32 (etime np - ctime np - rtime np), rtime np) in
          let* p := getp i in
          let* r := if negb (addr =? 0)
                    then kern (copyout (pagetable p) addr (le_bytes 4 (u32 (xstate np))))
                    else ret 0 in
          if r <? 0 then
            release (LProc j) ;;; release LWait ;;; ret (inr (-1, times))
          else
            freeproc j ;;; release (LProc j) ;;; release LWait ;;; ret (inr (pid, times))
        else
          release (LProc j) ;;;
          waitx_loop l i addr true
      else waitx_loop l i addr havekids
  end.

Definition waitx_pass (addr : Z) : M (sys F) (option (Z * option (Z * Z))) :=
  let* i := myproc in
  let* r := waitx_loop table i addr false in
  match r with
  | inr (r, times) => ret (Some (r, Some times))
  | inl havekids =>
      let* p := getp i in
      if negb havekids || negb (killed_ p =? 0) then
        release LWait ;;; ret (Some (-1, None))
      else sleep_out (ChProc i) LWait ;;; ret None
  end.
Definition waitx (addr : Z) : M (sys F) (option (Z * option (Z * Z))) :=
  acquire LWait ;;; waitx_pass addr.

(** ** Copying to user or kernel addresses *)

Definition either_copyout (user_dst : bool) (dst : Z) (src : list Z) : M (sys F) Z :=
  if user_dst then
    let* i := myproc in
    let* p := getp i in
    kern (copyout (pagetable p) dst src)
  else kern (wr_bytes dst src) ;;; ret 0.

Definition either_copyin (user_src : bool) (src len : Z) : M (sys F) (Z * list Z) :=
  if user_src then
    let* i := myproc in
    let* p := getp i in
    kern (copyin (pagetable p) src len)
  else let* bs := kern (rd_bytes src (Z.to_nat len)) in ret (0, bs).

(** ** Accounting *)

Definition update_time : M (sys F) unit :=
  for_each table (λ i,
    acquire (LProc i) ;;;
    let* p := getp i in
    (if decide (state p = RUNNING) then updp i (λ p, p <| rtime := u32 (rtime p + 1) |>)
     else ret tt) ;;;
    release (LProc i)).
End proc.
