(* ===== verification/ProcRules.v ===== *)
(** * Rules for the process table

    How the accesses to locks and table entries act on the state, and the
    specification of a loop that visits every entry of the table. *)

From Stdlib Require Import ZArith Lia.
From stdpp Require Import base numbers list gmap strings tactics.
From S2P Require Import Prelude Riscv Mem Kalloc Vm Proc.

Local Open Scope Z_scope.

Section rules.
Context {F : Type}.
Implicit Types (s : sys F) (i : nat).

Lemma wp_acquire l (Q : unit → sys F → Prop) s :
  l ∉ held s → Q tt (s <| held ::= cons l |>) → wp (acquire l) Q s.
Proof. intros Hl HQ. unfold wp, acquire. by rewrite decide_False. Qed.

Lemma wp_release l (Q : unit → sys F → Prop) s :
  l ∈ held s → Q tt (s <| held ::= filter (λ l', l' ≠ l) |>) → wp (release l) Q s.
Proof. intros Hl HQ. unfold wp, release. by rewrite decide_True. Qed.

Lemma wp_getp i p (Q : proc → sys F → Prop) s :
  procs s !! i = Some p → Q p s → wp (getp i) Q s.
Proof. intros Hp HQ. unfold wp, getp. by rewrite Hp. Qed.

Lemma wp_updp i p f (Q : unit → sys F → Prop) s :
  procs s !! i = Some p → Q tt (s <| procs := <[i := f p]> (procs s) |>) →
  wp (updp i f) Q s.
Proof.
  intros Hp HQ. unfold updp. wp_simp. eapply wp_getp; [done|]. by wp_simp.
Qed.

(** The same rules on a state whose table is given, and whose entry [i] was
    just written. *)
Lemma set_procs_twice s l l' : s <| procs := l |> <| procs := l' |> = s <| procs := l' |>.
Proof. by destruct s. Qed.

Lemma wp_updp_first i p f (l : list proc) (Q : unit → sys F → Prop) s :
  l !! i = Some p → Q tt (s <| procs := <[i := f p]> l |>) →
  wp (updp i f) Q (s <| procs := l |>).
Proof. intros Hp HQ. eapply wp_updp; [exact Hp|]. by rewrite set_procs_twice. Qed.

Lemma wp_updp_again i p f (l : list proc) (Q : unit → sys F → Prop) s :
  (i < length l)%nat → Q tt (s <| procs := <[i := f p]> l |>) →
  wp (updp i f) Q (s <| procs := <[i := p]> l |>).
Proof.
  intros Hi HQ. eapply wp_updp_first; [by apply list_lookup_insert_eq|].
  by rewrite list_insert_insert_eq.
Qed.

Lemma wp_getp_again i p (l : list proc) (Q : proc → sys F → Prop) s :
  (i < length l)%nat → Q p (s <| procs := <[i := p]> l |>) →
  wp (getp i) Q (s <| procs := <[i := p]> l |>).
Proof. intros Hi HQ. eapply wp_getp; [by apply list_lookup_insert_eq|done]. Qed.

Lemma wp_myproc i (Q : nat → sys F → Prop) s : cur s = Some i → Q i s → wp myproc Q s.
Proof. intros Hc HQ. unfold wp, myproc. by rewrite Hc. Qed.

Lemma wp_gticks (Q : Z → sys F → Prop) s : Q (ticks s) s → wp gticks Q s.
Proof. intros HQ. unfold gticks. by wp_simp. Qed.

(** Releasing the lock acquired last gives back the locks held before. *)
Lemma filter_cons_drop (l : lock) h : l ∉ h → filter (λ l', l' ≠ l) (l :: h) = h.
Proof.
  intros Hl. rewrite filter_cons_False by tauto. induction h as [|x h IH]; [done|].
  apply not_elem_of_cons in Hl as [Hx Hl]. rewrite filter_cons_True by done. by rewrite IH.
Qed.

Lemma wp_release_last l h (Q : unit → sys F → Prop) s :
  held s = l :: h → l ∉ h → Q tt (s <| held := h |>) → wp (release l) Q s.
Proof.
  intros Hh Hl HQ. apply wp_release; [rewrite Hh; by left|].
  destruct s. simpl in *. subst. unfold set_field in *. simpl in *.
  by rewrite filter_cons_drop.
Qed.

(** ** A loop over the table

    Each iteration changes its own entry by [g]; what the loop reads beside
    the entry is in the invariant [Inv], which does not mention the table. *)
Section table_loop.
Context (g : nat → proc → proc) (body : nat → M (sys F) unit) (Inv : sys F → Prop).
Hypothesis body_ok : ∀ i p s, Inv s → procs s !! i = Some p →
  wp (body i) (λ _ s', s' = s <| procs := <[i := g i p]> (procs s) |>) s.
Hypothesis Inv_procs : ∀ s l, Inv s → Inv (s <| procs := l |>).

Lemma for_each_range n : ∀ k s,
  Inv s → (k + n ≤ length (procs s))%nat →
  wp (for_each (seq k n) body) (λ _ s', ∃ l, s' = s <| procs := l |> ∧
    ∀ j, l !! j = (if bool_decide (k ≤ j < k + n)%nat then g j else id) <$> procs s !! j) s.
Proof using All.
  induction n as [|n IH]; intros k s HI Hlen; simpl.
  { wp_simp. exists (procs s). split; [by destruct s|]. intros j.
    rewrite bool_decide_false by lia. by destruct (procs s !! j). }
  destruct (lookup_lt_is_Some_2 (procs s) k) as [p Hp]; [lia|].
  wp_simp. eapply wp_mono; [|by apply body_ok]. intros _ s1 ->.
  eapply wp_mono; [|apply IH; [by apply Inv_procs|simpl; rewrite length_insert; lia]].
  intros _ s2 (l & -> & Hl). exists l. split; [by destruct s|]. intros j. rewrite Hl.
  simpl. destruct (decide (j = k)) as [->|Hne].
  - rewrite bool_decide_false by lia. rewrite bool_decide_true by lia.
    rewrite list_lookup_insert_eq by lia. by rewrite Hp.
  - rewrite list_lookup_insert_ne by done. do 2 case_bool_decide; try lia; done.
Qed.

Lemma for_each_table s :
  Inv s → length (procs s) = NPROC →
  wp (for_each table body) (λ _ s', s' = s <| procs := imap g (procs s) |>) s.
Proof using All.
  intros HI Hlen. eapply wp_mono; [|apply for_each_range; [done|by rewrite Hlen]].
  intros _ s' (l & -> & Hl). do 2 f_equal.
  assert (l = imap g (procs s)) as ->; [|by destruct s].
  apply list_eq. intros j. rewrite Hl, list_lookup_imap.
  destruct (procs s !! j) as [p|] eqn:E; [|done]. apply lookup_lt_Some in E.
  rewrite bool_decide_true by lia. done.
Qed.
End table_loop.

(** Visiting an entry under its lock. *)
Lemma visit_ok (f : proc → M (sys F) unit) (g : proc → proc) i p s :
  LProc i ∉ held s → procs s !! i = Some p →
  (∀ h, wp (f p) (λ _ s', s' = s <| held := h |> <| procs := <[i := g p]> (procs s) |>)
           (s <| held := h |>)) →
  wp (acquire (LProc i) ;;; (let* p := getp i in f p ;;; release (LProc i)))
     (λ _ s', s' = s <| procs := <[i := g p]> (procs s) |>) s.
Proof.
  intros Hl Hp Hf. wp_simp. apply wp_acquire; [done|]. wp_simp.
  eapply wp_getp; [done|]. wp_simp.
  eapply wp_mono; [|apply (Hf (LProc i :: held s))]. intros _ s' ->. simpl.
  eapply wp_release_last; [done|done|]. by destruct s.
Qed.
End rules.
