(* ===== verification/ProcProps.v ===== *)
(** * Sleeping and waking (kernel/proc.c)

    What wakeup and killed do to the process table. *)

From Stdlib Require Import ZArith Lia.
From stdpp Require Import base numbers list gmap strings tactics.
From S2P Require Import Prelude Riscv Mem Kalloc Vm Proc ProcRules.

Local Open Scope Z_scope.

Section procs.
Context {F : Type}.
Implicit Types (s : sys F).

(** No lock of a process is held. *)
Definition unlocked s : Prop := ∀ i, LProc i ∉ held s.

(** Process [i] after [wakeup(c)] by process [me] at time [now]. *)
Definition woken (me : option nat) (now : Z) (c : channel) (i : nat) (p : proc) : proc :=
  if decide (me = Some i) then p
  else if decide (state p = SLEEPING ∧ chan p = c) then wake now p else p.

Lemma wakeup_spec c s :
  unlocked s → length (procs s) = NPROC →
  wp (wakeup c) (λ _ s', s' = s <| procs := imap (woken (cur s) (ticks s) c) (procs s) |>) s.
Proof.
  intros Hu Hlen.
  apply (for_each_table (woken (cur s) (ticks s) c) _
    (λ s0, unlocked s0 ∧ cur s0 = cur s ∧ ticks s0 = ticks s)); [|done|done|done].
  intros i p s0 (Hu0 & E1 & E2) Hp. wp_step. wp_step. unfold woken. rewrite E1.
  destruct (decide (cur s = Some i)) as [Hc|Hc].
  { wp_step. rewrite list_insert_id by done. by destruct s0. }
  wp_step. apply wp_acquire; [apply Hu0|]. wp_step. eapply wp_getp; [done|]. wp_step. apply wp_gticks.
  change (ticks (s0 <| held ::= cons (LProc i) |>)) with (ticks s0). rewrite E2. wp_step.
  destruct (decide (state p = SLEEPING ∧ chan p = c)) as [Hs|Hs].
  - eapply wp_updp; [done|]. eapply (wp_release_last _ (held s0)); [done|apply Hu0|]. by destruct s0.
  - wp_step. eapply (wp_release_last _ (held s0)); [done|apply Hu0|].
    rewrite list_insert_id by done. by destruct s0.
Qed.

Lemma killed_spec i p s (Q : Z → sys F → Prop) :
  unlocked s → procs s !! i = Some p → Q (killed_ p) s → wp (killed i) Q s.
Proof.
  intros Hu Hp HQ. unfold killed. wp_step. apply wp_acquire; [apply Hu|]. wp_step.
  eapply wp_getp; [done|]. wp_step. eapply (wp_release_last _ (held s)); [done|apply Hu|]. wp_step.
  by destruct s.
Qed.

(** [sleep] up to the switch: the process sleeps on [c] and the lock is free;
    nobody can change the process in between, because its lock is taken before
    [lk] is released. *)
Lemma sleep_out_spec c lk i p s :
  cur s = Some i → procs s !! i = Some p → held s = [lk] → lk ≠ LProc i →
  wp (sleep_out c lk) (λ _ s', s' = s <| procs := <[i := p <| chan := c |> <| state := SLEEPING |>]> (procs s) |>
    <| cur := None |> <| held := [] |>) s.
Proof.
  intros Hc Hp Hh Hlk. assert (i < length (procs s))%nat as Hi by (by eapply lookup_lt_Some).
  destruct s as [k ps c0 h0 ip np tk f]. simpl in *. subst c0 h0.
  unfold sleep_out. wp_step. eapply wp_myproc; [done|]. wp_step.
  apply wp_acquire; [by intros ?%list_elem_of_singleton|]. wp_step.
  apply wp_release; [right; by left|]. cbv [set_field]. simpl.
  rewrite filter_cons_True by done. rewrite filter_cons_False by tauto. rewrite filter_nil.
  wp_step. eapply wp_updp; [done|]. wp_step. eapply wp_updp; [by apply list_lookup_insert_eq|].
  unfold sched_out. wp_step. eapply wp_myproc; [done|]. wp_step. wp_step. cbv [set_field]. simpl.
  rewrite bool_decide_true by (by left). simpl. wp_step.
  eapply wp_getp; [simpl; apply list_lookup_insert_eq; by rewrite length_insert|]. simpl. wp_step. wp_step.
  apply wp_release; [by left|]. cbv [set_field]. simpl. rewrite list_insert_insert_eq.
  by rewrite filter_cons_False by tauto.
Qed.
End procs.
