(* ===== verification/Sched.v ===== *)
(** * Schedulers (kernel/proc.c)

    The four policies the kernel can be built with (round robin, first come
    first served, multi-level feedback queue and priority based), and
    [mlfq_yield], which the timer interrupt calls under MLFQ.  Each scheduler
    is modelled up to the switch to the chosen process. *)

From Stdlib Require Import ZArith Lia.
From stdpp Require Import base numbers list gmap strings tactics.
From S2P Require Import Prelude Riscv Mem Kalloc Vm Proc.

Local Open Scope Z_scope.

Definition ticklim : list Z := [1; 3; 9; 15].
Definition numq : Z := 4.

Section sched.
Context {F : Type}.
Implicit Types (i j : nat) (sel : option nat).

(** *** Round robin

    The loop of [scheduler] from entry [k] of the table on: the next
    process to run, with its lock held. *)
Definition rr_from (k : nat) : M (sys F) (option nat) :=
  for_find (seq k (NPROC - k)) (λ i,
    acquire (LProc i) ;;;
    let* p := getp i in
    if decide (state p = RUNNABLE) then
      dispatch i ;;; ret (Some i)
    else release (LProc i) ;;; ret None).

(** *** Multi-level feedback queue *)

Fixpoint mlfq_scan (l : list nat) sel : M (sys F) (option nat) :=
  match l with
  | [] => ret sel
  | i :: l =>
      acquire (LProc i) ;;;
      let* p := getp i in
      if decide (state p ≠ RUNNABLE) then
        release (LProc i) ;;; mlfq_scan l sel
      else
        match sel with
        | None => release (LProc i) ;;; mlfq_scan l (Some i)
        | Some j =>
            let* q := getp j in
            let sel' :=
              if queue_level p <? queue_level q then Some i
              else if (queue_level p =? queue_level q) && (in_time p <? in_time q) then Some i
              else sel in
            release (LProc i) ;;; mlfq_scan l sel'
        end
  end.

Definition sched_mlfq : M (sys F) (option nat) :=
  let* sel := mlfq_scan table None in
  match sel with
  | None => ret None
  | Some i => acquire (LProc i) ;;; dispatch i ;;; ret (Some i)
  end.

(** The timer interrupt of the current process: its answer says whether the
    process gives up the CPU ([yield_out] then follows). *)
Definition mlfq_age (now : Z) (p : proc) : proc :=
  if (0 <? queue_level p) && (30 <? u32 (now - u32 (last_exec p)))
  then p <| last_exec := s32 now |> <| in_time := s32 now |> <| queue_level ::= Z.pred |>
  else p.

Fixpoint mlfq_age_loop (l : list nat) i (ti : Z) : M (sys F) Z :=
  match l with
  | [] => ret ti
  | j :: l =>
      acquire (LProc j) ;;;
      let* p := getp j in
      if decide (state p ≠ RUNNABLE) then
        release (LProc j) ;;; mlfq_age_loop l i ti
      else
        let* now := gticks in
        updp j (mlfq_age now) ;;;
        let* p := getp j in
        let* c := getp i in
        release (LProc j) ;;;
        mlfq_age_loop l i (if queue_level p <? queue_level c then ti + 1 else ti)
  end.

Definition mlfq_yield : M (sys F) bool :=
  let* i := myproc in
  updp i (λ p, p <| tick_ctr ::= (λ c, s32 (c + 1)) |>) ;;;
  let* ti := mlfq_age_loop table i 0 in
  let* c := getp i in
  let* now := gticks in
  (* an index outside [ticklim] is outside the array *)
  match (if 0 <=? queue_level c then ticklim !! Z.to_nat (queue_level c) else None) with
  | None => fault "ticklim"
  | Some lim =>
      if lim <=? tick_ctr c then
        updp i (λ p, p <| tick_ctr := 0 |> <| in_time := s32 now |>) ;;;
        (if queue_level c <? numq
         then updp i (λ p, p <| queue_level := queue_level p + 1 |>) else ret tt) ;;;
        yield_out ;;; ret true
      else if 0 <? ti then
        updp i (λ p, p <| tick_ctr := 0 |> <| in_time := s32 now |>) ;;;
        yield_out ;;; ret true
      else ret false
  end.

(** *** First come, first served *)

Fixpoint fcfs_scan (l : list nat) sel : M (sys F) (option nat) :=
  match l with
  | [] => ret sel
  | i :: l =>
      acquire (LProc i) ;;;
      let* p := getp i in
      if decide (state p ≠ RUNNABLE) then
        release (LProc i) ;;; fcfs_scan l sel
      else
        let* sel' := match sel with
                     | None => ret (Some i)
                     | Some j =>
                         let* q := getp j in
                         ret (if ctime p <? ctime q then Some i else sel)
                     end in
        release (LProc i) ;;; fcfs_scan l sel'
  end.

Definition sched_fcfs : M (sys F) (option nat) :=
  let* s := get in
  let* sel := fcfs_scan table (cur s) in
  match sel with
  | None => ret None
  | Some i => acquire (LProc i) ;;; dispatch i ;;; ret (Some i)
  end.

(** *** Priority based *)

(** The dynamic priority: C's [int] arithmetic, division towards zero. *)
Definition dp (p : proc) : Z :=
  let d := s32 (Z.quot (s32 (s32 (s32 (s32 (3 * run_time p) - wait_time p) - sleep_time p) * 50))
                       (s32 (s32 (s32 (run_time p + wait_time p) + sleep_time p) + 1))) in
  let d := if d <? 0 then 0 else d in
  let d := s32 (d + priority p) in
  if 100 <? d then 100 else d.

(** A zero divisor (possible only after overflow) is left to [Z.quot]. *)
Fixpoint pbs_scan (l : list nat) sel : M (sys F) (option nat) :=
  match l with
  | [] => ret sel
  | i :: l =>
      acquire (LProc i) ;;;
      let* p := getp i in
      if decide (state p ≠ RUNNABLE) then
        release (LProc i) ;;; pbs_scan l sel
      else
        updp i (λ p, p <| dynamic_priority := dp p |>) ;;;
        let* p := getp i in
        match sel with
        | None => pbs_scan l (Some i)
        | Some j =>
            let* q := getp j in
            if dynamic_priority p <? dynamic_priority q then
              release (LProc j) ;;; pbs_scan l (Some i)
            else if (dynamic_priority p =? dynamic_priority q) && (num_shed p <? num_shed q) then
              release (LProc j) ;;; pbs_scan l (Some i)
            else if (dynamic_priority p =? dynamic_priority q) && (num_shed p =? num_shed q)
                    && (ctime p <? ctime q) then
              release (LProc j) ;;; pbs_scan l (Some i)
            else release (LProc i) ;;; pbs_scan l sel
        end
  end.

Definition sched_pbs : M (sys F) (option nat) :=
  let* s := get in
  let* sel := pbs_scan table (cur s) in
  match sel with
  | None => ret None
  | Some i =>
      updp i (λ p, p <| state := RUNNING |>) ;;;
      modify (λ s, s <| cur := Some i |>) ;;;
      updp i (λ p, p <| run_time := 0 |> <| wait_time := 0 |> <| sleep_time := 0 |>
                     <| num_shed := s32 (num_shed p + 1) |>) ;;;
      ret (Some i)
  end.
End sched.
