(* ===== verification/SchedProps.v ===== *)
(** * What the schedulers choose

    Each selection loop of Sched.v computes [pick] for the policy's order, and
    [pick] finds the first best runnable process of the table. *)

From Stdlib Require Import ZArith Lia.
From stdpp Require Import base numbers list gmap strings tactics.
From S2P Require Import Prelude Riscv Mem Kalloc Vm Proc ProcRules Sched.

Local Open Scope Z_scope.

Definition runnable (ps : list proc) (i : nat) (p : proc) : Prop :=
  ps !! i = Some p ∧ state p = RUNNABLE.

(** ** Choosing the first best entry of a list *)

Section pick.
Context (better : proc → proc → bool) (ps : list proc).

Fixpoint pick (l : list nat) (sel : option nat) : option nat :=
  match l with
  | [] => sel
  | i :: l =>
      match ps !! i with
      | Some p =>
          if decide (state p = RUNNABLE) then
            match sel ≫= λ j, ps !! j with
            | None => pick l (Some i)
            | Some q => pick l (if better p q then Some i else sel)
            end
          else pick l sel
      | None => pick l sel
      end
  end.

(** The order of a policy: asymmetric, and if [b] is no better than [a] and
    [c] is no better than [b] then [c] is no better than [a]. *)
Class PolicyOrder : Prop := {
  po_asym : ∀ a b, better a b = true → better b a = false;
  po_trans : ∀ a b c, better b a = false → better c b = false → better c a = false;
}.
Context `{PolicyOrder}.

(** [i] is the first best of the candidates: those in [l] and [sel]. *)
Record first_best (l : list nat) (sel : option nat) (i : nat) : Prop := FirstBest {
  fb_run : ∃ p, runnable ps i p;
  fb_cand : sel = Some i ∨ i ∈ l;
  fb_best : ∀ j q p, sel = Some j ∨ j ∈ l → runnable ps j q → runnable ps i p →
    better q p = false;
  fb_first : sel = Some i ∨ ∃ l1 l2, l = l1 ++ i :: l2 ∧
    ∀ j q p, sel = Some j ∨ j ∈ l1 → runnable ps j q → runnable ps i p → better p q = true;
}.

Lemma runnable_inj i p q : runnable ps i p → runnable ps i q → p = q.
Proof using Type. intros [E _] [E' _]. congruence. Qed.

Lemma better_irrefl p : better p p = false.
Proof using All. destruct (better p p) eqn:E; [|done]. by rewrite <- (po_asym _ _ E). Qed.

(** An entry that is not runnable, or no better than the selected one. *)
Lemma first_best_keep x l sel i :
  (∀ p, runnable ps x p → ∃ k q, sel = Some k ∧ runnable ps k q ∧ better p q = false) →
  first_best l sel i → first_best (x :: l) sel i.
Proof using All.
  intros Hx [[pi Hr] C B Fi]. split; [by exists pi| | |].
  - destruct C; [by left|right; by right].
  - intros j q p [Hj|[->|Hj]%elem_of_cons] Hq Hp; [by apply (B j); auto| |by apply (B j); auto].
    destruct (Hx q Hq) as (k & qk & -> & Hk & Hb). apply (po_trans p qk q); [|done].
    apply (B k); auto.
  - destruct Fi as [?|(l1 & l2 & -> & Hf)]; [by left|right]. exists (x :: l1), l2.
    split; [done|]. intros j q p [Hj|[->|Hj]%elem_of_cons] Hq Hp;
      [by apply (Hf j); auto| |by apply (Hf j); auto].
    destruct (Hx q Hq) as (k & qk & -> & Hk & Hb). destruct (better p q) eqn:E; [done|].
    rewrite <- (po_trans qk q p Hb E). apply (Hf k); auto.
Qed.

(** An entry that is selected: it is better than the one selected so far. *)
Lemma first_best_take x p l sel i :
  runnable ps x p → (∀ k q, sel = Some k → runnable ps k q → better p q = true) →
  first_best l (Some x) i → first_best (x :: l) sel i.
Proof using All.
  intros Hx Hs [[pi Hr] C B Fi]. split; [by exists pi| | |].
  - right. apply elem_of_cons. destruct C as [[= ->]|?]; auto.
  - intros j q p' [Hj|[->|Hj]%elem_of_cons] Hq Hp'; [|by apply (B x); auto|by apply (B j); auto].
    apply (po_trans p' p q); [by apply (B x); auto|]. apply po_asym. by apply (Hs j).
  - right. destruct Fi as [[= <-]|(l1 & l2 & -> & Hf)].
    + exists [], l. split; [done|]. intros j q p' [Hj|Hj%elem_of_nil] Hq Hp'; [|done].
      rewrite (runnable_inj _ _ _ Hp' Hx). by apply (Hs j).
    + exists (x :: l1), l2. split; [done|].
      intros j q p' [Hj|[->|Hj]%elem_of_cons] Hq Hp'; [|by apply (Hf x); auto|by apply (Hf j); auto].
      destruct (better p' q) eqn:E; [done|]. rewrite <- (Hs j q Hj Hq). symmetry.
      apply (po_trans q p' p); [done|]. apply po_asym. apply (Hf x); auto.
Qed.

Lemma pick_first_best l : ∀ sel i,
  (∀ k, sel = Some k → ∃ q, runnable ps k q) →
  pick l sel = Some i → first_best l sel i.
Proof using All.
  induction l as [|x l IH]; intros sel i Hsel Hp; simpl in Hp.
  { subst sel. destruct (Hsel i eq_refl) as [p Hr]. split; [by exists p|by left| |by left].
    intros j q p' [[= <-]|?%elem_of_nil] Hq Hp'; [|done].
    rewrite (runnable_inj _ _ _ Hq Hp'). apply better_irrefl. }
  destruct (ps !! x) as [p|] eqn:Ex.
  2: { apply first_best_keep; [|by apply IH]. intros p [E _]. congruence. }
  case_decide as Hst.
  2: { apply first_best_keep; [|by apply IH]. intros p' [E ?]. congruence. }
  assert (runnable ps x p) as Hx by done.
  destruct sel as [k|]; simpl in Hp.
  - destruct (Hsel k eq_refl) as [q Hq]. pose proof Hq as [Eq _]. rewrite Eq in Hp.
    destruct (better p q) eqn:E.
    + apply (first_best_take x p); [done| |apply IH; [|done]].
      * intros ? q' [= <-] Hq'. by rewrite (runnable_inj _ _ _ Hq' Hq).
      * intros ? [= <-]. by exists p.
    + apply first_best_keep; [|by apply IH]. intros p' Hp'.
      rewrite (runnable_inj _ _ _ Hp' Hx). by exists k, q.
  - apply (first_best_take x p); [done|done|apply IH; [|done]]. intros ? [= <-]. by exists p.
Qed.

Lemma pick_none l : ∀ sel,
  pick l sel = None → sel = None ∧ ∀ j q, j ∈ l → ¬ runnable ps j q.
Proof using Type.
  induction l as [|x l IH]; intros sel Hp; simpl in Hp.
  { split; [done|]. by intros j q ?%elem_of_nil. }
  destruct (ps !! x) as [p|] eqn:Ex; [case_decide as Hst|].
  - destruct (sel ≫= _) as [q|] eqn:Es.
    + destruct (better p q); [by destruct (IH _ Hp)|]. by apply IH in Hp as [-> _].
    + by destruct (IH _ Hp).
  - destruct (IH _ Hp) as [-> Hn]. split; [done|]. intros j q [->|Hj]%elem_of_cons; [|by apply Hn].
    intros [E ?]. congruence.
  - destruct (IH _ Hp) as [-> Hn]. split; [done|]. intros j q [->|Hj]%elem_of_cons; [|by apply Hn].
    intros [E ?]. congruence.
Qed.
End pick.

(** ** The loops compute [pick] *)

Definition mlfq_better (p q : proc) : bool :=
  (queue_level p <? queue_level q) ||
  ((queue_level p =? queue_level q) && (in_time p <? in_time q)).
Definition fcfs_better (p q : proc) : bool := ctime p <? ctime q.
Definition pbs_better (p q : proc) : bool :=
  (dynamic_priority p <? dynamic_priority q) ||
  ((dynamic_priority p =? dynamic_priority q) && (num_shed p <? num_shed q)) ||
  ((dynamic_priority p =? dynamic_priority q) && (num_shed p =? num_shed q) &&
   (ctime p <? ctime q)).

Lemma mlfq_better_spec p q : reflect
  (queue_level p < queue_level q ∨ queue_level p = queue_level q ∧ in_time p < in_time q)
  (mlfq_better p q).
Proof.
  apply iff_reflect. unfold mlfq_better.
  by rewrite orb_true_iff, andb_true_iff, !Z.ltb_lt, Z.eqb_eq.
Qed.
Lemma fcfs_better_spec p q : reflect (ctime p < ctime q) (fcfs_better p q).
Proof. apply Z.ltb_spec0. Qed.
Lemma pbs_better_spec p q : reflect
  ((dynamic_priority p < dynamic_priority q ∨
    dynamic_priority p = dynamic_priority q ∧ num_shed p < num_shed q) ∨
   (dynamic_priority p = dynamic_priority q ∧ num_shed p = num_shed q) ∧ ctime p < ctime q)
  (pbs_better p q).
Proof.
  apply iff_reflect. unfold pbs_better.
  by rewrite !orb_true_iff, !andb_true_iff, !Z.ltb_lt, !Z.eqb_eq.
Qed.

Ltac solve_order spec :=
  split; [intros a b|intros a b c];
  repeat match goal with
  | |- context [?better ?x ?y] =>
      lazymatch type of (better x y) with
      | bool => lazymatch type of x with proc => destruct (spec x y) end
      end
  end; (done || lia).

#[export] Instance mlfq_order : PolicyOrder mlfq_better.
Proof. solve_order mlfq_better_spec. Qed.
#[export] Instance fcfs_order : PolicyOrder fcfs_better.
Proof. solve_order fcfs_better_spec. Qed.
#[export] Instance pbs_order : PolicyOrder pbs_better.
Proof. solve_order pbs_better_spec. Qed.

Section scans.
Context {F : Type}.
Implicit Types (s : sys F).

(** The scheduler runs without a process and without a lock. *)
Record idle (s : sys F) : Prop := Idle {
  id_cur : cur s = None;
  id_held : held s = [];
  id_len : length (procs s) = NPROC;
}.

Lemma mlfq_scan_pick l : ∀ sel s,
  (∀ i, i ∈ l ∨ sel = Some i → is_Some (procs s !! i)) → held s = [] →
  wp (mlfq_scan l sel) (λ r s', s' = s ∧ r = pick mlfq_better (procs s) l sel) s.
Proof.
  induction l as [|x l IH]; intros sel s Hidx Hh; simpl; [by wp_simp|].
  destruct (Hidx x) as [p Hp]; [left; by left|]. rewrite Hp.
  wp_simp. apply wp_acquire; [rewrite Hh; apply not_elem_of_nil|].
  wp_simp. eapply wp_getp; [done|].
  assert (∀ sel', (sel' = sel ∨ sel' = Some x) →
    wp (release (LProc x) ;;; mlfq_scan l sel')
      (λ r s', s' = s ∧ r = pick mlfq_better (procs s) l sel')
      (s <| held ::= cons (LProc x) |>)) as Hnext.
  { intros sel' Hs. wp_simp. eapply wp_release_last; [done|rewrite Hh; apply not_elem_of_nil|].
    replace (set_field held _ _) with s by (by destruct s). apply IH; [|done].
    intros i [Hi|Hi]; [apply Hidx; left; by right|]. destruct Hs as [->| ->].
    - apply Hidx. by right.
    - injection Hi as <-. by exists p. }
  destruct (decide (state p = RUNNABLE)) as [Hst|Hst].
  - rewrite (decide_False (P:=state p ≠ RUNNABLE)) by tauto.
    destruct sel as [k|]; simpl; [|by apply Hnext; right].
    destruct (Hidx k) as [q Hq]; [by right|]. rewrite Hq.
    wp_simp. eapply wp_getp; [done|].
    assert ((if queue_level p <? queue_level q then Some x
      else if (queue_level p =? queue_level q) && (in_time p <? in_time q)
           then Some x else Some k) = if mlfq_better p q then Some x else Some k) as ->.
    { unfold mlfq_better. by destruct (queue_level p <? queue_level q). }
    apply Hnext. destruct (mlfq_better p q); auto.
  - rewrite (decide_True (P:=state p ≠ RUNNABLE)) by done. apply Hnext. by left.
Qed.

Lemma fcfs_scan_pick l : ∀ sel s,
  (∀ i, i ∈ l ∨ sel = Some i → is_Some (procs s !! i)) → held s = [] →
  wp (fcfs_scan l sel) (λ r s', s' = s ∧ r = pick fcfs_better (procs s) l sel) s.
Proof.
  induction l as [|x l IH]; intros sel s Hidx Hh; simpl; [by wp_simp|].
  destruct (Hidx x) as [p Hp]; [left; by left|]. rewrite Hp.
  wp_simp. apply wp_acquire; [rewrite Hh; apply not_elem_of_nil|].
  wp_simp. eapply wp_getp; [done|].
  assert (∀ sel', (sel' = sel ∨ sel' = Some x) →
    wp (release (LProc x) ;;; fcfs_scan l sel')
      (λ r s', s' = s ∧ r = pick fcfs_better (procs s) l sel')
      (s <| held ::= cons (LProc x) |>)) as Hnext.
  { intros sel' Hs. wp_simp. eapply wp_release_last; [done|rewrite Hh; apply not_elem_of_nil|].
    replace (set_field held _ _) with s by (by destruct s). apply IH; [|done].
    intros i [Hi|Hi]; [apply Hidx; left; by right|]. destruct Hs as [->| ->].
    - apply Hidx. by right.
    - injection Hi as <-. by exists p. }
  destruct (decide (state p = RUNNABLE)) as [Hst|Hst].
  - rewrite (decide_False (P:=state p ≠ RUNNABLE)) by tauto. wp_simp.
    destruct sel as [k|]; simpl; [|wp_step; by apply Hnext; right].
    destruct (Hidx k) as [q Hq]; [by right|]. rewrite Hq.
    wp_step. eapply wp_getp; [done|]. wp_step.
    apply Hnext. destruct (fcfs_better p q); auto.
  - rewrite (decide_True (P:=state p ≠ RUNNABLE)) by done. apply Hnext. by left.
Qed.

(** Switching to the selected process. *)
Lemma run_selected i p s :
  idle s → procs s !! i = Some p →
  wp (acquire (LProc i) ;;; dispatch i ;;; ret (Some i)) (λ r s', r = Some i ∧
    s' = s <| procs := <[i := p <| state := RUNNING |>]> (procs s) |>
           <| cur := Some i |> <| held := [LProc i] |>) s.
Proof.
  intros [Hc Hh Hl] Hp. wp_simp. apply wp_acquire; [rewrite Hh; apply not_elem_of_nil|].
  unfold dispatch. wp_simp. eapply wp_updp; [done|]. wp_simp. split; [done|].
  destruct s. simpl in *. by subst.
Qed.
End scans.

Lemma table_split l1 i l2 : table = l1 ++ i :: l2 → ∀ j, (j < i)%nat → j ∈ l1.
Proof.
  intros E j Hj.
  assert (table !! length l1 = Some i) as Hi by (rewrite E; apply list_lookup_middle; done).
  apply lookup_seq in Hi as [-> Hlt]. simpl in *.
  assert (table !! j = Some j) as Hjj by (apply lookup_seq; lia).
  rewrite E, lookup_app_l in Hjj by lia. by eapply list_elem_of_lookup_2.
Qed.

Lemma elem_table i : i ∈ table ↔ (i < NPROC)%nat.
Proof. unfold table. rewrite elem_of_seq. lia. Qed.

(** The answer of a policy on a table: the process it runs, and why. *)
Definition chosen (better : proc → proc → bool) (ps : list proc) (i : nat) (p : proc) : Prop :=
  runnable ps i p ∧
  ∀ j q, runnable ps j q → better q p = false ∧ ((j < i)%nat → better p q = true).

Lemma pick_chosen better ps i `{PolicyOrder better} :
  length ps = NPROC → pick better ps table None = Some i → ∃ p, chosen better ps i p.
Proof.
  intros Hlen Hp. destruct (pick_first_best better ps table None i) as [[p Hr] C B Fi]; [done..|].
  exists p. split; [done|]. intros j q Hq. split.
  - apply (B j); [|done..]. right. apply elem_table. rewrite <- Hlen.
    destruct Hq as [Hq _]. by apply lookup_lt_Some in Hq.
  - intros Hj. destruct Fi as [?|(l1 & l2 & E & Hf)]; [done|].
    apply (Hf j); [|done..]. right. by eapply table_split.
Qed.

Section theorems.
Context {F : Type}.
Implicit Types (s : sys F).

(** The state in which process [i] of [ps] has been switched to. *)
Definition running s (ps : list proc) (i : nat) (p : proc) : sys F :=
  s <| procs := <[i := p <| state := RUNNING |>]> ps |> <| cur := Some i |>
    <| held := [LProc i] |>.

(** What a scheduler that follows [better] does: it runs nothing, and only
    when nothing is runnable, or it switches to the first best process. *)
Definition schedules (better : proc → proc → bool) (r : option nat) s s' : Prop :=
  match r with
  | None => s' = s ∧ ∀ i p, ¬ runnable (procs s) i p
  | Some i => ∃ p, chosen better (procs s) i p ∧ s' = running s (procs s) i p
  end.

Lemma schedules_intro better (scan : M (sys F) (option nat)) s `{PolicyOrder better} :
  idle s →
  wp scan (λ r s', s' = s ∧ r = pick better (procs s) table None) s →
  wp (let* sel := scan in
      match sel with
      | None => ret None
      | Some i => acquire (LProc i) ;;; dispatch i ;;; ret (Some i)
      end) (λ r s', schedules better r s s') s.
Proof.
  intros Hi Hs. wp_simp. eapply wp_mono; [|exact Hs]. intros r s' [-> ->].
  destruct (pick better (procs s) table None) as [i|] eqn:E.
  - destruct (pick_chosen better (procs s) i (id_len _ Hi) E) as [p Hc].
    eapply wp_mono; [|eapply (run_selected i p s Hi); apply Hc].
    intros r s' [-> ->]. by exists p.
  - wp_simp. split; [done|]. intros i p Hr.
    destruct (pick_none better (procs s) table None E) as [_ Hn]. apply (Hn i p); [|done].
    apply elem_table. rewrite <- (id_len _ Hi). destruct Hr as [Hr _].
    by apply lookup_lt_Some in Hr.
Qed.

Lemma idle_idx s : idle s → ∀ i, i ∈ table ∨ None = Some i → is_Some (procs s !! i).
Proof.
  intros Hi i [Hin|]; [|done]. apply lookup_lt_is_Some. rewrite (id_len _ Hi).
  by apply elem_table.
Qed.
End theorems.

(** C36: MLFQ runs the runnable process of the lowest queue level, among those the
    one that entered its queue first, among those the one of the lowest index;
    it idles only when nothing is runnable. *)
Theorem sched_mlfq_correct {F} (s : sys F) :
  idle s → wp sched_mlfq (λ r s', schedules mlfq_better r s s') s.
Proof.
  intros Hi. unfold sched_mlfq. apply schedules_intro; [apply _|done|].
  apply mlfq_scan_pick; [by apply idle_idx|apply Hi].
Qed.

(** FCFS runs the runnable process that was created first (the one of the
    lowest index among equals); it idles only when nothing is runnable. *)
Theorem sched_fcfs_correct {F} (s : sys F) :
  idle s → wp sched_fcfs (λ r s', schedules fcfs_better r s s') s.
Proof.
  intros Hi. unfold sched_fcfs. do 2 wp_step. rewrite (id_cur _ Hi).
  apply schedules_intro; [apply _|done|].
  apply fcfs_scan_pick; [by apply idle_idx|apply Hi].
Qed.

(** *** Priority based scheduling *)

(** The entry as the selection loop leaves it: a runnable process gets its
    dynamic priority computed. *)
Definition pbs_upd (i : nat) (p : proc) : proc :=
  if decide (state p = RUNNABLE) then p <| dynamic_priority := dp p |> else p.

Definition lock_of (sel : option nat) : list lock :=
  match sel with Some i => [LProc i] | None => [] end.

#[local] Opaque dp.

Section pbs.
Context {F : Type}.
Implicit Types (s : sys F).

Definition pbs_table (k n : nat) (ps ps' : list proc) : Prop :=
  ∀ j, ps' !! j = (if bool_decide (k ≤ j < k + n)%nat then pbs_upd j else id) <$> ps !! j.

Lemma pbs_table_S k n ps ps' p :
  ps !! k = Some p → pbs_table (S k) n (<[k := pbs_upd k p]> ps) ps' → pbs_table k (S n) ps ps'.
Proof.
  intros Hp Ht j. rewrite (Ht j). destruct (decide (j = k)) as [->|Hne].
  - rewrite bool_decide_false by lia. rewrite bool_decide_true by lia.
    rewrite list_lookup_insert_eq by by eapply lookup_lt_Some. by rewrite Hp.
  - rewrite list_lookup_insert_ne by done. do 2 case_bool_decide; try lia; done.
Qed.

Lemma release_two (a b : lock) s (Q : unit → sys F → Prop) :
  a ≠ b → held s = [a; b] →
  (Q tt (s <| held := [a] |>) → wp (release b) Q s) ∧
  (Q tt (s <| held := [b] |>) → wp (release a) Q s).
Proof.
  intros Hne Hh. split; intros HQ.
  - apply wp_release; [rewrite Hh; right; by left|].
    assert (filter (λ l', l' ≠ b) [a; b] = [a]) as E
      by by rewrite filter_cons_True, filter_cons_False, filter_nil by (done || tauto).
    destruct s. simpl in *. subst. unfold set_field in *. simpl in *. by rewrite E.
  - eapply wp_release_last; [exact Hh| |done]. rewrite list_elem_of_singleton. done.
Qed.

Lemma three_tests {A} (a b c : bool) (x y : A) :
  (if a then x else if b then x else if c then x else y) = if a || b || c then x else y.
Proof. by destruct a, b, c. Qed.

(** What is left to do after entry [k]. *)
Definition pbs_post (k n : nat) (sel : option nat) s (r : option nat) (s' : sys F) : Prop :=
  ∃ ps', pbs_table k n (procs s) ps' ∧ s' = s <| procs := ps' |> <| held := lock_of r |> ∧
    r = pick pbs_better ps' (seq k n) sel.

Lemma pbs_scan_pick n : ∀ k sel s,
  (k + n ≤ length (procs s))%nat → (∀ j, sel = Some j → (j < k)%nat) → held s = lock_of sel →
  wp (pbs_scan (seq k n) sel) (pbs_post k n sel s) s.
Proof.
  induction n as [|n IH]; intros k sel s Hlen Hsel Hh; simpl.
  { wp_simp. exists (procs s). split; [|split; [|done]].
    - intros j. rewrite bool_decide_false by lia. by destruct (procs s !! j).
    - rewrite <- Hh. by destruct s. }
  destruct (lookup_lt_is_Some_2 (procs s) k) as [p Hp]; [lia|].
  assert (LProc k ∉ held s) as Hkh.
  { rewrite Hh. destruct sel as [j|]; simpl; [|apply not_elem_of_nil].
    rewrite list_elem_of_singleton. intros [= E]. specialize (Hsel j eq_refl). lia. }
  wp_simp. apply wp_acquire; [done|]. wp_simp. eapply wp_getp; [done|].
  destruct (decide (state p = RUNNABLE)) as [Hst|Hst].
  2: { rewrite (decide_True (P:=state p ≠ RUNNABLE)) by done. wp_simp.
    eapply (wp_release_last _ (held s)); [done|done|].
    replace (set_field held _ _) with s by (by destruct s).
    eapply wp_mono; [|apply (IH (S k) sel s); [lia| |done]].
    2: { intros j Hj. specialize (Hsel j Hj). lia. }
    intros r s' (ps' & Ht & -> & ->). exists ps'.
    assert (ps' !! k = Some p) as Hk'.
    { rewrite Ht, bool_decide_false by lia. by rewrite Hp. }
    split; [|split; [done|by simpl; rewrite Hk', decide_False by done]].
    apply (pbs_table_S k n _ _ p); [done|]. unfold pbs_upd. rewrite decide_False by done.
    by rewrite list_insert_id. }
  rewrite (decide_False (P:=state p ≠ RUNNABLE)) by tauto.
  set (p1 := p <| dynamic_priority := dp p |>).
  assert (pbs_upd k p = p1) as Hup by (unfold pbs_upd; by rewrite decide_True).
  wp_simp. eapply wp_updp; [done|]. wp_simp.
  eapply wp_getp; [simpl; rewrite list_lookup_insert_eq by lia; done|]. fold p1.
  set (s1 := s <| procs := <[k := p1]> (procs s) |>).
  assert (∀ sel', (sel' = sel ∨ sel' = Some k) →
    wp (pbs_scan (seq (S k) n) sel') (pbs_post (S k) n sel' s1)
       (s1 <| held := lock_of sel' |>)) as Hnext.
  { intros sel' Hs'. eapply wp_mono; [|apply IH].
    - intros r s' (ps' & Ht & -> & ->). exists ps'. done.
    - simpl. rewrite length_insert. lia.
    - intros j ->. destruct Hs' as [Hs'|[= ->]]; [specialize (Hsel j (eq_sym Hs'))|]; lia.
    - done. }
  assert (∀ sel' r s', pbs_post (S k) n sel' s1 r s' →
    (∀ ps', ps' !! k = Some p1 → (∀ j, (j < k)%nat → ps' !! j = procs s !! j) →
       pick pbs_better ps' (seq k (S n)) sel = pick pbs_better ps' (seq (S k) n) sel') →
    pbs_post k (S n) sel s r s') as Hfin.
  { intros sel' r s' (ps' & Ht & -> & ->) Hpick. exists ps'.
    rewrite <- (Hpick ps'); [|rewrite Ht, bool_decide_false by lia; simpl;
      by rewrite list_lookup_insert_eq by lia|].
    2: { intros j Hj. rewrite Ht, bool_decide_false by lia. simpl.
      rewrite list_lookup_insert_ne by lia. by destruct (procs s !! j). }
    split; [|split; [by destruct s|done]]. apply (pbs_table_S k n _ _ p); [done|].
    by rewrite Hup. }
  destruct sel as [j|].
  2: { set (s2 := set_field procs _ _).
    replace s2 with (s1 <| held := lock_of (Some k) |>)
      by (destruct s; simpl in *; by subst).
    eapply wp_mono; [|apply (Hnext (Some k)); by right].
    intros r s' Hr. eapply Hfin; [exact Hr|]. intros ps' Hk' _. simpl.
    by rewrite Hk', decide_True by done. }
  specialize (Hsel j eq_refl).
  destruct (lookup_lt_is_Some_2 (procs s) j) as [q Hq]; [lia|].
  wp_simp. eapply wp_getp; [simpl; by rewrite list_lookup_insert_ne by lia|].
  set (s2 := set_field procs _ _).
  assert (held s2 = [LProc k; LProc j]) as Hs2 by (simpl; by rewrite Hh).
  assert (∀ b : bool, b = pbs_better p1 q →
    wp (if b then release (LProc j) ;;; pbs_scan (seq (S k) n) (Some k)
        else release (LProc k) ;;; pbs_scan (seq (S k) n) (Some j))
       (pbs_post k (S n) (Some j) s) s2) as Hcase.
  { intros b ->.
    assert (∀ ps', ps' !! k = Some p1 → (∀ j, (j < k)%nat → ps' !! j = procs s !! j) →
      pick pbs_better ps' (seq k (S n)) (Some j) = pick pbs_better ps' (seq (S k) n)
        (if pbs_better p1 q then Some k else Some j)) as Hpick.
    { intros ps' Hk' Hlow. cbn [pick seq]. rewrite Hk', decide_True by done.
      cbn [mbind option_bind]. by rewrite (Hlow j), Hq by done. }
    assert (LProc k ≠ LProc j) as Hne by (intros [= E]; lia).
    destruct (pbs_better p1 q); wp_simp.
    - apply (proj1 (release_two (LProc k) (LProc j) s2 _ Hne Hs2)).
      replace (set_field held _ s2) with (s1 <| held := lock_of (Some k) |>) by (by destruct s).
      eapply wp_mono; [|apply (Hnext (Some k)); by right].
      intros r s' Hr. by eapply Hfin.
    - apply (proj2 (release_two (LProc k) (LProc j) s2 _ Hne Hs2)).
      replace (set_field held _ s2) with (s1 <| held := lock_of (Some j) |>) by (by destruct s).
      eapply wp_mono; [|apply (Hnext (Some j)); by left].
      intros r s' Hr. by eapply Hfin. }
  rewrite three_tests. exact (Hcase _ eq_refl).
Qed.

Definition pbs_run (p : proc) : proc :=
  p <| state := RUNNING |> <| run_time := 0 |> <| wait_time := 0 |> <| sleep_time := 0 |>
    <| num_shed := s32 (num_shed p + 1) |>.
End pbs.

(** C37: The priority scheduler computes the dynamic priority of every runnable
    process, then runs the one with the smallest dynamic priority, among those
    the one scheduled least often, among those the oldest, among those the one
    of the lowest index; it clears that process's times, counts the run and
    holds only that process's lock.  It idles only when nothing is runnable. *)
Theorem sched_pbs_correct {F} (s : sys F) :
  idle s →
  wp sched_pbs (λ r s',
    let ps := imap pbs_upd (procs s) in
    match r with
    | None => s' = s <| procs := ps |> ∧ ∀ i p, ¬ runnable (procs s) i p
    | Some i => ∃ p, chosen pbs_better ps i p ∧
        s' = s <| procs := <[i := pbs_run p]> ps |> <| cur := Some i |> <| held := [LProc i] |>
    end) s.
Proof.
  intros Hi. pose proof Hi as [Hc Hh Hl]. unfold sched_pbs. do 2 wp_step. rewrite Hc.
  wp_step. unfold table. eapply wp_mono; [|apply (pbs_scan_pick NPROC 0 None); [by rewrite Hl|done|done]].
  intros r s' (ps' & Ht & -> & Hr).
  assert (ps' = imap pbs_upd (procs s)) as E.
  { apply list_eq. intros j. rewrite Ht, list_lookup_imap.
    destruct (procs s !! j) as [p|] eqn:Ej; [|done]. apply lookup_lt_Some in Ej.
    by rewrite bool_decide_true by lia. }
  assert (length ps' = NPROC) as Hl' by (rewrite E, length_imap; done).
  rewrite <- E. cbv zeta. destruct r as [i|].
  - destruct (pick_chosen pbs_better ps' i Hl' (eq_sym Hr)) as [p Hch].
    pose proof Hch as [[Hp _] _]. wp_step. eapply wp_updp; [exact Hp|]. wp_simp.
    eapply wp_updp; [simpl; apply list_lookup_insert_eq; by eapply lookup_lt_Some|].
    wp_simp. exists p. split; [done|].
    assert (<[i := pbs_run p]> ps' = <[i := pbs_run p]> (<[i := p <| state := RUNNING |>]> ps'))
      as E2 by (symmetry; apply list_insert_insert_eq).
    rewrite E2. by destruct s.
  - wp_simp. split; [clear - Hh; destruct s; simpl in Hh; by subst|]. intros i p [Hp Hst].
    destruct (pick_none pbs_better ps' table None (eq_sym Hr)) as [_ Hn].
    apply (Hn i (pbs_upd i p)); [apply elem_table; rewrite <- Hl; by apply lookup_lt_Some in Hp|].
    split; [rewrite E, list_lookup_imap, Hp; done|]. unfold pbs_upd. by rewrite decide_True.
Qed.

Lemma quot_bound a b n : 0 < b → - n ≤ a ≤ n → - n ≤ Z.quot a b ≤ n.
Proof.
  intros Hb Ha. pose proof (Z.quot_rem' a b). pose proof (Z.rem_bound_abs a b ltac:(lia)).
  destruct (Z.le_gt_cases 0 a).
  - assert (0 ≤ Z.quot a b) by (apply Z.quot_pos; lia).
    assert (Z.quot a b ≤ a) by (apply Z.quot_le_upper_bound; nia). lia.
  - assert (0 ≤ Z.quot (- a) b) by (apply Z.quot_pos; lia).
    assert (Z.quot (- a) b ≤ - a) by (apply Z.quot_le_upper_bound; nia).
    rewrite Z.quot_opp_l in * by lia. lia.
Qed.

(** The dynamic priority stays between 0 and 100 when the static priority
    does and the counters are below a million ticks; and it is the formula
    [min(max(50(3 RT - WT - ST)/(RT + WT + ST + 1), 0) + SP, 100)] of the
    specification, with the division of C. *)
Theorem dp_formula p :
  0 ≤ run_time p < 10^6 → 0 ≤ wait_time p < 10^6 → 0 ≤ sleep_time p < 10^6 →
  0 ≤ priority p ≤ 100 →
  let rt := run_time p in let wt := wait_time p in let st := sleep_time p in
  dp p = Z.min (Z.max (Z.quot (50 * (3 * rt - wt - st)) (rt + wt + st + 1)) 0 + priority p) 100 ∧
  0 ≤ dp p ≤ 100.
Proof.
  Transparent dp. unfold dp. cbv zeta.
  generalize (run_time p) (wait_time p) (sleep_time p) (priority p).
  intros rt wt st sp Hr Hw Hs Hp.
  rewrite (s32_small (3 * rt)), (s32_small (3 * rt - wt)) by lia.
  rewrite (s32_small (3 * rt - wt - st)), (s32_small (_ * 50)) by lia.
  rewrite (s32_small (rt + wt)), (s32_small (rt + wt + st)), (s32_small (_ + 1)) by lia.
  rewrite (Z.mul_comm _ 50).
  pose proof (quot_bound (50 * (3 * rt - wt - st)) (rt + wt + st + 1) (10^9)
    ltac:(lia) ltac:(lia)) as Hq.
  revert Hq. generalize (Z.quot (50 * (3 * rt - wt - st)) (rt + wt + st + 1)). intros q Hq.
  rewrite (s32_small q) by lia. rewrite s32_small by (destruct (q <? 0); lia).
  destruct (Z.ltb_spec q 0); case_if; lia.
Qed.
