(* ===== verification/SchedTime.v ===== *)
(** * Round robin and the timer interrupt of MLFQ

    Bounded waiting under round robin, and the exact effect of [mlfq_yield]:
    time slices, demotion, aging and the overrun of the table of time
    slices. *)

From Stdlib Require Import ZArith Lia.
From stdpp Require Import base numbers list gmap strings tactics.
From S2P Require Import Prelude Riscv Mem Kalloc Vm Proc ProcRules Sched SchedProps.

Local Open Scope Z_scope.

(** ** Round robin *)

Section rr.
Context {F : Type}.
Implicit Types (s : sys F).

Lemma rr_scan n : ∀ k s,
  idle s → (k + n ≤ NPROC)%nat →
  wp (for_find (seq k n) (λ i,
        acquire (LProc i) ;;;
        let* p := getp i in
        if decide (state p = RUNNABLE) then
          dispatch i ;;; ret (Some i)
        else release (LProc i) ;;; ret None))
     (λ r s', match r with
              | None => s' = s ∧ ∀ i p, (k ≤ i < k + n)%nat → ¬ runnable (procs s) i p
              | Some i => (k ≤ i < k + n)%nat ∧ (∃ p, runnable (procs s) i p ∧
                  s' = running s (procs s) i p) ∧
                  ∀ j q, (k ≤ j < i)%nat → ¬ runnable (procs s) j q
              end) s.
Proof.
  induction n as [|n IH]; intros k s Hi Hk; simpl.
  { wp_simp. split; [done|]. lia. }
  pose proof Hi as [Hc Hh Hl].
  destruct (lookup_lt_is_Some_2 (procs s) k) as [p Hp]; [lia|].
  wp_simp. apply wp_acquire; [rewrite Hh; apply not_elem_of_nil|].
  wp_simp. eapply wp_getp; [done|]. destruct (decide (state p = RUNNABLE)) as [Hst|Hst].
  - unfold dispatch. wp_simp. eapply wp_updp; [done|]. wp_simp.
    split; [lia|]. split; [|lia]. exists p. split; [done|]. destruct s. simpl in *. by subst.
  - wp_simp. eapply wp_release_last; [done|rewrite Hh; apply not_elem_of_nil|]. wp_simp.
    replace (set_field held _ _) with s by (by destruct s).
    assert (∀ q, ¬ runnable (procs s) k q) as Hnk by (intros q [E ?]; congruence).
    eapply wp_mono; [|apply (IH (S k) s Hi); lia]. intros [i|] s'.
    + intros (Hik & Hrun & Hno). split; [lia|]. split; [done|]. intros j q Hj.
      destruct (decide (j = k)) as [->|]; [done|]. apply Hno. lia.
    + intros [-> Hno]. split; [done|]. intros j q Hj.
      destruct (decide (j = k)) as [->|]; [done|]. apply Hno. lia.
Qed.

(** One sweep of the scheduler's loop from entry [k] on, as seen by a
    process [j] that is runnable whenever the scheduler looks: the list of
    processes that got the CPU.  Between a switch to a process and the
    return from it, anything may happen to the rest of the state. *)
Inductive sweep (j : nat) : nat → sys F → list nat → Prop :=
  | sweep_end k s s' :
      rr_from k s = Ret (None, s') → sweep j k s []
  | sweep_run k s i s' s'' l :
      rr_from k s = Ret (Some i, s') →
      idle s'' → ((S i ≤ j)%nat → ∃ p, runnable (procs s'') j p) →
      sweep j (S i) s'' l → sweep j k s (i :: l).
End rr.

(** C38: Round robin has bounded waiting: a process that is runnable when the
    scheduler reaches entry [k] of the table, and stays so until it runs, gets
    the CPU in the same sweep, after at most [j - k] other processes. *)
Theorem rr_bounded_wait {F} (s : sys F) j k l :
  sweep j k s l → idle s → (k ≤ j < NPROC)%nat → (∃ p, runnable (procs s) j p) →
  ∃ l1 l2, l = l1 ++ j :: l2 ∧ (length l1 ≤ j - k)%nat.
Proof.
  induction 1 as [k s s' Hr|k s i s' s'' l Hr Hi'' Hj'' _ IH]; intros Hi Hk [p Hp];
    pose proof (rr_scan (NPROC - k) k s Hi ltac:(lia)) as Hw;
    unfold wp in Hw; unfold rr_from in Hr; rewrite Hr in Hw.
  - destruct Hw as [_ Hno]. exfalso. apply (Hno j p); [lia|done].
  - destruct Hw as (Hik & _ & Hno). destruct (decide (i = j)) as [->|Hne].
    { exists [], l. split; [done|simpl; lia]. }
    assert (i < j)%nat as Hlt.
    { destruct (decide (j < i)%nat); [|lia]. by destruct (Hno j p); [lia|]. }
    destruct IH as (l1 & l2 & -> & Hlen); [done|lia|by apply Hj''; lia|].
    exists (i :: l1), l2. split; [done|]. simpl. lia.
Qed.

(** ** mlfq_yield *)

(** Every runnable process that waited more than 30 ticks moves up a queue. *)
Definition aged1 (now : Z) (j : nat) (p : proc) : proc :=
  if decide (state p = RUNNABLE) then mlfq_age now p else p.
Definition aged (now : Z) (ps : list proc) : list proc := imap (aged1 now) ps.

(** The number of runnable processes in a higher queue than [lvl], among the
    entries [l]. *)
Definition above (lvl : Z) (p : proc) : Z :=
  if decide (state p = RUNNABLE ∧ queue_level p < lvl) then 1 else 0.
Fixpoint higher (lvl : Z) (ps : list proc) (l : list nat) : Z :=
  match l with
  | [] => 0
  | j :: l => from_option (above lvl) 0 (ps !! j) + higher lvl ps l
  end.

Lemma aged1_state now j p : state (aged1 now j p) = state p.
Proof. unfold aged1, mlfq_age. case_decide; [|done]. by destruct (_ && _). Qed.

Section mlfq.
Context {F : Type}.
Implicit Types (s : sys F).

Definition aged_range (now : Z) (k n : nat) (ps ps' : list proc) : Prop :=
  ∀ j, ps' !! j = (if bool_decide (k ≤ j < k + n)%nat then aged1 now j else id) <$> ps !! j.

Lemma aged_range_S now k n ps ps' p :
  ps !! k = Some p → aged_range now (S k) n (<[k := aged1 now k p]> ps) ps' →
  aged_range now k (S n) ps ps' ∧ ps' !! k = Some (aged1 now k p).
Proof.
  intros Hp Ht. assert (k < length ps)%nat by by eapply lookup_lt_Some. split.
  - intros j. rewrite (Ht j). destruct (decide (j = k)) as [->|Hne].
    + rewrite bool_decide_false by lia. rewrite bool_decide_true by lia.
      rewrite list_lookup_insert_eq by done. by rewrite Hp.
    + rewrite list_lookup_insert_ne by done. do 2 case_bool_decide; try lia; done.
  - rewrite Ht, bool_decide_false by lia. by rewrite list_lookup_insert_eq.
Qed.

Lemma mlfq_age_loop_spec n : ∀ k i c ti s,
  (k + n ≤ length (procs s))%nat → held s = [] → procs s !! i = Some c →
  state c ≠ RUNNABLE →
  wp (mlfq_age_loop (seq k n) i ti) (λ r s', ∃ ps',
    s' = s <| procs := ps' |> ∧ aged_range (ticks s) k n (procs s) ps' ∧
    r = ti + higher (queue_level c) ps' (seq k n)) s.
Proof.
  induction n as [|n IH]; intros k i c ti s Hlen Hh Hi Hc; simpl.
  { wp_simp. exists (procs s). split; [by destruct s|]. split; [|lia].
    intros j. rewrite bool_decide_false by lia. by destruct (procs s !! j). }
  destruct (lookup_lt_is_Some_2 (procs s) k) as [p Hp]; [lia|].
  wp_simp. apply wp_acquire; [rewrite Hh; apply not_elem_of_nil|].
  wp_simp. eapply wp_getp; [done|]. destruct (decide (state p = RUNNABLE)) as [Hst|Hst].
  - rewrite (decide_False (P:=state p ≠ RUNNABLE)) by tauto.
    assert (i ≠ k) as Hik by (intros ->; congruence).
    wp_simp. apply wp_gticks. wp_simp. eapply wp_updp; [done|]. wp_simp.
    eapply wp_getp; [simpl; by rewrite list_lookup_insert_eq by lia|]. wp_simp.
    eapply wp_getp; [simpl; by rewrite list_lookup_insert_ne by done|]. wp_simp.
    eapply (wp_release_last _ []); [simpl; by rewrite Hh|apply not_elem_of_nil|].
    assert (aged1 (ticks s) k p = mlfq_age (ticks s) p) as Hp1
      by (unfold aged1; by rewrite decide_True).
    change (ticks (set_field held _ s)) with (ticks s). rewrite <- Hp1.
    replace (set_field held _ _) with (s <| procs := <[k := aged1 (ticks s) k p]> (procs s) |>)
      by (clear - Hh; destruct s; simpl in *; by subst).
    eapply wp_mono; [|apply (IH (S k) i c)]; try done.
    + intros r s' (ps' & -> & Ht & ->). exists ps'. split; [by destruct s|].
      change (ticks (set_field procs _ s)) with (ticks s) in Ht.
      destruct (aged_range_S _ _ _ _ _ _ Hp Ht) as [Ht' Hk']. split; [done|].
      rewrite Hk'. cbn [from_option]. unfold above. rewrite aged1_state.
      destruct (Z.ltb_spec (queue_level (aged1 (ticks s) k p)) (queue_level c));
        [rewrite decide_True by done|rewrite decide_False by (intros [_ ?]; lia)]; lia.
    + simpl. rewrite length_insert. lia.
    + simpl. by rewrite list_lookup_insert_ne.
  - rewrite (decide_True (P:=state p ≠ RUNNABLE)) by done. wp_simp.
    eapply (wp_release_last _ []); [simpl; by rewrite Hh|apply not_elem_of_nil|].
    replace (set_field held _ _) with s by (clear - Hh; destruct s; simpl in *; by subst).
    eapply wp_mono; [|apply (IH (S k) i c ti s); [lia|done..]].
    intros r s' (ps' & -> & Ht & ->). exists ps'. split; [done|].
    assert (aged1 (ticks s) k p = p) as Hp1 by (unfold aged1; by rewrite decide_False).
    destruct (aged_range_S (ticks s) k n (procs s) ps' p Hp) as [Ht' Hk'].
    { by rewrite Hp1, list_insert_id. }
    split; [done|]. rewrite Hk', Hp1. cbn [from_option]. unfold above.
    rewrite decide_False by (by intros [? _]). lia.
Qed.

(** [yield] up to its switch. *)
Lemma yield_out_spec i p s :
  cur s = Some i → held s = [] → procs s !! i = Some p →
  wp yield_out (λ _ s',
    s' = s <| procs := <[i := p <| state := RUNNABLE |>]> (procs s) |> <| cur := None |>) s.
Proof.
  intros Hc Hh Hp. unfold yield_out, sched_out. wp_simp. eapply wp_myproc; [done|].
  wp_simp. apply wp_acquire; [rewrite Hh; apply not_elem_of_nil|].
  wp_simp. eapply wp_updp; [done|]. wp_simp. eapply wp_myproc; [done|]. wp_simp.
  simpl held. rewrite bool_decide_true by (by left). rewrite Hh. simpl negb. cbv iota.
  wp_simp. eapply wp_getp; [simpl; apply list_lookup_insert_eq; by eapply lookup_lt_Some|].
  rewrite decide_False by done. wp_simp.
  eapply (wp_release_last _ []); [simpl; by rewrite Hh|apply not_elem_of_nil|].
  clear - Hh. destruct s. simpl in *. by subst.
Qed.
End mlfq.

(** The state in which a process whose time slice is over leaves the CPU. *)
Definition slice_over {F} (s : sys F) (ps : list proc) (i : nat) (c : proc) (lvl : Z) : sys F :=
  s <| procs := <[i := c <| tick_ctr := 0 |> <| in_time := s32 (ticks s) |>
                        <| queue_level := lvl |> <| state := RUNNABLE |>]> ps |>
    <| cur := None |>.

Lemma mlfq_yield_spec {F} (s : sys F) i c lim :
  cur s = Some i → held s = [] → length (procs s) = NPROC → procs s !! i = Some c →
  state c = RUNNING → 0 ≤ queue_level c < 4 → ticklim !! Z.to_nat (queue_level c) = Some lim →
  let c1 := c <| tick_ctr := s32 (tick_ctr c + 1) |> in
  let ps := aged (ticks s) (<[i := c1]> (procs s)) in
  wp mlfq_yield (λ b s',
    if lim <=? tick_ctr c1 then b = true ∧ s' = slice_over s ps i c1 (queue_level c + 1)
    else if 0 <? higher (queue_level c) ps table
    then b = true ∧ s' = slice_over s ps i c1 (queue_level c)
    else b = false ∧ s' = s <| procs := ps |>) s.
Proof.
  intros Hc Hh Hl Hp Hst Hq Hlim c1 ps. unfold mlfq_yield. wp_simp. eapply wp_myproc; [done|].
  wp_simp. eapply wp_updp; [done|]. fold c1. wp_simp.
  assert (i < length (procs s))%nat as Hil by by eapply lookup_lt_Some.
  eapply wp_mono; [|unfold table; apply (mlfq_age_loop_spec NPROC 0 i c1)].
  2: { simpl. rewrite length_insert. lia. }
  2: done.
  2: { simpl. by apply list_lookup_insert_eq. }
  2: { change (state c1) with (state c). by rewrite Hst. }
  intros ti s1 (ps' & -> & Ht & ->). change (seq 0 NPROC) with table.
  assert (ps' = ps) as ->.
  { apply list_eq. intros j. rewrite Ht. unfold ps, aged. rewrite list_lookup_imap.
    destruct (<[i := c1]> (procs s) !! j) as [p|] eqn:Ej.
    - change (procs (set_field procs _ s)) with (<[i := c1]> (procs s)). rewrite Ej.
      apply lookup_lt_Some in Ej. rewrite length_insert in Ej.
      by rewrite bool_decide_true by lia.
    - change (procs (set_field procs _ s)) with (<[i := c1]> (procs s)). by rewrite Ej. }
  assert (ps !! i = Some c1) as Hi.
  { unfold ps, aged. rewrite list_lookup_imap, list_lookup_insert_eq by done. simpl.
    unfold aged1. rewrite decide_False; [done|]. change (state c1) with (state c). by rewrite Hst. }
  rewrite set_procs_twice. change (queue_level c1) with (queue_level c).
  assert (i < length ps)%nat as Hil' by by eapply lookup_lt_Some.
  assert (∀ c2, wp (yield_out ;;; ret true) (λ b s', b = true ∧
    s' = s <| procs := <[i := c2 <| state := RUNNABLE |>]> ps |> <| cur := None |>)
    (s <| procs := <[i := c2]> ps |>)) as Hyield.
  { intros c2. wp_simp. eapply wp_mono; [|eapply (yield_out_spec i c2); [done|done|]].
    2: { by apply list_lookup_insert_eq. }
    intros _ s' ->. wp_simp. split; [done|].
    change (procs (set_field procs _ s)) with (<[i := c2]> ps).
    by rewrite list_insert_insert_eq, set_procs_twice. }
  wp_simp. eapply wp_getp; [exact Hi|]. wp_simp. apply wp_gticks.
  change (queue_level c1) with (queue_level c). test_true (0 <=? queue_level c). rewrite Hlim.
  change (ticks (set_field procs _ s)) with (ticks s).
  destruct (lim <=? tick_ctr c1) eqn:Elim; [|rewrite Z.add_0_l; case_if].
  - wp_step. eapply wp_updp_first; [exact Hi|]. change numq with 4.
    test_true (queue_level c <? 4). wp_step. apply wp_updp_again; [done|]. apply Hyield.
  - wp_step. eapply wp_updp_first; [exact Hi|]. set (c2 := set_field in_time _ _).
    assert (c2 = c2 <| queue_level := queue_level c |>) as -> by (subst c2 c1; by destruct c).
    apply Hyield.
  - wp_simp. split; [done|]. by destruct s.
Qed.

(** What the policy says, apart from the code: the slices of the four queues,
    who has starved at time [now], and where such a process goes. *)
Definition slice (lvl : Z) : Z :=
  if lvl =? 0 then 1 else if lvl =? 1 then 3 else if lvl =? 2 then 9 else 15.
Definition starved (now : Z) (p : proc) : Prop :=
  state p = RUNNABLE ∧ 0 < queue_level p ∧ 30 < (now - last_exec p) mod 2^32.
Definition promoted (now : Z) (p : proc) : proc :=
  p <| last_exec := s32 now |> <| in_time := s32 now |> <| queue_level := queue_level p - 1 |>.
Definition waits_above (lvl : Z) (ps : list proc) : Prop :=
  ∃ j p, ps !! j = Some p ∧ state p = RUNNABLE ∧ queue_level p < lvl.

Lemma ticklim_slice lvl : 0 ≤ lvl < 4 → ticklim !! Z.to_nat lvl = Some (slice lvl).
Proof. intros H. assert (lvl = 0 ∨ lvl = 1 ∨ lvl = 2 ∨ lvl = 3) as [->|[->|[->| ->]]] by lia; done. Qed.

Lemma aged1_starved now j p : starved now p → aged1 now j p = promoted now p.
Proof.
  intros (Hs & Hq & Hw). unfold aged1, mlfq_age. rewrite decide_True by done.
  assert (u32 (now - u32 (last_exec p)) = (now - last_exec p) mod 2^32) as ->
    by (unfold u32; by rewrite Zminus_mod_idemp_r).
  rewrite (proj2 (Z.ltb_lt _ _) Hq), (proj2 (Z.ltb_lt _ _) Hw). cbn [andb]. by destruct p.
Qed.
Lemma aged1_other now j p : ¬ starved now p → aged1 now j p = p.
Proof.
  intros H. unfold aged1, mlfq_age. case_decide as Hs; [|done].
  assert (u32 (now - u32 (last_exec p)) = (now - last_exec p) mod 2^32) as ->
    by (unfold u32; by rewrite Zminus_mod_idemp_r).
  destruct (Z.ltb_spec 0 (queue_level p)) as [Hq|]; [|done].
  destruct (Z.ltb_spec 30 ((now - last_exec p) mod 2^32)) as [Hw|]; [|done]. by destruct H.
Qed.

Lemma higher_waits lvl ps : ∀ n k, 0 ≤ higher lvl ps (seq k n) ∧
  (0 < higher lvl ps (seq k n) ↔
     ∃ j p, (k ≤ j < k + n)%nat ∧ ps !! j = Some p ∧ state p = RUNNABLE ∧ queue_level p < lvl).
Proof.
  induction n as [|n IH]; intros k; cbn [seq higher].
  { split; [lia|]. split; [lia|]. intros (j & p & Hj & _). lia. }
  destruct (IH (S k)) as [H0 [H1 H2]].
  assert (0 ≤ from_option (above lvl) 0 (ps !! k)) as Hk
    by (destruct (ps !! k) as [p|]; simpl; [unfold above; case_decide; lia|lia]).
  split; [lia|]. split.
  - intros H. destruct (decide (0 < higher lvl ps (seq (S k) n))) as [Hr|Hr].
    + destruct (H1 Hr) as (j & p & Hj & Hp). exists j, p. split; [lia|done].
    + destruct (ps !! k) as [p|] eqn:E; simpl in *; [|lia]. unfold above in *. case_decide; [|lia].
      exists k, p. split; [lia|done].
  - intros (j & p & Hj & Hp & Hr). destruct (decide (j = k)) as [->|Hne].
    + rewrite Hp in *. simpl in *. unfold above in *. rewrite decide_True in * by done. lia.
    + enough (0 < higher lvl ps (seq (S k) n)) by lia. apply H2. exists j, p. split; [lia|done].
Qed.
Lemma higher_table lvl ps : length ps = NPROC → (0 < higher lvl ps table ↔ waits_above lvl ps).
Proof.
  intros Hl. unfold table. rewrite (proj2 (higher_waits lvl ps NPROC 0)). split.
  - intros (j & p & _ & H). by exists j, p.
  - intros (j & p & Hp & H). exists j, p. split; [|done]. apply lookup_lt_Some in Hp. lia.
Qed.

(** C39: The timer interrupt under MLFQ: every waiting process below the top
    queue that has not run for more than 30 ticks moves up one queue, and
    nothing else happens to the others; the current process keeps the CPU
    while its slice of 1, 3, 9 or 15 ticks lasts and no process waits in a
    higher queue; at the end of its slice it leaves for the next lower queue
    (the README and the comment above the function say otherwise), and when a
    process waits in a higher queue it leaves at its own level. *)
Theorem mlfq_yield_correct {F} (s : sys F) i c :
  cur s = Some i → held s = [] → length (procs s) = NPROC → procs s !! i = Some c →
  state c = RUNNING → 0 ≤ queue_level c < 4 →
  let t := s32 (tick_ctr c + 1) in
  wp mlfq_yield (λ b s', ∃ ps,
    length ps = NPROC ∧ ps !! i = Some (c <| tick_ctr := t |>) ∧
    (∀ j p, j ≠ i → procs s !! j = Some p →
       (starved (ticks s) p → ps !! j = Some (promoted (ticks s) p)) ∧
       (¬ starved (ticks s) p → ps !! j = Some p)) ∧
    (slice (queue_level c) ≤ t → b = true ∧ s' = slice_over s ps i c (queue_level c + 1)) ∧
    (t < slice (queue_level c) → waits_above (queue_level c) ps →
       b = true ∧ s' = slice_over s ps i c (queue_level c)) ∧
    (t < slice (queue_level c) → ¬ waits_above (queue_level c) ps →
       b = false ∧ s' = s <| procs := ps |>)) s.
Proof.
  intros Hc Hh Hl Hp Hst Hq t.
  eapply wp_mono; [|by apply (mlfq_yield_spec s i c (slice (queue_level c))); [..|apply ticklim_slice]].
  cbv zeta. set (c1 := c <| tick_ctr := s32 (tick_ctr c + 1) |>). set (ps := aged _ _).
  assert (∀ lvl, slice_over s ps i c1 lvl = slice_over s ps i c lvl) as Eso by (intros; unfold slice_over; by destruct c).
  assert (length ps = NPROC) as Hlen by (unfold ps, aged; by rewrite length_imap, length_insert).
  intros b s' H. exists ps. split_and!; [done| | |..].
  - unfold ps, aged. rewrite list_lookup_imap, list_lookup_insert_eq by (by eapply lookup_lt_Some). simpl.
    rewrite aged1_other; [done|]. intros (Hr & _). change (state c1) with (state c) in Hr. congruence.
  - intros j p Hj Hpj. unfold ps, aged. rewrite list_lookup_imap, list_lookup_insert_ne, Hpj by done. simpl.
    split; intros Hs; f_equal; [by apply aged1_starved|by apply aged1_other].
  - intros Hle. fold t in H. change (tick_ctr c1) with t in H. rewrite (proj2 (Z.leb_le _ _) Hle) in H. by rewrite <- Eso.
  - intros Hlt Hw. change (tick_ctr c1) with t in H. rewrite (proj2 (Z.leb_gt _ _) Hlt) in H.
    apply higher_table in Hw; [|done]. rewrite (proj2 (Z.ltb_lt _ _) Hw) in H. by rewrite <- Eso.
  - intros Hlt Hw. change (tick_ctr c1) with t in H. rewrite (proj2 (Z.leb_gt _ _) Hlt) in H.
    destruct (Z.ltb_spec 0 (higher (queue_level c) ps table)) as [Hh'|]; [|done].
    by apply higher_table in Hh'.
Qed.

(** A process that uses up its slice in the lowest queue (level 3) is put in
    level 4, for which there is no queue: at its next timer interrupt the
    kernel reads [ticklim[4]], outside the array. *)
Theorem mlfq_level_overrun {F} (s : sys F) i c :
  cur s = Some i → held s = [] → length (procs s) = NPROC → procs s !! i = Some c →
  state c = RUNNING → queue_level c = 3 → 14 ≤ tick_ctr c < 2^31 - 1 →
  (∃ s1 c1, mlfq_yield s = Ret (true, s1) ∧ procs s1 !! i = Some c1 ∧ queue_level c1 = 4) ∧
  ∀ (s2 : sys F) c2, cur s2 = Some i → held s2 = [] → length (procs s2) = NPROC →
    procs s2 !! i = Some c2 → state c2 = RUNNING → queue_level c2 = 4 →
    mlfq_yield s2 = Fault "ticklim".
Proof.
  intros Hc Hh Hl Hp Hst Hq Ht. split.
  - pose proof (mlfq_yield_spec s i c 15 Hc Hh Hl Hp Hst ltac:(lia)) as Hw.
    rewrite Hq in Hw. specialize (Hw eq_refl). cbv zeta in Hw.
    apply wp_returns in Hw as (b & s1 & E & Hpost).
    change (tick_ctr (c <| tick_ctr := s32 (tick_ctr c + 1) |>)) with (s32 (tick_ctr c + 1)) in Hpost.
    rewrite s32_small in Hpost by lia.
    replace (15 <=? tick_ctr c + 1) with true in Hpost by (symmetry; apply Z.leb_le; lia).
    destruct Hpost as [-> ->]. eexists _, _. split; [exact E|]. split.
    + apply list_lookup_insert_eq. unfold aged. rewrite length_imap, length_insert.
      by eapply lookup_lt_Some.
    + done.
  - intros s2 c2 Hc2 Hh2 Hl2 Hp2 Hst2 Hq2.
    assert (i < length (procs s2))%nat as Hil by by eapply lookup_lt_Some.
    set (c3 := c2 <| tick_ctr ::= (λ c, s32 (c + 1)) |>).
    set (s3 := s2 <| procs := <[i := c3]> (procs s2) |>).
    assert (procs s3 !! i = Some c3) as Hi3 by by apply list_lookup_insert_eq.
    assert (state c3 ≠ RUNNABLE) as Hst3 by (change (state c3) with (state c2); by rewrite Hst2).
    pose proof (mlfq_age_loop_spec NPROC 0 i c3 0 s3 ltac:(simpl; rewrite length_insert; lia)
      Hh2 Hi3 Hst3) as (ti & s4 & E & ps & -> & Hr & _)%wp_returns.
    assert (ps !! i = Some c3) as Hi4.
    { rewrite Hr, bool_decide_true by lia. rewrite Hi3. simpl. unfold aged1.
      by rewrite decide_False. }
    unfold mlfq_yield. erewrite bind_Ret; [|unfold myproc; by rewrite Hc2].
    erewrite (bind_Ret (updp _ _)); [|unfold updp, bind, getp; rewrite Hp2; done].
    fold c3 s3. erewrite bind_Ret; [|exact E].
    erewrite (bind_Ret (getp i)); [|unfold getp; simpl; by rewrite Hi4].
    erewrite bind_Ret; [|done]. change (queue_level c3) with (queue_level c2). by rewrite Hq2.
Qed.

(** ** Witnesses *)

Module DemoSched.
(** A table in which process 2 is in state [st] at queue level [lvl]. *)
Definition p2 (st : procstate) (lvl : Z) : proc :=
  proc0 <| state := st |> <| queue_level := lvl |> <| tick_ctr := 14 |>.
Definition demo (c : option nat) (st : procstate) (lvl : Z) : sys unit :=
  Sys (KSt ∅ 0 ∅) (<[2%nat := p2 st lvl]> (replicate NPROC proc0)) c [] None 1 0 tt.

Lemma demo_idle : idle (demo None RUNNABLE 0).
Proof. by split. Qed.
Lemma demo_runnable : runnable (procs (demo None RUNNABLE 0)) 2 (p2 RUNNABLE 0).
Proof. done. Qed.
End DemoSched.
Import DemoSched.

Lemma rr_bounded_wait_witness :
  sweep 2 0 (demo None RUNNABLE 0) [2%nat] ∧
  ∃ l1 l2, [2%nat] = l1 ++ 2%nat :: l2 ∧ (length l1 ≤ 2 - 0)%nat.
Proof.
  assert (sweep 2 0 (demo None RUNNABLE 0) [2%nat]) as Hs.
  { eapply (sweep_run 2 0 _ 2 _ (demo None SLEEPING 0)); [by vm_compute|by split|lia|].
    eapply sweep_end. by vm_compute. }
  split; [exact Hs|].
  apply (rr_bounded_wait (demo None RUNNABLE 0) 2 0 [2%nat] Hs demo_idle); [unfold NPROC; lia|].
  eexists. exact demo_runnable.
Defined.

(** Process 2 has used 15 ticks at level 1; process 3 has starved at level 2. *)
Definition demo_yield : sys unit :=
  (demo (Some 2%nat) RUNNING 1) <| procs ::= <[3%nat := p2 RUNNABLE 2]> |> <| Proc.ticks := 40 |>.

Lemma mlfq_yield_correct_witness :
  wp mlfq_yield (λ b s', b = true ∧
    ((queue_level <$> procs s' !! 2%nat) = Some 2) ∧ ((queue_level <$> procs s' !! 3%nat) = Some 1)) demo_yield.
Proof.
  eapply wp_mono; [|apply (mlfq_yield_correct demo_yield 2 (p2 RUNNING 1)); [reflexivity..|]].
  - intros b s' (ps & Hl & Hi & Hoth & Hover & _). destruct Hover as [-> ->]; [by vm_compute|].
    split; [done|]. destruct (Hoth 3%nat (p2 RUNNABLE 2)) as [H3 _]; [done|done|].
    unfold slice_over. simpl. rewrite list_lookup_insert_eq by (rewrite Hl; unfold NPROC; lia).
    split; [done|]. rewrite list_lookup_insert_ne by done. rewrite H3 by (by vm_compute). done.
  - vm_compute. split; [discriminate|reflexivity].
Defined.

Lemma mlfq_level_overrun_witness :
  (∃ s1 c1, mlfq_yield (demo (Some 2%nat) RUNNING 3) = Ret (true, s1) ∧
     procs s1 !! 2%nat = Some c1 ∧ queue_level c1 = 4) ∧
  mlfq_yield (demo (Some 2%nat) RUNNING 4) = Fault "ticklim".
Proof.
  destruct (mlfq_level_overrun (demo (Some 2%nat) RUNNING 3) 2 (p2 RUNNING 3)) as [H1 H2];
    [done..|by vm_compute|].
  split; [exact H1|]. exact (H2 (demo (Some 2%nat) RUNNING 4) (p2 RUNNING 4)
    eq_refl eq_refl eq_refl eq_refl eq_refl eq_refl).
Defined.

Lemma sched_mlfq_correct_witness :
  wp sched_mlfq (λ r s', schedules mlfq_better r (demo None RUNNABLE 0) s') (demo None RUNNABLE 0).
Proof. exact (sched_mlfq_correct _ demo_idle). Defined.
Lemma sched_fcfs_correct_witness :
  wp sched_fcfs (λ r s', schedules fcfs_better r (demo None RUNNABLE 0) s') (demo None RUNNABLE 0).
Proof. exact (sched_fcfs_correct _ demo_idle). Defined.
Lemma sched_pbs_correct_witness :
  wp sched_pbs (λ r s',
    let ps := imap pbs_upd (procs (demo None RUNNABLE 0)) in
    match r with
    | None => s' = (demo None RUNNABLE 0) <| procs := ps |> ∧
        ∀ i p, ¬ runnable (procs (demo None RUNNABLE 0)) i p
    | Some i => ∃ p, chosen pbs_better ps i p ∧
        s' = (demo None RUNNABLE 0) <| procs := <[i := pbs_run p]> ps |> <| cur := Some i |>
               <| held := [LProc i] |>
    end) (demo None RUNNABLE 0).
Proof. exact (sched_pbs_correct _ demo_idle). Defined.

(** The policies agree on that table: process 2 gets the CPU. *)
Example schedulers_run :
  wp sched_mlfq (λ r _, r = Some 2%nat) (demo None RUNNABLE 0) ∧
  wp sched_fcfs (λ r _, r = Some 2%nat) (demo None RUNNABLE 0) ∧
  wp sched_pbs (λ r _, r = Some 2%nat) (demo None RUNNABLE 0).
Proof. by vm_compute. Qed.

(** Process 2 after seven ticks of running and two of waiting. *)
Definition busy : proc := proc0 <| run_time := 7 |> <| wait_time := 2 |> <| priority := 50 |>.

Lemma dp_formula_witness :
  dp busy = Z.min (Z.max (Z.quot (50 * (3 * run_time busy - wait_time busy - sleep_time busy))
    (run_time busy + wait_time busy + sleep_time busy + 1)) 0 + priority busy) 100 ∧
  0 ≤ dp busy ≤ 100.
Proof.
  apply (dp_formula busy); vm_compute; (split; [discriminate|reflexivity || discriminate]).
Defined.
