(* ===== verification/Locks.v ===== *)
(** * Locks (kernel/spinlock.c, kernel/sleeplock.c)

    A spinlock is modelled on a machine with any number of CPUs, in steps around
    its atomic instructions: [acquire] is [push_off] and the check in one step,
    then one step per [amoswap], then the store of the owner; [release] is the
    check and the store that clears the owner in one step, then the atomic store, then
    [pop_off].  A sleep lock is modelled at the granularity of its spinlock's
    critical sections.  The other components use locks through their
    functional behaviour (Proc.v, Bio.v, Fs.v). *)

From Stdlib Require Import ZArith Lia.
From stdpp Require Import base numbers list gmap strings tactics.
From S2P Require Import Prelude.

Local Open Scope Z_scope.

Module Spin.

(** [struct cpu] as far as spinlock.c uses it, with the interrupt enable bit
    of [sstatus]. *)
Record cpu := Cpu { intr : bool; noff : Z; intena : bool }.
#[global] Instance eta_cpu : Eta cpu := λ c, Cpu (intr c) (noff c) (intena c).

(** [struct spinlock]; [lcpu] is the holder. *)
Record spinlock := Spinlock { locked : Z; lcpu : option nat }.
#[global] Instance eta_spinlock : Eta spinlock := λ l, Spinlock (locked l) (lcpu l).

Definition initlock : spinlock := Spinlock 0 None.

Definition push_off : M cpu unit :=
  let* c := get in
  let old := intr c in
  modify (λ c, c <| intr := false |>) ;;;
  (if noff c =? 0 then modify (λ c, c <| intena := old |>) else ret tt) ;;;
  modify (λ c, c <| noff := s32 (noff c + 1) |>).

Definition pop_off : M cpu unit :=
  let* c := get in
  if intr c then panic "pop_off - interruptible"
  else if noff c <? 1 then panic "pop_off"
  else
    modify (λ c, c <| noff := s32 (noff c - 1) |>) ;;;
    let* c := get in
    if (noff c =? 0) && intena c then modify (λ c, c <| intr := true |>) else ret tt.

Definition holding (lk : spinlock) (me : nat) : bool :=
  negb (locked lk =? 0) && bool_decide (lcpu lk = Some me).

(** ** The machine

    [pos] is where a CPU is inside [acquire] or [release]; [cs] are the locks
    whose [acquire] returned and whose [release] was not called yet. *)
Inductive position :=
  | Run
  | Swap (l : nat)      (** spinning on [amoswap] *)
  | SetCpu (l : nat)    (** before [lk->cpu = mycpu()] *)
  | Unlock (l : nat)    (** before [__sync_lock_release] *)
  | PopOff.             (** before [pop_off()] of release *)
Record hart := Hart { hcpu : cpu; pos : position; cs : list nat }.
#[global] Instance eta_hart : Eta hart := λ h, Hart (hcpu h) (pos h) (cs h).
Record machine := Machine { harts : list hart; locks : list spinlock }.
#[global] Instance eta_machine : Eta machine := λ m, Machine (harts m) (locks m).

Definition gethart (c : nat) : M machine hart := λ m,
  match harts m !! c with Some h => Ret (h, m) | None => Fault "hart" end.
Definition sethart (c : nat) (h : hart) : M machine unit :=
  modify (λ m, m <| harts ::= <[c := h]> |>).
Definition getlock (l : nat) : M machine spinlock := λ m,
  match locks m !! l with Some lk => Ret (lk, m) | None => Fault "lock" end.
Definition setlock (l : nat) (lk : spinlock) : M machine unit :=
  modify (λ m, m <| locks ::= <[l := lk]> |>).
Definition on_cpu (h : hart) (op : M cpu unit) : M machine cpu := λ m,
  match op (hcpu h) with
  | Ret (_, c) => Ret (c, m)
  | Panic msg => Panic msg
  | _ => Fault "cpu"
  end.

(** [acquire]: [push_off(); if(holding(lk)) panic("acquire");] *)
Definition acquire_enter (c l : nat) : M machine unit :=
  let* h := gethart c in
  let* lk := getlock l in
  let* cp := on_cpu h push_off in
  if holding lk c then panic "acquire"
  else sethart c (Hart cp (Swap l) (cs h)).
(** One round of [while(__sync_lock_test_and_set(&lk->locked, 1) != 0)]. *)
Definition acquire_swap (c l : nat) : M machine unit :=
  let* h := gethart c in
  let* lk := getlock l in
  let old := locked lk in
  setlock l (lk <| locked := 1 |>) ;;;
  if negb (old =? 0) then ret tt else sethart c (h <| pos := SetCpu l |>).
(** [lk->cpu = mycpu();] *)
Definition acquire_done (c l : nat) : M machine unit :=
  let* h := gethart c in
  let* lk := getlock l in
  setlock l (lk <| lcpu := Some c |>) ;;;
  sethart c (Hart (hcpu h) Run (l :: cs h)).

(** [release]: [if(!holding(lk)) panic("release"); lk->cpu = 0;] *)
Definition release_enter (c l : nat) : M machine unit :=
  let* h := gethart c in
  let* lk := getlock l in
  if negb (holding lk c) then panic "release"
  else
    setlock l (lk <| lcpu := None |>) ;;;
    sethart c (Hart (hcpu h) (Unlock l) (filter (λ k, k ≠ l) (cs h))).
(** [__sync_lock_release(&lk->locked);] *)
Definition release_store (c l : nat) : M machine unit :=
  let* h := gethart c in
  let* lk := getlock l in
  setlock l (lk <| locked := 0 |>) ;;;
  sethart c (h <| pos := PopOff |>).
(** [pop_off();] *)
Definition release_done (c : nat) : M machine unit :=
  let* h := gethart c in
  let* cp := on_cpu h pop_off in
  sethart c (Hart cp Run (cs h)).

(** One step of CPU [c].  Code outside of the two functions may take any lock
    it does not hold, release any lock it holds, and switch interrupts on or
    off while it holds none. *)
Inductive step (c : nat) (m m' : machine) : Prop :=
  | step_acquire h l : harts m !! c = Some h → pos h = Run →
      acquire_enter c l m = Ret (tt, m') → step c m m'
  | step_swap h l : harts m !! c = Some h → pos h = Swap l →
      acquire_swap c l m = Ret (tt, m') → step c m m'
  | step_got h l : harts m !! c = Some h → pos h = SetCpu l →
      acquire_done c l m = Ret (tt, m') → step c m m'
  | step_release h l : harts m !! c = Some h → pos h = Run →
      release_enter c l m = Ret (tt, m') → step c m m'
  | step_store h l : harts m !! c = Some h → pos h = Unlock l →
      release_store c l m = Ret (tt, m') → step c m m'
  | step_pop h : harts m !! c = Some h → pos h = PopOff →
      release_done c m = Ret (tt, m') → step c m m'
  | step_intr h b : harts m !! c = Some h → pos h = Run → noff (hcpu h) = 0 →
      sethart c (h <| hcpu ::= (λ cp, cp <| intr := b |>) |>) m = Ret (tt, m') → step c m m'.

Definition boot (n k : nat) : machine :=
  Machine (replicate n (Hart (Cpu false 0 false) Run [])) (replicate k initlock).
Inductive reachable (n k : nat) : machine → Prop :=
  | reach_boot : reachable n k (boot n k)
  | reach_step c m m' : reachable n k m → step c m m' → reachable n k m'.

(** ** The invariant *)

(** The locks whose word [locked] is 1 because of this CPU. *)
Definition owns (h : hart) : list nat :=
  match pos h with SetCpu l | Unlock l => l :: cs h | _ => cs h end.
(** [push_off] calls not undone yet: one per lock owned, and one more while
    a lock is being taken or given back. *)
Definition depth (h : hart) : Z :=
  match pos h with Swap _ | PopOff => 1 | _ => 0 end + Z.of_nat (length (owns h)).

Record inv (m : machine) : Prop := {
  inv_nodup c h : harts m !! c = Some h → NoDup (owns h);
  inv_lock c h l : harts m !! c = Some h → l ∈ owns h →
    ∃ lk, locks m !! l = Some lk ∧ locked lk = 1;
  inv_excl c1 c2 h1 h2 l : harts m !! c1 = Some h1 → harts m !! c2 = Some h2 →
    l ∈ owns h1 → l ∈ owns h2 → c1 = c2;
  inv_word l lk : locks m !! l = Some lk → locked lk = 0 ∨ locked lk = 1;
  inv_owned l lk : locks m !! l = Some lk → locked lk = 1 →
    ∃ c h, harts m !! c = Some h ∧ l ∈ owns h;
  inv_holder l lk c : locks m !! l = Some lk →
    (lcpu lk = Some c ↔ ∃ h, harts m !! c = Some h ∧ l ∈ cs h);
  inv_depth c h : harts m !! c = Some h → noff (hcpu h) = depth h;
  inv_off c h : harts m !! c = Some h → 0 < noff (hcpu h) → intr (hcpu h) = false;
}.

(** One CPU and one lock change at a time; the others see no difference if
    the new state of the pair agrees with what it claims to own. *)
Record change (c l : nat) (h h' : hart) (lk lk' : spinlock) : Prop := {
  ch_owns j : j ≠ l → j ∈ owns h' ↔ j ∈ owns h;
  ch_cs j : j ≠ l → j ∈ cs h' ↔ j ∈ cs h;
  ch_nodup : NoDup (owns h');
  ch_word : locked lk' = 0 ∨ locked lk' = 1;
  ch_own : l ∈ owns h' → locked lk' = 1 ∧ (l ∈ owns h ∨ locked lk = 0);
  ch_free : locked lk' = 0 → (l ∉ owns h') ∧ (locked lk = 0 ∨ l ∈ owns h);
  ch_taken : locked lk' = 1 → l ∈ owns h' ∨ locked lk = 1 ∧ l ∉ owns h;
  ch_holder : if decide (l ∈ cs h') then lcpu lk' = Some c
              else lcpu lk' = (if decide (l ∈ cs h) then None else lcpu lk);
  ch_depth : noff (hcpu h') = depth h';
  ch_off : 0 < noff (hcpu h') → intr (hcpu h') = false;
}.

Lemma cs_owns h l : l ∈ cs h → l ∈ owns h.
Proof. unfold owns. destruct (pos h); rewrite ?elem_of_cons; auto. Qed.

Lemma locked_owner m l lk c h :
  inv m → locks m !! l = Some lk → harts m !! c = Some h → l ∈ owns h → locked lk = 1.
Proof. intros I Hl Hh Ho. destruct (inv_lock m I c h l Hh Ho) as (? & ? & ?). congruence. Qed.

Section change.
Context (m : machine) (c l : nat) (h h' : hart) (lk lk' : spinlock).
Hypothesis (I : inv m) (Hh : harts m !! c = Some h) (Hl : locks m !! l = Some lk).
Hypothesis C : change c l h h' lk lk'.
Let m' := Machine (<[c := h']> (harts m)) (<[l := lk']> (locks m)).

Lemma harts_upd c' x : harts m' !! c' = Some x → c' = c ∧ x = h' ∨ c' ≠ c ∧ harts m !! c' = Some x.
Proof using Hh.
  simpl. destruct (decide (c' = c)) as [->|].
  - rewrite list_lookup_insert_eq by (eapply lookup_lt_Some; eauto). intros [= <-]. by left.
  - rewrite list_lookup_insert_ne by done. by right.
Qed.
Lemma locks_upd l' x : locks m' !! l' = Some x → l' = l ∧ x = lk' ∨ l' ≠ l ∧ locks m !! l' = Some x.
Proof using Hl.
  simpl. destruct (decide (l' = l)) as [->|].
  - rewrite list_lookup_insert_eq by (eapply lookup_lt_Some; eauto). intros [= <-]. by left.
  - rewrite list_lookup_insert_ne by done. by right.
Qed.
Lemma harts_here : harts m' !! c = Some h'.
Proof using Hh. simpl. rewrite list_lookup_insert_eq; [done|]. by eapply lookup_lt_Some. Qed.
Lemma harts_there c' : c' ≠ c → harts m' !! c' = harts m !! c'.
Proof using Type. intros. simpl. by rewrite list_lookup_insert_ne. Qed.
Lemma locks_here : locks m' !! l = Some lk'.
Proof using Hl. simpl. rewrite list_lookup_insert_eq; [done|]. by eapply lookup_lt_Some. Qed.
Lemma locks_there l' : l' ≠ l → locks m' !! l' = locks m !! l'.
Proof using Type. intros. simpl. by rewrite list_lookup_insert_ne. Qed.

(** No other CPU owns the lock this CPU claims. *)
Lemma change_excl c' x j :
  c' ≠ c → harts m !! c' = Some x → j ∈ owns x → j ∉ owns h'.
Proof using I Hh Hl C.
  intros Hne Hx Hj Hj'. destruct (decide (j = l)) as [->|].
  - destruct (ch_own _ _ _ _ _ _ C Hj') as [_ [Ho|Hz]].
    + by pose proof (inv_excl _ I _ _ _ _ _ Hx Hh Hj Ho).
    + by rewrite (locked_owner _ _ _ _ _ I Hl Hx Hj) in Hz.
  - rewrite (ch_owns _ _ _ _ _ _ C) in Hj' by done.
    by pose proof (inv_excl _ I _ _ _ _ _ Hx Hh Hj Hj').
Qed.

Lemma change_lock c' x j :
  harts m' !! c' = Some x → j ∈ owns x → ∃ k, locks m' !! j = Some k ∧ locked k = 1.
Proof using I Hh Hl C.
  intros [[-> ->]|[Hne Hx]]%harts_upd Hj.
  - destruct (decide (j = l)) as [->|].
    + exists lk'. split; [apply locks_here|]. by apply (ch_own _ _ _ _ _ _ C).
    + rewrite (ch_owns _ _ _ _ _ _ C) in Hj by done. rewrite locks_there by done.
      by eapply inv_lock.
  - destruct (decide (j = l)) as [->|].
    + exists lk'. split; [apply locks_here|].
      destruct (ch_word _ _ _ _ _ _ C) as [Hz|]; [|done]. exfalso.
      destruct (ch_free _ _ _ _ _ _ C Hz) as [_ [Hz'|Ho]].
      * by rewrite (locked_owner _ _ _ _ _ I Hl Hx Hj) in Hz'.
      * by pose proof (inv_excl _ I _ _ _ _ _ Hx Hh Hj Ho).
    + rewrite locks_there by done. by eapply inv_lock.
Qed.

Lemma change_owned j k : locks m' !! j = Some k → locked k = 1 →
  ∃ c' x, harts m' !! c' = Some x ∧ j ∈ owns x.
Proof using I Hh Hl C.
  assert (∀ c' x, harts m !! c' = Some x → j ∈ owns x → c' ≠ c ∨ j ≠ l ∨ j ∈ owns h' →
            ∃ c' x, harts m' !! c' = Some x ∧ j ∈ owns x) as Hkeep.
  { intros c' x Hx Hj Hc. destruct (decide (c' = c)) as [->|].
    - exists c, h'. split; [apply harts_here|]. assert (x = h) as -> by congruence.
      destruct (decide (j = l)) as [->|]; [by destruct Hc as [|[|]]|by apply (ch_owns _ _ _ _ _ _ C)].
    - exists c', x. by rewrite harts_there. }
  intros [[-> ->]|[Hne Hk]]%locks_upd H1.
  - destruct (ch_taken _ _ _ _ _ _ C H1) as [Ho|[Hl1 Hno]].
    + exists c, h'. split; [apply harts_here|done].
    + destruct (inv_owned _ I _ _ Hl Hl1) as (c' & x & Hx & Hj).
      apply (Hkeep _ _ Hx Hj). left. intros ->. congruence.
  - destruct (inv_owned _ I _ _ Hk H1) as (c' & x & Hx & Hj). eapply Hkeep; eauto.
Qed.

Lemma change_holder j k c' : locks m' !! j = Some k →
  (lcpu k = Some c' ↔ ∃ x, harts m' !! c' = Some x ∧ j ∈ cs x).
Proof using I Hh Hl C.
  assert (j ≠ l ∨ c' ≠ c → (∃ x, harts m' !! c' = Some x ∧ j ∈ cs x) ↔
            ∃ x, harts m !! c' = Some x ∧ j ∈ cs x) as Hsame.
  { intros Hd. destruct (decide (c' = c)) as [->|].
    - rewrite harts_here, Hh. destruct Hd as [Hd|]; [|done].
      split; intros (x & [= <-] & Hx); eexists; (split; [done|]); by apply (ch_cs _ _ _ _ _ _ C).
    - by rewrite harts_there. }
  intros [[-> ->]|[Hne Hk]]%locks_upd.
  - pose proof (ch_holder _ _ _ _ _ _ C) as Hc.
    pose proof (inv_holder _ I _ _ c' Hl) as Hi.
    destruct (decide (c' = c)) as [->|Hcc].
    + rewrite harts_here. rewrite Hh in Hi. case_decide as Hd.
      * rewrite Hc. split; [by exists h'|done].
      * split; [|by intros (x & [= <-] & ?)]. case_decide as Hd2; rewrite Hc; [done|].
        intros (x & [= <-] & ?)%Hi. done.
    + rewrite Hsame by auto. case_decide as Hd.
      * rewrite Hc. split; [by intros [= ->]|]. intros (x & Hx & Hxl). exfalso.
        eapply change_excl; [exact Hcc|exact Hx|by apply cs_owns|by apply cs_owns].
      * case_decide as Hd2; rewrite Hc; [|done]. split; [done|]. intros (x & Hx & Hxl).
        pose proof (inv_excl _ I _ _ _ _ l Hx Hh ltac:(by apply cs_owns) ltac:(by apply cs_owns)). done.
  - rewrite Hsame by auto. by apply inv_holder.
Qed.

Lemma change_inv : inv m'.
Proof using I Hh Hl C.
  split.
  - intros c' x [[-> ->]|[_ Hx]]%harts_upd; [apply C|by eapply inv_nodup].
  - apply change_lock.
  - intros c1 c2 h1 h2 j [[-> ->]|[Hn1 H1]]%harts_upd [[-> ->]|[Hn2 H2]]%harts_upd Ho1 Ho2; try done.
    + by destruct (change_excl _ _ _ Hn2 H2 Ho2).
    + by destruct (change_excl _ _ _ Hn1 H1 Ho1).
    + by eapply (inv_excl _ I).
  - intros j k [[-> ->]|[_ Hk]]%locks_upd; [apply C|by eapply inv_word].
  - apply change_owned.
  - intros j k c'. apply change_holder.
  - intros c' x [[-> ->]|[_ Hx]]%harts_upd; [apply C|by eapply inv_depth].
  - intros c' x [[-> ->]|[_ Hx]]%harts_upd; [apply C|by eapply inv_off].
Qed.
End change.

(** *** The functions on one CPU *)

Definition pushed (c : cpu) : cpu :=
  Cpu false (noff c + 1) (if noff c =? 0 then intr c else intena c).
Definition popped (c : cpu) : cpu :=
  Cpu ((noff c =? 1) && intena c) (noff c - 1) (intena c).

Lemma push_off_eq c : 0 ≤ noff c < 2^31 - 1 → push_off c = Ret (tt, pushed c).
Proof.
  intros. destruct c as [i n e]. unfold push_off, pushed. simpl in *.
  cbv [bind get modify ret]. simpl. destruct (n =? 0); simpl; by rewrite s32_small by lia.
Qed.

Lemma pop_off_eq c : intr c = false → 1 ≤ noff c < 2^31 → pop_off c = Ret (tt, popped c).
Proof.
  intros Hi Hn. destruct c as [i n e]. simpl in *. subst i. unfold pop_off, popped.
  cbv [bind get modify ret]. simpl. test_false (n <? 1). simpl. rewrite s32_small by lia.
  replace (n - 1 =? 0) with (n =? 1) by (zcases). by destruct ((n =? 1) && e).
Qed.

(** *** Every step keeps the invariant *)

Lemma owns_length m c h : inv m → harts m !! c = Some h → (length (owns h) ≤ length (locks m))%nat.
Proof.
  intros I Hh. rewrite <- (length_seq (length (locks m)) 0).
  apply submseteq_length, NoDup_submseteq; [by eapply inv_nodup|].
  intros l Hl. apply elem_of_seq. destruct (inv_lock _ I _ _ _ Hh Hl) as (lk & Hlk & _).
  apply lookup_lt_Some in Hlk. lia.
Qed.

Lemma depth_bound m c h :
  inv m → harts m !! c = Some h → 0 ≤ noff (hcpu h) ≤ 1 + Z.of_nat (length (locks m)).
Proof.
  intros I Hh. rewrite (inv_depth _ I _ _ Hh). pose proof (owns_length _ _ _ I Hh).
  unfold depth. destruct (pos h); lia.
Qed.

(** What the accessors return. *)
Lemma gethart_eq m c h : harts m !! c = Some h → gethart c m = Ret (h, m).
Proof. unfold gethart. by intros ->. Qed.
Lemma getlock_eq m l lk : locks m !! l = Some lk → getlock l m = Ret (lk, m).
Proof. unfold getlock. by intros ->. Qed.

Ltac run_hart :=
  match goal with
  | Hh : harts ?m !! ?c = Some ?h |- context [bind (gethart ?c) _ ?m] =>
      rewrite (bind_Ret _ _ _ _ _ (gethart_eq _ _ _ Hh))
  | Hl : locks ?m !! ?l = Some ?lk |- context [bind (getlock ?l) _ ?m] =>
      rewrite (bind_Ret _ _ _ _ _ (getlock_eq _ _ _ Hl))
  end.

Lemma getlock_inv {A} (f : spinlock → M machine A) l m r :
  bind (getlock l) f m = Ret r → ∃ lk, locks m !! l = Some lk ∧ f lk m = Ret r.
Proof. unfold bind, getlock. destruct (locks m !! l) as [lk|]; [|done]. intros. by exists lk. Qed.

Lemma change_both m c l h h' lk lk' :
  inv m → harts m !! c = Some h → locks m !! l = Some lk → change c l h h' lk lk' →
  inv (m <| locks ::= <[l := lk']> |> <| harts ::= <[c := h']> |>).
Proof. intros. by eapply (change_inv m). Qed.

Section steps.
Context (m : machine) (c : nat) (h : hart).
Hypothesis (I : inv m) (Hh : harts m !! c = Some h) (Hk : Z.of_nat (length (locks m)) < 2^30).

Lemma hart_noff : 0 ≤ noff (hcpu h) < 2^31 - 1.
Proof using All. pose proof (depth_bound m c h I Hh). lia. Qed.

Lemma held_cs l lk : locks m !! l = Some lk → holding lk c = true ↔ l ∈ cs h.
Proof using I Hh.
  intros Hl. unfold holding. rewrite andb_true_iff, bool_decide_eq_true, (inv_holder _ I _ _ c Hl).
  split.
  - intros [_ (x & ? & ?)]. by simplify_eq.
  - intros Hin. split; [|by exists h].
    by rewrite (locked_owner _ _ _ _ _ I Hl Hh (cs_owns _ _ Hin)).
Qed.

(** A step that changes neither the locks nor what the CPU owns. *)
Lemma hart_inv h' :
  owns h' = owns h → cs h' = cs h → noff (hcpu h') = depth h' →
  (0 < noff (hcpu h') → intr (hcpu h') = false) → inv (m <| harts ::= <[c := h']> |>).
Proof using I Hh.
  intros Eo Ec Hd Hi.
  assert (∀ c' x, <[c := h']> (harts m) !! c' = Some x →
    c' = c ∧ x = h' ∨ c' ≠ c ∧ harts m !! c' = Some x) as U by (intros c' x; apply (harts_upd m c 0 h h' initlock Hh)).
  assert (∀ c' x, <[c := h']> (harts m) !! c' = Some x →
    ∃ x', harts m !! c' = Some x' ∧ owns x = owns x' ∧ cs x = cs x') as V.
  { intros c' x [[-> ->]|[_ Hx]]%U; eauto. }
  split; simpl.
  - intros c' x (x' & Hx & -> & _)%V. by eapply inv_nodup.
  - intros c' x l (x' & Hx & -> & _)%V. by eapply inv_lock.
  - intros c1 c2 x1 x2 l (y1 & H1 & -> & _)%V (y2 & H2 & -> & _)%V. by eapply inv_excl.
  - apply I.
  - intros l lk Hl H1. destruct (inv_owned _ I _ _ Hl H1) as (c' & x & Hx & Ho).
    destruct (decide (c' = c)) as [->|]; [|exists c', x; by rewrite list_lookup_insert_ne].
    exists c, h'. rewrite list_lookup_insert_eq by (by eapply lookup_lt_Some).
    split; [done|]. by simplify_eq; rewrite Eo.
  - intros l lk c' Hl. rewrite (inv_holder _ I _ _ c' Hl). split.
    + intros (x & Hx & Ho). destruct (decide (c' = c)) as [->|]; [|exists x; by rewrite list_lookup_insert_ne].
      exists h'. rewrite list_lookup_insert_eq by (by eapply lookup_lt_Some).
      split; [done|]. by simplify_eq; rewrite Ec.
    + intros (x & (x' & Hx & _ & Eq)%V & Ho). exists x'. by rewrite <- Eq.
  - intros c' x [[-> ->]|[_ Hx]]%U; [done|by eapply inv_depth].
  - intros c' x [[-> ->]|[_ Hx]]%U; [done|by eapply inv_off].
Qed.

Lemma enter_inv l m' :
  pos h = Run → acquire_enter c l m = Ret (tt, m') → inv m' ∧ length (locks m') = length (locks m).
Proof using All.
  intros Hp. unfold acquire_enter. run_hart. intros (lk & Hl & E)%getlock_inv. revert E.
  unfold bind, on_cpu. rewrite push_off_eq by apply hart_noff.
  destruct (holding lk c) eqn:Eh; [done|]. intros [= <-]. split; [|done].
  assert (owns (Hart (pushed (hcpu h)) (Swap l) (cs h)) = owns h) as Hown by (unfold owns; by rewrite Hp).
  pose proof (inv_depth _ I _ _ Hh) as Hd.
  eapply hart_inv; [done..| | |]; try done.
  unfold depth in *. rewrite Hown. rewrite Hp in Hd. simpl. lia.
Qed.

Lemma swap_inv l m' :
  pos h = Swap l → acquire_swap c l m = Ret (tt, m') → inv m' ∧ length (locks m') = length (locks m).
Proof using All.
  intros Hp. unfold acquire_swap. run_hart. intros (lk & Hl & E)%getlock_inv. revert E.
  pose proof (inv_nodup _ I _ _ Hh) as Hnd. unfold owns in Hnd. rewrite Hp in Hnd.
  pose proof (inv_depth _ I _ _ Hh) as Hd. pose proof (inv_off _ I _ _ Hh) as Ho.
  pose proof (inv_word _ I _ _ Hl) as Hw. pose proof (locked_owner _ _ _ c h I Hl Hh) as Hlo.
  unfold bind, setlock, sethart, modify. destruct (locked lk =? 0) eqn:E0; bool_to_prop; simpl.
  - intros [= <-]. split; [|apply length_insert]. eapply (change_both _ _ _ h _ lk); [done..|].
    assert (l ∉ cs h) as Hn. { intros Hin%cs_owns%Hlo. lia. }
    unfold depth, owns in *. split; simpl; unfold depth, owns in *; rewrite ?Hp in *; simpl in *; try done.
    + intros j ?. rewrite elem_of_cons. tauto.
    + by constructor.
    + by right.
    + intros _. split; [done|by right].
    + intros _. left. constructor.
    + by rewrite !decide_False by done.
    + lia.
  - intros [= <-]. destruct Hw as [|H1]; [done|].
    assert (lk <| locked := 1 |> = lk) as -> by (destruct lk; simpl in *; by subst).
    cbv [set_field]. rewrite list_insert_id by done. by destruct m.
Qed.

Lemma got_inv l m' :
  pos h = SetCpu l → acquire_done c l m = Ret (tt, m') → inv m' ∧ length (locks m') = length (locks m).
Proof using All.
  intros Hp. unfold acquire_done. run_hart. intros (lk & Hl & E)%getlock_inv. revert E.
  pose proof (inv_nodup _ I _ _ Hh) as Hnd. pose proof (inv_depth _ I _ _ Hh) as Hd.
  pose proof (inv_off _ I _ _ Hh) as Ho.
  pose proof (locked_owner _ _ _ c h I Hl Hh) as Hlo. unfold depth, owns in *. rewrite Hp in *.
  specialize (Hlo ltac:(constructor)).
  intros [= <-]. split; [|apply length_insert]. eapply (change_both _ _ _ h _ lk); [done..|].
  split; unfold depth, owns in *; simpl; rewrite ?Hp in *; try done.
  - intros j ?. rewrite elem_of_cons. tauto.
  - by right.
  - intros _. split; [done|]. left. constructor.
  - lia.
  - intros _. left. constructor.
  - by rewrite decide_True by constructor.
Qed.

Lemma release_enter_inv l m' :
  pos h = Run → release_enter c l m = Ret (tt, m') → inv m' ∧ length (locks m') = length (locks m).
Proof using All.
  intros Hp. unfold release_enter. run_hart. intros (lk & Hl & E)%getlock_inv. revert E.
  destruct (holding lk c) eqn:Eh; simpl; [|done]. apply (held_cs _ _ Hl) in Eh.
  intros [= <-]. split; [|apply length_insert]. eapply (change_both _ _ _ h _ lk); [done..|].
  pose proof (inv_nodup _ I _ _ Hh) as Hnd. pose proof (inv_depth _ I _ _ Hh) as Hd.
  pose proof (inv_off _ I _ _ Hh) as Ho.
  pose proof (locked_owner _ _ _ _ _ I Hl Hh (cs_owns _ _ Eh)) as Hlo.
  pose proof (filter_out_length l (cs h)) as Hlen.
  assert (NoDup (cs h)) as Hnd'. { by unfold owns in Hnd; rewrite Hp in Hnd. }
  split; unfold depth, owns in *; simpl; rewrite ?Hp in *; try done.
  - intros j ?. rewrite elem_of_cons, list_elem_of_filter. tauto.
  - intros j ?. rewrite list_elem_of_filter. tauto.
  - constructor; [rewrite list_elem_of_filter; tauto|by apply list.NoDup_filter].
  - by right.
  - intros _. split; [done|by left].
  - lia.
  - intros _. left. constructor.
  - rewrite decide_False by (rewrite list_elem_of_filter; tauto). by rewrite decide_True.
  - specialize (Hlen Hnd' Eh). simpl in *. lia.
Qed.

Lemma store_inv l m' :
  pos h = Unlock l → release_store c l m = Ret (tt, m') → inv m' ∧ length (locks m') = length (locks m).
Proof using All.
  intros Hp. unfold release_store. run_hart. intros (lk & Hl & E)%getlock_inv. revert E.
  pose proof (inv_nodup _ I _ _ Hh) as Hnd. pose proof (inv_depth _ I _ _ Hh) as Hd.
  pose proof (inv_off _ I _ _ Hh) as Ho. unfold depth, owns in *. rewrite Hp in *.
  apply list.NoDup_cons in Hnd as [Hni Hnd].
  intros [= <-]. split; [|apply length_insert]. eapply (change_both _ _ _ h _ lk); [done..|].
  split; unfold depth, owns in *; simpl in *; rewrite ?Hp in *; try done.
  - intros j ?. rewrite elem_of_cons. tauto.
  - by left.
  - intros _. split; [done|]. right. constructor.
  - by rewrite !decide_False.
  - lia.
Qed.

Lemma pop_inv m' :
  pos h = PopOff → release_done c m = Ret (tt, m') → inv m' ∧ length (locks m') = length (locks m).
Proof using All.
  intros Hp. unfold release_done. run_hart. unfold bind, on_cpu.
  pose proof (inv_nodup _ I _ _ Hh) as Hnd. pose proof (inv_depth _ I _ _ Hh) as Hd.
  pose proof (inv_off _ I _ _ Hh) as Ho. pose proof (owns_length _ _ _ I Hh).
  assert (1 ≤ noff (hcpu h) < 2^31) as Hn by (unfold depth in Hd; rewrite Hp in Hd; lia).
  rewrite pop_off_eq by (auto with lia). intros [= <-]. split; [|done].
  assert (owns (Hart (popped (hcpu h)) Run (cs h)) = owns h) as Hown by (unfold owns; by rewrite Hp).
  eapply hart_inv; [done..| | | |]; rewrite ?Hown; try done.
  - unfold depth in *. rewrite Hown. rewrite Hp in Hd. simpl. lia.
  - simpl. intros Hpos. test_false (noff (hcpu h) =? 1). done.
Qed.

Lemma intr_inv b m' :
  pos h = Run → noff (hcpu h) = 0 →
  sethart c (h <| hcpu ::= (λ cp, cp <| intr := b |>) |>) m = Ret (tt, m') →
  inv m' ∧ length (locks m') = length (locks m).
Proof using I Hh.
  intros Hp Hn [= <-]. split; [|done]. pose proof (inv_depth _ I _ _ Hh) as Hd.
  eapply hart_inv; [done..| | | |]; destruct h as [[i n e] p k]; simpl in *; try done. lia.
Qed.
End steps.

Lemma boot_inv n k : inv (boot n k).
Proof.
  assert (∀ c h, harts (boot n k) !! c = Some h → h = Hart (Cpu false 0 false) Run []) as Hh.
  { intros c h Hc. by apply lookup_replicate in Hc as [-> _]. }
  assert (∀ l lk, locks (boot n k) !! l = Some lk → lk = initlock) as Hl.
  { intros l lk Hc. by apply lookup_replicate in Hc as [-> _]. }
  split.
  - intros c h ->%Hh. apply NoDup_nil_2.
  - intros c h l ->%Hh ?%elem_of_nil. done.
  - intros c1 c2 h1 h2 l ->%Hh _ ?%elem_of_nil. done.
  - intros l lk ->%Hl. by left.
  - intros l lk ->%Hl. done.
  - intros l lk c ->%Hl. split; [done|]. intros (h & ->%Hh & ?%elem_of_nil). done.
  - by intros c h ->%Hh.
  - by intros c h ->%Hh.
Qed.

Lemma step_inv c m m' :
  inv m → Z.of_nat (length (locks m)) < 2^30 → step c m m' →
  inv m' ∧ length (locks m') = length (locks m).
Proof.
  intros I Hk [h l Hh Hp E|h l Hh Hp E|h l Hh Hp E|h l Hh Hp E|h l Hh Hp E|h Hh Hp E|h b Hh Hp Hn E].
  - by eapply enter_inv.
  - by eapply swap_inv.
  - by eapply got_inv.
  - by eapply release_enter_inv.
  - by eapply store_inv.
  - by eapply pop_inv.
  - by eapply intr_inv.
Qed.

Lemma reachable_inv n k m :
  Z.of_nat k < 2^30 → reachable n k m → inv m ∧ length (locks m) = k.
Proof.
  intros Hk. induction 1 as [|c m m' _ [IH Hlen] Hs].
  - split; [apply boot_inv|]. apply length_replicate.
  - apply step_inv in Hs as [? ->]; [done|done|lia].
Qed.

(** ** Matching push_off and pop_off *)
Inductive intr_op := Push | Pop.
Definition run_op (o : intr_op) : M cpu unit := match o with Push => push_off | Pop => pop_off end.
Definition run_ops (l : list intr_op) : M cpu unit := for_each l run_op.
(** Well-nested sequences. *)
Inductive nested : list intr_op → Prop :=
  | nested_nil : nested []
  | nested_pair a b : nested a → nested b → nested (Push :: a ++ Pop :: b).

Lemma run_ops_cons o l c c' : run_op o c = Ret (tt, c') → run_ops (o :: l) c = run_ops l c'.
Proof. intros E. unfold run_ops. simpl. by rewrite (bind_Ret _ _ _ _ _ E). Qed.
Lemma run_ops_app a b c c' : run_ops a c = Ret (tt, c') → run_ops (a ++ b) c = run_ops b c'.
Proof.
  unfold run_ops. revert c. induction a as [|o a IH]; intros c; simpl; [by intros [= ->]|].
  unfold bind. destruct (run_op o c) as [[[] c1]| | | |]; try done. apply IH.
Qed.
End Spin.

(** C23: Spinlocks exclude: on any number of CPUs, and however the steps of
    [acquire] and [release] interleave, two CPUs are never between the [acquire] and the [release] of
    the same lock; a CPU that is has its interrupts off, and there [holding]
    answers exactly for the locks it took.  A lock that no CPU is taking,
    holding or giving back is free, so that the next swap gets it. *)
Theorem spinlock_mutex n k m :
  Z.of_nat k < 2^30 → Spin.reachable n k m →
  (∀ c1 c2 h1 h2 l, Spin.harts m !! c1 = Some h1 → Spin.harts m !! c2 = Some h2 →
     l ∈ Spin.cs h1 → l ∈ Spin.cs h2 → c1 = c2) ∧
  (∀ c h, Spin.harts m !! c = Some h → Spin.cs h ≠ [] → Spin.intr (Spin.hcpu h) = false) ∧
  (∀ c h l lk, Spin.harts m !! c = Some h → Spin.locks m !! l = Some lk →
     Spin.holding lk c = true ↔ l ∈ Spin.cs h) ∧
  (∀ l lk, Spin.locks m !! l = Some lk →
     (∀ c h, Spin.harts m !! c = Some h → l ∉ Spin.owns h) → Spin.locked lk = 0).
Proof.
  intros Hk [I Hlen]%Spin.reachable_inv; [|done]. split_and!.
  - intros c1 c2 h1 h2 l H1 H2 Ho1%Spin.cs_owns Ho2%Spin.cs_owns. by eapply Spin.inv_excl.
  - intros c h Hh Hcs. apply (Spin.inv_off m I c h Hh). rewrite (Spin.inv_depth m I c h Hh).
    unfold Spin.depth, Spin.owns. destruct (Spin.cs h); [done|]. destruct (Spin.pos h); simpl; lia.
  - intros c h l lk Hh Hl. by eapply Spin.held_cs.
  - intros l lk Hl Hno. destruct (Spin.inv_word m I l lk Hl) as [|H1]; [done|].
    destruct (Spin.inv_owned m I l lk Hl H1) as (c & h & Hh & Ho). by destruct (Hno c h Hh).
Qed.

(** [push_off] and [pop_off] match: after any well-nested sequence of calls
    the interrupt state is the one before it, whatever it was. *)
Theorem push_pop_restores ops c :
  Spin.nested ops → 0 ≤ Spin.noff c → Spin.noff c + Z.of_nat (length ops) < 2^31 →
  (0 < Spin.noff c → Spin.intr c = false) →
  ∃ c', Spin.run_ops ops c = Ret (tt, c') ∧ Spin.noff c' = Spin.noff c ∧
        Spin.intr c' = Spin.intr c ∧ (0 < Spin.noff c → Spin.intena c' = Spin.intena c).
Proof.
  intros Hn. revert c. induction Hn as [|a b _ IHa _ IHb]; intros c H0 Hlt Hoff; [by exists c|].
  simpl in Hlt. rewrite length_app in Hlt. simpl in Hlt.
  destruct (IHa (Spin.pushed c)) as (c1 & E1 & Hn1 & Hi1 & He1); [simpl; lia..|done|].
  simpl in Hn1, Hi1, He1. specialize (He1 ltac:(lia)).
  destruct (IHb (Spin.popped c1)) as (c2 & E2 & Hn2 & Hi2 & He2); simpl; [lia..| |].
  { intros. test_false (Spin.noff c1 =? 1). done. }
  exists c2. rewrite (Spin.run_ops_cons _ _ _ (Spin.pushed c)) by (by apply Spin.push_off_eq; lia).
  rewrite (Spin.run_ops_app _ _ _ _ E1).
  rewrite (Spin.run_ops_cons _ _ _ (Spin.popped c1)) by (by apply Spin.pop_off_eq; (done || lia)).
  simpl in *.
  split; [done|]. split; [lia|]. rewrite Hi2, Hn1, He1. split.
  - destruct (Z.eqb_spec (Spin.noff c) 0) as [->|]; [done|].
    rewrite Hoff by lia. by test_false (Spin.noff c + 1 =? 1).
  - intros. rewrite He2 by lia. rewrite He1. by test_false (Spin.noff c =? 0).
Qed.

(** A CPU takes the only lock while a second one spins. *)
Definition contended : Spin.machine :=
  Spin.Machine [Spin.Hart (Spin.Cpu false 1 false) Spin.Run [0%nat];
                Spin.Hart (Spin.Cpu false 1 false) (Spin.Swap 0) []]
               [Spin.Spinlock 1 (Some 0%nat)].
Lemma contended_reachable : Spin.reachable 2 1 contended.
Proof.
  assert (∀ c m m', Spin.reachable 2 1 m → Spin.step c m m' → Spin.reachable 2 1 m') as Hs
    by (intros; by eapply Spin.reach_step).
  eassert (Spin.reachable 2 1 _) as H1.
  { eapply (Hs 0%nat); [apply Spin.reach_boot|]. eapply (Spin.step_acquire _ _ _ _ 0); vm_compute; reflexivity. }
  vm_compute in H1.
  eassert (Spin.reachable 2 1 _) as H2.
  { eapply (Hs 1%nat); [exact H1|]. eapply (Spin.step_acquire _ _ _ _ 0); vm_compute; reflexivity. }
  vm_compute in H2.
  eassert (Spin.reachable 2 1 _) as H3.
  { eapply (Hs 0%nat); [exact H2|]. eapply (Spin.step_swap _ _ _ _ 0); vm_compute; reflexivity. }
  vm_compute in H3.
  eassert (Spin.reachable 2 1 _) as H4.
  { eapply (Hs 0%nat); [exact H3|]. eapply (Spin.step_got _ _ _ _ 0); vm_compute; reflexivity. }
  vm_compute in H4.
  eapply (Hs 1%nat); [exact H4|]. eapply (Spin.step_swap _ _ _ _ 0); vm_compute; reflexivity.
Qed.

Lemma spinlock_mutex_witness :
  Spin.harts contended !! 1%nat = Some (Spin.Hart (Spin.Cpu false 1 false) (Spin.Swap 0) []) ∧
  Spin.intr (Spin.hcpu (Spin.Hart (Spin.Cpu false 1 false) Spin.Run [0%nat])) = false.
Proof.
  split; [reflexivity|].
  by apply (proj1 (proj2 (spinlock_mutex 2 1 contended ltac:(lia) contended_reachable)) 0%nat).
Defined.

Lemma push_pop_restores_witness : ∃ c',
  Spin.run_ops [Spin.Push; Spin.Push; Spin.Pop; Spin.Pop] (Spin.Cpu true 0 false) = Ret (tt, c') ∧
  Spin.noff c' = 0 ∧ Spin.intr c' = true ∧ (0 < 0 → Spin.intena c' = false).
Proof.
  apply (push_pop_restores [Spin.Push; Spin.Push; Spin.Pop; Spin.Pop] (Spin.Cpu true 0 false)).
  - apply (Spin.nested_pair [Spin.Push; Spin.Pop] []); [|constructor].
    apply (Spin.nested_pair [] []); constructor.
  - reflexivity || (simpl; lia).
  - simpl; lia.
  - simpl; lia.
Defined.

(** ** Sleep locks *)
Module Sleeplock.

(** [struct sleeplock]. *)
Record sleeplock := SleepLock { locked : Z; pid : Z }.

Definition initsleeplock : sleeplock := SleepLock 0 0.

(** [me] is [myproc()->pid]; a process that finds the lock taken sleeps. *)
Definition acquiresleep (me : Z) : M sleeplock unit :=
  let* lk := get in
  if negb (locked lk =? 0) then block else put (SleepLock 1 me).
(** [releasesleep] also wakes the sleepers up (below). *)
Definition releasesleep : M sleeplock unit := put (SleepLock 0 0).
Definition holdingsleep (me : Z) (lk : sleeplock) : bool :=
  negb (locked lk =? 0) && (pid lk =? me).

(** *** Many processes

    [procs] gives the state of each process that ever used the lock.  A step
    is one critical section of [lk->lk]. *)
Inductive status := Idle | Woken | Asleep | Owner.
#[global] Instance status_eq_dec : EqDecision status.
Proof. solve_decision. Defined.
Record world := World { lk : sleeplock; procs : gmap Z status }.

(** One pass of the loop of [acquiresleep]: own the lock or go to sleep. *)
Definition try_acquire (me : Z) (w : world) : option world :=
  match acquiresleep me (lk w) with
  | Ret (_, l) => Some (World l (<[me := Owner]> (procs w)))
  | Block => Some (World (lk w) (<[me := Asleep]> (procs w)))
  | _ => None
  end.
(** [releasesleep] with [wakeup(lk)]. *)
Definition wake_up (st : status) : status := if decide (st = Asleep) then Woken else st.
Definition wake_release (me : Z) (w : world) : option world :=
  match releasesleep (lk w) with
  | Ret (_, l) => Some (World l (<[me := Idle]> (wake_up <$> procs w)))
  | _ => None
  end.

Inductive step (w : world) : world → Prop :=
  | step_try me w' :
      procs w !! me = None ∨ procs w !! me = Some Idle ∨ procs w !! me = Some Woken →
      try_acquire me w = Some w' → step w w'
  | step_release me w' :
      procs w !! me = Some Owner → holdingsleep me (lk w) = true →
      wake_release me w = Some w' → step w w'.
Inductive reachable : world → Prop :=
  | reach_init : reachable (World initsleeplock ∅)
  | reach_step w w' : reachable w → step w w' → reachable w'.

(** Either the lock is free, with no owner and no sleeper, or it has exactly
    the owner its [pid] names. *)
Definition inv (w : world) : Prop :=
  locked (lk w) = 0 ∧ (∀ p, procs w !! p ≠ Some Owner ∧ procs w !! p ≠ Some Asleep) ∨
  locked (lk w) = 1 ∧ ∀ p, procs w !! p = Some Owner ↔ p = pid (lk w).

Lemma sleep_reachable_inv w : reachable w → inv w.
Proof.
  induction 1 as [|w w' _ IH Hs]; [by left|].
  destruct Hs as [me w' Hme E|me w' Hme Hh E].
  - revert E. unfold try_acquire, acquiresleep, bind, get, block, put.
    destruct (Z.eqb_spec (locked (lk w)) 0) as [E0|E0]; simpl; intros [= <-]; right; simpl.
    + destruct IH as [[_ IH]|[? _]]; [|lia]. split; [done|]. intros p.
      destruct (decide (p = me)) as [->|]; [by rewrite lookup_insert_eq|].
      rewrite lookup_insert_ne by done. split; [by intros ?%IH|done].
    + destruct IH as [[? _]|[H1 IH]]; [done|]. split; [done|]. intros p.
      destruct (decide (p = me)) as [->|]; [|by rewrite lookup_insert_ne].
      rewrite lookup_insert_eq. split; [done|]. intros Hp%IH. rewrite Hp in Hme.
      by destruct Hme as [|[|]].
  - injection E as <-. left. split; [done|]. simpl. intros p.
    destruct (decide (p = me)) as [->|]; [by rewrite lookup_insert_eq|].
    rewrite lookup_insert_ne, lookup_fmap by done.
    destruct IH as [[_ IH]|[_ IH]]; [by destruct (IH me)|].
    pose proof (proj1 (IH me) Hme). pose proof (IH p).
    destruct (procs w !! p) as [[]|]; simpl; split; try done.
    intros _. assert (p = pid (lk w)) by tauto. congruence.
Qed.
End Sleeplock.

(** C28: A sleep lock has one owner at a time, the one whose pid it stores, so
    that [holdingsleep] is true for the owner and for nobody else; and no
    wake-up is lost: while some process sleeps on the lock, somebody owns it
    and will call [releasesleep]. *)
Theorem sleeplock_exclusion w :
  Sleeplock.reachable w →
  (∀ p q, Sleeplock.procs w !! p = Some Sleeplock.Owner →
          Sleeplock.procs w !! q = Some Sleeplock.Owner → p = q) ∧
  (∀ p, Sleeplock.procs w !! p = Some Sleeplock.Owner ↔
        Sleeplock.holdingsleep p (Sleeplock.lk w) = true) ∧
  (∀ p, Sleeplock.procs w !! p = Some Sleeplock.Asleep →
        ∃ q, q ≠ p ∧ Sleeplock.procs w !! q = Some Sleeplock.Owner).
Proof.
  intros [[H0 I]|[H1 I]]%Sleeplock.sleep_reachable_inv; unfold Sleeplock.holdingsleep.
  - rewrite H0. split_and!.
    + by intros p q ?%I.
    + intros p. split; [by intros ?%I|done].
    + by intros p ?%I.
  - rewrite H1. split_and!.
    + intros p q ->%I ->%I. done.
    + intros p. rewrite I. simpl. rewrite Z.eqb_eq. split; by intros ->.
    + intros p Hp. exists (Sleeplock.pid (Sleeplock.lk w)). split; [|by apply I].
      intros <-. rewrite (proj2 (I _) eq_refl) in Hp. done.
Qed.

(** Process 1 owns the lock and process 2 sleeps. *)
Lemma sleeplock_exclusion_witness :
  let w := Sleeplock.World (Sleeplock.SleepLock 1 1)
             (<[2 := Sleeplock.Asleep]> (<[1 := Sleeplock.Owner]> ∅)) in
  ∃ q, q ≠ 2 ∧ Sleeplock.procs w !! q = Some Sleeplock.Owner.
Proof.
  intros w.
  assert (Sleeplock.reachable w) as H.
  { eapply Sleeplock.reach_step; [eapply Sleeplock.reach_step; [constructor|]|].
    - by apply (Sleeplock.step_try _ 1 (Sleeplock.World (Sleeplock.SleepLock 1 1) (<[1 := Sleeplock.Owner]> ∅)));
        [left|].
    - apply (Sleeplock.step_try _ 2); [by left|reflexivity]. }
  by apply (proj2 (proj2 (sleeplock_exclusion w H)) 2).
Defined.
