(* ===== verification/Bio.v ===== *)
(** * Buffer cache (kernel/bio.c, kernel/buf.h)

    The cache is the array of [struct buf] with the list head behind it; the
    doubly linked list is the [prev]/[next] fields, as indices into the array.
    A critical section under [bcache.lock] is one step.  The disk is a map
    from block numbers to blocks with the history of its writes; a request to
    it completes within the call. *)

From Stdlib Require Import ZArith Lia.
From stdpp Require Import base numbers list gmap strings tactics.
From S2P Require Import Prelude Locks.
Import Sleeplock.

Local Open Scope Z_scope.

Definition BSIZE : Z := 1024.
Definition MAXOPBLOCKS : Z := 10.
Definition NBUF : nat := 30.

Abbreviation block_data := (list Z).
Definition zero_block : block_data := replicate 1024 0.

(** [struct buf] *)
Record buf := Buf {
  bvalid : Z;
  bdisk : Z;
  bdev : Z;
  blockno : Z;
  block : sleeplock;
  refcnt : Z;
  bprev : nat;
  bnext : nat;
  bdata : block_data;
}.
#[global] Instance eta_buf : Eta buf := λ b,
  Buf (bvalid b) (bdisk b) (bdev b) (blockno b) (block b) (refcnt b) (bprev b) (bnext b) (bdata b).

(** [bcache] and the disk.  Entry [NBUF] of [bufs] is [bcache.head]. *)
Record bst := Bst {
  bufs : list buf;
  dblocks : gmap Z block_data;
  dwrites : list (Z * block_data);   (** newest first *)
}.
#[global] Instance eta_bst : Eta bst := λ s, Bst (bufs s) (dblocks s) (dwrites s).

Definition head : nat := NBUF.
Definition buf0 : buf := Buf 0 0 0 0 (SleepLock 0 0) 0 0 0 zero_block.

Definition disk_block (d : gmap Z block_data) (n : Z) : block_data := default zero_block (d !! n).

Definition getb (i : nat) : M bst buf := λ s,
  match bufs s !! i with Some b => Ret (b, s) | None => Fault "buf" end.
Definition updb (i : nat) (f : buf → buf) : M bst unit :=
  let* b := getb i in
  modify (λ s, s <| bufs ::= <[i := f b]> |>).

(** Insert [b] behind the list head: the last four assignments of [brelse],
    and the body of the loop of [binit]. *)
Definition link_front (b : nat) : M bst unit :=
  let* h := getb head in
  updb b (λ x, x <| bnext := bnext h |>) ;;;
  updb b (λ x, x <| bprev := head |>) ;;;
  let* h := getb head in
  updb (bnext h) (λ x, x <| bprev := b |>) ;;;
  updb head (λ x, x <| bnext := b |>).

Definition binit : M bst unit :=
  updb head (λ x, x <| bprev := head |>) ;;;
  updb head (λ x, x <| bnext := head |>) ;;;
  for_each (seq 0 NBUF) (λ b,
    updb b (λ x, x <| block := initsleeplock |>) ;;;
    link_front b).

(** [acquiresleep(&b->lock)] and [releasesleep] on a buffer. *)
Definition on_lock (b : nat) (op : M sleeplock unit) : M bst unit :=
  let* x := getb b in
  match op (block x) with
  | Ret (_, l) => updb b (λ x, x <| block := l |>)
  | Block => Prelude.block
  | _ => fault "sleeplock"
  end.

(** One full turn of the list takes [NBUF + 1] steps. *)
Definition list_fuel : positive := 32.

(** The two searches of [bget]. *)
Definition find_cached (dev no : Z) : M bst (option nat) :=
  let* h := getb head in
  loop list_fuel (λ b : nat,
    if (b =? head)%nat then ret (inr None)
    else
      let* x := getb b in
      if (bdev x =? dev) && (blockno x =? no) then ret (inr (Some b))
      else ret (inl (bnext x))) (bnext h).
Definition find_unused_buf : M bst (option nat) :=
  let* h := getb head in
  loop list_fuel (λ b : nat,
    if (b =? head)%nat then ret (inr None)
    else
      let* x := getb b in
      if refcnt x =? 0 then ret (inr (Some b))
      else ret (inl (bprev x))) (bprev h).

(** [me] is [myproc()->pid]. *)
Definition bget (me dev no : Z) : M bst nat :=
  let* r := find_cached dev no in
  match r with
  | Some b =>
      updb b (λ x, x <| refcnt := u32 (refcnt x + 1) |>) ;;;
      on_lock b (acquiresleep me) ;;;
      ret b
  | None =>
      let* r := find_unused_buf in
      match r with
      | Some b =>
          updb b (λ x, x <| bdev := dev |> <| blockno := no |> <| bvalid := 0 |>
                         <| refcnt := 1 |>) ;;;
          on_lock b (acquiresleep me) ;;;
          ret b
      | None => panic "bget: no buffers"
      end
  end.

(** What [virtio_disk_rw(b, write)] does to the buffer and the disk. *)
Definition disk_rw (b : nat) (write : bool) : M bst unit :=
  let* x := getb b in
  if write then
    modify (λ s, s <| dblocks ::= <[blockno x := bdata x]> |>
                   <| dwrites ::= cons (blockno x, bdata x) |>)
  else
    let* s := get in
    updb b (λ x, x <| bdata := disk_block (dblocks s) (blockno x) |>).

Definition bread (me dev no : Z) : M bst nat :=
  let* b := bget me dev no in
  let* x := getb b in
  (if bvalid x =? 0 then
     disk_rw b false ;;;
     updb b (λ x, x <| bvalid := 1 |>)
   else ret tt) ;;;
  ret b.

Definition bwrite (me : Z) (b : nat) : M bst unit :=
  let* x := getb b in
  if negb (holdingsleep me (block x)) then panic "bwrite"
  else disk_rw b true.

Definition brelse (me : Z) (b : nat) : M bst unit :=
  let* x := getb b in
  if negb (holdingsleep me (block x)) then panic "brelse"
  else
    on_lock b releasesleep ;;;
    updb b (λ x, x <| refcnt := u32 (refcnt x - 1) |>) ;;;
    let* x := getb b in
    if refcnt x =? 0 then
      updb (bnext x) (λ y, y <| bprev := bprev x |>) ;;;
      updb (bprev x) (λ y, y <| bnext := bnext x |>) ;;;
      link_front b
    else ret tt.

Definition bpin (b : nat) : M bst unit := updb b (λ x, x <| refcnt := u32 (refcnt x + 1) |>).
Definition bunpin (b : nat) : M bst unit := updb b (λ x, x <| refcnt := u32 (refcnt x - 1) |>).
