(* ===== verification/BioList.v ===== *)
(** * The least-recently-used list of the buffer cache

    The [prev]/[next] fields of bio.c represent a list of buffers: [lru bs l].
    Unlinking a buffer and linking it in front are proved to be what they are
    on lists, for every position of the buffer. *)

From Stdlib Require Import ZArith Lia.
From stdpp Require Import base numbers list gmap strings tactics.
From S2P Require Import Prelude Locks Bio.

Local Open Scope Z_scope.

(** ** Doubly linked chains

    [chain n p a l z]: from [a], the pointers [n] lead through the nodes [l]
    to [z], and the pointers [p] lead back. *)
Fixpoint chain (n p : nat → nat) (a : nat) (l : list nat) (z : nat) : Prop :=
  match l with
  | [] => n a = z ∧ p z = a
  | x :: l => n a = x ∧ p x = a ∧ chain n p x l z
  end.

Lemma chain_app n p a l1 x l2 z :
  chain n p a (l1 ++ x :: l2) z ↔ chain n p a l1 x ∧ chain n p x l2 z.
Proof. revert a. induction l1 as [|y l1 IH]; intros a; simpl; [tauto|]. rewrite IH. tauto. Qed.

Lemma chain_ext n p n' p' a l z :
  (∀ i, i = a ∨ i ∈ l → n' i = n i) → (∀ i, i = z ∨ i ∈ l → p' i = p i) →
  chain n p a l z → chain n' p' a l z.
Proof.
  revert a. induction l as [|x l IH]; intros a Hn Hp; simpl.
  - intros [<- E]. rewrite Hn, Hp by auto. done.
  - intros (<- & E & Hc). rewrite Hn by auto. split; [done|].
    split; [rewrite Hp; [done|right; constructor]|]. apply IH; [| |done].
    + intros i Hi. apply Hn. right. apply elem_of_cons. tauto.
    + intros i Hi. apply Hp. rewrite elem_of_cons. tauto.
Qed.

(** The node before [z]. *)
Fixpoint before (a : nat) (l : list nat) : nat :=
  match l with [] => a | x :: l => before x l end.
Lemma before_elem a l : before a l = a ∨ before a l ∈ l.
Proof.
  revert a. induction l as [|x l IH]; intros a; simpl; [by left|].
  right. destruct (IH x) as [->|]; [constructor|by constructor].
Qed.
Lemma chain_last n p a l z : chain n p a l z → p z = before a l ∧ n (before a l) = z.
Proof.
  revert a. induction l as [|x l IH]; intros a; simpl; [tauto|]. intros (_ & _ & Hc). by apply IH.
Qed.
(** The node after [a]. *)
Definition after (l : list nat) (z : nat) : nat := match l with [] => z | x :: _ => x end.
Lemma chain_first n p a l z : chain n p a l z → n a = after l z ∧ p (after l z) = a.
Proof. destruct l; simpl; tauto. Qed.

(** Pointer assignment. *)
Definition upd (f : nat → nat) (i v : nat) : nat → nat := λ j, if decide (j = i) then v else f j.
Lemma upd_eq f i v : upd f i v i = v.
Proof. unfold upd. by rewrite decide_True. Qed.
Lemma upd_ne f i v j : j ≠ i → upd f i v j = f j.
Proof. intros. unfold upd. by rewrite decide_False. Qed.

(** End a chain at [v] instead of at [b]. *)
Lemma chain_redirect n p a l b v :
  chain n p a l b → NoDup (a :: l) → v ∉ l →
  chain (upd n (before a l) v) (upd p v (before a l)) a l v.
Proof.
  revert a. induction l as [|x l IH]; intros a; simpl.
  - intros _ _ _. by rewrite !upd_eq.
  - intros (<- & E & Hc) [Ha Hd]%list.NoDup_cons [Hv1 Hv2]%not_elem_of_cons.
    apply not_elem_of_cons in Ha as [Hax Hal].
    rewrite upd_ne. 2:{ intros Hb. destruct (before_elem (n a) l) as [Hb'|Hb'].
      - congruence. - rewrite <- Hb in Hb'. done. }
    rewrite upd_ne by congruence. split; [done|]. split; [done|]. by apply IH.
Qed.

(** Unlinking [b]: [b->next->prev = b->prev; b->prev->next = b->next]. *)
Lemma chain_unlink n p h l1 b l2 :
  chain n p h (l1 ++ b :: l2) h → NoDup (h :: l1 ++ b :: l2) →
  chain (upd n (p b) (n b)) (upd p (n b) (p b)) h (l1 ++ l2) h.
Proof.
  intros [H1 H2]%chain_app Hd.
  apply list.NoDup_cons in Hd as [Hh Hd]. apply list.NoDup_app in Hd as (Hd1 & Hd12 & Hd2).
  apply list.NoDup_cons in Hd2 as [Hb2 Hd2].
  rewrite elem_of_app, elem_of_cons in Hh.
  assert (NoDup (h :: l1)) as Hd1' by (constructor; tauto).
  destruct (chain_last _ _ _ _ _ H1) as [-> _]. destruct (chain_first _ _ _ _ _ H2) as [-> _].
  pose proof (before_elem h l1) as Hbef.
  destruct l2 as [|v l2]; simpl.
  - rewrite app_nil_r. apply (chain_redirect _ _ _ _ b); [done..|tauto].
  - apply chain_app. split.
    + apply (chain_redirect _ _ _ _ b); [done..|]. intros Hv. apply (Hd12 v Hv). right. constructor.
    + destruct H2 as (_ & _ & H2). apply list.NoDup_cons in Hd2 as [Hv2 Hd2].
      revert H2. apply chain_ext; intros i Hi; apply upd_ne; intros ->.
      * destruct Hbef as [Hbef|Hbef].
        -- rewrite Hbef in Hi. rewrite elem_of_cons in Hh. tauto.
        -- apply (Hd12 _ Hbef). rewrite !elem_of_cons. tauto.
      * destruct Hi as [->|]; [|done]. rewrite elem_of_cons in Hh. tauto.
Qed.

(** Linking [b] behind [h]. *)
Lemma chain_link n p h l b :
  chain n p h l h → NoDup (h :: l) → b ∉ h :: l →
  chain (upd (upd n b (n h)) h b) (upd (upd p b h) (n h) b) h (b :: l) h.
Proof.
  intros Hc [Hh Hd]%list.NoDup_cons [Hbh Hbl]%not_elem_of_cons. simpl.
  rewrite upd_eq. split; [done|]. destruct (chain_first _ _ _ _ _ Hc) as [Ef _].
  split.
  { rewrite upd_ne; [apply upd_eq|]. rewrite Ef. destruct l as [|f l]; simpl; [done|].
    intros ->. apply Hbl. constructor. }
  rewrite Ef. destruct l as [|f l]; simpl in *.
  - by rewrite upd_ne, !upd_eq by done.
  - destruct Hc as (_ & _ & Hc). apply not_elem_of_cons in Hh as [Hhf Hhl].
    apply not_elem_of_cons in Hbl as [Hbf Hbl]. apply list.NoDup_cons in Hd as [Hfl Hd].
    rewrite upd_ne, !upd_eq by done. split; [done|]. split; [done|].
    revert Hc. apply chain_ext.
    + intros i [->|Hi]; rewrite !upd_ne; try done; by intros ->.
    + intros i [->|Hi]; rewrite !upd_ne; try done; by intros ->.
Qed.

(** ** The list of the cache *)

Definition nx (bs : list buf) (i : nat) : nat := default 0%nat (bnext <$> bs !! i).
Definition pv (bs : list buf) (i : nat) : nat := default 0%nat (bprev <$> bs !! i).

Definition lru (bs : list buf) (l : list nat) : Prop :=
  l ≡ₚ seq 0 NBUF ∧ chain (nx bs) (pv bs) head l head.

(** Everything of a buffer but its place in the list. *)
Definition payload (b : buf) : buf := b <| bprev := 0%nat |> <| bnext := 0%nat |>.
Definition same_data (bs bs' : list buf) : Prop := payload <$> bs' = payload <$> bs.

#[global] Instance same_data_equiv : Equivalence same_data.
Proof.
  split; unfold same_data.
  - by intros bs.
  - by intros bs bs' ->.
  - intros b1 b2 b3 -> ->. done.
Qed.

Lemma same_data_lookup bs bs' i b :
  same_data bs bs' → bs !! i = Some b → ∃ b', bs' !! i = Some b' ∧ payload b' = payload b.
Proof.
  unfold same_data. intros E Hb. assert ((payload <$> bs') !! i = Some (payload b)) as H.
  { rewrite E, list_lookup_fmap, Hb. done. }
  rewrite list_lookup_fmap in H. destruct (bs' !! i) as [b'|]; [|done].
  exists b'. split; [done|]. by apply (inj Some) in H.
Qed.
Lemma same_data_length bs bs' : same_data bs bs' → length bs' = length bs.
Proof. unfold same_data. intros E. by rewrite <- (length_fmap payload bs'), E, length_fmap. Qed.
Lemma same_data_insert bs i b b' :
  bs !! i = Some b → payload b' = payload b → same_data bs (<[i := b']> bs).
Proof.
  intros Hb E. unfold same_data. rewrite list_fmap_insert, E. apply list_insert_id.
  by rewrite list_lookup_fmap, Hb.
Qed.

(** ** Rules for the accessors *)

Lemma wp_getb i b (Q : buf → bst → Prop) s : bufs s !! i = Some b → Q b s → wp (getb i) Q s.
Proof. unfold wp, getb. by intros ->. Qed.
Lemma wp_updb i b f (Q : unit → bst → Prop) s :
  bufs s !! i = Some b → Q tt (s <| bufs ::= <[i := f b]> |>) → wp (updb i f) Q s.
Proof. intros Hb HQ. unfold updb. wp_step. by eapply wp_getb. Qed.

(** The same after a first change of the buffer. *)
Lemma wp_getb_again b x y (Q : buf → bst → Prop) s :
  bufs s !! b = Some x → Q y (s <| bufs ::= <[b := y]> |>) →
  wp (getb b) Q (s <| bufs ::= <[b := y]> |>).
Proof.
  intros Hx HQ. eapply wp_getb; [|done]. simpl. apply list_lookup_insert_eq.
  by eapply lookup_lt_Some.
Qed.
Lemma wp_updb_again b x y f (Q : unit → bst → Prop) s :
  bufs s !! b = Some x → Q tt (s <| bufs ::= <[b := f y]> |>) →
  wp (updb b f) Q (s <| bufs ::= <[b := y]> |>).
Proof.
  intros Hx HQ. unfold updb. wp_step. eapply wp_getb_again; [done|]. wp_step.
  replace (_ <| bufs ::= <[b := f y]> |>) with (s <| bufs ::= <[b := f y]> |>); [done|].
  destruct s as [bs ? ?]. cbv [set_field]. simpl. f_equal. symmetry. apply list_insert_insert_eq.
Qed.

(** [s] is [s0] with the pointers [n] and [p]. *)
Definition pointers (s0 : bst) (n p : nat → nat) (s : bst) : Prop :=
  ∃ bs, s = s0 <| bufs := bs |> ∧ same_data (bufs s0) bs ∧
        (∀ j, nx bs j = n j) ∧ (∀ j, pv bs j = p j).

Lemma pointers_refl s : pointers s (nx (bufs s)) (pv (bufs s)) s.
Proof. exists (bufs s). by destruct s. Qed.

Section pointer_rules.
Context (s0 s : bst) (n p : nat → nat) (i : nat).
Hypothesis (Hp : pointers s0 n p s) (Hi : (i < length (bufs s0))%nat).

Lemma pointers_lookup : ∃ b, bufs s !! i = Some b ∧ bnext b = n i ∧ bprev b = p i.
Proof using All.
  destruct Hp as (bs & -> & Hs & Hn & Hv). simpl.
  destruct (lookup_lt_is_Some_2 bs i) as [b Hb].
  { by rewrite (same_data_length _ _ Hs). }
  exists b. split; [done|]. rewrite <- Hn, <- Hv. unfold nx, pv. by rewrite Hb.
Qed.

Lemma wp_getb_ptr (Q : buf → bst → Prop) :
  (∀ b, bnext b = n i → bprev b = p i → Q b s) → wp (getb i) Q s.
Proof using All.
  intros HQ. destruct pointers_lookup as (b & Hb & Hn & Hv). eapply wp_getb; [done|]. by apply HQ.
Qed.

Lemma wp_set_next v :
  wp (updb i (λ x, x <| bnext := v |>)) (λ _ s', pointers s0 (upd n i v) p s') s.
Proof using All.
  destruct pointers_lookup as (b & Hb & _). eapply wp_updb; [done|].
  destruct Hp as (bs & -> & Hs & Hn & Hv). simpl in Hb.
  exists (<[i := b <| bnext := v |>]> bs). split; [done|]. split.
  - etrans; [done|]. eapply same_data_insert; [done|]. by destruct b.
  - split; intros j; unfold nx, pv in *; (destruct (decide (j = i)) as [->|];
      [rewrite list_lookup_insert_eq by (by eapply lookup_lt_Some)
      |rewrite list_lookup_insert_ne by done]).
    + by rewrite upd_eq. + rewrite upd_ne by done. apply Hn.
    + rewrite <- Hv, Hb. done. + apply Hv.
Qed.

Lemma wp_set_prev v :
  wp (updb i (λ x, x <| bprev := v |>)) (λ _ s', pointers s0 n (upd p i v) s') s.
Proof using All.
  destruct pointers_lookup as (b & Hb & _). eapply wp_updb; [done|].
  destruct Hp as (bs & -> & Hs & Hn & Hv). simpl in Hb.
  exists (<[i := b <| bprev := v |>]> bs). split; [done|]. split.
  - etrans; [done|]. eapply same_data_insert; [done|]. by destruct b.
  - split; intros j; unfold nx, pv in *; (destruct (decide (j = i)) as [->|];
      [rewrite list_lookup_insert_eq by (by eapply lookup_lt_Some)
      |rewrite list_lookup_insert_ne by done]).
    + rewrite <- Hn, Hb. done. + apply Hn.
    + by rewrite upd_eq. + rewrite upd_ne by done. apply Hv.
Qed.
End pointer_rules.

(** [link_front] is a cons. *)
Lemma link_front_spec s0 s n p b l :
  pointers s0 n p s → length (bufs s0) = S NBUF →
  chain n p head l head → NoDup (head :: l) → (∀ i, i ∈ b :: l → (i < NBUF)%nat) → b ∉ l →
  wp (link_front b) (λ _ s', ∃ n' p', pointers s0 n' p' s' ∧ chain n' p' head (b :: l) head) s.
Proof.
  intros Hp Hlen Hc Hd Hr Hb. unfold link_front.
  assert (b < NBUF)%nat as Hbr by (apply Hr; constructor).
  assert (b ≠ head) as Hbh by (unfold head; lia).
  assert (n head < S NBUF)%nat as Hnr.
  { destruct (chain_first _ _ _ _ _ Hc) as [-> _]. destruct l as [|f l]; simpl; [unfold head; lia|].
    assert (f < NBUF)%nat; [|lia]. apply Hr. right. constructor. }
  wp_step. eapply wp_getb_ptr; [exact Hp|unfold head; lia|]. intros x -> _.
  wp_step. eapply wp_mono; [|eapply wp_set_next; [exact Hp|lia]]. intros ? s1 Hp1.
  wp_step. eapply wp_mono; [|eapply wp_set_prev; [exact Hp1|lia]]. intros ? s2 Hp2.
  wp_step. eapply wp_getb_ptr; [exact Hp2|unfold head; lia|]. intros y -> _.
  rewrite upd_ne by done.
  wp_step. eapply wp_mono; [|eapply wp_set_prev; [exact Hp2|lia]]. intros ? s3 Hp3.
  eapply wp_mono; [|eapply wp_set_next; [exact Hp3|unfold head; lia]]. intros ? s4 Hp4.
  eexists _, _. split; [exact Hp4|]. apply chain_link; [done..|]. by apply not_elem_of_cons.
Qed.

(** The end of [brelse]: the buffer moves to the front. *)
Lemma move_front_spec s b x l1 l2 :
  length (bufs s) = S NBUF → lru (bufs s) (l1 ++ b :: l2) → bufs s !! b = Some x →
  wp (updb (bnext x) (λ y, y <| bprev := bprev x |>) ;;;
      updb (bprev x) (λ y, y <| bnext := bnext x |>) ;;;
      link_front b)
     (λ _ s', ∃ bs, s' = s <| bufs := bs |> ∧ same_data (bufs s) bs ∧ lru bs (b :: l1 ++ l2)) s.
Proof.
  intros Hlen [Hperm Hc] Hx.
  assert (∀ i, i ∈ l1 ++ b :: l2 → (i < NBUF)%nat) as Hr.
  { intros i. rewrite Hperm, elem_of_seq. lia. }
  assert (NoDup (l1 ++ b :: l2)) as Hd by (rewrite Hperm; apply NoDup_seq).
  assert (NoDup (head :: l1 ++ b :: l2)) as Hd'.
  { constructor; [|done]. intros ?%Hr. unfold head in *. lia. }
  assert (bnext x = nx (bufs s) b ∧ bprev x = pv (bufs s) b) as [-> ->].
  { unfold nx, pv. by rewrite Hx. }
  pose proof (proj1 (chain_app _ _ _ _ _ _ _) Hc) as [H1 H2].
  assert (nx (bufs s) b < S NBUF)%nat as Hn.
  { destruct (chain_first _ _ _ _ _ H2) as [-> _]. destruct l2 as [|f l2]; simpl; [unfold head; lia|].
    assert (f < NBUF)%nat; [|lia]. apply Hr. rewrite elem_of_app, !elem_of_cons. tauto. }
  assert (pv (bufs s) b < S NBUF)%nat as Hp.
  { destruct (chain_last _ _ _ _ _ H1) as [-> _].
    destruct (before_elem head l1) as [->|Hin]; [unfold head; lia|].
    assert (before head l1 < NBUF)%nat; [|lia]. apply Hr. rewrite elem_of_app. tauto. }
  wp_step. eapply wp_mono; [|eapply wp_set_prev; [apply pointers_refl|lia]]. intros ? s1 Hp1.
  wp_step. eapply wp_mono; [|eapply wp_set_next; [exact Hp1|lia]]. intros ? s2 Hp2.
  pose proof (chain_unlink _ _ _ _ _ _ Hc Hd') as Hc'.
  apply list.NoDup_app in Hd as (Hd1 & Hd12 & Hd2). apply list.NoDup_cons in Hd2 as [Hb2 Hd2].
  assert (b ∉ l1) as Hb1. { intros Hin. apply (Hd12 _ Hin). constructor. }
  eapply wp_mono; [|eapply link_front_spec; [exact Hp2|done|exact Hc'| | |]].
  - intros ? s' (n' & p' & (bs & -> & Hs & Hn' & Hv') & Hc''). exists bs. split; [done|].
    split; [done|]. split.
    + by rewrite Permutation_middle.
    + revert Hc''. apply chain_ext; intros; [apply Hn'|apply Hv'].
  - apply list.NoDup_cons in Hd' as [Hh _]. constructor.
    + intros Hin. apply Hh. rewrite elem_of_app, elem_of_cons in *. tauto.
    + apply list.NoDup_app. split; [done|]. split; [|done]. intros i Hi Hi2. apply (Hd12 i Hi). by constructor.
  - intros i Hi. apply Hr. rewrite elem_of_cons, elem_of_app in Hi. rewrite elem_of_app, elem_of_cons. tauto.
  - rewrite elem_of_app. tauto.
Qed.

(** [binit] builds the list of all buffers, the last one in front. *)
Definition locks_reset (b : buf) : buf := b <| block := Sleeplock.initsleeplock |>.
Lemma binit_loop k j s :
  (j + k = NBUF)%nat → length (bufs s) = S NBUF →
  chain (nx (bufs s)) (pv (bufs s)) head (reverse (seq 0 j)) head →
  wp (for_each (seq j k) (λ b, updb b locks_reset ;;; link_front b))
     (λ _ s', ∃ bs, s' = s <| bufs := bs |> ∧ lru bs (reverse (seq 0 NBUF)) ∧
        length bs = S NBUF ∧
        ∀ i b, bufs s !! i = Some b → ∃ b', bs !! i = Some b' ∧
          payload b' = payload (if decide (j ≤ i < NBUF)%nat then locks_reset b else b)) s.
Proof.
  revert j s. induction k as [|k IH]; intros j s Hj Hlen Hc; simpl.
  - wp_step. exists (bufs s). replace j with NBUF in * by lia. split; [by destruct s|].
    split; [split; [by rewrite reverse_Permutation|done]|]. split; [done|].
    intros i b Hb. exists b. split; [done|]. by rewrite decide_False by lia.
  - destruct (lookup_lt_is_Some_2 (bufs s) j) as [bj Hbj]; [lia|].
    wp_step. wp_step. eapply wp_updb; [done|].
    set (s1 := s <| bufs ::= <[j := locks_reset bj]> |>).
    assert (∀ i, nx (bufs s1) i = nx (bufs s) i ∧ pv (bufs s1) i = pv (bufs s) i) as Hsame.
    { intros i. unfold nx, pv. simpl. destruct (decide (i = j)) as [->|];
        [rewrite list_lookup_insert_eq by lia; rewrite Hbj; by destruct bj
        |by rewrite list_lookup_insert_ne]. }
    eapply wp_mono; [|eapply (link_front_spec s1 s1 _ _ j (reverse (seq 0 j))); [apply pointers_refl| | | | |]].
    + intros ? s2 (n2 & p2 & (bs & -> & Hs & Hn2 & Hp2) & Hc2).
      pose proof (same_data_length _ _ Hs) as Hlen2. simpl in Hlen2. rewrite length_insert in Hlen2.
      eapply wp_mono; [|apply (IH (S j)); [lia|simpl; lia|]].
      * intros ? s3 (bs3 & -> & Hl3 & Hlen3 & Hd3). exists bs3. split; [done|]. split; [done|].
        split; [done|]. intros i b Hb.
        destruct (same_data_lookup _ _ i (if decide (i = j) then locks_reset b else b) Hs) as (b2 & Hb2 & E2).
        { simpl. case_decide as Hd; [subst i|by rewrite list_lookup_insert_ne].
          rewrite list_lookup_insert_eq by lia. by simplify_eq. }
        destruct (Hd3 i b2 Hb2) as (b3 & Hb3 & E3). exists b3. split; [done|]. rewrite E3.
        destruct (decide (i = j)) as [->|].
        { rewrite decide_False by lia. rewrite E2. by rewrite decide_True by lia. }
        repeat case_decide; try lia; [|done]. change (locks_reset (payload b2) = locks_reset (payload b)). by rewrite E2.
      * replace (reverse (seq 0 (S j))) with (j :: reverse (seq 0 j)) by (by rewrite seq_S, reverse_app).
        revert Hc2. apply chain_ext; intros; [apply Hn2|apply Hp2].
    + simpl. by rewrite length_insert.
    + revert Hc. apply chain_ext; intros; apply Hsame.
    + constructor; [rewrite elem_of_reverse, elem_of_seq; unfold head; lia|].
      rewrite reverse_Permutation. apply NoDup_seq.
    + intros i. rewrite elem_of_cons, elem_of_reverse, elem_of_seq. lia.
    + rewrite elem_of_reverse, elem_of_seq. lia.
Qed.
