(* ===== verification/BioSpec.v ===== *)
(** * What the buffer cache promises

    [cache d me V h R l s]: the cache of device [d], used by process [me],
    represents the block contents [V]; the process has the blocks [h] locked,
    the blocks [R] are pinned, and [l] is the order of use.  A block that is
    neither locked nor pinned has its contents on the disk. *)

From Stdlib Require Import ZArith Lia.
From stdpp Require Import base numbers list gmap functions strings tactics.
From S2P Require Import Prelude Locks Bio BioList.
Import Sleeplock.

Local Open Scope Z_scope.

Definition count (n : Z) (l : list Z) : Z := if decide (n ∈ l) then 1 else 0.

(** A buffer of the device. *)
Record entry (me : Z) (V : Z → block_data) (h R : list Z) (x : buf) : Prop := {
  e_ref : refcnt x = count (blockno x) h + count (blockno x) R;
  e_lock : block x = if decide (blockno x ∈ h) then SleepLock 1 me else SleepLock 0 0;
  e_data : bvalid x ≠ 0 → bdata x = V (blockno x);
  e_valid : blockno x ∈ h ∨ blockno x ∈ R → bvalid x ≠ 0;
}.
(** A buffer of another device. *)
Definition idle_buf (x : buf) : Prop := refcnt x = 0 ∧ block x = SleepLock 0 0.

Record cache (d me : Z) (V : Z → block_data) (h R : list Z) (l : list nat) (s : bst) : Prop := {
  c_len : length (bufs s) = S NBUF;
  c_lru : lru (bufs s) l;
  c_unique i j x y : (i < NBUF)%nat → (j < NBUF)%nat → bufs s !! i = Some x → bufs s !! j = Some y →
    bdev x = d → bdev y = d → blockno x = blockno y → i = j;
  c_mine i x : (i < NBUF)%nat → bufs s !! i = Some x → bdev x = d → entry me V h R x;
  c_other i x : (i < NBUF)%nat → bufs s !! i = Some x → bdev x ≠ d → idle_buf x;
  c_used n : n ∈ h ∨ n ∈ R → ∃ i x, (i < NBUF)%nat ∧ bufs s !! i = Some x ∧ bdev x = d ∧ blockno x = n;
  c_clean n : (n ∉ h) → (n ∉ R) → disk_block (dblocks s) n = V n;
  c_held : NoDup h;
  c_pinned : NoDup R;
}.

(** Buffer [b] holds block [n] with contents [x], locked by [me]. *)
Definition holds (d me : Z) (s : bst) (b : nat) (n : Z) (x : block_data) : Prop :=
  (b < NBUF)%nat ∧ ∃ y, bufs s !! b = Some y ∧ bdev y = d ∧ blockno y = n ∧ bdata y = x ∧
    block y = SleepLock 1 me.

(** ** The searches *)

Section search.
Context (s : bst) (l : list nat).
Hypothesis (Hlen : length (bufs s) = S NBUF) (Hlru : lru (bufs s) l).

Lemma lru_range i : i ∈ l ↔ (i < NBUF)%nat.
Proof using Hlen Hlru. destruct Hlru as [Hp _]. rewrite Hp, elem_of_seq. lia. Qed.
Lemma lru_nodup : NoDup l.
Proof using Hlen Hlru. destruct Hlru as [Hp _]. rewrite Hp. apply NoDup_seq. Qed.
Lemma lru_length : length l = NBUF.
Proof using Hlen Hlru. destruct Hlru as [Hp _]. by rewrite Hp, length_seq. Qed.
Lemma buf_lookup i : (i ≤ NBUF)%nat → ∃ x, bufs s !! i = Some x ∧ bnext x = nx (bufs s) i ∧ bprev x = pv (bufs s) i.
Proof using Hlen.
  intros Hi. destruct (lookup_lt_is_Some_2 (bufs s) i) as [x Hx]; [lia|].
  exists x. unfold nx, pv. by rewrite Hx.
Qed.
Lemma lru_next l1 a l2 : l = l1 ++ a :: l2 → nx (bufs s) a = after l2 head.
Proof using Hlen Hlru.
  intros ->. destruct Hlru as [_ Hc]. apply chain_app in Hc as [_ Hc]. by apply chain_first in Hc as [? _].
Qed.
Lemma lru_prev l1 a l2 : l = l1 ++ a :: l2 → pv (bufs s) a = before head l1.
Proof using Hlen Hlru.
  intros ->. destruct Hlru as [_ Hc]. apply chain_app in Hc as [Hc _]. by apply chain_last in Hc as [? _].
Qed.

Lemma before_snoc a m x : before a (m ++ [x]) = x.
Proof. revert a. induction m; simpl; auto. Qed.

(** A key is at a buffer. *)
Definition keyed (dev no : Z) (i : nat) : Prop := ∃ x, bufs s !! i = Some x ∧ bdev x = dev ∧ blockno x = no.

Lemma find_cached_spec dev no :
  wp (find_cached dev no) (λ r s', s' = s ∧
    match r with
    | Some b => (b < NBUF)%nat ∧ keyed dev no b
    | None => ∀ b, (b < NBUF)%nat → ¬ keyed dev no b
    end) s.
Proof using Hlen Hlru.
  destruct (buf_lookup head) as (x0 & Hx0 & En & _); [done|].
  unfold find_cached. wp_step. eapply wp_getb; [done|].
  eapply (wp_loop_nat _ (λ k a s', s' = s ∧ ∃ l1 l2, l = l1 ++ l2 ∧ a = after l2 head ∧
    k = length l2 ∧ ∀ b, b ∈ l1 → ¬ keyed dev no b)) with (k := NBUF); [| |unfold list_fuel; unfold NBUF; lia].
  - intros k a ? (-> & l1 & l2 & El & -> & -> & Hno). destruct l2 as [|b l2]; cbn [after].
    + rewrite Nat.eqb_refl. wp_step. split; [done|]. intros b Hb.
      apply Hno. rewrite app_nil_r in El. subst l1. by apply lru_range.
    + assert (b < NBUF)%nat as Hb.
      { apply lru_range. rewrite El, elem_of_app, elem_of_cons. tauto. }
      destruct (Nat.eqb_spec b head) as [->|_]; [unfold head in *; lia|].
      destruct (buf_lookup b) as (x & Hx & Ex & _); [lia|].
      wp_step. eapply wp_getb; [done|]. case_if.
      * wp_step. split; [done|]. split; [done|]. by exists x.
      * wp_step. exists (length l2). split; [simpl; lia|]. split; [done|].
        exists (l1 ++ [b]), l2. split; [by rewrite <- app_assoc|].
        split; [rewrite Ex; by eapply lru_next|]. split; [done|].
        intros b' [Hb'|Hb']%elem_of_app; [by apply Hno|].
        apply list_elem_of_singleton in Hb' as ->. intros (y & Hy & E1 & E2). simplify_eq.
        by rewrite !Z.eqb_refl in E.
  - split; [done|]. exists [], l. split; [done|]. split.
    + rewrite En. destruct Hlru as [_ Hc]. by apply chain_first in Hc as [? _].
    + split; [by rewrite lru_length|]. by intros b ?%elem_of_nil.
Qed.

(** The least recently used buffer with no reference. *)
Lemma find_unused_spec :
  wp find_unused_buf (λ r s', s' = s ∧
    match r with
    | Some b => ∃ l1 l2 x, l = l1 ++ b :: l2 ∧ bufs s !! b = Some x ∧ refcnt x = 0 ∧
        ∀ b' x', b' ∈ l2 → bufs s !! b' = Some x' → refcnt x' ≠ 0
    | None => ∀ b x, (b < NBUF)%nat → bufs s !! b = Some x → refcnt x ≠ 0
    end) s.
Proof using Hlen Hlru.
  destruct (buf_lookup head) as (x0 & Hx0 & _ & Ep); [done|].
  unfold find_unused_buf. wp_step. eapply wp_getb; [done|].
  eapply (wp_loop_nat _ (λ k a s', s' = s ∧ ∃ l1 l2, l = l1 ++ l2 ∧ a = before head l1 ∧
    k = length l1 ∧ ∀ b x, b ∈ l2 → bufs s !! b = Some x → refcnt x ≠ 0)) with (k := NBUF);
    [| |unfold list_fuel; unfold NBUF; lia].
  - intros k a ? (-> & l1 & l2 & El & -> & -> & Hno).
    destruct l1 as [|b l1 _] using rev_ind.
    + change (before head []) with head. rewrite Nat.eqb_refl. wp_step. split; [done|].
      intros b x Hb. apply Hno. simpl in El. subst l2. by apply lru_range.
    + rewrite before_snoc.
      assert (l = l1 ++ b :: l2) as El' by (by rewrite El, <- app_assoc).
      assert (b < NBUF)%nat as Hb.
      { apply lru_range. rewrite El', elem_of_app, elem_of_cons. tauto. }
      destruct (Nat.eqb_spec b head) as [->|_]; [unfold head in *; lia|].
      destruct (buf_lookup b) as (x & Hx & _ & Ex); [lia|].
      wp_step. eapply wp_getb; [done|]. case_if.
      * wp_step. split; [done|]. by exists l1, l2, x.
      * wp_step. exists (length l1). split; [rewrite length_app; simpl; lia|]. split; [done|].
        exists l1, (b :: l2). split; [done|]. split; [rewrite Ex; by eapply lru_prev|].
        split; [done|]. intros b' x' [->|Hb']%elem_of_cons; [|by apply Hno].
        intros. by simplify_eq.
  - split; [done|]. exists l, []. split; [by rewrite app_nil_r|]. split.
    + rewrite Ep. destruct Hlru as [_ Hc]. by apply chain_last in Hc as [? _].
    + split; [by rewrite lru_length|]. by intros b x ?%elem_of_nil.
Qed.
End search.

(** ** Changing one buffer *)

(** Two buffers at the same place of the list. *)
Definition same_place (x y : buf) : Prop := bnext y = bnext x ∧ bprev y = bprev x.

Lemma lru_insert bs l b x y :
  lru bs l → bs !! b = Some x → same_place x y → lru (<[b := y]> bs) l.
Proof.
  intros [Hp Hc] Hx [En Ep]. split; [done|]. revert Hc.
  assert (b < length bs)%nat by (by eapply lookup_lt_Some).
  apply chain_ext; intros i _; unfold nx, pv; (destruct (decide (i = b)) as [->|];
    [rewrite list_lookup_insert_eq by done; rewrite Hx; simpl; congruence
    |by rewrite list_lookup_insert_ne]).
Qed.

Section cache.
Context (d me : Z).
Implicit Types (V : Z → block_data) (h R : list Z) (l : list nat) (s : bst).

Lemma entry_ext V V' h h' R R' x :
  entry me V h R x → (blockno x ∈ h' ↔ blockno x ∈ h) → (blockno x ∈ R' ↔ blockno x ∈ R) →
  V' (blockno x) = V (blockno x) → entry me V' h' R' x.
Proof.
  intros [E1 E2 E3 E4] Hh HR HV. split.
  - rewrite E1. unfold count. f_equal; by apply decide_ext.
  - rewrite E2. symmetry. by apply decide_ext.
  - by rewrite HV.
  - by rewrite Hh, HR.
Qed.

Lemma cache_ext V V' h h' R R' l s :
  cache d me V h R l s → h' ≡ₚ h → R' ≡ₚ R → (∀ n, V' n = V n) → cache d me V' h' R' l s.
Proof.
  intros C Hh HR HV. destruct C. split; try done.
  - intros. eapply entry_ext; [by eauto|by rewrite Hh|by rewrite HR|done].
  - intros n. rewrite Hh, HR. auto.
  - intros n. rewrite Hh, HR, HV. auto.
  - by rewrite Hh.
  - by rewrite HR.
Qed.

(** Buffer [b] becomes [y]. *)
Lemma cache_set V h R l s V' h' R' s' b x y :
  cache d me V h R l s → (b < NBUF)%nat → bufs s !! b = Some x →
  bufs s' = <[b := y]> (bufs s) → same_place x y → bdev y = d → entry me V' h' R' y →
  (∀ i z, (i < NBUF)%nat → i ≠ b → bufs s !! i = Some z → bdev z = d → blockno z ≠ blockno y) →
  (∀ n, n ≠ blockno y → (n ∈ h' ↔ n ∈ h) ∧ (n ∈ R' ↔ n ∈ R) ∧ V' n = V n) →
  (bdev x = d → blockno x ≠ blockno y → (blockno x ∉ h) ∧ (blockno x ∉ R)) →
  (∀ n, n ∉ h' → n ∉ R' → disk_block (dblocks s') n = V' n) →
  NoDup h' → NoDup R' → cache d me V' h' R' l s'.
Proof.
  intros C Hb Hx Es Hpl Hd He Huniq Hsame Hevict Hclean Hh HR.
  assert (∀ i z, bufs s' !! i = Some z → i = b ∧ z = y ∨ i ≠ b ∧ bufs s !! i = Some z) as Hlk.
  { intros i z. rewrite Es. destruct (decide (i = b)) as [->|].
    - rewrite list_lookup_insert_eq by (by eapply lookup_lt_Some). intros [= <-]. by left.
    - rewrite list_lookup_insert_ne by done. by right. }
  split; try done.
  - rewrite Es, length_insert. apply C.
  - rewrite Es. eapply lru_insert; [apply C|done..].
  - intros i j z w Hi Hj [[-> ->]|[Hib Hz]]%Hlk [[-> ->]|[Hjb Hw]]%Hlk Ez Ew E; try done.
    + by destruct (Huniq j w Hj Hjb Hw Ew).
    + by destruct (Huniq i z Hi Hib Hz Ez).
    + by eapply (c_unique _ _ _ _ _ _ _ C).
  - intros i z Hi [[-> ->]|[Hib Hz]]%Hlk Ez; [done|].
    pose proof (Huniq i z Hi Hib Hz Ez) as Hne. destruct (Hsame _ Hne) as (? & ? & ?).
    eapply entry_ext; [|done..]. by eapply (c_mine _ _ _ _ _ _ _ C).
  - intros i z Hi [[-> ->]|[Hib Hz]]%Hlk Ez; [done|]. by eapply (c_other _ _ _ _ _ _ _ C).
  - intros n Hn. destruct (decide (n = blockno y)) as [->|Hne].
    { exists b, y. split; [done|]. rewrite Es, list_lookup_insert_eq by (by eapply lookup_lt_Some). done. }
    destruct (Hsame _ Hne) as (E1 & E2 & _). rewrite E1, E2 in Hn.
    destruct (c_used _ _ _ _ _ _ _ C n Hn) as (i & z & Hi & Hz & Ez & En).
    exists i, z. split; [done|]. rewrite Es. rewrite list_lookup_insert_ne; [done|].
    intros <-. simplify_eq. destruct Hevict; [done..|]. tauto.
Qed.

(** The order of use changes. *)
Lemma cache_relink V h R l s bs l' :
  cache d me V h R l s → same_data (bufs s) bs → lru bs l' →
  cache d me V h R l' (s <| bufs := bs |>).
Proof.
  intros C Hs Hl.
  assert (∀ i z, bs !! i = Some z → ∃ z', bufs s !! i = Some z' ∧ payload z' = payload z) as Hlk.
  { intros i z Hz. eapply same_data_lookup; [by symmetry|done]. }
  assert (∀ z z', payload z' = payload z → bdev z' = bdev z ∧ blockno z' = blockno z ∧
    refcnt z' = refcnt z ∧ block z' = block z ∧ bdata z' = bdata z ∧ bvalid z' = bvalid z) as Hf.
  { intros z z' E. change (bdev z') with (bdev (payload z')).
    change (blockno z') with (blockno (payload z')). change (refcnt z') with (refcnt (payload z')).
    change (block z') with (block (payload z')). change (bdata z') with (bdata (payload z')).
    change (bvalid z') with (bvalid (payload z')). by rewrite E. }
  split; try apply C; try done.
  - simpl. rewrite (same_data_length _ _ Hs). apply C.
  - intros i j z w Hi Hj (z' & Hz & (E1 & E2 & _)%Hf)%Hlk (w' & Hw & (F1 & F2 & _)%Hf)%Hlk.
    rewrite <- E1, <- F1, <- E2, <- F2. by eapply (c_unique _ _ _ _ _ _ _ C).
  - intros i z Hi (z' & Hz & (E1 & E2 & E3 & E4 & E5 & E6)%Hf)%Hlk Hd.
    destruct (c_mine _ _ _ _ _ _ _ C i z' Hi Hz ltac:(congruence)) as [A1 A2 A3 A4].
    split; rewrite <- ?E2, <- ?E3, <- ?E4, <- ?E5, <- ?E6; done.
  - intros i z Hi (z' & Hz & (E1 & E2 & E3 & E4 & E5 & E6)%Hf)%Hlk Hd.
    destruct (c_other _ _ _ _ _ _ _ C i z' Hi Hz ltac:(congruence)) as [A1 A2].
    by split; rewrite <- ?E3, <- ?E4.
  - intros n (i & z & Hi & Hz & Ez & En)%(c_used _ _ _ _ _ _ _ C).
    destruct (same_data_lookup _ _ _ _ Hs Hz) as (z' & Hz' & (E1 & E2 & _)%Hf).
    exists i, z'. rewrite E1, E2. done.
Qed.

Lemma entry_unused V h R x : entry me V h R x → refcnt x = 0 → (blockno x ∉ h) ∧ (blockno x ∉ R).
Proof. intros [E _ _ _]. rewrite E. unfold count. repeat case_decide; (lia || done). Qed.

(** A cache with a buffer to spare finds one. *)
Lemma cache_spare V h R l s :
  cache d me V h R l s → (length h + length R < NBUF)%nat →
  ∃ b x, (b < NBUF)%nat ∧ bufs s !! b = Some x ∧ refcnt x = 0.
Proof.
  intros C Hlt.
  destruct (decide (Forall (λ b, refcnt (default buf0 (bufs s !! b)) ≠ 0) (seq 0 NBUF))) as [Hall|Hsome].
  - exfalso. rewrite list.Forall_forall in Hall.
    assert (∀ b, (b < NBUF)%nat → ∃ x, bufs s !! b = Some x ∧ bdev x = d ∧ blockno x ∈ h ++ R) as Hk.
    { intros b Hb. destruct (lookup_lt_is_Some_2 (bufs s) b) as [x Hx].
      { rewrite (c_len _ _ _ _ _ _ _ C). lia. }
      specialize (Hall b ltac:(apply elem_of_seq; lia)). rewrite Hx in Hall. cbn in Hall.
      exists x. split; [done|]. destruct (decide (bdev x = d)) as [Hd|Hd].
      - split; [done|]. destruct (c_mine _ _ _ _ _ _ _ C b x Hb Hx Hd) as [E _ _ _].
        rewrite elem_of_app. unfold count in E.
        repeat case_decide; try tauto.
      - destruct (c_other _ _ _ _ _ _ _ C b x Hb Hx Hd) as [E _].
        done. }
    set (key := λ b, blockno (default buf0 (bufs s !! b))).
    assert (length (key <$> seq 0 NBUF) ≤ length (h ++ R))%nat as Hle.
    { apply submseteq_length, NoDup_submseteq.
      - apply NoDup_fmap_2_strong; [|apply NoDup_seq].
        intros i j [_ Hi]%elem_of_seq [_ Hj]%elem_of_seq. unfold key.
        destruct (Hk i) as (x & Hx & Dx & _); [lia|]. destruct (Hk j) as (y & Hy & Dy & _); [lia|].
        rewrite Hx, Hy. simpl. intros E. by eapply (c_unique _ _ _ _ _ _ _ C i j x y); try lia.
      - intros n (b & -> & [_ Hb]%elem_of_seq)%list_elem_of_fmap. unfold key.
        destruct (Hk b) as (x & -> & _ & Hn); [lia|]. done. }
    rewrite length_fmap, length_seq, length_app in Hle. lia.
  - apply not_Forall_Exists in Hsome; [|intros; apply _].
    apply list.Exists_exists in Hsome as (b & [_ Hb]%elem_of_seq & Hz).
    destruct (lookup_lt_is_Some_2 (bufs s) b) as [x Hx].
    { rewrite (c_len _ _ _ _ _ _ _ C). lia. }
    cbn in Hz. rewrite Hx in Hz. cbn in Hz. exists b, x. split; [lia|]. split; [done|].
    destruct (decide (refcnt x = 0)); [done|]. by destruct Hz.
Qed.

(** What the held buffers keep: the others are untouched. *)
Definition keeps (s s' : bst) : Prop := ∀ b n x, holds d me s b n x → holds d me s' b n x.

Definition disk_same (s s' : bst) : Prop := dblocks s' = dblocks s ∧ dwrites s' = dwrites s.

Lemma keeps_set s s' b x y :
  bufs s !! b = Some x → block x ≠ SleepLock 1 me → bufs s' = <[b := y]> (bufs s) → keeps s s'.
Proof.
  intros Hx Hf Es b' n z (Hb' & w & Hw & E1 & E2 & E3 & E4). split; [done|].
  exists w. rewrite Es, list_lookup_insert_ne; [done|]. intros ->. congruence.
Qed.

(** After [bget] chose buffer [b] and locked it, [bread] fills it. *)
Definition fill (b : nat) : M bst nat :=
  let* x := getb b in
  (if bvalid x =? 0 then disk_rw b false ;;; updb b (λ x, x <| bvalid := 1 |>) else ret tt) ;;;
  ret b.

Lemma fill_spec s b x y :
  bufs s !! b = Some x →
  wp (fill b) (λ r s', r = b ∧
    s' = s <| bufs ::= <[b := if bvalid y =? 0
      then y <| bdata := disk_block (dblocks s) (blockno y) |> <| bvalid := 1 |> else y]> |>)
    (s <| bufs ::= <[b := y]> |>).
Proof.
  intros Hx. unfold fill. wp_step. eapply wp_getb_again; [done|].
  destruct (bvalid y =? 0); wp_step; [|by wp_simp].
  unfold disk_rw. wp_simp. eapply wp_getb_again; [done|]. wp_simp.
  eapply wp_updb_again; [done|]. eapply wp_updb_again; [done|]. wp_simp. by destruct s.
Qed.

Lemma wp_on_lock b x y (op : M sleeplock unit) lk Q s :
  bufs s !! b = Some x → op (block y) = Ret (tt, lk) →
  Q tt (s <| bufs ::= <[b := y <| block := lk |>]> |>) →
  wp (on_lock b op) Q (s <| bufs ::= <[b := y]> |>).
Proof.
  intros Hx Eop HQ. unfold on_lock. wp_step. eapply wp_getb_again; [done|]. rewrite Eop.
  by eapply wp_updb_again.
Qed.

(** *** bread *)

(** The state of a buffer [bget] locked for block [n], and what [bread] makes
    of it. *)
Definition fetched (n r : Z) (x y : buf) : Prop :=
  same_place x y ∧ bdev y = d ∧ blockno y = n ∧ refcnt y = r ∧ block y = SleepLock 1 me.

Lemma fill_cache V h R l s b x y n :
  cache d me V h R l s → (b < NBUF)%nat → bufs s !! b = Some x → n ∉ h →
  fetched n (1 + count n R) x y → block x ≠ SleepLock 1 me →
  (bvalid y ≠ 0 → bdata y = V n) → (n ∈ R → bvalid y ≠ 0) →
  (∀ i z, (i < NBUF)%nat → i ≠ b → bufs s !! i = Some z → bdev z = d → blockno z ≠ n) →
  (bdev x = d → blockno x ≠ n → (blockno x ∉ h) ∧ (blockno x ∉ R)) →
  wp (fill b) (λ r s', r = b ∧ cache d me V (n :: h) R l s' ∧ holds d me s' b n (V n) ∧
                disk_same s s' ∧ keeps s s')
     (s <| bufs ::= <[b := y]> |>).
Proof.
  intros C Hb Hx Hn (Hpl & Ed & En & Er & El) Hfree Hdat Hval Huniq Hevict.
  eapply wp_mono; [|by apply (fill_spec s b x y)]. intros r s' [-> ->]. split; [done|].
  set (y' := if bvalid y =? 0 then _ else y).
  assert (blockno y' = n ∧ bdev y' = d ∧ refcnt y' = 1 + count n R ∧ block y' = SleepLock 1 me ∧
          same_place x y') as (En' & Ed' & Er' & El' & Hpl').
  { subst y'. by case_if. }
  assert (bvalid y' ≠ 0 ∧ bdata y' = V n) as [Hv' Hd'].
  { subst y'. case_if; [|auto]. split; [done|]. rewrite <- En. simpl.
    apply (c_clean _ _ _ _ _ _ _ C); rewrite En; [done|]. by intros ?%Hval. }
  split; [|split; [|split]].
  - eapply (cache_set _ _ _ _ s _ _ _ _ b x y'); rewrite ?En'; try done.
    + split; rewrite ?En'; [|by rewrite decide_True by constructor|done|done].
      rewrite Er'. unfold count at 2. by rewrite decide_True by constructor.
    + intros m Hm. rewrite elem_of_cons. tauto.
    + intros m. rewrite not_elem_of_cons. intros [_ ?] ?. by apply (c_clean _ _ _ _ _ _ _ C).
    + constructor; [done|apply C].
    + apply C.
  - split; [done|]. exists y'. split; [|done]. simpl. apply list_lookup_insert_eq.
    by eapply lookup_lt_Some.
  - done.
  - by eapply keeps_set.
Qed.

Lemma bread_spec V h R l s n :
  cache d me V h R l s → n ∉ h → n ∈ R ∨ (length h + length R < NBUF)%nat →
  wp (bread me d n) (λ b s', cache d me V (n :: h) R l s' ∧ holds d me s' b n (V n) ∧
                      disk_same s s' ∧ keeps s s') s.
Proof.
  intros C Hn Hroom.
  enough (wp (bread me d n) (λ r s', (r < NBUF)%nat ∧ cache d me V (n :: h) R l s' ∧
    holds d me s' r n (V n) ∧ disk_same s s' ∧ keeps s s') s) as H.
  { eapply wp_mono; [|exact H]. tauto. }
  unfold bread, bget. do 2 wp_step.
  eapply wp_mono; [|apply (find_cached_spec s l); apply C]. intros [b|] ? [-> Hb]; cbv beta iota.
  - destruct Hb as [Hb (x & Hx & Ed & En)]. pose proof (c_mine _ _ _ _ _ _ _ C b x Hb Hx Ed) as He.
    pose proof He as [E1 E2 E3 E4]. rewrite En in E1, E2, E3, E4. rewrite decide_False in E2 by done.
    wp_step. eapply wp_updb; [done|]. wp_step.
    assert (u32 (refcnt x + 1) = 1 + count n R) as Er.
    { rewrite E1. unfold count. rewrite decide_False by done. case_decide; reflexivity. }
    eapply wp_on_lock; [done|cbn; unfold acquiresleep; rewrite E2; reflexivity|]. wp_step.
    change (wp (fill b) (λ r s', (r < NBUF)%nat ∧ cache d me V (n :: h) R l s' ∧
      holds d me s' r n (V n) ∧ disk_same s s' ∧ keeps s s')
      (s <| bufs ::= <[b := x <| refcnt := u32 (refcnt x + 1) |> <| block := SleepLock 1 me |>]> |>)).
    rewrite Er. eapply wp_mono; [|eapply (fill_cache V h R l s b x)]; try done.
    + intros r s' (-> & ? & ? & ?). done.
    + rewrite E2. done.
    + simpl. auto.
    + intros i z Hi Hib Hz Dz Ez. apply Hib. eapply (c_unique _ _ _ _ _ _ _ C); try done. congruence.
  - assert (n ∉ R) as HnR.
    { intros HR. destruct (c_used _ _ _ _ _ _ _ C n (or_intror HR)) as (i & x & Hi & Hx & ? & ?).
      by apply (Hb i Hi); exists x. }
    wp_step. eapply wp_mono; [|apply (find_unused_spec s l); apply C].
    intros [b|] ? [-> Hu]; cbv beta iota.
    2:{ destruct Hroom as [|Hroom]; [done|].
        destruct (cache_spare _ _ _ _ _ C Hroom) as (b & x & ? & ? & ?). by destruct (Hu b x). }
    destruct Hu as (l1 & l2 & x & El & Hx & Hr & _).
    assert (b < NBUF)%nat as Hbr.
    { eapply lru_range; [apply C|apply C|]. rewrite El, elem_of_app, elem_of_cons. tauto. }
    assert (block x = SleepLock 0 0 ∧ (bdev x = d → (blockno x ∉ h) ∧ (blockno x ∉ R))) as [Hlk Hun].
    { destruct (decide (bdev x = d)) as [Hd|Hd].
      - pose proof (c_mine _ _ _ _ _ _ _ C b x Hbr Hx Hd) as He.
        destruct (entry_unused _ _ _ _ He Hr). destruct He as [_ -> _ _].
        by rewrite decide_False.
      - by destruct (c_other _ _ _ _ _ _ _ C b x Hbr Hx Hd). }
    wp_step. eapply wp_updb; [done|]. wp_step.
    eapply wp_on_lock; [done|cbn; unfold acquiresleep; rewrite Hlk; reflexivity|]. wp_step.
    set (y := _ <| block := _ |>).
    change (wp (fill b) (λ r s', (r < NBUF)%nat ∧ cache d me V (n :: h) R l s' ∧
      holds d me s' r n (V n) ∧ disk_same s s' ∧ keeps s s') (s <| bufs ::= <[b := y]> |>)).
    eapply wp_mono; [|eapply (fill_cache V h R l s b x)]; try done.
    + intros r s' (-> & ? & ? & ?). done.
    + split; [done|]. subst y. simpl. unfold count. by rewrite decide_False.
    + rewrite Hlk. done.
    + intros i z Hi Hib Hz Dz Ez. apply (Hb i Hi). by exists z.
    + intros. by apply Hun.
Qed.

(** *** A locked buffer *)

Lemma held_entry V h R l s b n x :
  cache d me V h R l s → holds d me s b n x → n ∈ h ∧ x = V n ∧
  ∃ y, bufs s !! b = Some y ∧ (b < NBUF)%nat ∧ bdev y = d ∧ blockno y = n ∧ bdata y = x ∧
    block y = SleepLock 1 me ∧ bvalid y ≠ 0 ∧ refcnt y = 1 + count n R.
Proof.
  intros C (Hb & y & Hy & Ed & En & Ex & El).
  pose proof (c_mine _ _ _ _ _ _ _ C b y Hb Hy Ed) as [E1 E2 E3 E4]. rewrite En in *.
  assert (n ∈ h) as Hn. { rewrite El in E2. by case_decide. }
  split; [done|]. split; [rewrite <- Ex; by auto|]. exists y. split_and!; try done; [by auto|].
  rewrite E1. unfold count at 1. by rewrite decide_True.
Qed.

Lemma holds_unique V h R l s b b' n x x' :
  cache d me V h R l s → holds d me s b n x → holds d me s b' n x' → b' = b.
Proof.
  intros C (Hb & y & Hy & Ed & En & _) (Hb' & y' & Hy' & Ed' & En' & _).
  eapply (c_unique _ _ _ _ _ _ _ C); try done. congruence.
Qed.

Lemma held_unique V h R l s b y n x :
  cache d me V h R l s → holds d me s b n x → bufs s !! b = Some y →
  ∀ i z, (i < NBUF)%nat → i ≠ b → bufs s !! i = Some z → bdev z = d → blockno z ≠ n.
Proof.
  intros C (Hb & y' & Hy' & Ed & En & _) Hy i z Hi Hne Hz Dz Ez. apply Hne.
  by eapply (c_unique _ _ _ _ _ _ _ C i b z y'); try done; rewrite Ez.
Qed.

(** The program stores into [b->data]. *)
Lemma store_spec V h R l s b n x f :
  cache d me V h R l s → holds d me s b n x →
  wp (updb b (λ y, y <| bdata ::= f |>))
     (λ _ s', cache d me (<[n := f x]> V) h R l s' ∧ holds d me s' b n (f x) ∧ disk_same s s' ∧
        ∀ b' m z, m ≠ n → holds d me s b' m z → holds d me s' b' m z) s.
Proof.
  intros C Hh. destruct (held_entry _ _ _ _ _ _ _ _ C Hh) as (Hn & Ex & y & Hy & Hb & Ed & En & Eb & El & Ev & Er).
  eapply wp_updb; [done|].
  assert (blockno (y <| bdata ::= f |>) = n) as En' by done.
  split; [|split; [|split]].
  - eapply (cache_set _ _ _ _ s _ _ _ _ b y); try done; rewrite ?En'.
    + pose proof (c_mine _ _ _ _ _ _ _ C b y Hb Hy Ed) as [E1 E2 E3 E4].
      split; simpl; [done..| |done]. intros _. by rewrite En, fn_lookup_insert, Eb.
    + by eapply held_unique.
    + intros m Hm. by rewrite fn_lookup_insert_ne.
    + intros m Hm HR. rewrite fn_lookup_insert_ne by (by intros ->).
      by apply (c_clean _ _ _ _ _ _ _ C).
    + apply C.
    + apply C.
  - split; [done|]. exists (y <| bdata ::= f |>). split; [|by simpl; rewrite Eb].
    simpl. apply list_lookup_insert_eq. by eapply lookup_lt_Some.
  - done.
  - intros b' m z Hm (Hb' & w & Hw & E1 & E2 & E3 & E4). split; [done|]. exists w. simpl.
    rewrite list_lookup_insert_ne; [done|]. intros ->. congruence.
Qed.

(** [bwrite] puts the contents on the disk. *)
Lemma bwrite_spec V h R l s b n x :
  cache d me V h R l s → holds d me s b n x →
  wp (bwrite me b) (λ _ s', cache d me V h R l s' ∧ bufs s' = bufs s ∧
        dblocks s' = <[n := x]> (dblocks s) ∧ dwrites s' = (n, x) :: dwrites s) s.
Proof.
  intros C Hh. destruct (held_entry _ _ _ _ _ _ _ _ C Hh) as (Hn & Ex & y & Hy & Hb & Ed & En & Eb & El & Ev & Er).
  unfold bwrite, disk_rw. wp_simp. eapply wp_getb; [done|]. rewrite El. unfold holdingsleep. simpl.
  rewrite Z.eqb_refl. simpl. wp_simp. eapply wp_getb; [done|]. wp_simp. rewrite En, Eb.
  split; [|done]. destruct C. split; try done. intros m Hm HR. simpl. unfold disk_block.
  rewrite lookup_insert_ne by (by intros ->). by apply c_clean0.
Qed.

Lemma pin_spec V h R R' l s b n x r :
  cache d me V h R l s → holds d me s b n x → NoDup R' →
  (∀ m, m ≠ n → m ∈ R' ↔ m ∈ R) → r = 1 + count n R' →
  ∀ y, bufs s !! b = Some y →
  let s' := s <| bufs ::= <[b := y <| refcnt := r |>]> |> in
  cache d me V h R' l s' ∧ disk_same s s' ∧ keeps s s'.
Proof.
  intros C Hh HR' Hsame -> y0 Hy0.
  destruct (held_entry _ _ _ _ _ _ _ _ C Hh) as (Hn & Ex & y & Hy & Hb & Ed & En & Eb & El & Ev & Er).
  assert (y0 = y) as -> by congruence. subst n. split; [|split]; [|done|].
  - eapply (cache_set _ _ _ _ s _ _ _ _ b y); try done; simpl.
    + pose proof (c_mine _ _ _ _ _ _ _ C b y Hb Hy Ed) as [E1 E2 E3 E4].
      split; simpl; try done. unfold count at 2. by rewrite decide_True.
    + intros i z. by eapply held_unique.
    + intros m Hm. by rewrite Hsame.
    + intros m Hm HR. apply (c_clean _ _ _ _ _ _ _ C); [done|]. rewrite <- Hsame; [done|]. by intros ->.
    + apply C.
  - intros b' m z (Hb' & w & Hw & E1 & E2 & E3 & E4). split; [done|]. simpl.
    destruct (decide (b' = b)) as [->|]; [|exists w; by rewrite list_lookup_insert_ne].
    assert (w = y) as -> by congruence. exists (y <| refcnt := 1 + count (blockno y) R' |>).
    rewrite list_lookup_insert_eq by (by eapply lookup_lt_Some). done.
Qed.

Lemma bpin_spec V h R l s b n x :
  cache d me V h R l s → holds d me s b n x → n ∉ R →
  wp (bpin b) (λ _ s', cache d me V h (n :: R) l s' ∧ disk_same s s' ∧ keeps s s') s.
Proof.
  intros C Hh HR.
  destruct (held_entry _ _ _ _ _ _ _ _ C Hh) as (Hn & Ex & y & Hy & Hb & Ed & En & Eb & El & Ev & Er).
  unfold bpin. eapply wp_updb; [done|]. rewrite Er. eapply pin_spec; try done.
  - constructor; [done|apply C].
  - intros m Hm. rewrite elem_of_cons. tauto.
  - unfold count. rewrite decide_False by done. by rewrite decide_True by constructor.
Qed.

Lemma bunpin_spec V h R R' l s b n x :
  cache d me V h R l s → holds d me s b n x → R ≡ₚ n :: R' →
  wp (bunpin b) (λ _ s', cache d me V h R' l s' ∧ disk_same s s' ∧ keeps s s') s.
Proof.
  intros C Hh HR.
  destruct (held_entry _ _ _ _ _ _ _ _ C Hh) as (Hn & Ex & y & Hy & Hb & Ed & En & Eb & El & Ev & Er).
  pose proof (c_pinned _ _ _ _ _ _ _ C) as Hd. rewrite HR in Hd. apply list.NoDup_cons in Hd as [Hn' Hd].
  unfold bunpin. eapply wp_updb; [done|]. rewrite Er. eapply pin_spec; try done.
  - intros m Hm. rewrite HR, elem_of_cons. tauto.
  - unfold count. rewrite decide_True by (rewrite HR; constructor). by rewrite decide_False.
Qed.

(** [brelse]: the block must be pinned or on the disk. *)
Lemma brelse_spec V h h' R l s b n x :
  cache d me V h R l s → holds d me s b n x → h ≡ₚ n :: h' →
  n ∈ R ∨ disk_block (dblocks s) n = V n →
  wp (brelse me b) (λ _ s', ∃ l', cache d me V h' R l' s' ∧ disk_same s s' ∧
        (l' = if decide (n ∈ R) then l else b :: filter (λ i, i ≠ b) l) ∧
        ∀ b' m z, m ≠ n → holds d me s b' m z → holds d me s' b' m z) s.
Proof.
  intros C Hh Hperm Hclean.
  destruct (held_entry _ _ _ _ _ _ _ _ C Hh) as (Hn & Ex & y & Hy & Hb & Ed & En & Eb & El & Ev & Er).
  pose proof (c_held _ _ _ _ _ _ _ C) as Hd. rewrite Hperm in Hd. apply list.NoDup_cons in Hd as [Hn' Hd].
  unfold brelse. wp_step. eapply wp_getb; [done|]. rewrite El. unfold holdingsleep. simpl.
  rewrite Z.eqb_refl. simpl. wp_step. unfold on_lock. wp_step. eapply wp_getb; [done|]. simpl.
  eapply wp_updb; [done|]. wp_step. eapply wp_updb_again; [done|]. wp_step.
  eapply wp_getb_again; [done|].
  set (y' := _ <| refcnt := _ |>).
  assert (refcnt y' = count n R) as Er'.
  { subst y'. simpl. rewrite Er. unfold count. by case_decide. }
  set (s1 := s <| bufs ::= <[b := y']> |>).
  assert (cache d me V h' R l s1) as C1.
  { eapply (cache_set _ _ _ _ s _ _ _ _ b y y'); try done; change (blockno y') with (blockno y); rewrite ?En.
    + pose proof (c_mine _ _ _ _ _ _ _ C b y Hb Hy Ed) as [E1 E2 E3 E4].
      split; change (blockno y') with (blockno y); rewrite ?En; try done.
      * rewrite Er'. unfold count at 2. by rewrite decide_False.
      * by rewrite decide_False.
      * by rewrite <- En.
    + by eapply held_unique.
    + intros m Hm. rewrite Hperm, elem_of_cons. tauto.
    + intros m Hm HmR. destruct (decide (m = n)) as [->|]; [by destruct Hclean|].
      apply (c_clean _ _ _ _ _ _ _ C); [|done]. rewrite Hperm, elem_of_cons. tauto.
    + apply C. }
  assert (∀ b' m z, m ≠ n → holds d me s b' m z → holds d me s1 b' m z) as Hk.
  { intros b' m z Hm (Hb' & w & Hw & E1 & E2 & E3 & E4). split; [done|]. exists w. simpl.
    rewrite list_lookup_insert_ne; [done|]. intros ->. congruence. }
  rewrite Er'. unfold count. destruct (decide (n ∈ R)) as [HR|HR]; simpl.
  { wp_step. exists l. done. }
  assert (b ∈ l) as (l1 & l2 & Hl)%list_elem_of_split by (eapply lru_range; [apply C|apply C|done]).
  eapply wp_mono; [|eapply (move_front_spec s1 b y' l1 l2)].
  - intros ? s' (bs & -> & Hs & Hlru). eexists. split; [by eapply cache_relink|].
    split; [done|]. split.
    { f_equal. rewrite Hl, list.filter_app, filter_cons_False by tauto.
      assert (NoDup (l1 ++ b :: l2)) as Hnd. { rewrite <- Hl. eapply lru_nodup; apply C. }
      apply list.NoDup_app in Hnd as (_ & Hnd1 & Hnd2). apply list.NoDup_cons in Hnd2 as [Hnd2 _].
      f_equal; symmetry; apply filter_all; intros i Hi ->; [|done]. apply (Hnd1 _ Hi). constructor. }
    intros b' m z Hm (Hb' & w & Hw & E1 & E2 & E3 & E4)%Hk; [|done].
    destruct (same_data_lookup _ _ _ _ Hs Hw) as (w' & Hw' & Ep). split; [done|].
    exists w'. change (bdev w') with (bdev (payload w')).
    change (blockno w') with (blockno (payload w')). change (bdata w') with (bdata (payload w')).
    change (block w') with (block (payload w')). rewrite Ep. done.
  - simpl. rewrite length_insert. apply C.
  - rewrite <- Hl. apply C1.
  - simpl. apply list_lookup_insert_eq. by eapply lookup_lt_Some.
Qed.
End cache.

(** ** Start-up *)

(** The machine after a reset: an empty cache over the disk [dsk]. *)
Definition reboot (dsk : gmap Z block_data) : bst := Bst (replicate (S NBUF) buf0) dsk [].

Lemma binit_spec d me dsk :
  d ≠ 0 →
  wp binit (λ _ s, cache d me (disk_block dsk) [] [] (reverse (seq 0 NBUF)) s ∧
                   disk_same (reboot dsk) s) (reboot dsk).
Proof.
  intros Hd. unfold binit.
  wp_step. eapply wp_mono; [|eapply wp_set_prev; [apply pointers_refl|by vm_compute; lia]]. intros ? s1 Hp1.
  wp_step. eapply wp_mono; [|eapply wp_set_next; [exact Hp1|by vm_compute; lia]].
  intros ? s2 (bs & -> & Hs & Hn & Hv).
  assert (length bs = S NBUF) as Hlen by (rewrite (same_data_length _ _ Hs); apply length_replicate).
  eapply wp_mono; [|apply (binit_loop NBUF 0); [done|done|]].
  - intros ? s3 (bs3 & -> & Hl & Hlen3 & Hd3). split; [|done].
    assert (∀ i z, (i < NBUF)%nat → bs3 !! i = Some z → payload z = payload buf0) as Hz.
    { intros i z Hi Hz. destruct (lookup_lt_is_Some_2 bs i) as [w Hw]; [lia|].
      destruct (Hd3 i w Hw) as (z' & Hz' & E). assert (z' = z) as -> by congruence. rewrite E.
      rewrite decide_True by lia.
      destruct (same_data_lookup (bufs (reboot dsk)) bs i buf0 Hs) as (w' & Hw' & E').
      { apply lookup_replicate. split; [done|unfold NBUF in *; lia]. }
      assert (w' = w) as -> by congruence. change (locks_reset (payload w) = payload buf0). by rewrite E'. }
    assert (∀ i z, (i < NBUF)%nat → bs3 !! i = Some z → bdev z = 0 ∧ idle_buf z) as Hi.
    { intros i z Hi Hz'. pose proof (Hz i z Hi Hz') as E. unfold idle_buf.
      change (bdev z) with (bdev (payload z)). change (refcnt z) with (refcnt (payload z)).
      change (block z) with (block (payload z)). by rewrite E. }
    split; simpl; try done.
    + intros i j x y Hi' _ Hx _ Dx. destruct (Hi i x Hi' Hx). congruence.
    + intros i x Hi' Hx Dx. destruct (Hi i x Hi' Hx). congruence.
    + intros i x Hi' Hx _. by destruct (Hi i x Hi' Hx).
    + by intros n [?%elem_of_nil|?%elem_of_nil].
    + apply NoDup_nil_2.
    + apply NoDup_nil_2.
  - simpl. split; [rewrite Hn|rewrite Hv]; apply upd_eq.
Qed.
