(* ===== verification/BioProps.v ===== *)
(** * Properties of the buffer cache

    The cache is transparent: for a client that reads and writes blocks it is
    a disk, whatever is cached and whatever is evicted.  It recycles the least
    recently used buffer that nobody references. *)

From Stdlib Require Import ZArith Lia.
From stdpp Require Import base numbers list gmap functions strings tactics.
From S2P Require Import Prelude Locks Bio BioList BioSpec.
Import Sleeplock.

Local Open Scope Z_scope.

(** ** The abstract disk and its clients *)

Inductive disk_op := ReadBlock (n : Z) | WriteBlock (n : Z) (x : block_data).

(** The specification: a map from block numbers to contents. *)
Definition spec_step (V : Z → block_data) (o : disk_op) : block_data * (Z → block_data) :=
  match o with
  | ReadBlock n => (V n, V)
  | WriteBlock n x => (x, <[n := x]> V)
  end.
Fixpoint spec_run (V : Z → block_data) (l : list disk_op) : list block_data * (Z → block_data) :=
  match l with
  | [] => ([], V)
  | o :: l =>
      let '(a, V) := spec_step V o in
      let '(r, V) := spec_run V l in
      (a :: r, V)
  end.

(** The same operations through the cache, as the kernel writes them. *)
Definition cache_step (me d : Z) (o : disk_op) : M bst block_data :=
  match o with
  | ReadBlock n =>
      let* b := bread me d n in
      let* x := getb b in
      brelse me b ;;;
      ret (bdata x)
  | WriteBlock n x =>
      let* b := bread me d n in
      updb b (λ y, y <| bdata ::= (λ _, x) |>) ;;;
      bwrite me b ;;;
      brelse me b ;;;
      ret x
  end.
Fixpoint cache_run (me d : Z) (l : list disk_op) : M bst (list block_data) :=
  match l with
  | [] => ret []
  | o :: l =>
      let* a := cache_step me d o in
      let* r := cache_run me d l in
      ret (a :: r)
  end.

Lemma cache_step_spec me d o V l s :
  cache d me V [] [] l s →
  wp (cache_step me d o) (λ a s', a = (spec_step V o).1 ∧
        ∃ l', cache d me (spec_step V o).2 [] [] l' s') s.
Proof.
  intros C. destruct o as [n|n x]; simpl.
  - wp_step. eapply wp_mono; [|eapply bread_spec; [exact C|apply not_elem_of_nil|right; unfold NBUF; simpl; lia]].
    intros b s1 (C1 & H1 & D1 & _). pose proof H1 as (Hb & y & Hy & _ & _ & E & _).
    wp_step. eapply wp_getb; [exact Hy|]. wp_step.
    eapply wp_mono; [|eapply (brelse_spec d me _ _ []); [exact C1|exact H1|done|]].
    + intros ? s2 (l2 & C2 & _). wp_step. split; [done|]. by exists l2.
    + right. destruct D1 as [-> _]. apply (c_clean _ _ _ _ _ _ _ C); apply not_elem_of_nil.
  - wp_step. eapply wp_mono; [|eapply bread_spec; [exact C|apply not_elem_of_nil|right; unfold NBUF; simpl; lia]].
    intros b s1 (C1 & H1 & D1 & _).
    wp_step. eapply wp_mono; [|eapply store_spec; [exact C1|exact H1]]. intros ? s2 (C2 & H2 & D2 & _).
    wp_step. eapply wp_mono; [|eapply bwrite_spec; [exact C2|exact H2]]. intros ? s3 (C3 & E3 & W3 & _).
    assert (holds d me s3 b n x) as H3 by (unfold holds; by rewrite E3).
    wp_step. eapply wp_mono; [|eapply (brelse_spec d me _ _ []); [exact C3|exact H3|done|]].
    + intros ? s4 (l4 & C4 & _). wp_step. split; [done|]. by exists l4.
    + right. rewrite W3. unfold disk_block. by rewrite lookup_insert_eq, fn_lookup_insert.
Qed.

(** C24: Refinement: from a cache that represents the contents [V], every sequence
    of block reads and writes returns, its answers are those of a plain disk
    with contents [V], and at the end the disk itself holds the contents the
    plain disk would have. *)
Theorem bcache_refines_disk me d V l s ops :
  cache d me V [] [] l s →
  wp (cache_run me d ops) (λ r s', r = (spec_run V ops).1 ∧
        ∀ n, disk_block (dblocks s') n = (spec_run V ops).2 n) s.
Proof.
  revert V l s. induction ops as [|o ops IH]; intros V l s C.
  { simpl. wp_step. split; [done|]. intros n. apply (c_clean _ _ _ _ _ _ _ C); apply not_elem_of_nil. }
  cbn [cache_run spec_run]. wp_step. eapply wp_mono; [|by eapply cache_step_spec].
  intros a s1 (-> & l1 & C1). destruct (spec_step V o) as [x V1]. cbn [fst snd] in *.
  wp_step. eapply wp_mono; [|by eapply IH]. intros r s2 (-> & Hd). wp_step.
  by destruct (spec_run V1 ops) as [r2 V2].
Qed.

(** Two blocks written, then 40 others read, which evicts the first two; then
    they are read again. *)
Definition demo_ops : list disk_op :=
  WriteBlock 7 [1; 2] :: WriteBlock 9 [3] :: ((λ i, ReadBlock (100 + Z.of_nat i)) <$> seq 0 40) ++
  [ReadBlock 7; ReadBlock 9].

Lemma bcache_refines_disk_witness : ∃ l s,
  cache 1 5 (disk_block ∅) [] [] l s ∧
  wp (cache_run 5 1 demo_ops) (λ r s', r = (spec_run (disk_block ∅) demo_ops).1 ∧
        ∀ n, disk_block (dblocks s') n = (spec_run (disk_block ∅) demo_ops).2 n) s.
Proof.
  pose proof (binit_spec 1 5 ∅ ltac:(lia)) as H.
  destruct (proj1 (wp_returns _ _ _) H) as ([] & s & _ & C & _).
  exists (reverse (seq 0 NBUF)), s. split; [exact C|].
  apply (bcache_refines_disk 5 1 (disk_block ∅) (reverse (seq 0 NBUF)) s demo_ops C).
Defined.

(** ** Which buffer is used *)

Lemma bget_uncached me d n V h R l s :
  cache d me V h R l s → (∀ b, (b < NBUF)%nat → ¬ keyed s d n b) →
  (∀ b x, bufs s !! b = Some x → (b < NBUF)%nat → refcnt x ≠ 0) ∧
    bget me d n s = Panic "bget: no buffers" ∨
  ∃ l1 b l2 x, l = l1 ++ b :: l2 ∧ bufs s !! b = Some x ∧ refcnt x = 0 ∧
    (∀ b' x', b' ∈ l2 → bufs s !! b' = Some x' → refcnt x' ≠ 0) ∧
    bget me d n s = Ret (b, s <| bufs ::= <[b := x <| bdev := d |> <| blockno := n |>
      <| bvalid := 0 |> <| refcnt := 1 |> <| block := SleepLock 1 me |>]> |>).
Proof.
  intros C Hno.
  pose proof (find_cached_spec s l (c_len _ _ _ _ _ _ _ C) (c_lru _ _ _ _ _ _ _ C) d n) as Hf.
  destruct (proj1 (wp_returns _ _ _) Hf) as (r & ? & Ef & -> & Hr).
  destruct r as [b|]; [by destruct (Hno b); destruct Hr|].
  pose proof (find_unused_spec s l (c_len _ _ _ _ _ _ _ C) (c_lru _ _ _ _ _ _ _ C)) as Hu0.
  destruct (proj1 (wp_returns _ _ _) Hu0) as (r & ? & Eu & -> & Hu). unfold bget.
  rewrite (bind_Ret _ _ _ _ _ Ef), (bind_Ret _ _ _ _ _ Eu). destruct r as [b|].
  - right. destruct Hu as (l1 & l2 & x & El & Hx & Hz & Hl2). exists l1, b, l2, x.
    split_and!; try done.
    assert (b < NBUF)%nat as Hb.
    { eapply lru_range; [apply C|apply C|]. rewrite El, elem_of_app, elem_of_cons. tauto. }
    assert (block x = SleepLock 0 0) as Hlk.
    { destruct (decide (bdev x = d)) as [Hd|Hd]; [|by apply (c_other _ _ _ _ _ _ _ C b x)].
      pose proof (c_mine _ _ _ _ _ _ _ C b x Hb Hx Hd) as He.
      destruct (entry_unused _ _ _ _ _ He Hz). rewrite (e_lock _ _ _ _ _ He). by rewrite decide_False. }
    assert (wp (updb b (λ x, x <| bdev := d |> <| blockno := n |> <| bvalid := 0 |> <| refcnt := 1 |>) ;;;
                on_lock b (acquiresleep me) ;;; ret b)
      (λ r s', r = b ∧ s' = s <| bufs ::= <[b := x <| bdev := d |> <| blockno := n |>
        <| bvalid := 0 |> <| refcnt := 1 |> <| block := SleepLock 1 me |>]> |>) s) as Hw.
    { wp_step. eapply wp_updb; [done|]. wp_step.
      eapply wp_on_lock; [done|cbn; unfold acquiresleep; rewrite Hlk; reflexivity|]. wp_step. done. }
    destruct (proj1 (wp_returns _ _ _) Hw) as (r & s' & Er & -> & ->). exact Er.
  - left. split; [|done]. intros b x Hx Hb. by apply Hu with b.
Qed.

(** [bget] on a block that is not cached recycles, of the buffers nobody
    references, the least recently used one; when every buffer is referenced
    the kernel panics. *)
Theorem bget_recycles_lru me d n V h R l s :
  cache d me V h R l s → (∀ b, (b < NBUF)%nat → ¬ keyed s d n b) →
  (∀ b x, bufs s !! b = Some x → (b < NBUF)%nat → refcnt x ≠ 0) ∧
    bget me d n s = Panic "bget: no buffers" ∨
  ∃ l1 b l2 x, l = l1 ++ b :: l2 ∧ bufs s !! b = Some x ∧ refcnt x = 0 ∧
    (∀ b' x', b' ∈ l2 → bufs s !! b' = Some x' → refcnt x' ≠ 0) ∧
    bget me d n s = Ret (b, s <| bufs ::= <[b := x <| bdev := d |> <| blockno := n |>
      <| bvalid := 0 |> <| refcnt := 1 |> <| block := SleepLock 1 me |>]> |>).
Proof. apply bget_uncached. Qed.

Lemma bget_recycles_lru_witness : ∃ l s,
  cache 1 5 (disk_block ∅) [] [] l s ∧
  ((∀ b x, bufs s !! b = Some x → (b < NBUF)%nat → refcnt x ≠ 0) ∧
     bget 5 1 7 s = Panic "bget: no buffers" ∨
   ∃ l1 b l2 x, l = l1 ++ b :: l2 ∧ bufs s !! b = Some x ∧ refcnt x = 0 ∧
     (∀ b' x', b' ∈ l2 → bufs s !! b' = Some x' → refcnt x' ≠ 0) ∧
     bget 5 1 7 s = Ret (b, s <| bufs ::= <[b := x <| bdev := 1 |> <| blockno := 7 |>
       <| bvalid := 0 |> <| refcnt := 1 |> <| block := SleepLock 1 5 |>]> |>)).
Proof.
  pose proof (binit_spec 1 5 ∅ ltac:(lia)) as H.
  destruct (proj1 (wp_returns _ _ _) H) as ([] & s & E & C & _).
  exists (reverse (seq 0 NBUF)), s. split; [exact C|].
  apply (bget_recycles_lru 5 1 7 (disk_block ∅) [] [] _ s C).
  intros b Hb (x & Hx & Hd & _).
  assert (match binit (reboot ∅) with Ret (_, s) => Forall (λ x, bdev x = 0) (bufs s) | _ => False end) as HF.
  { vm_compute. repeat constructor. }
  rewrite E in HF. rewrite list.Forall_lookup in HF. specialize (HF b x Hx). lia.
Defined.

(** ** Releasing *)

(** [brelse] by the last user moves the buffer to the front of the list and
    keeps the order of the others; a buffer that is still pinned stays where
    it is.  The contents of every block are unchanged. *)
Theorem brelse_moves_front me d n V h h' R l s b x :
  cache d me V h R l s → holds d me s b n x → h ≡ₚ n :: h' →
  n ∈ R ∨ disk_block (dblocks s) n = V n →
  wp (brelse me b) (λ _ s', dblocks s' = dblocks s ∧
        cache d me V h' R (if decide (n ∈ R) then l else b :: filter (λ i, i ≠ b) l) s') s.
Proof.
  intros C Hh Hp Hc. eapply wp_mono; [|by eapply brelse_spec].
  intros ? s' (l' & C' & D & -> & _). split; [apply D|done].
Qed.

Lemma brelse_moves_front_witness : ∃ l s b,
  cache 1 5 (disk_block ∅) [7] [] l s ∧ holds 1 5 s b 7 (disk_block ∅ 7) ∧
  wp (brelse 5 b) (λ _ s', dblocks s' = dblocks s ∧
        cache 1 5 (disk_block ∅) [] []
          (if decide (7 ∈ @nil Z) then l else b :: filter (λ i, i ≠ b) l) s') s.
Proof.
  pose proof (binit_spec 1 5 ∅ ltac:(lia)) as H.
  destruct (proj1 (wp_returns _ _ _) H) as ([] & s0 & _ & C0 & D0).
  pose proof (bread_spec 1 5 (disk_block ∅) [] [] _ s0 7 C0 ltac:(apply not_elem_of_nil)
    ltac:(right; unfold NBUF; simpl; lia)) as H1.
  destruct (proj1 (wp_returns _ _ _) H1) as (b & s & _ & C & Hh & D & _).
  exists (reverse (seq 0 NBUF)), s, b. split; [exact C|]. split; [exact Hh|].
  apply (brelse_moves_front 5 1 7 (disk_block ∅) [7] [] [] _ s b _ C Hh); [reflexivity|].
  right. destruct D as [-> _], D0 as [-> _]. reflexivity.
Defined.
