(* ===== verification/Log.v ===== *)
(** * The write-ahead log (kernel/log.c)

    The state is the buffer cache and [struct log].  A critical section under
    [log.lock] is one step; a call that would sleep ends in [Block].  The
    on-disk header is decoded from and encoded into the bytes of its block. *)

From Stdlib Require Import ZArith Lia.
From stdpp Require Import base numbers list gmap strings tactics.
From S2P Require Import Prelude Mem Bytes Locks Bio.

Local Open Scope Z_scope.

Definition LOGSIZE : Z := MAXOPBLOCKS * 3.

(** [struct log] with the in-memory [struct logheader]. *)
Record log := Log {
  start : Z;
  size : Z;
  outstanding : Z;
  committing : Z;
  ldev : Z;
  lh_n : Z;
  lh_block : list Z;
}.
#[global] Instance eta_log : Eta log := λ l,
  Log (start l) (size l) (outstanding l) (committing l) (ldev l) (lh_n l) (lh_block l).
Definition log0 : log := Log 0 0 0 0 0 0 (replicate (Z.to_nat LOGSIZE) 0).

Record lst := Lst { bcache : bst; lg : log }.
#[global] Instance eta_lst : Eta lst := λ s, Lst (bcache s) (lg s).

Definition bio {A} (m : M bst A) : M lst A := lift bcache (λ b s, s <| bcache := b |>) m.
Definition getlog : M lst log := let* s := get in ret (lg s).
Definition updlog (f : log → log) : M lst unit := modify (λ s, s <| lg ::= f |>).

(** [log.lh.block[i]]; the array has [LOGSIZE] entries. *)
Definition lh_get (i : nat) : M lst Z :=
  let* l := getlog in
  match lh_block l !! i with Some n => ret n | None => fault "lh.block" end.
Definition lh_set (i : nat) (n : Z) : M lst unit :=
  let* l := getlog in
  if (i <? length (lh_block l))%nat then updlog (λ l, l <| lh_block ::= <[i := n]> |>)
  else fault "lh.block".

(** The tail numbers [0 .. log.lh.n - 1]. *)
Definition tails : M lst (list nat) := let* l := getlog in ret (seq 0 (Z.to_nat (lh_n l))).

Section log.
Context (me : Z).

(** The block of the log that holds entry [tail]. *)
Definition log_block (l : log) (tail : nat) : Z := u32 (start l + Z.of_nat tail + 1).

Definition install_trans (recovering : bool) : M lst unit :=
  let* ts := tails in
  for_each ts (λ tail,
    let* l := getlog in
    let* lbuf := bio (bread me (ldev l) (log_block l tail)) in
    let* n := lh_get tail in
    let* dbuf := bio (bread me (ldev l) (u32 n)) in
    let* x := bio (getb lbuf) in
    bio (updb dbuf (λ y, y <| bdata ::= (λ _, bdata x) |>)) ;;;
    bio (bwrite me dbuf) ;;;
    (if recovering then ret tt else bio (bunpin dbuf)) ;;;
    bio (brelse me lbuf) ;;;
    bio (brelse me dbuf)).

(** Offsets in [struct logheader]: [int n] and [int block[LOGSIZE]]. *)
Definition lh_off (i : nat) : nat := (4 + 4 * i)%nat.

Definition read_head : M lst unit :=
  let* l := getlog in
  let* b := bio (bread me (ldev l) (u32 (start l))) in
  let* x := bio (getb b) in
  updlog (λ l, l <| lh_n := s32 (get32 (bdata x) 0) |>) ;;;
  let* ts := tails in
  for_each ts (λ i, lh_set i (s32 (get32 (bdata x) (lh_off i)))) ;;;
  bio (brelse me b).

Definition write_head : M lst unit :=
  let* l := getlog in
  let* b := bio (bread me (ldev l) (u32 (start l))) in
  bio (updb b (λ y, y <| bdata ::= (λ h, put32 h 0 (lh_n l)) |>)) ;;;
  let* ts := tails in
  for_each ts (λ i,
    let* n := lh_get i in
    bio (updb b (λ y, y <| bdata ::= (λ h, put32 h (lh_off i) n) |>))) ;;;
  bio (bwrite me b) ;;;
  bio (brelse me b).

Definition recover_from_log : M lst unit :=
  read_head ;;;
  install_trans true ;;;
  updlog (λ l, l <| lh_n := 0 |>) ;;;
  write_head.

(** [sb->logstart] and [sb->nlog] of the super block are the arguments. *)
Definition initlog (dev logstart nlog : Z) : M lst unit :=
  (if BSIZE <=? 4 + 4 * LOGSIZE then panic "initlog: too big logheader" else ret tt) ;;;
  updlog (λ l, l <| start := s32 logstart |> <| size := s32 nlog |> <| ldev := dev |>) ;;;
  recover_from_log.

(** One pass of the loop of [begin_op]: whether the operation was admitted. *)
Definition begin_try : M lst bool :=
  let* l := getlog in
  if negb (committing l =? 0) then ret false
  else if LOGSIZE <? lh_n l + (outstanding l + 1) * MAXOPBLOCKS then ret false
  else updlog (λ l, l <| outstanding := s32 (outstanding l + 1) |>) ;;; ret true.
Definition begin_op : M lst unit :=
  let* ok := begin_try in
  if ok : bool then ret tt else Prelude.block.

Definition write_log : M lst unit :=
  let* ts := tails in
  for_each ts (λ tail,
    let* l := getlog in
    let* to := bio (bread me (ldev l) (log_block l tail)) in
    let* n := lh_get tail in
    let* from := bio (bread me (ldev l) (u32 n)) in
    let* x := bio (getb from) in
    bio (updb to (λ y, y <| bdata ::= (λ _, bdata x) |>)) ;;;
    bio (bwrite me to) ;;;
    bio (brelse me from) ;;;
    bio (brelse me to)).

Definition commit : M lst unit :=
  let* l := getlog in
  if 0 <? lh_n l then
    write_log ;;;
    write_head ;;;
    install_trans false ;;;
    updlog (λ l, l <| lh_n := 0 |>) ;;;
    write_head
  else ret tt.

Definition end_op : M lst unit :=
  updlog (λ l, l <| outstanding := s32 (outstanding l - 1) |>) ;;;
  let* l := getlog in
  if negb (committing l =? 0) then panic "log.committing"
  else if outstanding l =? 0 then
    updlog (λ l, l <| committing := 1 |>) ;;;
    commit ;;;
    updlog (λ l, l <| committing := 0 |>)
  else ret tt.

(** The first index below [n] whose entry is [no], or [n]. *)
Fixpoint absorb (blocks : list Z) (n : nat) (no : Z) : nat :=
  match n, blocks with
  | S n, b :: blocks => if u32 b =? no then O else S (absorb blocks n no)
  | _, _ => O
  end.

Definition log_write (b : nat) : M lst unit :=
  let* l := getlog in
  if (LOGSIZE <=? lh_n l) || (size l - 1 <=? lh_n l) then panic "too big a transaction"
  else if outstanding l <? 1 then panic "log_write outside of trans"
  else
    let* x := bio (getb b) in
    let i := absorb (lh_block l) (Z.to_nat (lh_n l)) (blockno x) in
    lh_set i (s32 (blockno x)) ;;;
    if (Z.of_nat i =? lh_n l) then
      bio (bpin b) ;;;
      updlog (λ l, l <| lh_n := s32 (lh_n l + 1) |>)
    else ret tt.
End log.
