(* ===== verification/LogSpec.v ===== *)
(** * What the log promises

    The effect of [commit] and of recovery as the list of disk writes they
    issue, in order.  The crash theorems of LogCrash.v quantify over the
    prefixes of that list. *)

From Stdlib Require Import ZArith Lia.
From stdpp Require Import base numbers list gmap functions strings tactics.
From S2P Require Import Prelude Mem Bytes Locks Bio BioList BioSpec Log.

Local Open Scope Z_scope.

(** ** The header block *)

Definition dec_head (h : block_data) : list Z :=
  (λ i, s32 (get32 h (lh_off i))) <$> seq 0 (Z.to_nat (s32 (get32 h 0))).

(** The stores of [write_head], from entry [i] on. *)
Fixpoint enc_entries (i : nat) (ns : list Z) (h : block_data) : block_data :=
  match ns with
  | [] => h
  | n :: ns => enc_entries (S i) ns (put32 h (lh_off i) n)
  end.
Definition enc_head (h : block_data) (ns : list Z) : block_data :=
  enc_entries 0 ns (put32 h 0 (Z.of_nat (length ns))).

Lemma length_enc_entries i ns h :
  length h = 1024%nat → (i + length ns ≤ 30)%nat → length (enc_entries i ns h) = 1024%nat.
Proof.
  revert i h. induction ns as [|n ns IH]; intros i h Hh Hl; simpl in *; [done|].
  apply IH; [|lia]. rewrite length_putn; [done|]. unfold lh_off. lia.
Qed.

Lemma get_enc_entries i ns h k off :
  length h = 1024%nat → (i + length ns ≤ 30)%nat → (off + k ≤ lh_off i)%nat →
  getn k (enc_entries i ns h) off = getn k h off.
Proof.
  revert i h. induction ns as [|n ns IH]; intros i h Hh Hl Ho; simpl in *; [done|].
  unfold lh_off in *. rewrite IH; [|rewrite length_putn; unfold lh_off; lia|lia|lia].
  apply getn_putn_ne; lia.
Qed.

Lemma enc_entries_lookup i ns h j n :
  length h = 1024%nat → (i + length ns ≤ 30)%nat → ns !! j = Some n →
  get32 (enc_entries i ns h) (lh_off (i + j)) = u32 n.
Proof.
  revert i h j. induction ns as [|m ns IH]; intros i h j Hh Hl Hj; [done|]. simpl in *.
  unfold lh_off in *. destruct j as [|j]; simpl in Hj.
  - simplify_eq. rewrite Nat.add_0_r.
    rewrite get_enc_entries; [|rewrite length_putn; lia|lia|unfold lh_off; lia].
    by rewrite getn_putn_eq by lia.
  - replace (i + S j)%nat with (S i + j)%nat by lia. apply IH; [|lia|done].
    rewrite length_putn; lia.
Qed.

(** Decoding what [write_head] stored gives the block numbers back. *)
Lemma dec_enc_head h ns :
  length h = 1024%nat → (length ns ≤ 30)%nat → Forall (λ n, 0 ≤ n < 2^31) ns →
  dec_head (enc_head h ns) = ns.
Proof.
  intros Hh Hl Hns. unfold dec_head, enc_head.
  assert (length (put32 h 0 (Z.of_nat (length ns))) = 1024%nat) as Hh' by (rewrite length_putn; lia).
  rewrite get_enc_entries by (done || unfold lh_off; lia).
  rewrite getn_putn_eq by lia. rewrite Z.mod_small by lia. rewrite s32_small by lia.
  rewrite Nat2Z.id. apply list_eq. intros j. rewrite list_lookup_fmap.
  destruct (ns !! j) as [n|] eqn:Ej.
  - assert (j < length ns)%nat by (by eapply lookup_lt_Some).
    rewrite lookup_seq_lt by done. simpl. f_equal.
    rewrite (enc_entries_lookup 0 ns _ j n) by (done || lia).
    rewrite list.Forall_lookup in Hns. specialize (Hns j n Ej).
    rewrite u32_small by lia. apply s32_small; lia.
  - apply lookup_ge_None in Ej. by rewrite lookup_seq_ge.
Qed.

Lemma length_enc_head h ns : length h = 1024%nat → (length ns ≤ 30)%nat → length (enc_head h ns) = 1024%nat.
Proof. intros. apply length_enc_entries; [|lia]. rewrite length_putn; lia. Qed.

(** ** Sequences of disk writes *)

Abbreviation contents := (Z → block_data).
Definition vapply (W : list (Z * block_data)) (D : contents) : contents :=
  foldl (λ D w, <[w.1 := w.2]> D) D W.
Definition on_disk (s : bst) : contents := disk_block (dblocks s).

(** From [s] to [s'] the disk saw exactly the writes [W], in order. *)
Definition wrote (W : list (Z * block_data)) (s s' : bst) : Prop :=
  (∀ n, on_disk s' n = vapply W (on_disk s) n) ∧ dwrites s' = reverse W ++ dwrites s.

Lemma vapply_app W1 W2 D : vapply (W1 ++ W2) D = vapply W2 (vapply W1 D).
Proof. apply foldl_app. Qed.
Lemma vapply_ext W D D' n : (∀ m, D m = D' m) → vapply W D n = vapply W D' n.
Proof.
  revert D D'. induction W as [|w W IH]; intros D D' E; simpl; [done|]. apply IH. intros m.
  destruct (decide (w.1 = m)) as [<-|]; [by rewrite !fn_lookup_insert|by rewrite !fn_lookup_insert_ne].
Qed.
Lemma vapply_other W D n : n ∉ W.*1 → vapply W D n = D n.
Proof.
  revert D. induction W as [|w W IH]; intros D Hn; simpl in *; [done|].
  apply not_elem_of_cons in Hn as [Hw Hn]. rewrite IH by done. by apply fn_lookup_insert_ne.
Qed.
Lemma vapply_lookup W D i w :
  NoDup W.*1 → W !! i = Some w → vapply W D w.1 = w.2.
Proof.
  revert D i. induction W as [|w' W IH]; intros D i Hd Hi; [done|]. simpl in *.
  apply list.NoDup_cons in Hd as [Hw Hd]. destruct i as [|i]; simpl in Hi.
  - simplify_eq. rewrite vapply_other by done. apply fn_lookup_insert.
  - by eapply IH.
Qed.

Lemma wrote_nil s s' : disk_same s s' → wrote [] s s'.
Proof. intros [E1 E2]. split; [|done]. intros n. unfold on_disk. by rewrite E1. Qed.
Lemma wrote_one n x s s' :
  dblocks s' = <[n := x]> (dblocks s) → dwrites s' = (n, x) :: dwrites s → wrote [(n, x)] s s'.
Proof.
  intros E1 E2. split; [|done]. intros m. unfold on_disk, disk_block. rewrite E1. simpl.
  destruct (decide (n = m)) as [<-|].
  - by rewrite lookup_insert_eq, fn_lookup_insert.
  - by rewrite lookup_insert_ne, fn_lookup_insert_ne.
Qed.
Lemma wrote_trans W1 W2 s1 s2 s3 : wrote W1 s1 s2 → wrote W2 s2 s3 → wrote (W1 ++ W2) s1 s3.
Proof.
  intros [A1 B1] [A2 B2]. split.
  - intros n. rewrite A2, vapply_app. by apply vapply_ext.
  - rewrite B2, B1, reverse_app. by rewrite app_assoc.
Qed.
Lemma wrote_trans_l W s1 s2 s3 : disk_same s1 s2 → wrote W s2 s3 → wrote W s1 s3.
Proof. intros H1 H2. exact (wrote_trans _ _ _ _ _ (wrote_nil _ _ H1) H2). Qed.
Lemma wrote_trans_r W s1 s2 s3 : wrote W s1 s2 → disk_same s2 s3 → wrote W s1 s3.
Proof. intros H1 H2. rewrite <- (app_nil_r W). exact (wrote_trans _ _ _ _ _ H1 (wrote_nil _ _ H2)). Qed.

(** ** Rules for the accessors *)

Lemma wp_bio {A} (m : M bst A) (Q : A → lst → Prop) s :
  wp m (λ a b, Q a (Lst b (lg s))) (bcache s) → wp (bio m) Q s.
Proof. unfold bio. by rewrite wp_lift. Qed.
Lemma wp_getlog (Q : log → lst → Prop) s : Q (lg s) s → wp getlog Q s.
Proof. done. Qed.
Lemma wp_updlog f (Q : unit → lst → Prop) s : Q tt (Lst (bcache s) (f (lg s))) → wp (updlog f) Q s.
Proof. done. Qed.
Lemma wp_lh_get i n (Q : Z → lst → Prop) s : lh_block (lg s) !! i = Some n → Q n s → wp (lh_get i) Q s.
Proof. intros E HQ. unfold lh_get. wp_step. apply wp_getlog. by rewrite E. Qed.
Lemma wp_lh_set i n (Q : unit → lst → Prop) s :
  (i < length (lh_block (lg s)))%nat → Q tt (Lst (bcache s) ((lg s) <| lh_block ::= <[i := n]> |>)) →
  wp (lh_set i n) Q s.
Proof.
  intros E HQ. unfold lh_set. wp_step. apply wp_getlog. apply Nat.ltb_lt in E. by rewrite E.
Qed.

Section logspec.
Context (d me st sz : Z).

(** The log occupies the blocks [st .. st + sz - 1]. *)
Definition geometry : Prop := 0 ≤ st ∧ 0 < sz ∧ st + sz < 2^31.
Definition home (n : Z) : Prop := 0 ≤ n < 2^31 ∧ (n < st ∨ st + sz ≤ n).
(** A list of blocks that fits in the log. *)
Record loggable (L : list Z) : Prop := {
  lo_home : Forall home L;
  lo_nodup : NoDup L;
  lo_max : (length L ≤ 30)%nat;
  lo_size : Z.of_nat (length L) < sz;
}.
(** [struct log] with the transaction [L]. *)
Record logging (L : list Z) (g : log) : Prop := {
  g_dev : ldev g = d;
  g_start : start g = st;
  g_size : size g = sz;
  g_n : lh_n g = Z.of_nat (length L);
  g_len : length (lh_block g) = 30%nat;
  g_blocks : take (length L) (lh_block g) = L;
}.

Definition lblock (i : nat) : Z := st + 1 + Z.of_nat i.

Lemma logging_lookup L g i n : logging L g → L !! i = Some n → lh_block g !! i = Some n.
Proof.
  intros G Hi. rewrite <- (g_blocks _ _ G) in Hi. by apply lookup_take_Some in Hi as [? _].
Qed.
Lemma logging_tails L s (Q : list nat → lst → Prop) :
  logging L (lg s) → Q (seq 0 (length L)) s → wp tails Q s.
Proof. intros G HQ. unfold tails. wp_simp. apply wp_getlog. wp_simp. by rewrite (g_n _ _ G), Nat2Z.id. Qed.

Section with_geometry.
Hypothesis Hgeo : geometry.

Lemma log_block_eq L g i : logging L g → loggable L → (i < length L)%nat → log_block g i = lblock i.
Proof using Hgeo.
  intros G H Hi. unfold log_block, lblock. rewrite (g_start _ _ G).
  destruct Hgeo as (? & ? & ?). pose proof (lo_size _ H). rewrite u32_small by lia. lia.
Qed.
Lemma lblock_not_home L i : loggable L → (i < length L)%nat → ¬ home (lblock i).
Proof using Hgeo.
  intros H Hi [_ Hh]. destruct Hgeo as (? & ? & ?). pose proof (lo_size _ H). unfold lblock in Hh. lia.
Qed.
Lemma start_not_home : ¬ home st.
Proof using Hgeo. intros [_ Hh]. destruct Hgeo as (? & ? & ?). lia. Qed.
Lemma loggable_home L i n : loggable L → L !! i = Some n → home n.
Proof. intros H Hi. eapply list.Forall_lookup_1; [apply H|done]. Qed.
Lemma lblock_not_in L i : loggable L → (i < length L)%nat → lblock i ∉ L.
Proof using Hgeo.
  intros H Hi [j Hj]%list_elem_of_lookup. eapply lblock_not_home; [done..|]. by eapply loggable_home.
Qed.
Lemma u32_home n : home n → u32 n = n.
Proof. intros [? _]. apply u32_small. lia. Qed.

(** One round of [write_log]: the cached block goes to its log block. *)
Lemma write_log_step V L l s i n :
  logging L (lg s) → loggable L → cache d me V [] L l (bcache s) → (length L + 1 ≤ NBUF)%nat →
  L !! i = Some n →
  wp (let* l := getlog in
      let* to := bio (bread me (ldev l) (log_block l i)) in
      let* n := lh_get i in
      let* from := bio (bread me (ldev l) (u32 n)) in
      let* x := bio (getb from) in
      bio (updb to (λ y, y <| bdata ::= (λ _, bdata x) |>)) ;;;
      bio (bwrite me to) ;;;
      bio (brelse me from) ;;;
      bio (brelse me to))
     (λ _ s', lg s' = lg s ∧ wrote [(lblock i, V n)] (bcache s) (bcache s') ∧
        ∃ l', cache d me (<[lblock i := V n]> V) [] L l' (bcache s')) s.
Proof using Hgeo.
  intros G HL C Hroom Hi. assert (i < length L)%nat as Hil by (by eapply lookup_lt_Some).
  pose proof (lblock_not_in L i HL Hil) as Hlb.
  assert (n ∈ L) as Hn by (by eapply list_elem_of_lookup_2).
  assert (n ≠ lblock i) as Hne by (by intros ->).
  wp_step. apply wp_getlog. rewrite (log_block_eq L) by done. rewrite (g_dev _ _ G).
  wp_step. apply wp_bio. eapply wp_mono; [|eapply bread_spec; [done|apply not_elem_of_nil|right; simpl; lia]].
  intros to b1 (C1 & H1 & D1 & _).
  wp_step. eapply wp_lh_get; [by eapply logging_lookup|]. rewrite u32_home by (by eapply loggable_home).
  wp_step. apply wp_bio. eapply wp_mono; [|eapply bread_spec; [exact C1| |by left]].
  2:{ by apply not_elem_of_cons; split; [|apply not_elem_of_nil]. }
  intros from b2 (C2 & H2 & D2 & K2). apply K2 in H1. cbn [bcache lg] in *.
  wp_step. apply wp_bio. destruct H2 as (Hb2 & y2 & Hy2 & F1 & F2 & F3 & F4).
  eapply wp_getb; [exact Hy2|]. rewrite F3.
  assert (holds d me b2 from n (V n)) as H2 by (split; [done|by exists y2]).
  wp_step. apply wp_bio. eapply wp_mono; [|eapply store_spec; [exact C2|exact H1]].
  intros ? b3 (C3 & H3 & D3 & K3). apply (K3 _ _ _ Hne) in H2. clear K3. cbv beta in *.
  wp_step. apply wp_bio. eapply wp_mono; [|eapply bwrite_spec; [exact C3|exact H3]].
  intros ? b4 (C4 & E4 & W4 & W4').
  assert (∀ b m z, holds d me b3 b m z → holds d me b4 b m z) as K4.
  { unfold holds. by rewrite E4. }
  apply K4 in H2, H3.
  wp_step. apply wp_bio. eapply wp_mono; [|eapply (brelse_spec d me _ _ [lblock i]); [exact C4|exact H2|done|by left]].
  intros ? b5 (l5 & C5 & D5 & _ & K5). apply (K5 _ _ _ ltac:(done)) in H3.
  apply wp_bio. eapply wp_mono; [|eapply (brelse_spec d me _ _ []); [exact C5|exact H3|done|]].
  - intros ? b6 (l6 & C6 & D6 & _). split; [done|]. split; [|by exists l6].
    eapply wrote_trans_l; [exact D1|]. eapply wrote_trans_l; [exact D2|].
    eapply wrote_trans_l; [exact D3|]. eapply wrote_trans_r; [|exact D6].
    eapply wrote_trans_r; [|exact D5]. by apply wrote_one.
  - right. destruct D5 as [D5 _]. simpl in D5, W4 |- *. rewrite D5, W4. unfold disk_block.
    by rewrite lookup_insert_eq, fn_lookup_insert.
Qed.

(** A loop over the entries of the transaction, each round of which issues
    one write. *)
Lemma for_each_writes (body : nat → M lst unit) (w : nat → Z * block_data)
    (I : nat → lst → Prop) s N :
  I 0%nat s →
  (∀ i s', (i < N)%nat → I i s' →
     wp (body i) (λ _ s'', wrote [w i] (bcache s') (bcache s'') ∧ I (S i) s'') s') →
  wp (for_each (seq 0 N) body)
     (λ _ s', wrote (w <$> seq 0 N) (bcache s) (bcache s') ∧ I N s') s.
Proof.
  intros H0 Hstep.
  assert (∀ k i s0, (i + k = N)%nat → I i s0 →
    wp (for_each (seq i k) body)
      (λ _ s', wrote (w <$> seq i k) (bcache s0) (bcache s') ∧ I N s') s0) as H.
  { induction k as [|k IH]; intros i s0 Hk HI; simpl.
    - wp_step. split; [by apply wrote_nil|]. by replace N with i by lia.
    - wp_step. eapply wp_mono; [|apply Hstep; [lia|done]]. intros ? s1 [W1 I1].
      eapply wp_mono; [|apply (IH (S i)); [lia|done]]. intros ? s2 [W2 I2]. split; [|done].
      exact (wrote_trans [w i] _ _ _ _ W1 W2). }
  by apply H.
Qed.

(** One round of [install_trans]: the log block goes home. *)
Lemma install_step V L R R' l s i n recovering :
  logging L (lg s) → loggable L → cache d me V [] R l (bcache s) → (length R + 1 ≤ NBUF)%nat →
  L !! i = Some n → lblock i ∉ R →
  (if recovering : bool then R' = R ∧ (n ∉ R) ∧ (length R + 2 ≤ NBUF)%nat else R ≡ₚ n :: R') →
  wp (let* l := getlog in
      let* lbuf := bio (bread me (ldev l) (log_block l i)) in
      let* n := lh_get i in
      let* dbuf := bio (bread me (ldev l) (u32 n)) in
      let* x := bio (getb lbuf) in
      bio (updb dbuf (λ y, y <| bdata ::= (λ _, bdata x) |>)) ;;;
      bio (bwrite me dbuf) ;;;
      (if recovering then ret tt else bio (bunpin dbuf)) ;;;
      bio (brelse me lbuf) ;;;
      bio (brelse me dbuf))
     (λ _ s', wrote [(n, V (lblock i))] (bcache s) (bcache s') ∧ lg s' = lg s ∧
        ∃ l', cache d me (<[n := V (lblock i)]> V) [] R' l' (bcache s')) s.
Proof using Hgeo.
  intros G HL C Hroom Hi HlR Hrec. assert (i < length L)%nat as Hil by (by eapply lookup_lt_Some).
  assert (n ≠ lblock i) as Hne.
  { intros ->. eapply lblock_not_home; [done..|]. by eapply loggable_home. }
  wp_step. apply wp_getlog. rewrite (log_block_eq L) by done. rewrite (g_dev _ _ G).
  wp_step. apply wp_bio. eapply wp_mono; [|eapply bread_spec; [done|apply not_elem_of_nil|right; simpl; lia]].
  intros lb b1 (C1 & H1 & D1 & _).
  wp_step. eapply wp_lh_get; [by eapply logging_lookup|]. rewrite u32_home by (by eapply loggable_home).
  wp_step. apply wp_bio. eapply wp_mono; [|eapply bread_spec; [exact C1| |]].
  2:{ by apply not_elem_of_cons; split; [|apply not_elem_of_nil]. }
  2:{ destruct recovering; [right; simpl; lia|left]. rewrite Hrec. constructor. }
  intros db b2 (C2 & H2 & D2 & K2). apply K2 in H1. cbn [bcache lg] in *.
  wp_step. apply wp_bio. destruct H1 as (Hb1 & y1 & Hy1 & F1 & F2 & F3 & F4).
  eapply wp_getb; [exact Hy1|]. rewrite F3.
  assert (holds d me b2 lb (lblock i) (V (lblock i))) as H1 by (split; [done|by exists y1]).
  wp_step. apply wp_bio. eapply wp_mono; [|eapply store_spec; [exact C2|exact H2]].
  intros ? b3 (C3 & H3 & D3 & K3). apply (K3 _ _ _ (not_eq_sym Hne)) in H1. clear K3. cbn [bcache lg] in *.
  wp_step. apply wp_bio. eapply wp_mono; [|eapply bwrite_spec; [exact C3|exact H3]].
  intros ? b4 (C4 & E4 & W4 & W4').
  assert (∀ b m z, holds d me b3 b m z → holds d me b4 b m z) as K4.
  { unfold holds. by rewrite E4. }
  apply K4 in H1, H3. cbn [bcache lg] in *.
  assert (disk_block (dblocks b4) (lblock i) = V (lblock i)) as Hclean.
  { rewrite W4. unfold disk_block. rewrite lookup_insert_ne by done.
    destruct D1 as [D1 _], D2 as [D2 _], D3 as [D3 _]. rewrite D3, D2, D1.
    apply (c_clean _ _ _ _ _ _ _ C); [apply not_elem_of_nil|done]. }
  assert (disk_block (dblocks b4) n = V (lblock i)) as Hclean'.
  { rewrite W4. unfold disk_block. by rewrite lookup_insert_eq. }
  assert (wrote [(n, V (lblock i))] (bcache s) b4) as HW.
  { eapply wrote_trans_l; [exact D1|]. eapply wrote_trans_l; [exact D2|].
    eapply wrote_trans_l; [exact D3|]. by apply wrote_one. }
  (* the rest, from a state where the block is unpinned *)
  assert (∀ b5, cache d me (<[n := V (lblock i)]> V) [n; lblock i] R' l b5 → disk_same b4 b5 →
    holds d me b5 lb (lblock i) (V (lblock i)) → holds d me b5 db n (V (lblock i)) →
    wp (bio (brelse me lb) ;;; bio (brelse me db))
      (λ _ s', wrote [(n, V (lblock i))] (bcache s) (bcache s') ∧ lg s' = lg s ∧
        ∃ l', cache d me (<[n := V (lblock i)]> V) [] R' l' (bcache s')) (Lst b5 (lg s))) as Hend.
  { intros b5 C5 D5 H5 H5'. pose proof D5 as [D5b _].
    wp_step. apply wp_bio.
    eapply wp_mono; [|eapply (brelse_spec d me _ _ [n]); [exact C5|exact H5|by rewrite Permutation_swap|]].
    2:{ right. cbn [bcache]. rewrite D5b, Hclean. by rewrite fn_lookup_insert_ne. }
    intros ? b6 (l6 & C6 & D6 & _ & K6). apply (K6 _ _ _ Hne) in H5'. pose proof D6 as [D6b _].
    cbn [bcache lg] in *.
    apply wp_bio. eapply wp_mono; [|eapply (brelse_spec d me _ _ []); [exact C6|exact H5'|done|]].
    2:{ right. cbn [bcache]. rewrite D6b, D5b, Hclean'. by rewrite fn_lookup_insert. }
    intros ? b7 (l7 & C7 & D7 & _). cbn [bcache lg] in *. split; [|split; [done|by exists l7]].
    eapply wrote_trans_r; [|exact D7]. eapply wrote_trans_r; [|exact D6]. by eapply wrote_trans_r. }
  wp_step. destruct recovering.
  - wp_step. destruct Hrec as [-> _]. by apply Hend.
  - apply wp_bio. eapply wp_mono; [|eapply bunpin_spec; [exact C4|exact H3|exact Hrec]].
    intros ? b5 (C5 & D5 & K5). apply Hend; [done|done|by apply K5|by apply K5].
Qed.

(** ** The header *)

Lemma st_u32 : u32 st = st.
Proof using Hgeo. destruct Hgeo as (? & ? & ?). apply u32_small. lia. Qed.

Lemma loggable_range L : loggable L → Forall (λ n, 0 ≤ n < 2^31) L.
Proof. intros H. eapply list.Forall_impl; [apply H|]. by intros n [? _]. Qed.

(** The loop of [write_head] from entry [i] on. *)
Lemma write_entries_spec L V R l s b i x :
  logging L (lg s) → (i ≤ length L)%nat → st ∉ R →
  cache d me (<[st := x]> V) [st] R l (bcache s) → holds d me (bcache s) b st x →
  wp (for_each (seq i (length L - i)) (λ i,
        let* n := lh_get i in
        bio (updb b (λ y, y <| bdata ::= (λ h, put32 h (lh_off i) n) |>))))
     (λ _ s', lg s' = lg s ∧ disk_same (bcache s) (bcache s') ∧
        let x' := enc_entries i (drop i L) x in
        cache d me (<[st := x']> V) [st] R l (bcache s') ∧ holds d me (bcache s') b st x') s.
Proof.
  intros G. remember (length L - i)%nat as k eqn:Ek. revert i x s G Ek.
  induction k as [|k IH]; intros i x s G Ek Hi HR C Hh; simpl.
  - wp_step. rewrite drop_ge by lia. done.
  - destruct (lookup_lt_is_Some_2 L i) as [n Hn]; [lia|].
    do 2 wp_step. eapply wp_lh_get; [by eapply logging_lookup|].
    apply wp_bio. eapply wp_mono; [|eapply store_spec; [exact C|exact Hh]].
    intros ? b1 (C1 & H1 & D1 & _). cbn [bcache lg] in *.
    eapply wp_mono; [|apply (IH (S i) (put32 x (lh_off i) n)); cbn [bcache lg]; try done; try lia].
    + intros ? s' (E & D & C' & H'). rewrite (drop_S _ _ _ Hn). simpl.
      split; [done|]. split; [|done]. destruct D1, D. split; etrans; done.
    + eapply cache_ext; [exact C1|done|done|]. intros m.
      destruct (decide (st = m)) as [<-|]; [by rewrite !fn_lookup_insert|by rewrite !fn_lookup_insert_ne].
Qed.

(** [write_head] writes the header block. *)
Lemma write_head_spec V L R l s :
  logging L (lg s) → (length L ≤ 30)%nat → cache d me V [] R l (bcache s) →
  (length R < NBUF)%nat → st ∉ R → length (V st) = 1024%nat →
  wp (write_head me) (λ _ s', lg s' = lg s ∧
        wrote [(st, enc_head (V st) L)] (bcache s) (bcache s') ∧
        ∃ l', cache d me (<[st := enc_head (V st) L]> V) [] R l' (bcache s')) s.
Proof using Hgeo.
  intros G HL C Hroom HR Hlen. unfold write_head.
  wp_step. apply wp_getlog. rewrite (g_start _ _ G), (g_dev _ _ G), st_u32, (g_n _ _ G).
  wp_step. apply wp_bio. eapply wp_mono; [|eapply bread_spec; [done|apply not_elem_of_nil|right; simpl; lia]].
  intros b b1 (C1 & H1 & D1 & _). cbn [bcache lg] in *.
  wp_step. apply wp_bio. eapply wp_mono; [|eapply store_spec; [exact C1|exact H1]].
  intros ? b2 (C2 & H2 & D2 & _). cbn [bcache lg] in *.
  wp_step. apply (logging_tails L); [done|].
  wp_step. replace (length L) with (length L - 0)%nat at 1 by lia.
  eapply wp_mono; [|eapply (write_entries_spec L V R l); [done|lia|done|exact C2|exact H2]].
  intros ? s3 (E3 & D3 & C3 & H3). cbn [bcache lg drop] in *.
  change (enc_entries 0 L (put32 (V st) 0 (Z.of_nat (length L)))) with (enc_head (V st) L) in *.
  wp_step. apply wp_bio. eapply wp_mono; [|eapply bwrite_spec; [exact C3|exact H3]].
  intros ? b4 (C4 & E4 & W4 & W4').
  assert (holds d me b4 b st (enc_head (V st) L)) as H4 by (unfold holds; by rewrite E4).
  apply wp_bio. eapply wp_mono; [|eapply (brelse_spec d me _ _ []); [exact C4|exact H4|done|]].
  - intros ? b5 (l5 & C5 & D5 & _). cbn [bcache lg] in *. split; [done|]. split; [|by exists l5].
    eapply wrote_trans_l; [exact D1|]. eapply wrote_trans_l; [exact D2|].
    eapply wrote_trans_l; [exact D3|]. eapply wrote_trans_r; [|exact D5]. by apply wrote_one.
  - right. cbn [bcache]. rewrite W4. unfold disk_block. by rewrite lookup_insert_eq, fn_lookup_insert.
Qed.

(** The loop of [read_head]: entry [j] of the array becomes entry [j] of the header. *)
Lemma read_entries_spec (f : nat → Z) k i s :
  length (lh_block (lg s)) = 30%nat → (i + k ≤ 30)%nat →
  wp (for_each (seq i k) (λ j, lh_set j (f j)))
     (λ _ s', ∃ bl, s' = Lst (bcache s) ((lg s) <| lh_block := bl |>) ∧ length bl = 30%nat ∧
        take i bl = take i (lh_block (lg s)) ∧ sub_bytes bl i k = f <$> seq i k) s.
Proof.
  revert i s. induction k as [|k IH]; intros i s Hl Hk; simpl.
  - wp_step. exists (lh_block (lg s)). split; [by destruct s as [? []]|]. done.
  - wp_step. apply wp_lh_set; [lia|].
    eapply wp_mono; [|apply (IH (S i)); simpl; [by rewrite length_insert|lia]].
    intros ? s' (bl & -> & Hbl & Htake & Hsub). exists bl. split; [done|]. split; [done|].
    simpl in Htake.
    assert (bl !! i = Some (f i)) as Hbi.
    { rewrite <- (lookup_take_lt bl (S i)) by lia. rewrite Htake, lookup_take_lt by lia.
      apply list_lookup_insert_eq. lia. }
    split.
    + apply list_eq. intros j. destruct (decide (j < i)%nat); [|by rewrite !lookup_take_ge by lia].
      rewrite !lookup_take_lt by lia. rewrite <- (lookup_take_lt bl (S i)) by lia.
      rewrite Htake, lookup_take_lt by lia. by rewrite list_lookup_insert_ne by lia.
    + unfold sub_bytes in *. rewrite (drop_S _ _ _ Hbi). simpl. by rewrite Hsub.
Qed.

(** [read_head] reads the transaction the header names. *)
Lemma read_head_spec V l s :
  ldev (lg s) = d → start (lg s) = st → size (lg s) = sz → length (lh_block (lg s)) = 30%nat →
  cache d me V [] [] l (bcache s) → (length (dec_head (V st)) ≤ 30)%nat →
  0 ≤ s32 (get32 (V st) 0) →
  wp (read_head me) (λ _ s', logging (dec_head (V st)) (lg s') ∧
        outstanding (lg s') = outstanding (lg s) ∧ committing (lg s') = committing (lg s) ∧
        disk_same (bcache s) (bcache s') ∧ ∃ l', cache d me V [] [] l' (bcache s')) s.
Proof using Hgeo.
  intros E1 E2 E3 E4 C Hmax Hpos. unfold read_head.
  wp_step. apply wp_getlog. rewrite E1, E2, st_u32.
  wp_step. apply wp_bio. eapply wp_mono; [|eapply bread_spec; [done|apply not_elem_of_nil|right; simpl; unfold NBUF; lia]].
  intros b b1 (C1 & H1 & D1 & _). cbn [bcache lg] in *.
  wp_step. apply wp_bio. pose proof H1 as (Hb1 & y1 & Hy1 & F1 & F2 & F3 & F4).
  eapply wp_getb; [exact Hy1|]. rewrite F3. cbn [bcache lg].
  wp_step. apply wp_updlog. wp_step. unfold tails. wp_step. apply wp_getlog. wp_step. cbn [bcache lg].
  set (N := s32 (get32 (V st) 0)) in *. wp_step.
  assert (length (dec_head (V st)) = Z.to_nat N) as HN by (unfold dec_head; by rewrite length_fmap, length_seq).
  change (lh_n ((lg s) <| lh_n := N |>)) with N.
  eapply wp_mono; [|apply read_entries_spec; [done|lia]].
  intros ? s2 (bl & -> & Hbl & _ & Hsub). cbn [bcache lg] in *. apply wp_bio.
  eapply wp_mono; [|eapply (brelse_spec d me _ _ []); [exact C1|exact H1|done|]].
  - intros ? b3 (l3 & C3 & D3 & _). cbn [bcache lg] in *. split; [|split; [done|split; [done|split; [|by exists l3]]]].
    + split; cbn [lg]; try done.
      * change (N = Z.of_nat (length (dec_head (V st)))). rewrite HN. lia.
      * change (take (length (dec_head (V st))) bl = dec_head (V st)). by rewrite HN.
    + destruct D1, D3. split; etrans; done.
  - right. destruct D1 as [D1 _]. cbn [bcache]. rewrite D1.
    apply (c_clean _ _ _ _ _ _ _ C); apply not_elem_of_nil.
Qed.
End with_geometry.
End logspec.
