(* ===== verification/LogCrash.v ===== *)
(** * Crash safety of the log

    A crash can happen between any two disk writes.  [durable st D] is what
    recovery makes of a disk [D]: a block named by the header is its copy in
    the log.  The theorems: every prefix of the writes of [commit] leaves the
    old or the new contents durable, and recovery, itself interrupted
    anywhere, changes nothing that is durable and ends with it in place. *)

From Stdlib Require Import ZArith Lia.
From stdpp Require Import base numbers list gmap functions strings tactics.
From S2P Require Import Prelude Mem Bytes Locks Bio BioList BioSpec Log LogSpec.

Local Open Scope Z_scope.

Section crash.
Context (d me st sz : Z).
Hypothesis Hgeo : geometry st sz.
Abbreviation lblock := (lblock st).
Abbreviation home := (home st sz).
Abbreviation loggable := (loggable st sz).
Abbreviation logging := (logging d st sz).

(** Entry [i] of the transaction. *)
Definition nth_block (L : list Z) (i : nat) : Z := default 0 (L !! i).
(** The writes of [write_log] and of [install_trans]. *)
Definition log_writes (V : contents) (L : list Z) (k : nat) : list (Z * block_data) :=
  (λ i, (lblock i, V (nth_block L i))) <$> seq 0 k.
Definition home_writes (V : contents) (L : list Z) (k : nat) : list (Z * block_data) :=
  (λ i, (nth_block L i, V (lblock i))) <$> seq 0 k.

Lemma log_writes_fst V L k : (log_writes V L k).*1 = lblock <$> seq 0 k.
Proof. unfold log_writes. by rewrite <- list_fmap_compose. Qed.
Lemma log_writes_in V L k n : n ∈ (log_writes V L k).*1 → ∃ i, (i < k)%nat ∧ n = lblock i.
Proof. rewrite log_writes_fst, list_elem_of_fmap. intros (i & -> & [_ Hi]%elem_of_seq). by exists i. Qed.
Lemma log_writes_nodup V L k : NoDup (log_writes V L k).*1.
Proof.
  rewrite log_writes_fst. apply NoDup_fmap_2; [|apply NoDup_seq]. intros i j. unfold LogSpec.lblock. lia.
Qed.
Lemma log_writes_lookup V L k i D :
  (i < k)%nat → vapply (log_writes V L k) D (lblock i) = V (nth_block L i).
Proof.
  intros Hi. apply (vapply_lookup _ D i (lblock i, V (nth_block L i))); [apply log_writes_nodup|].
  unfold log_writes. by rewrite list_lookup_fmap, lookup_seq_lt by done.
Qed.
Lemma log_writes_other V L k D n :
  (∀ i, (i < k)%nat → n ≠ lblock i) → vapply (log_writes V L k) D n = D n.
Proof. intros Hn. apply vapply_other. intros (i & Hi & ->)%log_writes_in. by apply (Hn i). Qed.

Lemma home_writes_fst V L k : (k ≤ length L)%nat → (home_writes V L k).*1 = take k L.
Proof.
  intros Hk. apply list_eq. intros i. unfold home_writes. rewrite <- list_fmap_compose, list_lookup_fmap.
  destruct (decide (i < k)%nat).
  - rewrite lookup_seq_lt, lookup_take_lt by done. simpl. unfold nth_block.
    destruct (lookup_lt_is_Some_2 L i) as [n ->]; [lia|done].
  - rewrite lookup_take_ge by lia. by rewrite lookup_seq_ge by lia.
Qed.
Lemma home_writes_lookup V L k D i n :
  NoDup L → (i < k)%nat → (k ≤ length L)%nat → L !! i = Some n →
  vapply (home_writes V L k) D n = V (lblock i).
Proof.
  intros Hd Hi Hk Hn. apply (vapply_lookup _ D i (n, V (lblock i))).
  - rewrite home_writes_fst by done. eapply sublist_NoDup; [exact Hd|apply sublist_take].
  - unfold home_writes, nth_block. rewrite list_lookup_fmap, lookup_seq_lt by done. simpl. by rewrite Hn.
Qed.
Lemma home_writes_other V L k D n :
  (k ≤ length L)%nat → n ∉ take k L → vapply (home_writes V L k) D n = D n.
Proof. intros Hk Hn. apply vapply_other. by rewrite home_writes_fst. Qed.

Lemma nth_block_lookup L i : (i < length L)%nat → L !! i = Some (nth_block L i).
Proof. intros Hi. unfold nth_block. by destruct (lookup_lt_is_Some_2 L i Hi) as [n ->]. Qed.

(** ** The loops *)

Lemma write_log_spec V L l s :
  logging L (lg s) → loggable L → cache d me V [] L l (bcache s) → (length L + 1 ≤ NBUF)%nat →
  wp (write_log me) (λ _ s', wrote (log_writes V L (length L)) (bcache s) (bcache s') ∧ lg s' = lg s ∧
        ∃ l', cache d me (vapply (log_writes V L (length L)) V) [] L l' (bcache s')) s.
Proof using Hgeo.
  intros G HL C Hroom. unfold write_log. wp_step. apply (logging_tails d st sz L); [done|].
  apply (for_each_writes _ (λ i, (lblock i, V (nth_block L i)))
    (λ i s', lg s' = lg s ∧ ∃ l', cache d me (vapply (log_writes V L i) V) [] L l' (bcache s'))).
  { split; [done|]. by exists l. }
  intros i s' Hi (Eg & l' & C').
  eapply wp_mono; [|eapply (write_log_step d me st sz Hgeo); [by rewrite Eg|done|exact C'|done|by apply nth_block_lookup]].
  intros ? s'' (Eg' & W & l'' & C'').
  assert (vapply (log_writes V L i) V (nth_block L i) = V (nth_block L i)) as Ev.
  { apply log_writes_other. intros j Hj Eb.
    eapply (lblock_not_home st sz Hgeo L j); [done|lia|]. rewrite <- Eb.
    by eapply loggable_home; [done|apply nth_block_lookup]. }
  rewrite Ev in *. split; [done|]. split; [congruence|]. exists l''.
  unfold log_writes. rewrite seq_S, fmap_app, vapply_app. done.
Qed.

(** Installing from the log, during [commit]: every block unpinned. *)
Lemma install_spec V L l s :
  logging L (lg s) → loggable L → cache d me V [] L l (bcache s) → (length L + 1 ≤ NBUF)%nat →
  (∀ i n, L !! i = Some n → V (lblock i) = V n) →
  wp (install_trans me false) (λ _ s', wrote (home_writes V L (length L)) (bcache s) (bcache s') ∧
        lg s' = lg s ∧ ∃ l', cache d me V [] [] l' (bcache s')) s.
Proof using Hgeo.
  intros G HL C Hroom Hcopy. unfold install_trans. wp_step. apply (logging_tails d st sz L); [done|].
  eapply wp_mono; [|apply (for_each_writes _ (λ i, (nth_block L i, V (lblock i)))
    (λ i s', lg s' = lg s ∧ ∃ l', cache d me V [] (drop i L) l' (bcache s')))].
  - intros ? s' (W & Eg & l' & C'). rewrite drop_all in C'. split; [done|]. split; [done|]. by exists l'.
  - split; [done|]. by exists l.
  - intros i s' Hi (Eg & l' & C'). pose proof (nth_block_lookup L i Hi) as Hn.
    eapply wp_mono; [|eapply (install_step d me st sz Hgeo V L (drop i L) (drop (S i) L) _ _ _ _ false);
      [by rewrite Eg|done|exact C'|rewrite length_drop; lia|exact Hn| |by rewrite (drop_S _ _ _ Hn)]].
    + intros ? s'' (W & Eg' & l'' & C''). split; [done|]. split; [congruence|]. exists l''.
      eapply cache_ext; [exact C''|done|done|]. intros m.
      destruct (decide (nth_block L i = m)) as [<-|]; [|by rewrite fn_lookup_insert_ne].
      rewrite fn_lookup_insert. symmetry. by apply Hcopy.
    + intros [j Hj]%list_elem_of_lookup. rewrite lookup_drop in Hj.
      apply (lblock_not_in st sz Hgeo L i HL Hi). by eapply list_elem_of_lookup_2.
Qed.

(** Installing during recovery. *)
Lemma reinstall_spec V L l s :
  logging L (lg s) → loggable L → cache d me V [] [] l (bcache s) →
  wp (install_trans me true) (λ _ s', wrote (home_writes V L (length L)) (bcache s) (bcache s') ∧
        lg s' = lg s ∧ ∃ l', cache d me (vapply (home_writes V L (length L)) V) [] [] l' (bcache s')) s.
Proof using Hgeo.
  intros G HL C. unfold install_trans. wp_step. apply (logging_tails d st sz L); [done|].
  apply (for_each_writes _ (λ i, (nth_block L i, V (lblock i)))
    (λ i s', lg s' = lg s ∧ ∃ l', cache d me (vapply (home_writes V L i) V) [] [] l' (bcache s'))).
  { split; [done|]. by exists l. }
  intros i s' Hi (Eg & l' & C'). pose proof (nth_block_lookup L i Hi) as Hn.
  eapply wp_mono; [|eapply (install_step d me st sz Hgeo _ L [] [] _ _ _ _ true);
    [by rewrite Eg|done|exact C'|simpl; unfold NBUF; lia|exact Hn|apply not_elem_of_nil|]].
  - intros ? s'' (W & Eg' & l'' & C'').
    assert (vapply (home_writes V L i) V (lblock i) = V (lblock i)) as Ev.
    { apply home_writes_other; [lia|]. intros Hin%elem_of_take.
      destruct Hin as (j & Hj & _). eapply (lblock_not_home st sz Hgeo L i HL Hi). by eapply loggable_home. }
    rewrite Ev in *. split; [done|]. split; [congruence|]. exists l''.
    unfold home_writes. rewrite seq_S, fmap_app, vapply_app. done.
  - split; [done|]. split; [apply not_elem_of_nil|simpl; unfold NBUF; lia].
Qed.

(** ** Committing *)

(** The disk writes of [commit]. *)
Definition commit_head (V : contents) (L : list Z) : block_data := enc_head (V st) L.
Definition committed (V : contents) (L : list Z) : contents :=
  <[st := commit_head V L]> (vapply (log_writes V L (length L)) V).
Definition commit_writes (V : contents) (L : list Z) : list (Z * block_data) :=
  log_writes V L (length L) ++ (st, commit_head V L) ::
  home_writes (committed V L) L (length L) ++ [(st, enc_head (commit_head V L) [])].

Lemma lblock_start i : lblock i ≠ st.
Proof. unfold LogSpec.lblock. lia. Qed.
Lemma committed_log V L i : (i < length L)%nat → committed V L (lblock i) = V (nth_block L i).
Proof.
  intros Hi. unfold committed. rewrite fn_lookup_insert_ne by (apply not_eq_sym, lblock_start).
  by apply log_writes_lookup.
Qed.
Lemma committed_home V L n : loggable L → home n → committed V L n = V n.
Proof using Hgeo.
  intros HL Hn. unfold committed. rewrite fn_lookup_insert_ne.
  - apply log_writes_other. intros i Hi ->. by eapply (lblock_not_home st sz Hgeo L i).
  - intros <-. by apply (start_not_home st sz Hgeo).
Qed.
Lemma log_writes_start V L k D : vapply (log_writes V L k) D st = D st.
Proof. apply log_writes_other. intros i _ E. by apply (lblock_start i). Qed.

Lemma commit_spec V L l s :
  logging L (lg s) → loggable L → cache d me V [] L l (bcache s) → (length L + 1 ≤ NBUF)%nat →
  L ≠ [] → length (V st) = 1024%nat →
  wp (commit me) (λ _ s', wrote (commit_writes V L) (bcache s) (bcache s') ∧
        lg s' = (lg s) <| lh_n := 0 |> ∧
        ∃ l', cache d me (<[st := enc_head (commit_head V L) []]> (committed V L)) [] [] l' (bcache s')) s.
Proof using Hgeo.
  intros G HL C Hroom Hne Hlen. unfold commit. wp_step. apply wp_getlog. rewrite (g_n _ _ _ _ _ G).
  destruct L as [|n0 L0] eqn:EL; [done|]. rewrite <- EL in *.
  assert (0 < Z.of_nat (length L)) as Hpos by (rewrite EL; simpl; lia). test_true (0 <? Z.of_nat (length L)).
  wp_step. eapply wp_mono; [|by eapply write_log_spec]. intros ? s1 (W1 & E1 & l1 & C1). rewrite <- E1 in G.
  assert (st ∉ L) as Hst.
  { intros [j Hj]%list_elem_of_lookup. apply (start_not_home st sz Hgeo). by eapply loggable_home. }
  wp_step. eapply wp_mono; [|eapply (write_head_spec d me st sz Hgeo); [done|apply HL|exact C1|lia|done|]].
  2:{ by rewrite log_writes_start. }
  intros ? s2 (E2 & W2 & l2 & C2). rewrite log_writes_start in W2, C2. rewrite <- E2 in G.
  change (cache d me (committed V L) [] L l2 (bcache s2)) in C2.
  wp_step. eapply wp_mono; [|eapply install_spec; [done|done|exact C2|done|]].
  2:{ intros i n Hi. assert (i < length L)%nat by (by eapply lookup_lt_Some).
      rewrite committed_log by done. unfold nth_block. rewrite Hi. simpl.
      rewrite committed_home; [done|done|]. by eapply loggable_home. }
  intros ? s3 (W3 & E3 & l3 & C3). rewrite <- E3 in G.
  wp_step. apply wp_updlog. eapply wp_mono; [|eapply (write_head_spec d me st sz Hgeo _ []);
    [|simpl; lia|exact C3|unfold NBUF; simpl; lia|apply not_elem_of_nil|]].
  - intros ? s4 (E4 & W4 & l4 & C4). unfold committed at 1 in W4.
    rewrite fn_lookup_insert in W4. split; [|split].
    + unfold commit_writes. eapply wrote_trans; [exact W1|].
      apply (wrote_trans [_] _ _ _ _ W2). by eapply wrote_trans; [exact W3|].
    + rewrite E4. cbn [lg]. by rewrite E3, E2, E1.
    + exists l4. eapply cache_ext; [exact C4|done|done|]. intros m. unfold committed.
      by rewrite fn_lookup_insert.
  - cbn [lg]. destruct G. by split.
  - unfold committed. rewrite fn_lookup_insert. apply length_enc_head; [done|apply HL].
Qed.

(** ** What survives a crash *)

Definition durable (D : contents) (n : Z) : block_data :=
  match list_find (n =.) (dec_head (D st)) with
  | Some (i, _) => D (lblock i)
  | None => D n
  end.

Lemma durable_in D L i n :
  dec_head (D st) = L → NoDup L → L !! i = Some n → durable D n = D (lblock i).
Proof.
  intros E Hd Hi. unfold durable. rewrite E.
  destruct (list_find (n =.) L) as [[j m]|] eqn:Ef.
  - apply list_find_Some in Ef as (Hj & <- & _). f_equal. f_equal. by eapply NoDup_lookup.
  - apply list_find_None in Ef. rewrite list.Forall_lookup in Ef. by destruct (Ef i n Hi).
Qed.
Lemma durable_out D n : n ∉ dec_head (D st) → durable D n = D n.
Proof.
  intros Hn. unfold durable. destruct (list_find _ _) as [[j m]|] eqn:Ef; [|done].
  apply list_find_Some in Ef as (Hj & <- & _). destruct Hn. by eapply list_elem_of_lookup_2.
Qed.

Lemma take_seq_min k i N : take k (seq i N) = seq i (k `min` N).
Proof.
  revert k i. induction N as [|N IH]; intros k i; simpl; [by rewrite take_nil, Nat.min_0_r|].
  destruct k; simpl; [done|]. by rewrite IH.
Qed.
Lemma take_log_writes V L N k : take k (log_writes V L N) = log_writes V L (k `min` N).
Proof. unfold log_writes. rewrite <- take_seq_min. symmetry. apply fmap_take. Qed.
Lemma take_home_writes V L N k : take k (home_writes V L N) = home_writes V L (k `min` N).
Proof. unfold home_writes. rewrite <- take_seq_min. symmetry. apply fmap_take. Qed.
Lemma length_log_writes V L N : length (log_writes V L N) = N.
Proof. unfold log_writes. by rewrite length_fmap, length_seq. Qed.
Lemma length_home_writes V L N : length (home_writes V L N) = N.
Proof. unfold home_writes. by rewrite length_fmap, length_seq. Qed.

(** The state of the disk after a prefix of the writes of [commit]. *)
Lemma prefix_cases V L k D :
  let N := length L in let D1 := vapply (log_writes V L N) D in
  let D2 := <[st := commit_head V L]> D1 in
  vapply (take k (commit_writes V L)) D =
    if decide (k ≤ N)%nat then vapply (log_writes V L k) D
    else if decide (k ≤ N + 1 + N)%nat then vapply (home_writes (committed V L) L (k - N - 1)) D2
    else <[st := enc_head (commit_head V L) []]> (vapply (home_writes (committed V L) L N) D2).
Proof.
  intros N D1 D2. unfold commit_writes. fold N. rewrite take_app, length_log_writes, vapply_app, take_log_writes.
  case_decide as Hk.
  { rewrite Nat.min_l by lia. replace (k - N)%nat with 0%nat by lia. done. }
  rewrite Nat.min_r by lia. fold D1.
  replace (k - N)%nat with (S (k - N - 1)) by lia. cbn [take].
  change (vapply (?w :: ?W) D1) with (vapply W (<[w.1 := w.2]> D1)). cbn [fst snd]. fold D2.
  rewrite take_app, length_home_writes, vapply_app, take_home_writes. case_decide as Hk2.
  - rewrite Nat.min_l by lia. replace (S (k - N - 1) - 1)%nat with (k - N - 1)%nat by lia.
    replace (k - N - 1 - N)%nat with 0%nat by lia. done.
  - rewrite Nat.min_r by lia. destruct (k - N - 1 - N)%nat eqn:E; [lia|]. cbn [take].
    by rewrite take_nil.
Qed.

Lemma home_take V L D k n :
  loggable L → (k ≤ length L)%nat → home n →
  (n ∈ L → vapply (home_writes V L k) D n = D n ∨ ∃ i, L !! i = Some n ∧ vapply (home_writes V L k) D n = V (lblock i)) ∧
  (n ∉ L → vapply (home_writes V L k) D n = D n).
Proof.
  intros HL Hk Hn. split.
  - intros [i Hi]%list_elem_of_lookup. destruct (decide (i < k)%nat).
    + right. exists i. split; [done|]. eapply home_writes_lookup; [apply HL|done..].
    + left. apply home_writes_other; [done|]. intros (j & Hj & Hjk)%elem_of_take.
      assert (i = j) by (by eapply NoDup_lookup; [apply HL|..]). lia.
  - intros Hni. apply home_writes_other; [done|]. intros (j & Hj & _)%elem_of_take.
    apply Hni. by eapply list_elem_of_lookup_2.
Qed.

Lemma home_writes_not_home V L D k n :
  loggable L → (k ≤ length L)%nat → ¬ home n → vapply (home_writes V L k) D n = D n.
Proof.
  intros HL Hk Hn. apply home_writes_other; [done|]. intros (j & Hj & _)%elem_of_take.
  apply Hn. by eapply loggable_home.
Qed.

Lemma commit_durable V L D k n :
  loggable L → length (V st) = 1024%nat → dec_head (D st) = [] →
  (∀ m, m ∉ L → home m → D m = V m) → home n →
  durable (vapply (take k (commit_writes V L)) D) n =
    if decide (k ≤ length L)%nat then D n else V n.
Proof using Hgeo.
  intros HL Hlen HD Hclean Hn. rewrite prefix_cases.
  assert (∀ k D, vapply (log_writes V L (k `min` length L)) D n = D n) as Hlog.
  { intros k' D'. apply log_writes_other. intros i Hi ->.
    by eapply (lblock_not_home st sz Hgeo L i); [done|lia|]. }
  assert (st ≠ n) as Hst. { intros <-. by apply (start_not_home st sz Hgeo). }
  case_decide as Hk.
  { pose proof (Hlog k D) as E. rewrite Nat.min_l in E by lia.
    rewrite durable_out; rewrite ?log_writes_start, ?HD; [done|apply not_elem_of_nil]. }
  set (D2 := <[st := commit_head V L]> _).
  assert (D2 st = commit_head V L) as E2 by apply fn_lookup_insert.
  assert (D2 n = D n) as E2n.
  { subst D2. rewrite fn_lookup_insert_ne by done. pose proof (Hlog (length L) D) as E.
    by rewrite Nat.min_id in E. }
  assert (∀ i, (i < length L)%nat → D2 (lblock i) = V (nth_block L i)) as E2l.
  { intros i Hi. subst D2. rewrite fn_lookup_insert_ne by (apply not_eq_sym, lblock_start).
    by apply log_writes_lookup. }
  assert (∀ k, (k ≤ length L)%nat →
    vapply (home_writes (committed V L) L k) D2 n = D2 n ∨ vapply (home_writes (committed V L) L k) D2 n = V n) as Hhome.
  { intros k' Hk'. destruct (home_take (committed V L) L D2 k' n HL Hk' Hn) as [H1 H2].
    destruct (decide (n ∈ L)) as [Hin|Hin]; [|left; by apply H2].
    destruct (H1 Hin) as [->|(i & Hi & ->)]; [by left|right].
    rewrite committed_log by (by eapply lookup_lt_Some). unfold nth_block. by rewrite Hi. }
  case_decide as Hk2.
  - set (D3 := vapply _ D2).
    assert (dec_head (D3 st) = L) as Eh.
    { subst D3. rewrite home_writes_not_home; [|done|lia|by apply start_not_home].
      rewrite E2. apply dec_enc_head; [done|apply HL|by apply (loggable_range st sz)]. }
    destruct (decide (n ∈ L)) as [[i Hi]%list_elem_of_lookup|Hin].
    + assert (i < length L)%nat by (by eapply lookup_lt_Some).
      rewrite (durable_in D3 L i n) by (done || apply HL). subst D3.
      rewrite home_writes_not_home; [|done|lia|by eapply lblock_not_home].
      rewrite E2l by done. unfold nth_block. by rewrite Hi.
    + rewrite durable_out by (by rewrite Eh). subst D3.
      destruct (Hhome (k - length L - 1)%nat) as [->| ->]; [lia| |done]. rewrite E2n. by apply Hclean.
  - set (D3 := <[st := _]> _).
    assert (dec_head (D3 st) = []) as Eh.
    { subst D3. rewrite fn_lookup_insert. apply dec_enc_head; [|simpl; lia|constructor].
      apply length_enc_head; [done|apply HL]. }
    rewrite durable_out by (rewrite Eh; apply not_elem_of_nil). subst D3.
    rewrite fn_lookup_insert_ne by done.
    destruct (decide (n ∈ L)) as [[i Hi]%list_elem_of_lookup|Hin].
    + rewrite (home_writes_lookup _ L _ D2 i n); [|apply HL|by eapply lookup_lt_Some|done|done].
      rewrite committed_log by (by eapply lookup_lt_Some). unfold nth_block. by rewrite Hi.
    + destruct (Hhome (length L)) as [->| ->]; [done| |done]. rewrite E2n. by apply Hclean.
Qed.

(** ** Recovery *)

Definition recovery_writes (D : contents) (L : list Z) : list (Z * block_data) :=
  home_writes D L (length L) ++ [(st, enc_head (D st) [])].

(** A disk whose header names blocks that fit in the log. *)
Record good_header (D : contents) : Prop := {
  gh_log : loggable (dec_head (D st));
  gh_pos : 0 ≤ s32 (get32 (D st) 0);
  gh_len : length (D st) = 1024%nat;
}.

Lemma initlog_spec D l s :
  cache d me D [] [] l (bcache s) → length (lh_block (lg s)) = 30%nat → good_header D →
  wp (initlog me d st sz) (λ _ s', wrote (recovery_writes D (dec_head (D st))) (bcache s) (bcache s') ∧
        logging [] (lg s') ∧ outstanding (lg s') = outstanding (lg s) ∧
        committing (lg s') = committing (lg s) ∧
        ∃ D' l', cache d me D' [] [] l' (bcache s')) s.
Proof using Hgeo.
  intros C Hl [HL Hpos Hlen]. destruct Hgeo as (G1 & G2 & G3). unfold initlog. wp_step.
  change (BSIZE <=? 4 + 4 * LOGSIZE) with false. cbv iota. wp_step.
  wp_step. apply wp_updlog. unfold recover_from_log. rewrite !s32_small by lia.
  set (L := dec_head (D st)) in *.
  set (g1 := (lg s) <| start := st |> <| size := sz |> <| ldev := d |>).
  wp_step. eapply wp_mono; [|eapply (read_head_spec d me st sz Hgeo D l); cbn [lg bcache]; try done; apply HL].
  intros ? s1 (G & F1 & F2 & D1 & l1 & C1). cbn [lg] in F1, F2.
  wp_step. eapply wp_mono; [|eapply (reinstall_spec D L l1); done]. intros ? s2 (W2 & E2 & l2 & C2).
  assert (vapply (home_writes D L (length L)) D st = D st) as Est.
  { apply home_writes_not_home; [done|done|]. by apply start_not_home. }
  wp_step. apply wp_updlog.
  eapply wp_mono; [|eapply (write_head_spec d me st sz Hgeo _ []);
    [|simpl; lia|exact C2|unfold NBUF; simpl; lia|apply not_elem_of_nil|by rewrite Est]].
  - intros ? s3 (E3 & W3 & l3 & C3). rewrite Est in W3. split; [|split; [|split; [|split]]].
    + eapply wrote_trans_l; [exact D1|]. by eapply wrote_trans.
    + rewrite E3. cbn [lg]. rewrite E2. destruct G. by split.
    + rewrite E3. cbn [lg]. by rewrite E2.
    + rewrite E3. cbn [lg]. by rewrite E2.
    + eexists _, l3. exact C3.
  - cbn [lg]. rewrite E2. destruct G. by split.
Qed.

(** Recovery puts every durable block in place, and an interrupted recovery
    loses nothing. *)
Lemma recovery_durable D k n :
  good_header D → home n →
  let W := recovery_writes D (dec_head (D st)) in
  durable (vapply (take k W) D) n = durable D n ∧ vapply W D n = durable D n.
Proof using Hgeo.
  intros [HL Hpos Hlen] Hn W. set (L := dec_head (D st)) in *.
  assert (st ≠ n) as Hst. { intros <-. by apply (start_not_home st sz Hgeo). }
  assert (∀ j, (j ≤ length L)%nat → dec_head (vapply (home_writes D L j) D st) = L) as Hh.
  { intros j Hj. rewrite home_writes_not_home; [done|done|done|]. by apply start_not_home. }
  assert (vapply W D n = durable D n) as Hall.
  { subst W. unfold recovery_writes. rewrite vapply_app.
    change (vapply [?w] ?D) with (<[w.1 := w.2]> D). cbn [fst snd]. rewrite fn_lookup_insert_ne by done.
    destruct (decide (n ∈ L)) as [[i Hi]%list_elem_of_lookup|Hin].
    - rewrite (home_writes_lookup D L _ D i n); [|apply HL|by eapply lookup_lt_Some|done|done].
      symmetry. apply (durable_in D L); [done|apply HL|done].
    - rewrite durable_out by done. by apply home_take. }
  split; [|done]. subst W. unfold recovery_writes in *.
  rewrite take_app, take_home_writes, length_home_writes, vapply_app.
  destruct (decide (k ≤ length L)%nat) as [Hk|Hk].
  - rewrite Nat.min_l by lia. replace (k - length L)%nat with 0%nat by lia.
    change (vapply (take 0 ?w) ?D) with D. specialize (Hh k Hk).
    destruct (decide (n ∈ L)) as [[i Hi]%list_elem_of_lookup|Hin].
    + assert (i < length L)%nat by (by eapply lookup_lt_Some).
      rewrite (durable_in _ L i n Hh) by (done || apply HL).
      rewrite (durable_in D L i n) by (done || apply HL).
      apply home_writes_not_home; [done|done|]. by eapply lblock_not_home.
    + rewrite !durable_out by (rewrite ?Hh; done). by apply home_take.
  - rewrite Nat.min_r by lia. destruct (k - length L)%nat eqn:E; [lia|]. cbn [take]. rewrite take_nil.
    rewrite vapply_app in Hall. rewrite <- Hall. apply durable_out.
    change (vapply [?w] ?D) with (<[w.1 := w.2]> D). cbn [fst snd]. rewrite fn_lookup_insert.
    rewrite dec_enc_head; [apply not_elem_of_nil|done|simpl; lia|constructor].
Qed.
End crash.

(** Starting the file system after a reset. *)
Definition boot_log (me d st sz : Z) : M lst unit := bio binit ;;; initlog me d st sz.

Lemma boot_log_spec d me st sz dsk :
  geometry st sz → d ≠ 0 → good_header st sz (disk_block dsk) →
  wp (boot_log me d st sz)
     (λ _ s, wrote (recovery_writes st (disk_block dsk) (dec_head (disk_block dsk st))) (reboot dsk) (bcache s) ∧
             logging d st sz [] (lg s) ∧ outstanding (lg s) = 0 ∧ committing (lg s) = 0 ∧
             ∃ D l, cache d me D [] [] l (bcache s))
     (Lst (reboot dsk) log0).
Proof.
  intros Hgeo Hd Hh. unfold boot_log. wp_step. apply wp_bio.
  eapply wp_mono; [|by apply (binit_spec d me)]. intros ? b [C D1]. cbn [bcache lg] in *.
  eapply wp_mono; [|by eapply (initlog_spec d me st sz Hgeo)].
  intros ? s (W & G & E1 & E2 & D' & l' & C'). split; [by eapply wrote_trans_l|].
  split; [done|]. split; [done|]. split; [done|]. by exists D', l'.
Qed.

(** C2: Recovery after a crash at any point is complete and idempotent: started
    on any disk whose header is well formed, the file system comes up without
    a panic, every block has its durable contents and the log is empty; and a
    crash between any two writes of the recovery itself leaves every block's
    durable contents as they were. *)
Theorem recovery_correct d me st sz dsk :
  geometry st sz → d ≠ 0 → good_header st sz (disk_block dsk) →
  wp (boot_log me d st sz)
     (λ _ s, ∃ W, dwrites (bcache s) = reverse W ∧ lh_n (lg s) = 0 ∧
        dec_head (on_disk (bcache s) st) = [] ∧
        (∀ n, home st sz n → on_disk (bcache s) n = durable st (disk_block dsk) n) ∧
        ∀ k n, home st sz n →
          durable st (vapply (take k W) (disk_block dsk)) n = durable st (disk_block dsk) n)
     (Lst (reboot dsk) log0).
Proof.
  intros Hgeo Hd Hh. eapply wp_mono; [|by eapply boot_log_spec].
  intros ? s ([W1 W2] & G & _). eexists. split; [by rewrite W2, app_nil_r|].
  split; [apply G|]. split; [|split].
  - rewrite W1. unfold recovery_writes. rewrite vapply_app.
    change (vapply [?w] ?D) with (<[w.1 := w.2]> D). cbn [fst snd]. rewrite fn_lookup_insert.
    apply dec_enc_head; [apply Hh|simpl; lia|constructor].
  - intros n Hn. rewrite W1. by apply (recovery_durable st sz Hgeo _ 0).
  - intros k n Hn. by apply (recovery_durable st sz).
Qed.

(** The crash states of a commit have a well formed header. *)
Lemma commit_header st sz V L D k :
  geometry st sz → loggable st sz L → length (V st) = 1024%nat → length (D st) = 1024%nat →
  get32 (D st) 0 = 0 → good_header st sz (vapply (take k (commit_writes st V L)) D).
Proof.
  intros Hgeo HL HV HD H0.
  assert (∀ x, length x = 1024%nat → get32 x 0 = 0 → ∀ E : contents, E st = x → good_header st sz E) as Hz.
  { intros x Hx Hx0 E <-. unfold dec_head. split; unfold dec_head; rewrite ?Hx0; try done.
    split; simpl; [constructor|apply NoDup_nil_2|lia|]. by destruct Hgeo as (? & ? & ?). }
  pose proof (lo_max _ _ _ HL) as Hmax. rewrite prefix_cases. case_decide.
  { eapply (Hz (D st)); [done|done|]. by apply log_writes_start. }
  case_decide.
  - assert (vapply (home_writes st (committed st V L) L (k - length L - 1))
      (<[st := commit_head st V L]> (vapply (log_writes st V L (length L)) D)) st = commit_head st V L) as Eh.
    { rewrite (home_writes_not_home st sz); [apply fn_lookup_insert|done|lia|by apply start_not_home]. }
    split; rewrite Eh; unfold commit_head.
    + rewrite dec_enc_head; [done|done|done|by apply (loggable_range st sz)].
    + unfold enc_head. rewrite get_enc_entries by (rewrite ?length_putn; unfold lh_off; lia).
      rewrite getn_putn_eq by lia. rewrite Z.mod_small by lia. rewrite s32_small by lia. lia.
    + by apply length_enc_head.
  - eapply (Hz (enc_head (commit_head st V L) [])); [| |apply fn_lookup_insert].
    + apply length_enc_head; [by apply length_enc_head|simpl; lia].
    + change (get32 (put32 (commit_head st V L) 0 0) 0 = 0). rewrite getn_putn_eq; [done|].
      unfold commit_head. rewrite length_enc_head; [lia|done|done].
Qed.

(** C1: Atomicity of a transaction under crashes.  [commit] returns and puts the
    new contents of every block on the disk.  If the machine stops after any
    number [k] of its disk writes and starts again, recovery succeeds and the
    disk holds the old contents of every block when the header had not been
    written, and the new contents of every block when it had. *)
Theorem commit_crash_safe d me st sz V L l s :
  geometry st sz → d ≠ 0 → logging d st sz L (lg s) → loggable st sz L →
  cache d me V [] L l (bcache s) → L ≠ [] → (length L < NBUF)%nat →
  length (V st) = 1024%nat → get32 (V st) 0 = 0 →
  wp (commit me) (λ _ s', ∃ W,
      dwrites (bcache s') = reverse W ++ dwrites (bcache s) ∧
      (∀ n, home st sz n → on_disk (bcache s') n = V n) ∧
      ∀ k dsk, (∀ n, disk_block dsk n = vapply (take k W) (on_disk (bcache s)) n) →
        wp (boot_log me d st sz)
           (λ _ s2, ∀ n, home st sz n →
              on_disk (bcache s2) n =
                if decide (k ≤ length L)%nat then on_disk (bcache s) n else V n)
           (Lst (reboot dsk) log0)) s.
Proof.
  intros Hgeo Hd G HL C Hne Hroom Hlen H0.
  assert (st ∉ L) as Hst.
  { intros [j Hj]%list_elem_of_lookup. apply (start_not_home st sz Hgeo). by eapply loggable_home. }
  assert (on_disk (bcache s) st = V st) as Hdst.
  { apply (c_clean _ _ _ _ _ _ _ C); [apply not_elem_of_nil|done]. }
  assert (∀ k n, home st sz n →
    durable st (vapply (take k (commit_writes st V L)) (on_disk (bcache s))) n =
    if decide (k ≤ length L)%nat then on_disk (bcache s) n else V n) as Hdur.
  { intros k n Hn. apply (commit_durable st sz Hgeo); try done.
    - rewrite Hdst. unfold dec_head. by rewrite H0.
    - intros m Hm _. apply (c_clean _ _ _ _ _ _ _ C); [apply not_elem_of_nil|done]. }
  eapply wp_mono; [|eapply (commit_spec d me st sz Hgeo); try done; lia].
  intros ? s' ([W1 W2] & Eg & l' & C'). exists (commit_writes st V L). split; [done|]. split.
  - intros n Hn. unfold on_disk. rewrite (c_clean _ _ _ _ _ _ _ C') by apply not_elem_of_nil.
    rewrite fn_lookup_insert_ne; [by apply (committed_home st sz)|]. intros <-.
    by apply (start_not_home st sz Hgeo).
  - intros k dsk Hdsk.
    assert (good_header st sz (disk_block dsk)) as Hh.
    { destruct (commit_header st sz V L (on_disk (bcache s)) k) as [A1 A2 A3]; rewrite ?Hdst; try done.
      split; by rewrite Hdsk. }
    eapply wp_mono; [|by apply boot_log_spec]. intros ? s2 ([E1 _] & _) n Hn.
    rewrite <- Hdur by done. rewrite E1.
    etrans; [exact (proj2 (recovery_durable st sz Hgeo _ 0 n Hh Hn))|].
    unfold durable. rewrite Hdsk. case_match; [case_match; subst|]; apply Hdsk.
Qed.
