(* ===== verification/LogProps.v ===== *)
(** * Properties of the log

    [log_write] and its absorption, the space begin_op reserves, what happens
    when a transaction fills the whole cache, and concrete instances of the
    crash theorems. *)

From Stdlib Require Import ZArith Lia.
From stdpp Require Import base numbers list gmap functions strings tactics.
From S2P Require Import Prelude Mem Bytes Locks Bio BioList BioSpec BioProps Log LogSpec LogCrash.

Local Open Scope Z_scope.

(** ** log_write *)

Lemma absorb_found blocks n no i :
  (∀ j b, (j < n)%nat → blocks !! j = Some b → u32 b = b) →
  (i < n)%nat → blocks !! i = Some no → NoDup (take n blocks) → absorb blocks n no = i.
Proof.
  revert n i. induction blocks as [|b blocks IH]; intros n i Hu Hi Hb Hd; [done|].
  destruct n as [|n]; [lia|]. simpl. rewrite (Hu 0%nat b) by (done || lia).
  simpl in Hd. apply list.NoDup_cons in Hd as [Hnb Hd]. destruct i as [|i]; simpl in Hb.
  - simplify_eq. by rewrite Z.eqb_refl.
  - destruct (Z.eqb_spec b no) as [->|].
    + destruct Hnb. apply elem_of_take. exists i. split; [done|lia].
    + f_equal. apply IH; [|lia|done|done]. intros j b' Hj Hb'. apply (Hu (S j) b'); [lia|done].
Qed.
Lemma absorb_new blocks n no :
  (∀ j b, (j < n)%nat → blocks !! j = Some b → u32 b = b) →
  (n ≤ length blocks)%nat → no ∉ take n blocks → absorb blocks n no = n.
Proof.
  revert n. induction blocks as [|b blocks IH]; intros n Hu Hl Hn; [simpl in *; destruct n; (done || lia)|].
  destruct n as [|n]; [done|]. simpl in *. rewrite (Hu 0%nat b) by (done || lia).
  apply not_elem_of_cons in Hn as [Hne Hn]. destruct (Z.eqb_spec b no) as [->|]; [done|].
  f_equal. apply IH; [|lia|done]. intros j b' Hj Hb'. apply (Hu (S j) b'); [lia|done].
Qed.

Section log_write.
Context (d me st sz : Z).
Hypothesis Hgeo : geometry st sz.

Lemma log_write_spec V h L l s b n x :
  logging d st sz L (lg s) → loggable st sz L → cache d me V h L l (bcache s) →
  holds d me (bcache s) b n x → home st sz n → 1 ≤ outstanding (lg s) →
  (length L < 30)%nat → Z.of_nat (length L) < sz - 1 →
  wp (log_write b) (λ _ s',
    let L' := if decide (n ∈ L) then L else L ++ [n] in
    logging d st sz L' (lg s') ∧ loggable st sz L' ∧ cache d me V h L' l (bcache s') ∧
    disk_same (bcache s) (bcache s') ∧ keeps d me (bcache s) (bcache s') ∧
    outstanding (lg s') = outstanding (lg s)) s.
Proof.
  intros G HL C Hh Hn Hout Hlen Hsz. unfold log_write. wp_step. apply wp_getlog.
  rewrite (g_n _ _ _ _ _ G), (g_size _ _ _ _ _ G). unfold LOGSIZE, MAXOPBLOCKS.
  test_false (10 * 3 <=? Z.of_nat (length L)). test_false (sz - 1 <=? Z.of_nat (length L)).
  test_false (outstanding (lg s) <? 1). cbn [orb].
  destruct (held_entry _ _ _ _ _ _ _ _ _ _ C Hh) as (Hin & Ex & y & Hy & Hb & Ed & En & _).
  wp_step. apply wp_bio. eapply wp_getb; [exact Hy|]. cbn [bcache lg]. rewrite En, Nat2Z.id.
  destruct Hn as [Hn1 Hn2]. rewrite s32_small by lia.
  assert (∀ j b, (j < length L)%nat → lh_block (lg s) !! j = Some b → u32 b = b) as Hu.
  { intros j b' Hj Hb'. apply (u32_home st sz). eapply (loggable_home st sz L j); [done|].
    by rewrite <- (g_blocks _ _ _ _ _ G), lookup_take_lt. }
  assert (lg s = lg {| bcache := bcache s; lg := lg s |}) as Elg by done.
  destruct (decide (n ∈ L)) as [[i Hi]%list_elem_of_lookup|HnL].
  - assert (i < length L)%nat by (by eapply lookup_lt_Some).
    assert (lh_block (lg s) !! i = Some n) as Hbi by (by eapply logging_lookup).
    rewrite (absorb_found _ _ _ i) by (done || by rewrite (g_blocks _ _ _ _ _ G); apply HL).
    wp_step. apply wp_lh_set; [cbn [lg]; rewrite (g_len _ _ _ _ _ G); pose proof (lo_max _ _ _ HL); lia|].
    cbn [bcache lg]. test_false (Z.of_nat i =? Z.of_nat (length L)). wp_step.
    assert ((lg s) <| lh_block ::= <[i := n]> |> = lg s) as ->.
    { destruct (lg s) as [a1 a2 a3 a4 a5 a6 bl]. cbv [set_field]. simpl in *. by rewrite list_insert_id. }
    cbn [bcache lg]. split_and!; try done. by intros ? ? ?.
  - rewrite absorb_new; [|done|rewrite (g_len _ _ _ _ _ G); lia|by rewrite (g_blocks _ _ _ _ _ G)].
    wp_step. apply wp_lh_set; [cbn [lg]; rewrite (g_len _ _ _ _ _ G); lia|].
    cbn [bcache lg]. rewrite Z.eqb_refl.
    wp_step. apply wp_bio. eapply wp_mono; [|eapply bpin_spec; [exact C|exact Hh|done]].
    intros ? b1 (C1 & D1 & K1). cbn [bcache lg] in *. apply wp_updlog. cbn [bcache lg].
    assert (lh_n ((lg s) <| lh_block ::= <[length L := n]> |>) = Z.of_nat (length L)) as E by apply G.
    split_and!; [| | |done|done|done].
    + destruct G. split; try done.
      * simpl. rewrite length_app. simpl. rewrite g_n, s32_small by lia. lia.
      * simpl. by rewrite length_insert.
      * simpl. rewrite length_app. simpl. apply list_eq. intros j.
        destruct (decide (j < length L)%nat).
        { rewrite lookup_take_lt, list_lookup_insert_ne by lia. rewrite lookup_app_l by lia.
          transitivity (take (length L) (lh_block (lg s)) !! j); [by rewrite lookup_take_lt|by rewrite g_blocks]. }
        destruct (decide (j = length L)) as [->|].
        { rewrite lookup_take_lt by lia. rewrite list_lookup_insert_eq by (rewrite g_len; lia).
          by rewrite lookup_app_r, Nat.sub_diag by lia. }
        rewrite lookup_take_ge by lia. symmetry. apply lookup_ge_None. rewrite length_app. simpl. lia.
    + destruct HL as [A1 A2 A3 A4]. split.
      * apply Forall_app_2; [done|]. by constructor.
      * apply list.NoDup_app. split; [done|]. split; [|apply NoDup_singleton].
        intros m Hm ->%list_elem_of_singleton. done.
      * rewrite length_app. simpl. lia.
      * rewrite length_app. simpl. lia.
    + eapply cache_ext; [exact C1|done| |done]. by rewrite Permutation_app_comm.
Qed.
End log_write.

(** Absorption: writing a block that is already in the transaction does not
    use log space, writing a new one appends it and pins its buffer, so that
    it cannot be recycled before the commit; the contents the cache shows and
    the disk do not change. *)
Theorem log_write_absorbs d me st sz V h L l s b n x :
  geometry st sz → logging d st sz L (lg s) → loggable st sz L →
  cache d me V h L l (bcache s) → holds d me (bcache s) b n x → home st sz n →
  1 ≤ outstanding (lg s) → (length L < 30)%nat → Z.of_nat (length L) < sz - 1 →
  wp (log_write b) (λ _ s',
    let L' := if decide (n ∈ L) then L else L ++ [n] in
    lh_n (lg s') = Z.of_nat (length L') ∧ take (length L') (lh_block (lg s')) = L' ∧
    cache d me V h L' l (bcache s') ∧ dblocks (bcache s') = dblocks (bcache s)) s.
Proof.
  intros. eapply wp_mono; [|by eapply (log_write_spec d me st sz)].
  intros ? s' (G & _ & C & [D _] & _). split_and!; [apply G|apply G|done|done].
Qed.

(** ** A transaction that fills the cache *)

(** With every buffer pinned there is no buffer for a log block. *)
Lemma full_cache_panics d me V L l s n :
  cache d me V [] L l s → length L = NBUF → n ∉ L → bget me d n s = Panic "bget: no buffers".
Proof.
  intros C Hlen Hn.
  assert (∀ b x, bufs s !! b = Some x → (b < NBUF)%nat → refcnt x ≠ 0) as Hall.
  { intros b x Hx Hb Hz.
    set (key := λ i, blockno (default buf0 (bufs s !! i))).
    assert (length L ≤ length (key <$> filter (λ i, i ≠ b) (seq 0 NBUF)))%nat as Hle.
    { apply submseteq_length, NoDup_submseteq; [apply C|]. intros m Hm.
      destruct (c_used _ _ _ _ _ _ _ C m (or_intror Hm)) as (i & y & Hi & Hy & Ed & Em).
      apply list_elem_of_fmap. exists i. unfold key. rewrite Hy. split; [done|].
      apply list_elem_of_filter. rewrite elem_of_seq. split; [|lia]. intros ->. simplify_eq.
      destruct (entry_unused _ _ _ _ _ (c_mine _ _ _ _ _ _ _ C b x Hb Hx eq_refl) Hz). done. }
    rewrite length_fmap in Hle.
    pose proof (filter_out_length b (seq 0 NBUF) (NoDup_seq _ _) ltac:(apply elem_of_seq; lia)) as Hf.
    rewrite length_seq in Hf. lia. }
  destruct (bget_uncached me d n V [] L l s C) as [[_ E]|(l1 & b & l2 & x & El & Hx & Hz & _)]; [|done|].
  - intros b Hb (x & Hx & Ed & En).
    pose proof (Hall b x Hx Hb). destruct (c_mine _ _ _ _ _ _ _ C b x Hb Hx Ed) as [E _ _ _].
    rewrite En in E. unfold count in E. rewrite !decide_False in E by (done || apply not_elem_of_nil). done.
  - assert (b < NBUF)%nat as Hb.
    { eapply lru_range; [apply C|apply C|]. rewrite El, elem_of_app, elem_of_cons. tauto. }
    by destruct (Hall b x Hx Hb).
Qed.

(** [NBUF] and [LOGSIZE] are both 30: a transaction of 30 blocks, which
    begin_op admits for three concurrent operations, pins every buffer of the
    cache, and its commit stops the kernel when it asks for the first log
    block. *)
Theorem full_transaction_panics d me st sz V L l s :
  geometry st sz → logging d st sz L (lg s) → loggable st sz L →
  cache d me V [] L l (bcache s) → Z.of_nat (length L) = LOGSIZE →
  commit me s = Panic "bget: no buffers".
Proof.
  intros Hgeo G HL C Hlen. unfold LOGSIZE, MAXOPBLOCKS in Hlen.
  assert (length L = 30%nat) as Hl by lia.
  assert (lblock st 0 ∉ L) as Hn by (apply (lblock_not_in st sz Hgeo); [done|lia]).
  pose proof (full_cache_panics d me V L l (bcache s) _ C Hl Hn) as E.
  unfold commit. rewrite (bind_Ret getlog _ s (lg s) s eq_refl), (g_n _ _ _ _ _ G), Hl.
  change (0 <? Z.of_nat 30) with true. cbv iota. apply bind_Panic.
  unfold write_log. rewrite (bind_Ret tails _ s (seq 0 30) s).
  2:{ unfold tails. rewrite (bind_Ret getlog _ s (lg s) s eq_refl). by rewrite (g_n _ _ _ _ _ G), Hl. }
  change (seq 0 30) with (0%nat :: seq 1 29). cbn [for_each]. apply bind_Panic.
  rewrite (bind_Ret getlog _ s (lg s) s eq_refl). apply bind_Panic.
  rewrite (log_block_eq d st sz Hgeo L) by (done || lia). rewrite (g_dev _ _ _ _ _ G).
  unfold bio, lift, bread. by rewrite (bind_Panic _ _ _ _ E).
Qed.

(** ** The space begin_op reserves *)

(** A computation that leaves [struct log] alone. *)
Definition frames {A} (m : M lst A) : Prop := ∀ s a s', m s = Ret (a, s') → lg s' = lg s.

Lemma frames_bind {A B} (m : M lst A) (f : A → M lst B) : frames m → (∀ a, frames (f a)) → frames (bind m f).
Proof.
  intros Hm Hf s b s'. unfold bind. destruct (m s) as [[a s1]| | | |] eqn:E; try done.
  intros E'. rewrite (Hf a _ _ _ E'). by eapply Hm.
Qed.
Lemma frames_bio {A} (m : M bst A) : frames (bio m).
Proof. intros s a s'. unfold bio, lift. destruct (m (bcache s)) as [[? ?]| | | |]; try done. by intros [= _ <-]. Qed.
Lemma frames_getlog : frames getlog.
Proof. by intros s a s' [= _ <-]. Qed.
Lemma frames_ret {A} (a : A) : frames (ret a).
Proof. by intros s x s' [= _ <-]. Qed.
Lemma frames_lh_get i : frames (lh_get i).
Proof.
  apply frames_bind; [apply frames_getlog|]. intros l. destruct (lh_block l !! i); [apply frames_ret|done].
Qed.
Lemma frames_tails : frames tails.
Proof. apply frames_bind; [apply frames_getlog|]. intros. apply frames_ret. Qed.
Lemma frames_for_each {I} (l : list I) body : (∀ i, frames (body i)) → frames (for_each l body).
Proof.
  intros H. induction l as [|i l IH]; [apply frames_ret|]. simpl. apply frames_bind; [apply H|]. by intros _.
Qed.

Create HintDb frames.
#[export] Hint Resolve frames_bio frames_getlog frames_ret frames_lh_get frames_tails : frames.
Ltac frames := repeat first
  [ progress auto with frames
  | apply frames_bind; [|intros ?]
  | apply frames_for_each; intros ?
  | match goal with |- frames (if ?b then _ else _) => destruct b end ].

Lemma write_log_frames me : frames (write_log me).
Proof. unfold write_log. frames. Qed.
Lemma write_head_frames me : frames (write_head me).
Proof. unfold write_head. frames. Qed.
Lemma install_frames me r : frames (install_trans me r).
Proof. unfold install_trans. frames. Qed.

(** [commit] empties the transaction and changes nothing else of the log. *)
Lemma commit_lg me s s' : commit me s = Ret (tt, s') → 0 ≤ lh_n (lg s) → lg s' = (lg s) <| lh_n := 0 |>.
Proof.
  unfold commit, bind at 1, getlog, bind at 1, get, ret at 1. destruct (0 <? lh_n (lg s)) eqn:E.
  - unfold bind at 1. destruct (write_log me s) as [[? s1]| | | |] eqn:E1; try done.
    unfold bind at 1. destruct (write_head me s1) as [[? s2]| | | |] eqn:E2; try done.
    unfold bind at 1. destruct (install_trans me false s2) as [[? s3]| | | |] eqn:E3; try done.
    unfold bind at 1, updlog, modify. intros E4. apply write_head_frames in E4.
    apply write_log_frames in E1. apply write_head_frames in E2. apply install_frames in E3.
    rewrite E4. cbn. by rewrite E3, E2, E1.
  - intros [= <-] H0. bool_to_prop. destruct (lg s) as [a1 a2 a3 a4 a5 n bl]. cbv [set_field]. simpl in *.
    by replace n with 0 by lia.
Qed.

(** The operations in progress, each with the number of blocks it may still
    add; one operation adds at most [MAXOPBLOCKS]. *)
Inductive log_step (me : Z) : lst * list Z → lst * list Z → Prop :=
  | step_begin s s' ops : begin_try s = Ret (true, s') →
      log_step me (s, ops) (s', MAXOPBLOCKS :: ops)
  | step_write s s' ops1 k ops2 b : 0 < k → log_write b s = Ret (tt, s') →
      log_step me (s, ops1 ++ k :: ops2) (s', ops1 ++ (k - 1) :: ops2)
  | step_end s s' ops1 k ops2 : end_op me s = Ret (tt, s') →
      log_step me (s, ops1 ++ k :: ops2) (s', ops1 ++ ops2).

Definition total (ops : list Z) : Z := foldr Z.add 0 ops.
Record reserved (s : lst) (ops : list Z) : Prop := {
  rs_out : outstanding (lg s) = Z.of_nat (length ops);
  rs_ops : Forall (λ k, 0 ≤ k ≤ MAXOPBLOCKS) ops;
  rs_space : lh_n (lg s) + total ops ≤ LOGSIZE;
  rs_n : 0 ≤ lh_n (lg s);
  rs_small : Z.of_nat (length ops) ≤ LOGSIZE;
}.

Lemma total_app a b : total (a ++ b) = total a + total b.
Proof. unfold total. induction a as [|x a IH]; simpl; [done|]. rewrite IH. lia. Qed.
Lemma total_bound ops : Forall (λ k, 0 ≤ k ≤ MAXOPBLOCKS) ops → 0 ≤ total ops ≤ MAXOPBLOCKS * Z.of_nat (length ops).
Proof. unfold total. induction 1 as [|k ops Hk _ IH]; simpl; lia. Qed.

Lemma begin_try_lg s s' :
  begin_try s = Ret (true, s') →
  lh_n (lg s) + (outstanding (lg s) + 1) * MAXOPBLOCKS ≤ LOGSIZE ∧
  outstanding (lg s') = s32 (outstanding (lg s) + 1) ∧ lh_n (lg s') = lh_n (lg s).
Proof.
  unfold begin_try, bind, getlog, bind, get, ret.
  destruct (negb _); [done|]. destruct (LOGSIZE <? _) eqn:E; [done|]. bool_to_prop.
  intros [= <-]. done.
Qed.

Lemma log_write_lg b s s' :
  log_write b s = Ret (tt, s') → 0 ≤ lh_n (lg s) →
  outstanding (lg s') = outstanding (lg s) ∧ lh_n (lg s) ≤ lh_n (lg s') ≤ lh_n (lg s) + 1.
Proof.
  intros E H0. revert E. unfold log_write, bind at 1, getlog at 1, bind at 1, get, ret at 1.
  destruct (_ || _) eqn:E1; [done|]. destruct (_ <? 1); [done|].
  unfold bind at 1. destruct (bio (getb b) s) as [[x s1]| | | |] eqn:E2; try done. apply frames_bio in E2.
  unfold bind at 1, lh_set, bind at 1, getlog, bind at 1, get, ret at 1.
  set (i := absorb _ _ _). destruct (_ <? _)%nat; [|done]. unfold updlog, modify.
  destruct (Z.of_nat i =? lh_n (lg s)) eqn:E3.
  - unfold bind. destruct (bio (bpin b) _) as [[? s2]| | | |] eqn:E4; try done. apply frames_bio in E4.
    intros [= <-]. simpl. rewrite E4. simpl. rewrite E2. bool_to_prop. unfold LOGSIZE, MAXOPBLOCKS in *.
    rewrite s32_small by lia. lia.
  - intros [= <-]. simpl. rewrite E2. lia.
Qed.

Lemma end_op_lg me s s' :
  end_op me s = Ret (tt, s') → 0 ≤ lh_n (lg s) →
  outstanding (lg s') = s32 (outstanding (lg s) - 1) ∧ 0 ≤ lh_n (lg s') ≤ lh_n (lg s).
Proof.
  intros E H0. revert E. unfold end_op, bind at 1, updlog at 1, modify at 1.
  unfold bind at 1, getlog, bind at 1, get, ret at 1. cbn [lg set_field eta_lst].
  destruct (negb _); [done|]. case_if.
  - unfold bind at 1, updlog at 1, modify at 1. unfold bind at 1.
    destruct (commit me _) as [[[] s1]| | | |] eqn:E1; try done. apply commit_lg in E1; [|done].
    intros [= <-]. cbn. rewrite E1. simpl. lia.
  - intros [= <-]. simpl. lia.
Qed.

