(* ===== verification/LogDemo.v ===== *)
(** * Transactions on a concrete disk

    The steps of a transaction put together (boot, begin_op, block updates),
    and concrete instances of the theorems on the log. *)

From Stdlib Require Import ZArith Lia.
From stdpp Require Import base numbers list gmap functions strings tactics.
From S2P Require Import Prelude Mem Bytes Locks Bio BioList BioSpec BioProps Log LogSpec LogCrash LogProps.

Local Open Scope Z_scope.

(** A typical use of the log, as log.c describes it. *)
Definition update_block (me d n : Z) (f : block_data → block_data) : M lst unit :=
  let* b := bio (bread me d n) in
  bio (updb b (λ y, y <| bdata ::= f |>)) ;;;
  log_write b ;;;
  bio (brelse me b).

(** Inside a transaction with the blocks [L] modified. *)
Record txn (d me st sz : Z) (V : contents) (L : list Z) (s : lst) : Prop := {
  t_log : logging d st sz L (lg s);
  t_fits : loggable st sz L;
  t_cache : ∃ l, cache d me V [] L l (bcache s);
  t_out : 1 ≤ outstanding (lg s);
}.

Lemma update_block_spec d me st sz V L s n f :
  geometry st sz → txn d me st sz V L s → home st sz n →
  (length L < 30)%nat → Z.of_nat (length L) < sz - 1 →
  wp (update_block me d n f) (λ _ s',
    txn d me st sz (<[n := f (V n)]> V) (if decide (n ∈ L) then L else L ++ [n]) s' ∧
    disk_same (bcache s) (bcache s')) s.
Proof.
  intros Hgeo [G HL [l C] Ho] Hn Hlen Hsz. unfold update_block.
  wp_step. apply wp_bio. eapply wp_mono; [|eapply bread_spec; [exact C|apply not_elem_of_nil|]].
  2:{ right. simpl. unfold NBUF. lia. }
  intros b b1 (C1 & H1 & D1 & _). cbn [bcache lg].
  wp_step. apply wp_bio. eapply wp_mono; [|eapply store_spec; [exact C1|exact H1]].
  intros ? b2 (C2 & H2 & D2 & _). cbn [bcache lg].
  wp_step. eapply wp_mono; [|eapply (log_write_spec d me st sz _ _ L); [exact G|exact HL|exact C2|exact H2|done..]].
  intros ? s3 (G3 & HL3 & C3 & D3 & K3 & O3). cbn [bcache lg] in *. apply K3 in H2.
  apply wp_bio. eapply wp_mono; [|eapply (brelse_spec d me _ _ []); [exact C3|exact H2|done|]].
  - intros ? b4 (l4 & C4 & D4 & _). cbn [bcache lg]. split.
    + split; [done|done|by exists l4|]. cbn [lg]. rewrite O3. exact Ho.
    + destruct D1, D2, D3, D4. split; congruence.
  - left. case_decide; [done|]. rewrite elem_of_app, list_elem_of_singleton. by right.
Qed.

(** Many updates of different blocks. *)
Lemma update_blocks_spec d me st sz V L s ns f :
  geometry st sz → txn d me st sz V L s → Forall (home st sz) ns → NoDup (L ++ ns) →
  (length L + length ns ≤ 30)%nat → Z.of_nat (length L + length ns) < sz →
  wp (for_each ns (λ n, update_block me d n f)) (λ _ s', ∃ V',
    txn d me st sz V' (L ++ ns) s' ∧ disk_same (bcache s) (bcache s') ∧
    ∀ m, m ∉ ns → V' m = V m) s.
Proof.
  intros Hgeo. revert V L s. induction ns as [|n ns IH]; intros V L s T Hns Hd Hlen Hsz; simpl.
  { wp_step. exists V. by rewrite app_nil_r. }
  inversion Hns as [|? ? Hn Hns']; subst. simpl in Hlen, Hsz.
  assert (n ∉ L) as HnL.
  { intros Hin. apply list.NoDup_app in Hd as (_ & Hd & _). apply (Hd n Hin). constructor. }
  wp_step. eapply wp_mono; [|eapply (update_block_spec d me st sz V L); [done|done|done|lia|lia]].
  intros ? s1 (T1 & D1). rewrite decide_False in T1 by done.
  eapply wp_mono; [|eapply (IH _ (L ++ [n])); [exact T1|done|by rewrite <- app_assoc|rewrite length_app; simpl; lia|rewrite length_app; simpl; lia]].
  intros ? s2 (V2 & T2 & D2 & E2). exists V2. rewrite <- app_assoc in T2. split; [done|]. split.
  - destruct D1, D2. split; congruence.
  - intros m [Hm1 Hm2]%not_elem_of_cons. rewrite E2 by done. by rewrite fn_lookup_insert_ne.
Qed.

(** The log in blocks 2 to 32 of an empty disk. *)
Definition demo_boot : M lst unit := boot_log 5 1 2 31.
Lemma demo_geometry : geometry 2 31.
Proof. done. Qed.
Lemma demo_header : good_header 2 31 (disk_block ∅).
Proof.
  split; [|by vm_compute|by vm_compute].
  replace (dec_head (disk_block ∅ 2)) with (@nil Z) by (by vm_compute).
  split; [constructor|apply NoDup_nil_2|simpl; lia|simpl; lia].
Qed.

(** A transaction that has modified the blocks [ns]. *)
Lemma demo_txn ns :
  Forall (home 2 31) ns → NoDup ns → (length ns ≤ 30)%nat →
  ∃ s V l, logging 1 2 31 ns (lg s) ∧ loggable 2 31 ns ∧ cache 1 5 V [] ns l (bcache s) ∧
    outstanding (lg s) = 1 ∧ length (V 2) = 1024%nat ∧ get32 (V 2) 0 = 0.
Proof.
  intros Hns Hd Hlen.
  destruct (proj1 (wp_returns _ _ _) (boot_log_spec 1 5 2 31 ∅ demo_geometry ltac:(lia) demo_header))
    as ([] & s0 & _ & W0 & G0 & O0 & K0 & D & l0 & C0).
  set (s1 := Lst (bcache s0) ((lg s0) <| outstanding := 1 |>)).
  assert (txn 1 5 2 31 D [] s1) as T1.
  { split; [destruct G0; by split| |by exists l0|done].
    split; [constructor|apply NoDup_nil_2|simpl; lia|simpl; lia]. }
  destruct (proj1 (wp_returns _ _ _)
    (update_blocks_spec 1 5 2 31 D [] s1 ns (λ _, [1]) demo_geometry T1 Hns Hd ltac:(simpl; lia) ltac:(simpl; lia)))
    as ([] & s & _ & V & [G HL [l C] _] & _ & E).
  assert (V 2 = enc_head (disk_block ∅ 2) []) as EV.
  { rewrite E.
    2:{ intros Hin. rewrite list.Forall_forall in Hns. destruct (Hns _ Hin) as [_ ?]. lia. }
    rewrite <- (c_clean _ _ _ _ _ _ _ C0) by apply not_elem_of_nil.
    destruct W0 as [W0 _]. unfold on_disk in W0. rewrite W0. by vm_compute. }
  exists (Lst (bcache s) ((lg s) <| outstanding := 1 |>)), V, l. split_and!; try done.
  - destruct G. by split.
  - rewrite EV. by vm_compute.
  - rewrite EV. by vm_compute.
Qed.

Lemma home_range n : 33 ≤ n < 100 → home 2 31 n.
Proof. unfold home. lia. Qed.

Lemma demo_blocks k : (k ≤ 30)%nat → 
  let ns := (λ i, 40 + Z.of_nat i) <$> seq 0 k in
  Forall (home 2 31) ns ∧ NoDup ns ∧ length ns = k.
Proof.
  intros Hk ns. split; [|split].
  - apply list.Forall_forall. intros n (i & -> & [_ Hi]%elem_of_seq)%list_elem_of_fmap. apply home_range. lia.
  - apply NoDup_fmap_2; [intros i j; lia|apply NoDup_seq].
  - unfold ns. by rewrite length_fmap, length_seq.
Qed.

Lemma recovery_correct_witness :
  wp (boot_log 5 1 2 31)
     (λ _ s, ∃ W, dwrites (bcache s) = reverse W ∧ lh_n (lg s) = 0 ∧
        dec_head (on_disk (bcache s) 2) = [] ∧
        (∀ n, home 2 31 n → on_disk (bcache s) n = durable 2 (disk_block ∅) n) ∧
        ∀ k n, home 2 31 n →
          durable 2 (vapply (take k W) (disk_block ∅)) n = durable 2 (disk_block ∅) n)
     (Lst (reboot ∅) log0).
Proof. apply (recovery_correct 1 5 2 31 ∅ demo_geometry ltac:(lia) demo_header). Defined.

Lemma commit_crash_safe_witness : ∃ s V l,
  logging 1 2 31 [40; 41] (lg s) ∧ cache 1 5 V [] [40; 41] l (bcache s) ∧
  wp (commit 5) (λ _ s', ∃ W,
      dwrites (bcache s') = reverse W ++ dwrites (bcache s) ∧
      (∀ n, home 2 31 n → on_disk (bcache s') n = V n) ∧
      ∀ k dsk, (∀ n, disk_block dsk n = vapply (take k W) (on_disk (bcache s)) n) →
        wp (boot_log 5 1 2 31)
           (λ _ s2, ∀ n, home 2 31 n →
              on_disk (bcache s2) n =
                if decide (k ≤ length [40; 41])%nat then on_disk (bcache s) n else V n)
           (Lst (reboot dsk) log0)) s.
Proof.
  destruct (demo_blocks 2 ltac:(lia)) as (A1 & A2 & A3).
  destruct (demo_txn [40; 41] A1 A2 ltac:(simpl; lia)) as (s & V & l & G & HL & C & O & E1 & E2).
  exists s, V, l. split; [exact G|]. split; [exact C|].
  apply (commit_crash_safe 1 5 2 31 V [40; 41] l s demo_geometry ltac:(lia) G HL C ltac:(discriminate)
    ltac:(unfold NBUF; simpl; lia) E1 E2).
Defined.

Lemma full_transaction_panics_witness : ∃ s, commit 5 s = Panic "bget: no buffers".
Proof.
  destruct (demo_blocks 30 ltac:(lia)) as (A1 & A2 & A3).
  destruct (demo_txn ((λ i, 40 + Z.of_nat i) <$> seq 0 30) A1 A2 ltac:(rewrite A3; lia))
    as (s & V & l & G & HL & C & _).
  exists s. apply (full_transaction_panics 1 5 2 31 V _ l s demo_geometry G HL C).
  rewrite A3. reflexivity.
Defined.

Lemma log_write_absorbs_witness : ∃ s V l b,
  cache 1 5 V [41] [40; 41] l (bcache s) ∧
  wp (log_write b) (λ _ s',
    let L' := if decide (41 ∈ [40; 41]) then [40; 41] else [40; 41] ++ [41] in
    lh_n (lg s') = Z.of_nat (length L') ∧ take (length L') (lh_block (lg s')) = L' ∧
    cache 1 5 V [41] L' l (bcache s') ∧ dblocks (bcache s') = dblocks (bcache s)) s.
Proof.
  destruct (demo_blocks 2 ltac:(lia)) as (A1 & A2 & A3).
  destruct (demo_txn [40; 41] A1 A2 ltac:(simpl; lia)) as (s & V & l & G & HL & C & O & E1 & E2).
  destruct (proj1 (wp_returns _ _ _) (bread_spec 1 5 V [] [40; 41] l (bcache s) 41 C
    ltac:(apply not_elem_of_nil) ltac:(right; unfold NBUF; simpl; lia))) as (b & b1 & _ & C1 & H1 & _).
  exists (Lst b1 (lg s)), V, l, b. split; [exact C1|].
  apply (log_write_absorbs 1 5 2 31 V [41] [40; 41] l (Lst b1 (lg s)) b 41 (V 41)
    demo_geometry G HL C1 H1 (home_range 41 ltac:(lia))); simpl; lia.
Defined.

