(* ===== verification/Ftypes.v ===== *)
(** * The state of the file layer (kernel/fs.h, kernel/file.h, kernel/stat.h)

    The structures shared by fs.c, file.c, pipe.c, console.c and sysfile.c, and
    the part [fsys] of the kernel state they keep.  A pointer into the inode
    table or the file table is the index of the entry plus one, 0 is the null
    pointer; a pointer to a pipe is the address of its page. *)

From Stdlib Require Import ZArith Lia.
From stdpp Require Import base numbers list gmap strings tactics.
From S2P Require Import Prelude Riscv Mem Bytes Kalloc Vm Proc Locks Bio Log.

Local Open Scope Z_scope.

(** ** fs.h *)

Definition ROOTINO : Z := 1.
Definition ROOTDEV : Z := 1.
Definition FSMAGIC : Z := 0x10203040.
Definition NDIRECT : Z := 12.
Definition NINDIRECT : Z := BSIZE / 4.
Definition MAXFILE : Z := NDIRECT + NINDIRECT.
Definition DIRSIZ : nat := 14.
Definition NINODE : nat := 50.
Definition NFILE : nat := 100.
Definition NDEV : Z := 10.

(** [struct superblock] *)
Record superblock := Superblock {
  magic : Z;
  sb_size : Z;
  nblocks : Z;
  ninodes : Z;
  nlog : Z;
  logstart : Z;
  inodestart : Z;
  bmapstart : Z;
}.

(** Inodes per block ([sizeof(struct dinode)] is 64), bitmap bits per block. *)
Definition IPB : Z := BSIZE / 64.
Definition IBLOCK (i : Z) (sb : superblock) : Z := u32 (i / IPB + inodestart sb).
Definition BPB : Z := BSIZE * 8.
Definition BBLOCK (b : Z) (sb : superblock) : Z := u32 (b / BPB + bmapstart sb).

(** ** stat.h, fcntl.h *)

Definition T_DIR : Z := 1.
Definition T_FILE : Z := 2.
Definition T_DEVICE : Z := 3.
Definition O_RDONLY : Z := 0x000.
Definition O_WRONLY : Z := 0x001.
Definition O_RDWR : Z := 0x002.
Definition O_CREATE : Z := 0x200.
Definition O_TRUNC : Z := 0x400.

(** ** file.h *)

(** [struct inode], the in-memory copy of an inode. *)
Record inode := Inode {
  idev : Z;
  inum : Z;
  iref : Z;
  ilk : Sleeplock.sleeplock;
  ivalid : Z;
  itype : Z;
  imajor : Z;
  iminor : Z;
  inlink : Z;
  isize : Z;
  iaddrs : list Z;
}.
#[global] Instance eta_inode : Eta inode := λ i,
  Inode (idev i) (inum i) (iref i) (ilk i) (ivalid i) (itype i) (imajor i) (iminor i)
    (inlink i) (isize i) (iaddrs i).
Definition inode0 : inode :=
  Inode 0 0 0 (Sleeplock.SleepLock 0 0) 0 0 0 0 0 0 (replicate 13 0).

Inductive fdtype := FD_NONE | FD_PIPE | FD_INODE | FD_DEVICE.
#[global] Instance fdtype_eq_dec : EqDecision fdtype.
Proof. solve_decision. Defined.

(** [struct file] *)
Record file := File {
  ftype : fdtype;
  fref : Z;
  readable : Z;
  writable : Z;
  fpipe : Z;
  fip : Z;
  foff : Z;
  fmajor : Z;
}.
#[global] Instance eta_file : Eta file := λ f,
  File (ftype f) (fref f) (readable f) (writable f) (fpipe f) (fip f) (foff f) (fmajor f).
Definition file0 : file := File FD_NONE 0 0 0 0 0 0 0.

Definition CONSOLE : Z := 1.

(** [struct pipe] without its lock. *)
Record pipe := Pipe {
  pdata : list Z;
  nread : Z;
  nwrite : Z;
  readopen : Z;
  writeopen : Z;
}.
#[global] Instance eta_pipe : Eta pipe := λ p,
  Pipe (pdata p) (nread p) (nwrite p) (readopen p) (writeopen p).

(** [cons] of console.c. *)
Record console := Console {
  cbuf : list Z;
  cr : Z;
  cw : Z;
  ce : Z;
}.
#[global] Instance eta_console : Eta console := λ c, Console (cbuf c) (cr c) (cw c) (ce c).

(** The transmit buffer of uart.c and the device: whether its transmit
    register is free, the bytes received, the bytes sent (newest first). *)
Record uart := Uart {
  tx_buf : list Z;
  tx_w : Z;
  tx_r : Z;
  tx_idle : bool;
  rx : list Z;
  sent : list Z;
}.
#[global] Instance eta_uart : Eta uart := λ u,
  Uart (tx_buf u) (tx_w u) (tx_r u) (tx_idle u) (rx u) (sent u).

(** ** The state *)

Record fsys := Fsys {
  flog : lst;
  sb : superblock;
  itable : list inode;
  ftable : list file;
  pipes : gmap Z pipe;
  kcons : console;
  uart0 : uart;
  readcount : Z;
}.
#[global] Instance eta_fsys : Eta fsys := λ f,
  Fsys (flog f) (sb f) (itable f) (ftable f) (pipes f) (kcons f) (uart0 f) (readcount f).

Abbreviation kernel := (sys fsys).

(** Run an operation of log.c or bio.c. *)
Definition mypid : M kernel Z :=
  let* i := myproc in
  let* p := getp i in
  ret (pid p).
Definition on_log {A} (m : M lst A) : M kernel A :=
  lift (λ s, flog (files s)) (λ l s, s <| files ::= (λ f, f <| flog := l |>) |>) m.
Definition blk {A} (m : M bst A) : M kernel A := on_log (bio m).

Definition getfs : M kernel fsys := let* s := get in ret (files s).
Definition updfs (f : fsys → fsys) : M kernel unit := modify (λ s, s <| files ::= f |>).
Definition getsb : M kernel superblock := let* f := getfs in ret (sb f).

(** Inodes and files through their pointers. *)
Definition geti (ip : Z) : M kernel inode := λ s,
  match (if ip =? 0 then None else itable (files s) !! Z.to_nat (ip - 1)) with
  | Some i => Ret (i, s)
  | None => Fault "inode"
  end.
Definition updi (ip : Z) (f : inode → inode) : M kernel unit :=
  let* i := geti ip in
  updfs (λ fs, fs <| itable ::= <[Z.to_nat (ip - 1) := f i]> |>).
Definition getf (fp : Z) : M kernel file := λ s,
  match (if fp =? 0 then None else ftable (files s) !! Z.to_nat (fp - 1)) with
  | Some f => Ret (f, s)
  | None => Fault "file"
  end.
Definition updf (fp : Z) (f : file → file) : M kernel unit :=
  let* x := getf fp in
  updfs (λ fs, fs <| ftable ::= <[Z.to_nat (fp - 1) := f x]> |>).
