(* ===== verification/Fs.v ===== *)
(** * The file system (kernel/fs.c)

    Every function of fs.c, on the bytes of the blocks.  The functions run in
    the kernel monad, because they copy from and to user memory and read the
    current process.  A buffer on the kernel stack ([&de]) is a byte list.
    A critical section under [itable.lock] is one step. *)

From Stdlib Require Import ZArith Lia.
From stdpp Require Import base numbers list gmap strings tactics.
From S2P Require Import Prelude Riscv Mem Bytes Kalloc Vm Proc Locks Bio Log Ftypes.

Local Open Scope Z_scope.

(** ** Calls of bio.c and log.c by the current process *)

Definition kbread (dev no : Z) : M kernel nat := let* me := mypid in blk (bread me dev no).
Definition kbrelse (b : nat) : M kernel unit := let* me := mypid in blk (brelse me b).
Definition klog_write (b : nat) : M kernel unit := on_log (log_write b).
Definition kbegin_op : M kernel unit := on_log Log.begin_op.
Definition kend_op : M kernel unit :=
  let* me := mypid in
  on_log (Log.end_op me) ;;;
  wakeup (ChGlobal "log").
Definition bp_data (b : nat) : M kernel (list Z) := let* x := blk (getb b) in ret (bdata x).
Definition bp_store (b : nat) (f : list Z → list Z) : M kernel unit :=
  blk (updb b (λ x, x <| bdata ::= f |>)).

(** ** Blocks *)

Definition dec_superblock (x : list Z) : superblock :=
  Superblock (get32 x 0) (get32 x 4) (get32 x 8) (get32 x 12)
    (get32 x 16) (get32 x 20) (get32 x 24) (get32 x 28).

Definition readsb (dev : Z) : M kernel unit :=
  let* bp := kbread dev 1 in
  let* x := bp_data bp in
  updfs (λ f, f <| sb := dec_superblock x |>) ;;;
  kbrelse bp.

Definition fsinit (dev : Z) : M kernel unit :=
  readsb dev ;;;
  let* sb := getsb in
  if negb (magic sb =? FSMAGIC) then panic "invalid file system"
  else let* me := mypid in on_log (initlog me dev (logstart sb) (nlog sb)).

Definition bzero (dev bno : Z) : M kernel unit :=
  let* bp := kbread dev bno in
  bp_store bp (λ _, zero_block) ;;;
  klog_write bp ;;;
  kbrelse bp.

(** The byte and the mask of bit [bi] of a bitmap block. *)
Definition bit_byte (x : list Z) (bi : Z) : Z := default 0 (x !! Z.to_nat (bi / 8)).
Definition bit_mask (bi : Z) : Z := Z.shiftl 1 (bi mod 8).
Definition bit_clear (x : list Z) (bi : Z) : bool := Z.land (bit_byte x bi) (bit_mask bi) =? 0.
Definition set_bit (bi : Z) (x : list Z) : list Z :=
  <[Z.to_nat (bi / 8) := Z.lor (bit_byte x bi) (bit_mask bi)]> x.
Definition clear_bit (bi : Z) (x : list Z) : list Z :=
  <[Z.to_nat (bi / 8) := u8 (Z.land (bit_byte x bi) (Z.lnot (bit_mask bi)))]> x.

(** The inner loop of [balloc]: the first clear bit from [bi] on; [fuel] is
    the number of bits of the block that are left. *)
Fixpoint find_clear (fuel : nat) (x : list Z) (b size bi : Z) : option Z :=
  match fuel with
  | O => None
  | S fuel =>
      if u32 (b + bi) <? size then
        if bit_clear x bi then Some bi else find_clear fuel x b size (bi + 1)
      else None
  end.

(** A bitmap has at most 2^32 / BPB blocks. *)
Definition bitmap_fuel : positive := 2^20.

Definition balloc (dev : Z) : M kernel Z :=
  let* sb := getsb in
  loop bitmap_fuel (λ b,
    if u32 b <? sb_size sb then
      let* bp := kbread dev (BBLOCK b sb) in
      let* x := bp_data bp in
      match find_clear (Z.to_nat BPB) x b (sb_size sb) 0 with
      | Some bi =>
          bp_store bp (set_bit bi) ;;;
          klog_write bp ;;;
          kbrelse bp ;;;
          bzero dev (u32 (b + bi)) ;;;
          ret (inr (u32 (b + bi)))
      | None =>
          kbrelse bp ;;;
          ret (inl (s32 (b + BPB)))
      end
    else ret (inr 0)) 0.

Definition bfree (dev b : Z) : M kernel unit :=
  let* sb := getsb in
  let* bp := kbread dev (BBLOCK b sb) in
  let bi := b mod BPB in
  let* x := bp_data bp in
  if bit_clear x bi then panic "freeing free block"
  else
    bp_store bp (clear_bit bi) ;;;
    klog_write bp ;;;
    kbrelse bp.

(** ** Inodes *)

Definition iinit : M kernel unit :=
  for_each (seq 0 NINODE) (λ i,
    updi (Z.of_nat i + 1) (λ ip, ip <| ilk := Sleeplock.initsleeplock |>)).

(** Fields of [struct dinode] at byte [o] of a block. *)
Definition dinode_off (inum : Z) : nat := (64 * Z.to_nat (inum mod IPB))%nat.
Definition di_type (x : list Z) (o : nat) : Z := s16 (get16 x o).
Definition put_dinode (o : nat) (ip : inode) (x : list Z) : list Z :=
  let x := put16 x o (itype ip) in
  let x := put16 x (o + 2) (imajor ip) in
  let x := put16 x (o + 4) (iminor ip) in
  let x := put16 x (o + 6) (inlink ip) in
  let x := put32 x (o + 8) (isize ip) in
  foldl (λ x '(k, a), put32 x (o + 12 + 4 * k) a) x (imap pair (iaddrs ip)).
Definition get_addrs (x : list Z) (o : nat) : list Z :=
  (λ k, get32 x (o + 12 + 4 * k)) <$> seq 0 13.
Definition get_dinode (x : list Z) (o : nat) (ip : inode) : inode :=
  ip <| itype := di_type x o |> <| imajor := s16 (get16 x (o + 2)) |>
     <| iminor := s16 (get16 x (o + 4)) |> <| inlink := s16 (get16 x (o + 6)) |>
     <| isize := get32 x (o + 8) |> <| iaddrs := get_addrs x o |>.

(** The scan of [iget]: the entry of the inode, or the first empty one. *)
Fixpoint iget_scan (l : list nat) (dev inum : Z) (empty : option nat) (t : list inode)
  : nat + option nat :=
  match l with
  | [] => inr empty
  | i :: l =>
      match t !! i with
      | None => inr empty
      | Some ip =>
          if (0 <? iref ip) && (idev ip =? dev) && (Ftypes.inum ip =? inum) then inl i
          else
            iget_scan l dev inum
              (match empty with
               | None => if iref ip =? 0 then Some i else None
               | Some e => Some e
               end) t
      end
  end.
Definition iptr (i : nat) : Z := Z.of_nat i + 1.

Definition iget (dev inum : Z) : M kernel Z :=
  let* f := getfs in
  match iget_scan (seq 0 NINODE) dev inum None (itable f) with
  | inl i =>
      updi (iptr i) (λ ip, ip <| iref := s32 (iref ip + 1) |>) ;;;
      ret (iptr i)
  | inr None => panic "iget: no inodes"
  | inr (Some i) =>
      updi (iptr i) (λ ip, ip <| idev := dev |> <| Ftypes.inum := inum |> <| iref := 1 |>
                              <| ivalid := 0 |>) ;;;
      ret (iptr i)
  end.

Definition ialloc (dev type : Z) : M kernel Z :=
  let* sb := getsb in
  loop (2^32) (λ inum,
    if u32 inum <? ninodes sb then
      let* bp := kbread dev (IBLOCK inum sb) in
      let* x := bp_data bp in
      let o := dinode_off inum in
      if di_type x o =? 0 then
        bp_store bp (λ x, overwrite x o (replicate 64 0)) ;;;
        bp_store bp (λ x, put16 x o type) ;;;
        klog_write bp ;;;
        kbrelse bp ;;;
        let* ip := iget dev inum in
        ret (inr ip)
      else
        kbrelse bp ;;;
        ret (inl (s32 (inum + 1)))
    else ret (inr 0)) 1.

Definition iupdate (ip : Z) : M kernel unit :=
  let* sb := getsb in
  let* i := geti ip in
  let* bp := kbread (idev i) (IBLOCK (inum i) sb) in
  bp_store bp (put_dinode (dinode_off (inum i)) i) ;;;
  klog_write bp ;;;
  kbrelse bp.

Definition idup (ip : Z) : M kernel Z :=
  updi ip (λ i, i <| iref := s32 (iref i + 1) |>) ;;;
  ret ip.

(** Sleep locks of inodes. *)
Definition on_ilock (ip : Z) (op : M Sleeplock.sleeplock unit) : M kernel unit :=
  let* i := geti ip in
  match op (ilk i) with
  | Ret (_, l) => updi ip (λ i, i <| ilk := l |>)
  | Block => Prelude.block
  | _ => fault "sleeplock"
  end.

Definition ilock (ip : Z) : M kernel unit :=
  if ip =? 0 then panic "ilock"
  else
    let* i := geti ip in
    if iref i <? 1 then panic "ilock"
    else
      let* me := mypid in
      on_ilock ip (Sleeplock.acquiresleep me) ;;;
      let* i := geti ip in
      if ivalid i =? 0 then
        let* sb := getsb in
        let* bp := kbread (idev i) (IBLOCK (inum i) sb) in
        let* x := bp_data bp in
        updi ip (get_dinode x (dinode_off (inum i))) ;;;
        kbrelse bp ;;;
        updi ip (λ i, i <| ivalid := 1 |>) ;;;
        let* i := geti ip in
        if itype i =? 0 then panic "ilock: no type" else ret tt
      else ret tt.

Definition iunlock (ip : Z) : M kernel unit :=
  if ip =? 0 then panic "iunlock"
  else
    let* i := geti ip in
    let* me := mypid in
    if negb (Sleeplock.holdingsleep me (ilk i)) || (iref i <? 1) then panic "iunlock"
    else on_ilock ip Sleeplock.releasesleep.

(** ** Contents *)

(** [ip->addrs[k]] *)
Definition addr_of (ip k : Z) : M kernel Z :=
  let* i := geti ip in
  match iaddrs i !! Z.to_nat k with Some a => ret a | None => fault "addrs" end.
Definition set_addr (ip k a : Z) : M kernel unit :=
  updi ip (λ i, i <| iaddrs ::= <[Z.to_nat k := a]> |>).

(** Entry [bn] of an indirect block. *)
Definition indirect_off (bn : Z) : nat := (4 * Z.to_nat bn)%nat.

Definition bmap (ip bn : Z) : M kernel Z :=
  let* i := geti ip in
  if bn <? NDIRECT then
    let* addr := addr_of ip bn in
    if addr =? 0 then
      let* addr := balloc (idev i) in
      if addr =? 0 then ret 0
      else set_addr ip bn addr ;;; ret addr
    else ret addr
  else
    let bn := bn - NDIRECT in
    if bn <? NINDIRECT then
      let* addr := addr_of ip NDIRECT in
      let* addr :=
        (if addr =? 0 then
           let* addr := balloc (idev i) in
           if addr =? 0 then ret 0
           else set_addr ip NDIRECT addr ;;; ret addr
         else ret addr) in
      if addr =? 0 then ret 0
      else
        let* bp := kbread (idev i) addr in
        let* x := bp_data bp in
        let addr := get32 x (indirect_off bn) in
        let* addr :=
          (if addr =? 0 then
             let* addr := balloc (idev i) in
             if negb (addr =? 0) then
               bp_store bp (λ x, put32 x (indirect_off bn) addr) ;;;
               klog_write bp ;;;
               ret addr
             else ret addr
           else ret addr) in
        kbrelse bp ;;;
        ret addr
    else panic "bmap: out of range".

Definition itrunc (ip : Z) : M kernel unit :=
  let* i := geti ip in
  for_each (seq 0 (Z.to_nat NDIRECT)) (λ k,
    let* a := addr_of ip (Z.of_nat k) in
    if negb (a =? 0) then
      bfree (idev i) a ;;;
      set_addr ip (Z.of_nat k) 0
    else ret tt) ;;;
  let* a := addr_of ip NDIRECT in
  (if negb (a =? 0) then
     let* bp := kbread (idev i) a in
     let* x := bp_data bp in
     for_each (seq 0 (Z.to_nat NINDIRECT)) (λ j,
       let aj := get32 x (indirect_off (Z.of_nat j)) in
       if negb (aj =? 0) then bfree (idev i) aj else ret tt) ;;;
     kbrelse bp ;;;
     bfree (idev i) a ;;;
     set_addr ip NDIRECT 0
   else ret tt) ;;;
  updi ip (λ i, i <| isize := 0 |>) ;;;
  iupdate ip.

Definition iput (ip : Z) : M kernel unit :=
  let* i := geti ip in
  (if (iref i =? 1) && negb (ivalid i =? 0) && (inlink i =? 0) then
     let* me := mypid in
     on_ilock ip (Sleeplock.acquiresleep me) ;;;
     itrunc ip ;;;
     updi ip (λ i, i <| itype := 0 |>) ;;;
     iupdate ip ;;;
     updi ip (λ i, i <| ivalid := 0 |>) ;;;
     on_ilock ip Sleeplock.releasesleep
   else ret tt) ;;;
  updi ip (λ i, i <| iref := s32 (iref i - 1) |>).

Definition iunlockput (ip : Z) : M kernel unit := iunlock ip ;;; iput ip.

(** The bytes of [struct stat]: [int dev; uint ino; short type; short nlink;
    uint64 size], with four bytes of padding before [size] that [stati] does
    not write; [pad] is what the stack holds there. *)
Definition stati (ip : Z) (pad : list Z) : M kernel (list Z) :=
  let* i := geti ip in
  ret (le_bytes 4 (idev i) ++ le_bytes 4 (inum i) ++ le_bytes 2 (itype i) ++
       le_bytes 2 (inlink i) ++ pad ++ le_bytes 8 (isize i)).

(** Where [readi] puts its bytes: a user or kernel address, or a buffer on
    the kernel stack, which is returned. *)
Inductive dest := DAddr (user : bool) (a : Z) | DBuf.
Inductive source := SAddr (user : bool) (a : Z) | SBuf (l : list Z).

Definition copy_to (dst : dest) (tot : Z) (bs : list Z) : M kernel Z :=
  match dst with
  | DAddr user a => either_copyout user (u64 (a + tot)) bs
  | DBuf => ret 0
  end.
Definition copy_from (src : source) (tot m : Z) : M kernel (Z * list Z) :=
  match src with
  | SAddr user a => either_copyin user (u64 (a + tot)) m
  | SBuf l => ret (0, sub_bytes l (Z.to_nat tot) (Z.to_nat m))
  end.

(** Every round moves at least one byte. *)
Definition file_fuel : positive := 2^33.

(** The result and the bytes that went to a stack buffer. *)
Definition readi (ip : Z) (dst : dest) (off n : Z) : M kernel (Z * list Z) :=
  let* i := geti ip in
  if (isize i <? off) || (u32 (off + n) <? off) then ret (0, [])
  else
    let n := if isize i <? u32 (off + n) then u32 (isize i - off) else n in
    loop file_fuel (λ '(tot, off, acc),
      if tot <? n then
        let* addr := bmap ip (off / BSIZE) in
        if addr =? 0 then ret (inr (tot, acc))
        else
          let* bp := kbread (idev i) addr in
          let m := Z.min (n - tot) (BSIZE - off mod BSIZE) in
          let* x := bp_data bp in
          let bs := sub_bytes x (Z.to_nat (off mod BSIZE)) (Z.to_nat m) in
          let* r := copy_to dst tot bs in
          if r =? -1 then
            kbrelse bp ;;; ret (inr (-1, acc))
          else
            kbrelse bp ;;; ret (inl (tot + m, u32 (off + m), acc ++ bs))
      else ret (inr (tot, acc))) (0, off, []).

(** When [either_copyin] fails, the bytes it copied before stay in the
    buffer. *)
Definition writei (ip : Z) (src : source) (off n : Z) : M kernel Z :=
  let* i := geti ip in
  if (isize i <? off) || (u32 (off + n) <? off) then ret (-1)
  else if MAXFILE * BSIZE <? u32 (off + n) then ret (-1)
  else
    let* (tot, off) := loop file_fuel (λ '(tot, off),
      if tot <? n then
        let* addr := bmap ip (off / BSIZE) in
        if addr =? 0 then ret (inr (tot, off))
        else
          let* bp := kbread (idev i) addr in
          let m := Z.min (n - tot) (BSIZE - off mod BSIZE) in
          let* (r, bs) := copy_from src tot m in
          bp_store bp (λ x, overwrite x (Z.to_nat (off mod BSIZE)) bs) ;;;
          if r =? -1 then
            kbrelse bp ;;; ret (inr (tot, off))
          else
            klog_write bp ;;;
            kbrelse bp ;;;
            ret (inl (tot + m, u32 (off + m)))
      else ret (inr (tot, off))) (0, off) in
    let* i := geti ip in
    (if isize i <? off then updi ip (λ i, i <| isize := off |>) else ret tt) ;;;
    iupdate ip ;;;
    ret tot.

(** ** Directories *)

(** [strncmp] and [strncpy] on buffers; a byte beyond the end of a list is
    the NUL of a string. *)
Fixpoint strncmp_buf (n : nat) (p q : list Z) : Z :=
  match n with
  | O => 0
  | S n =>
      let a := default 0 (p !! 0%nat) in
      let b := default 0 (q !! 0%nat) in
      if negb (a =? 0) && (a =? b) then strncmp_buf n (tail p) (tail q) else a - b
  end.
Definition strncpy_buf (n : nat) (t : list Z) : list Z :=
  let l := take n (until_nul t) in
  l ++ replicate (n - length l) 0.

Definition namecmp (s t : list Z) : Z := strncmp_buf DIRSIZ s t.

(** [struct dirent]: [ushort inum; char name[DIRSIZ]] *)
Definition de_size : Z := 16.
Definition de_inum (de : list Z) : Z := get16 de 0.
Definition de_name (de : list Z) : list Z := sub_bytes de 2 DIRSIZ.
Definition enc_dirent (inum : Z) (name : list Z) : list Z := le_bytes 2 inum ++ strncpy_buf DIRSIZ name.

(** The inode pointer and [*poff]. *)
Definition dirlookup (dp : Z) (name : list Z) : M kernel (Z * Z) :=
  let* d := geti dp in
  if negb (itype d =? T_DIR) then panic "dirlookup not DIR"
  else
    loop file_fuel (λ off,
      if off <? isize d then
        let* (r, de) := readi dp DBuf off de_size in
        if negb (r =? de_size) then panic "dirlookup read"
        else if de_inum de =? 0 then ret (inl (u32 (off + de_size)))
        else if namecmp name (de_name de) =? 0 then
          let* ip := iget (idev d) (de_inum de) in
          ret (inr (ip, off))
        else ret (inl (u32 (off + de_size)))
      else ret (inr (0, 0))) 0.

Definition dirlink (dp : Z) (name : list Z) (inum : Z) : M kernel Z :=
  let* (ip, _) := dirlookup dp name in
  if negb (ip =? 0) then iput ip ;;; ret (-1)
  else
    let* d := geti dp in
    let* off := loop file_fuel (λ off,
      if u32 off <? isize d then
        let* (r, de) := readi dp DBuf (u32 off) de_size in
        if negb (r =? de_size) then panic "dirlink read"
        else if de_inum de =? 0 then ret (inr off)
        else ret (inl (s32 (off + de_size)))
      else ret (inr off)) 0 in
    let* r := writei dp (SBuf (enc_dirent (u16 inum) name)) (u32 off) de_size in
    if negb (r =? de_size) then ret (-1) else ret 0.

(** ** Paths

    A path is the list of its bytes before the NUL. *)

Definition slash : Z := 47.
Fixpoint skip_slashes (path : list Z) : list Z :=
  match path with
  | c :: rest => if c =? slash then skip_slashes rest else path
  | [] => []
  end.
Fixpoint element (path : list Z) : list Z :=
  match path with
  | c :: rest => if c =? slash then [] else c :: element rest
  | [] => []
  end.

(** The rest of the path and the buffer [name], or [None] for 0. *)
Definition skipelem (path name : list Z) : option (list Z * list Z) :=
  let path := skip_slashes path in
  match path with
  | [] => None
  | _ =>
      let s := element path in
      let rest := drop (length s) path in
      let name := if (DIRSIZ <=? length s)%nat then overwrite name 0 (take DIRSIZ s)
                  else overwrite name 0 (s ++ [0]) in
      Some (skip_slashes rest, name)
  end.

(** The inode and the buffer [name]. *)
Definition namex (path : list Z) (nameiparent : bool) (name : list Z) : M kernel (Z * list Z) :=
  let* ip :=
    (if bool_decide (path !! 0%nat = Some slash) then iget ROOTDEV ROOTINO
     else let* i := myproc in let* p := getp i in idup (cwd p)) in
  let* (ip, name, found) := loop (Pos.of_succ_nat (length path)) (λ '(ip, path, name),
    match skipelem path name with
    | None => ret (inr (ip, name, false))
    | Some (path, name) =>
        ilock ip ;;;
        let* i := geti ip in
        if negb (itype i =? T_DIR) then
          iunlockput ip ;;; ret (inr (0, name, true))
        else if nameiparent && bool_decide (path = []) then
          iunlock ip ;;; ret (inr (ip, name, true))
        else
          let* (next, _) := dirlookup ip name in
          if next =? 0 then
            iunlockput ip ;;; ret (inr (0, name, true))
          else
            iunlockput ip ;;; ret (inl (next, path, name))
    end) (ip, path, name) in
  if found : bool then ret (ip, name)
  else if nameiparent then iput ip ;;; ret (0, name)
  else ret (ip, name).

(** The buffer [name] is not initialised; [name0] stands for its bytes. *)
Definition name0 : list Z := replicate DIRSIZ 0.
Definition namei (path : list Z) : M kernel Z :=
  let* (ip, _) := namex path false name0 in ret ip.
Definition nameiparent (path : list Z) : M kernel (Z * list Z) := namex path true name0.
