(* ===== verification/FsRules.v ===== *)
(** * Blocks inside a file-system call

    The rules fs.c is proved with: what the calls of bio.c and log.c promise
    to the current process between [begin_op] and [end_op].  [opened V h L s]
    says that the blocks show the contents [V], that the process holds the
    blocks [h] locked, and that the transaction contains the blocks [L]. *)

From Stdlib Require Import ZArith Lia.
From stdpp Require Import base numbers list gmap functions strings tactics.
From S2P Require Import Prelude Riscv Mem Bytes Kalloc Vm Proc ProcRules Locks Bio BioList BioSpec BioProps Log LogSpec LogCrash LogProps Ftypes Fs.

Local Open Scope Z_scope.

Definition logst (s : kernel) : lst := flog (files s).
Definition with_log (l : lst) (s : kernel) : kernel := s <| files ::= (λ f, f <| flog := l |>) |>.

(** The transaction after [log_write] of block [n]. *)
Definition logged (n : Z) (L : list Z) : list Z := if decide (n ∈ L) then L else L ++ [n].

Lemma elem_logged n L : n ∈ logged n L.
Proof. unfold logged. case_decide; [done|]. apply elem_of_app. right. by left. Qed.
Lemma logged_subseteq n L : L ⊆ logged n L.
Proof. intros m Hm. unfold logged. case_decide; [done|]. apply elem_of_app. by left. Qed.
Lemma elem_logged_inv n m L : m ∈ logged n L → m ∈ L ∨ m = n.
Proof. unfold logged. case_decide; [by left|]. rewrite elem_of_app, list_elem_of_singleton. done. Qed.
Lemma length_logged n L : (length L ≤ length (logged n L) ≤ S (length L))%nat.
Proof. unfold logged. case_decide; [lia|]. rewrite length_app. simpl. lia. Qed.

Section rules.
Context (d me st sz : Z).

Record opened (V : contents) (h L : list Z) (s : kernel) : Prop := {
  o_me : ∃ i p, cur s = Some i ∧ procs s !! i = Some p ∧ pid p = me;
  o_log : logging d st sz L (lg (logst s));
  o_fits : loggable st sz L;
  o_cache : ∃ l, cache d me V h L l (bcache (logst s));
  o_out : 1 ≤ outstanding (lg (logst s));
}.

(** Buffer [b] holds block [n]. *)
Definition kheld (s : kernel) (b : nat) (n : Z) (x : block_data) : Prop :=
  holds d me (bcache (logst s)) b n x.
(** Block [n] may be released: it is in the transaction or unchanged. *)
Definition synced (V : contents) (L : list Z) (s : kernel) (n : Z) : Prop :=
  n ∈ L ∨ disk_block (dblocks (bcache (logst s))) n = V n.
(** Only the cache and the log changed, not the disk, and the buffers of the
    blocks [h] are still held. *)
Record quiet (h : list Z) (s s' : kernel) : Prop := {
  q_only : s' = with_log (logst s') s;
  q_disk : disk_same (bcache (logst s)) (bcache (logst s'));
  q_out : outstanding (lg (logst s')) = outstanding (lg (logst s));
  q_held b n x : n ∈ h → kheld s b n x → kheld s' b n x;
}.

Lemma logst_with l s : logst (with_log l s) = l.
Proof. done. Qed.
Lemma with_with l l' s : with_log l' (with_log l s) = with_log l' s.
Proof. by destruct s as [? ? ? ? ? ? ? []]. Qed.
Lemma with_same s : with_log (logst s) s = s.
Proof. by destruct s as [? ? ? ? ? ? ? []]. Qed.

Lemma quiet_refl h s : quiet h s s.
Proof. split; [by rewrite with_same|done|done|done]. Qed.
Lemma quiet_trans h s1 s2 s3 : quiet h s1 s2 → quiet h s2 s3 → quiet h s1 s3.
Proof.
  intros [A1 [B1 B2] C1 D1] [A2 [B3 B4] C2 D2]. split; [|split; congruence|congruence|].
  - rewrite A2, A1, with_with. by rewrite logst_with.
  - intros. eauto.
Qed.
Lemma quiet_mono h h' s s' : h' ⊆ h → quiet h s s' → quiet h' s s'.
Proof. intros Hh [A B C D]. split; try done. intros. apply D; [by apply Hh|done]. Qed.

Lemma synced_quiet V L L' h s s' n : quiet h s s' → L ⊆ L' → synced V L s n → synced V L' s' n.
Proof.
  intros Q HL [?|E]; [left; by apply HL|right].
  destruct (q_disk _ _ _ Q) as [-> _]. done.
Qed.

Lemma kheld_elem V h L s b n x : opened V h L s → kheld s b n x → n ∈ h.
Proof. intros [_ _ _ [l C] _] H. by destruct (held_entry _ _ _ _ _ _ _ _ _ _ C H). Qed.
Lemma kheld_value V h L s b n x : opened V h L s → kheld s b n x → x = V n.
Proof. intros [_ _ _ [l C] _] H. by destruct (held_entry _ _ _ _ _ _ _ _ _ _ C H) as (_ & -> & _). Qed.

(** What does not touch the processes, the cache and the log. *)
Lemma opened_ext V h L s s' :
  opened V h L s → cur s' = cur s → procs s' = procs s → logst s' = logst s → opened V h L s'.
Proof.
  intros [A B C D O] E1 E2 E3. split; rewrite ?E1, ?E2, ?E3; done.
Qed.
Lemma opened_files V h L s f :
  opened V h L s → flog (f (files s)) = flog (files s) → opened V h L (s <| files ::= f |>).
Proof. intros O E. eapply opened_ext; [done..|]. exact E. Qed.

(** ** The rules *)

Lemma wp_mypid V h L s (Q : Z → kernel → Prop) : opened V h L s → Q me s → wp mypid Q s.
Proof.
  intros [(i & p & E1 & E2 & E3) _ _ _ _] HQ. unfold mypid. wp_step. eapply wp_myproc; [done|].
  wp_step. eapply wp_getp; [done|]. wp_step. by rewrite E3.
Qed.
Lemma wp_on_log {A} (m : M lst A) (Q : A → kernel → Prop) s :
  wp m (λ a l, Q a (with_log l s)) (logst s) → wp (on_log m) Q s.
Proof. unfold on_log. by rewrite wp_lift. Qed.
Lemma wp_blk {A} (m : M bst A) (Q : A → kernel → Prop) s :
  wp m (λ a b, Q a (with_log (Lst b (lg (logst s))) s)) (bcache (logst s)) → wp (blk m) Q s.
Proof. intros H. apply wp_on_log, wp_bio, H. Qed.

Lemma opened_with V h L s b g V' h' L' :
  opened V h L s → logging d st sz L' g → loggable st sz L' → outstanding g = outstanding (lg (logst s)) →
  (∃ l, cache d me V' h' L' l b) → opened V' h' L' (with_log (Lst b g) s).
Proof.
  intros [A B C D O] H1 H2 H3 H4. split; [done|done|done|done|].
  simpl. rewrite H3. exact O.
Qed.

Lemma kbread_spec V h L s n :
  opened V h L s → n ∉ h → (length h + length L < 30)%nat →
  wp (kbread d n) (λ b s', opened V (n :: h) L s' ∧ kheld s' b n (V n) ∧ quiet h s s' ∧
    synced V L s' n) s.
Proof.
  intros O Hn Hroom. unfold kbread. wp_step. apply (wp_mypid _ _ _ _ _ O). apply wp_blk.
  pose proof O as [_ G HL [l C] _].
  eapply wp_mono; [|eapply bread_spec; [exact C|exact Hn|right; exact Hroom]].
  intros b b1 (C1 & H1 & D1 & K1). split_and!.
  - eapply opened_with; [done|done|done|done|by exists l].
  - exact H1.
  - split; [by rewrite logst_with|exact D1|done|intros; by apply K1].
  - destruct (decide (n ∈ L)); [by left|right]. simpl. destruct D1 as [-> _].
    by apply (c_clean _ _ _ _ _ _ _ C).
Qed.

Lemma bp_data_spec s b n x (Q : block_data → kernel → Prop) :
  kheld s b n x → Q x s → wp (bp_data b) Q s.
Proof.
  intros (Hb & y & Hy & _ & _ & Ex & _) HQ. unfold bp_data. wp_step. apply wp_blk.
  eapply wp_getb; [exact Hy|]. wp_step. rewrite Ex.
  replace (Lst (bcache (logst s)) (lg (logst s))) with (logst s) by (by destruct (logst s)).
  by rewrite with_same.
Qed.

Lemma bp_store_spec V h h' L s b n x f :
  opened V h L s → kheld s b n x → h ≡ₚ n :: h' →
  wp (bp_store b f) (λ _ s', opened (<[n := f x]> V) h L s' ∧ kheld s' b n (f x) ∧ quiet h' s s') s.
Proof.
  intros O Hh Hp. pose proof O as [_ G HL [l C] _]. apply wp_blk.
  pose proof (c_held _ _ _ _ _ _ _ C) as Hd. rewrite Hp in Hd. apply list.NoDup_cons in Hd as [Hn _].
  eapply wp_mono; [|eapply store_spec; [exact C|exact Hh]].
  intros _ b1 (C1 & H1 & D1 & K1). split_and!.
  - eapply opened_with; [done|done|done|done|by exists l].
  - exact H1.
  - split; [by rewrite logst_with|exact D1|done|].
    intros b' m z Hm. apply K1. by intros ->.
Qed.

(** Room for [k] more blocks in the log and the cache. *)
Definition room (k : nat) (L : list Z) : Prop :=
  (length L + k ≤ 30)%nat ∧ Z.of_nat (length L + k) ≤ sz - 1.

Lemma room_logged k n L : room (S k) L → room k (logged n L).
Proof. unfold room. pose proof (length_logged n L). lia. Qed.
Lemma room_le k k' L : (k' ≤ k)%nat → room k L → room k' L.
Proof. unfold room. lia. Qed.

Lemma klog_write_spec V h L s b n x :
  opened V h L s → kheld s b n x → home st sz n → room 1 L →
  wp (klog_write b) (λ _ s', opened V h (logged n L) s' ∧ kheld s' b n x ∧ quiet h s s') s.
Proof.
  intros O Hh Hn [R1 R2]. pose proof O as [_ G HL [l C] Ho]. apply wp_on_log.
  eapply wp_mono; [|eapply (log_write_spec d me st sz V h L l); [done|done|exact C|exact Hh|done|done|lia|lia]].
  intros _ s1 (G1 & HL1 & C1 & D1 & K1 & O1). destruct s1 as [b1 g1]. simpl in *. split_and!.
  - eapply opened_with; [done|done|done|done|by exists l].
  - by apply K1.
  - split; [by rewrite logst_with|done|done|]. intros b' m z _. apply K1.
Qed.

Lemma kbrelse_spec V h h' L s b n x :
  opened V h L s → kheld s b n x → h ≡ₚ n :: h' → synced V L s n →
  wp (kbrelse b) (λ _ s', opened V h' L s' ∧ quiet h' s s') s.
Proof.
  intros O Hh Hp Hs. pose proof O as [_ G HL [l C] _].
  pose proof (c_held _ _ _ _ _ _ _ C) as Hd. rewrite Hp in Hd. apply list.NoDup_cons in Hd as [Hn _].
  unfold kbrelse. wp_step. apply (wp_mypid _ _ _ _ _ O). apply wp_blk.
  eapply wp_mono; [|eapply brelse_spec; [exact C|exact Hh|exact Hp|exact Hs]].
  intros _ b1 (l' & C1 & D1 & _ & K1). split.
  - eapply opened_with; [done|done|done|done|by exists l'].
  - split; [by rewrite logst_with|exact D1|done|]. intros b' m z Hm. apply K1. by intros ->.
Qed.

(** [bread], a store, [log_write], [brelse]: the pattern of fs.c. *)
Lemma finish_spec V h L s b n x :
  opened V (n :: h) L s → kheld s b n x → home st sz n → room 1 L →
  wp (klog_write b ;;; kbrelse b) (λ _ s', opened V h (logged n L) s' ∧ quiet h s s') s.
Proof.
  intros O Hh Hn Hr. wp_step. eapply wp_mono; [|by eapply klog_write_spec].
  intros _ s1 (O1 & H1 & Q1).
  eapply wp_mono; [|eapply kbrelse_spec; [exact O1|exact H1|done|left; apply elem_logged]].
  intros _ s2 (O2 & Q2). split; [done|]. eapply quiet_trans; [|exact Q2].
  eapply quiet_mono; [|exact Q1]. intros m Hm. by right.
Qed.
Lemma finish_then {A} (k : M kernel A) (Q : A → kernel → Prop) V h L s b n x :
  opened V (n :: h) L s → kheld s b n x → home st sz n → room 1 L →
  (∀ s', opened V h (logged n L) s' → quiet h s s' → wp k Q s') →
  wp (klog_write b ;;; kbrelse b ;;; k) Q s.
Proof.
  intros O Hh Hn Hr Hk. assert (wp ((klog_write b ;;; kbrelse b) ;;; k) Q s) as H.
  - wp_step. eapply wp_mono; [|by eapply finish_spec]. intros _ s' [O' Q']. by apply Hk.
  - by apply wp_bind_assoc in H.
Qed.
End rules.
