(* ===== verification/FsAlloc.v ===== *)
(** * Disk blocks: the free bitmap (balloc, bzero, bfree)

    The bitmap as a predicate on block numbers, and what balloc and bfree do
    to it inside a transaction. *)

From Stdlib Require Import ZArith Lia.
From stdpp Require Import base numbers list gmap functions strings tactics.
From S2P Require Import Prelude Riscv Mem Bytes Kalloc Vm Proc ProcRules Locks Bio BioList BioSpec BioProps Log LogSpec LogCrash LogProps Ftypes Fs FsRules.

Local Open Scope Z_scope.

(** ** Bits of a bitmap block *)

Lemma bit_clear_testbit x bi : bit_clear x bi = negb (Z.testbit (bit_byte x bi) (bi mod 8)).
Proof.
  unfold bit_clear, bit_mask. pose proof (Z.mod_pos_bound bi 8 ltac:(lia)) as Hk.
  set (k := bi mod 8) in *. rewrite Z.shiftl_1_l.
  destruct (Z.testbit (bit_byte x bi) k) eqn:E; simpl.
  - apply Z.eqb_neq. intros H. apply (f_equal (λ z, Z.testbit z k)) in H.
    rewrite Z.land_spec, E, Z.pow2_bits_true, Z.bits_0 in H by lia. done.
  - apply Z.eqb_eq. apply Z.bits_inj'. intros j Hj. rewrite Z.land_spec, Z.bits_0.
    destruct (decide (j = k)) as [->|]; [by rewrite E|].
    by rewrite Z.pow2_bits_false, andb_false_r by lia.
Qed.

Lemma byte_insert x bi bj v :
  length x = 1024%nat → 0 ≤ bi < 8192 → 0 ≤ bj →
  bit_byte (<[Z.to_nat (bi / 8) := v]> x) bj = if decide (bi / 8 = bj / 8) then v else bit_byte x bj.
Proof.
  intros Hx Hi Hj. unfold bit_byte. case_decide as E.
  - rewrite E, list_lookup_insert_eq; [done|]. rewrite Hx. dlia.
  - rewrite list_lookup_insert_ne; [done|]. intros E'. apply E. dlia.
Qed.

Lemma same_bit bi bj : bi / 8 = bj / 8 → bi mod 8 = bj mod 8 ↔ bi = bj.
Proof. intros. split; [|by intros ->]. intros. dlia. Qed.

Lemma eqb_same_bit bi bj :
  bi / 8 = bj / 8 → Z.eqb (bi mod 8) (bj mod 8) = bool_decide (bi = bj).
Proof.
  intros E. destruct (Z.eqb_spec (bi mod 8) (bj mod 8)) as [E2|E2]; symmetry.
  - apply bool_decide_true. by apply same_bit.
  - apply bool_decide_false. by intros ->.
Qed.

Lemma bit_clear_set x bi bj :
  length x = 1024%nat → 0 ≤ bi < 8192 → 0 ≤ bj →
  bit_clear (set_bit bi x) bj = bit_clear x bj && negb (bool_decide (bi = bj)).
Proof.
  intros Hx Hi Hj. rewrite !bit_clear_testbit. unfold set_bit. rewrite byte_insert by done.
  case_decide as E.
  - unfold bit_mask. rewrite Z.lor_spec, Z.shiftl_1_l, negb_orb.
    replace (bit_byte x bi) with (bit_byte x bj) by (unfold bit_byte; by rewrite E).
    pose proof (Z.mod_pos_bound bi 8 ltac:(lia)). rewrite Z.pow2_bits_eqb by lia.
    by rewrite eqb_same_bit.
  - rewrite bool_decide_false by (by intros ->). by rewrite andb_true_r.
Qed.

Lemma bit_clear_clear x bi bj :
  length x = 1024%nat → 0 ≤ bi < 8192 → 0 ≤ bj →
  bit_clear (clear_bit bi x) bj = bit_clear x bj || bool_decide (bi = bj).
Proof.
  intros Hx Hi Hj. rewrite !bit_clear_testbit. unfold clear_bit. rewrite byte_insert by done.
  case_decide as E.
  - unfold bit_mask, u8. pose proof (Z.mod_pos_bound bj 8 ltac:(lia)).
    rewrite Z.mod_pow2_bits_low, Z.land_spec, Z.lnot_spec, Z.shiftl_1_l, negb_andb, negb_involutive by lia.
    replace (bit_byte x bi) with (bit_byte x bj) by (unfold bit_byte; by rewrite E).
    pose proof (Z.mod_pos_bound bi 8 ltac:(lia)). rewrite Z.pow2_bits_eqb by lia.
    by rewrite eqb_same_bit.
  - rewrite bool_decide_false by (by intros ->). by rewrite orb_false_r.
Qed.

Lemma length_set_bit bi x : length (set_bit bi x) = length x.
Proof. apply length_insert. Qed.
Lemma length_clear_bit bi x : length (clear_bit bi x) = length x.
Proof. apply length_insert. Qed.

(** Clearing a bit that was clear before it was set gives back the block. *)
Lemma clear_set_bit bi x :
  length x = 1024%nat → bytes x → 0 ≤ bi < 8192 → bit_clear x bi = true →
  clear_bit bi (set_bit bi x) = x.
Proof.
  intros Hx Hb Hi Hc. unfold clear_bit. rewrite bit_clear_testbit, negb_true_iff in Hc.
  unfold set_bit at 1 2. rewrite list_insert_insert_eq. apply list_insert_id.
  pose proof (Z.mod_pos_bound bi 8 ltac:(lia)) as Hm.
  destruct (lookup_lt_is_Some_2 x (Z.to_nat (bi / 8))) as [v Hv]; [rewrite Hx; dlia|].
  rewrite Hv. f_equal. rewrite byte_insert, decide_True by (done || lia).
  unfold bit_byte, bit_mask in *. rewrite Hv in *. simpl in *. rewrite Z.shiftl_1_l.
  unfold bytes in Hb. rewrite list.Forall_lookup in Hb. pose proof (Hb _ _ Hv) as Hv8.
  rewrite <- (Z.mod_small v (2^8)) at 1 by lia. unfold u8. apply Z.bits_inj'. intros j Hj.
  destruct (decide (j < 8)); [|by rewrite !Z.mod_pow2_bits_high by lia].
  rewrite !Z.mod_pow2_bits_low, Z.land_spec, Z.lor_spec, Z.lnot_spec, Z.pow2_bits_eqb by lia.
  destruct (Z.eqb_spec (bi mod 8) j) as [<-|]; [by rewrite Hc|].
  by rewrite orb_false_r, andb_true_r.
Qed.

(** The inner loop of balloc. *)
Lemma find_clear_spec fuel x b size bi :
  0 ≤ bi → 0 ≤ b → b + bi + Z.of_nat fuel < 2^32 →
  match find_clear fuel x b size bi with
  | Some bj => bi ≤ bj < bi + Z.of_nat fuel ∧ b + bj < size ∧ bit_clear x bj = true ∧
               ∀ k, bi ≤ k < bj → bit_clear x k = false
  | None => ∀ k, bi ≤ k < bi + Z.of_nat fuel → b + k < size → bit_clear x k = false
  end.
Proof.
  revert bi. induction fuel as [|fuel IH]; intros bi H1 H2 H3; cbn [find_clear]; [lia|].
  rewrite u32_small by lia. destruct (Z.ltb_spec (b + bi) size) as [Hlt|Hge].
  2:{ intros k Hk Hs. lia. }
  destruct (bit_clear x bi) eqn:E; [split_and!; [lia..|done|lia]|].
  specialize (IH (bi + 1) ltac:(lia) H2 ltac:(lia)).
  destruct (find_clear fuel x b size (bi + 1)) as [bj|].
  - destruct IH as (I1 & I2 & I3 & I4). split_and!; [lia..|done|].
    intros k Hk. destruct (decide (k = bi)) as [->|]; [done|]. apply I4. lia.
  - intros k Hk Hs. destruct (decide (k = bi)) as [->|]; [done|]. apply IH; lia.
Qed.

(** ** The bitmap of a disk *)

Section bitmap.
Context (d me st sz : Z) (sb0 : superblock).

Definition used (V : contents) (b : Z) : bool := negb (bit_clear (V (BBLOCK b sb0)) (b mod BPB)).
Definition is_bmap (n : Z) : Prop := ∃ b, 0 ≤ b < sb_size sb0 ∧ n = BBLOCK b sb0.

Record layout : Prop := {
  ly_size : 0 < sb_size sb0 ≤ 2^30;
  ly_start : 0 ≤ bmapstart sb0;
  ly_bmap b : 0 ≤ b < sb_size sb0 → home st sz (b / BPB + bmapstart sb0);
}.
(** The boot block, the log and the bitmap itself are marked as used. *)
Record bitmap (V : contents) : Prop := {
  bm_len n : is_bmap n → length (V n) = 1024%nat;
  bm_free b : 0 ≤ b < sb_size sb0 → used V b = false → 0 < b ∧ home st sz b ∧ ¬ is_bmap b;
}.
Hypothesis Hly : layout.

Lemma BBLOCK_eq b : 0 ≤ b < sb_size sb0 → BBLOCK b sb0 = b / BPB + bmapstart sb0.
Proof using Hly. intros Hb. destruct (ly_bmap Hly b Hb) as [Hr _]. unfold BBLOCK. apply u32_small. lia. Qed.
Lemma BBLOCK_home b : 0 ≤ b < sb_size sb0 → home st sz (BBLOCK b sb0).
Proof using Hly. intros Hb. rewrite BBLOCK_eq by done. by apply (ly_bmap Hly). Qed.

Lemma used_ext V V' b : V' (BBLOCK b sb0) = V (BBLOCK b sb0) → used V' b = used V b.
Proof. unfold used. by intros ->. Qed.

(** The contents after balloc returned [r]. *)
Definition allocated (V : contents) (r : Z) : contents :=
  <[r := zero_block]> (<[BBLOCK r sb0 := set_bit (r mod BPB) (V (BBLOCK r sb0))]> V).
Definition freed (V : contents) (b : Z) : contents :=
  <[BBLOCK b sb0 := clear_bit (b mod BPB) (V (BBLOCK b sb0))]> V.

Lemma BPB_bit b : 0 ≤ b mod BPB < 8192.
Proof. apply Z.mod_pos_bound. done. Qed.

(** Two blocks with the same bit are the same block. *)
Lemma same_block b b' :
  0 ≤ b < sb_size sb0 → 0 ≤ b' < sb_size sb0 → BBLOCK b sb0 = BBLOCK b' sb0 →
  b mod BPB = b' mod BPB → b = b'.
Proof using Hly.
  intros Hb Hb' E1 E2. rewrite !BBLOCK_eq in E1 by done.
  rewrite (Z.div_mod b BPB), (Z.div_mod b' BPB) by done. rewrite E2. f_equal. f_equal. lia.
Qed.

Lemma used_allocated V r b :
  bitmap V → 0 ≤ r < sb_size sb0 → used V r = false → 0 ≤ b < sb_size sb0 →
  used (allocated V r) b = used V b || bool_decide (b = r).
Proof using Hly.
  intros B Hr Hf Hb. destruct (bm_free _ B r Hr Hf) as (_ & _ & Hnb). unfold used, allocated.
  rewrite fn_lookup_insert_ne by (intros ->; apply Hnb; by exists b).
  destruct (decide (BBLOCK r sb0 = BBLOCK b sb0)) as [E|E].
  - rewrite E, fn_lookup_insert, bit_clear_set by (apply (bm_len _ B); by exists b) || apply BPB_bit.
    rewrite negb_andb, negb_involutive. f_equal. apply bool_decide_ext.
    split; [|by intros ->]. intros E'. symmetry. by apply same_block.
  - rewrite fn_lookup_insert_ne by done. rewrite bool_decide_false by (by intros ->).
    by rewrite orb_false_r.
Qed.

Lemma used_freed V r b :
  bitmap V → 0 ≤ r < sb_size sb0 → 0 ≤ b < sb_size sb0 →
  used (freed V r) b = used V b && negb (bool_decide (b = r)).
Proof using Hly.
  intros B Hr Hb. unfold used, freed.
  destruct (decide (BBLOCK r sb0 = BBLOCK b sb0)) as [E|E].
  - rewrite E, fn_lookup_insert, bit_clear_clear by (apply (bm_len _ B); by exists b) || apply BPB_bit.
    rewrite negb_orb. do 2 f_equal. apply bool_decide_ext.
    split; [|by intros ->]. intros E'. symmetry. by apply same_block.
  - rewrite fn_lookup_insert_ne by done. rewrite bool_decide_false by (by intros ->).
    by rewrite andb_true_r.
Qed.

Lemma bitmap_allocated V r :
  bitmap V → 0 ≤ r < sb_size sb0 → used V r = false → bitmap (allocated V r).
Proof using Hly.
  intros B Hr Hf. pose proof (bm_free _ B r Hr Hf) as (_ & _ & Hnb). split.
  - intros n Hn. unfold allocated. rewrite fn_lookup_insert_ne by (by intros ->).
    destruct (decide (BBLOCK r sb0 = n)) as [<-|]; [|rewrite fn_lookup_insert_ne by done; by apply B].
    rewrite fn_lookup_insert, length_set_bit. by apply B.
  - intros b Hb. rewrite used_allocated by done. intros [Hu _]%orb_false_iff. by apply B.
Qed.

(** Only a data block may be freed. *)
Lemma bitmap_freed V r :
  bitmap V → 0 ≤ r < sb_size sb0 → 0 < r → home st sz r → ¬ is_bmap r → bitmap (freed V r).
Proof using Hly.
  intros B Hr H0 Hh Hnb. split.
  - intros n Hn. unfold freed.
    destruct (decide (BBLOCK r sb0 = n)) as [<-|]; [|rewrite fn_lookup_insert_ne by done; by apply B].
    rewrite fn_lookup_insert, length_clear_bit. by apply B.
  - intros b Hb. rewrite used_freed by done. intros [Hu|Hu]%andb_false_iff; [by apply B|].
    apply negb_false_iff, bool_decide_eq_true_1 in Hu as ->. done.
Qed.
End bitmap.

(** ** The operations *)

Section ops.
Context (d me st sz : Z) (sb0 : superblock).
Hypothesis Hly : layout st sz sb0.
Local Abbreviation opened := (opened d me st sz).
Local Abbreviation quiet := (quiet d me).
Local Abbreviation kheld := (kheld d me).
Local Abbreviation bitmap := (bitmap st sz sb0).

Lemma wp_getsb s (Q : superblock → kernel → Prop) : Q (sb (files s)) s → wp getsb Q s.
Proof. done. Qed.
Lemma quiet_sb h s s' : quiet h s s' → sb (files s') = sb (files s).
Proof. intros [E _ _ _]. rewrite E. done. Qed.

Lemma bzero_spec V h L s n :
  opened V h L s → n ∉ h → home st sz n → room sz 1 L → (length h + length L < 30)%nat →
  wp (bzero d n) (λ _ s', opened (<[n := zero_block]> V) h (logged n L) s' ∧ quiet h s s') s.
Proof.
  intros O Hn Hh Hr Hlen. unfold bzero. wp_step.
  eapply wp_mono; [|by eapply kbread_spec]. intros b s1 (O1 & H1 & Q1 & _). wp_step.
  eapply wp_mono; [|by eapply bp_store_spec]. intros _ s2 (O2 & H2 & Q2).
  eapply wp_mono; [|by eapply finish_spec]. intros _ s3 (O3 & Q3).
  split; [done|]. by do 2 (eapply quiet_trans; [done|]).
Qed.

(** What balloc promises. *)
Definition balloc_post (V : contents) (h L : list Z) (s : kernel) (r : Z) (s' : kernel) : Prop :=
  ∃ V' L', opened V' h L' s' ∧ quiet h s s' ∧ L ⊆ L' ∧ (length L' ≤ length L + 2)%nat ∧
    (∀ n, n ∈ L' → n ∈ L ∨ is_bmap sb0 n ∨ n = r) ∧
    (r = 0 ∧ V' = V ∧ L' = L ∧ (∀ b, 0 ≤ b < sb_size sb0 → used sb0 V b = true) ∨
     0 < r < sb_size sb0 ∧ used sb0 V r = false ∧ (∀ b, 0 ≤ b < r → used sb0 V b = true) ∧
     r ∈ L' ∧ V' = allocated sb0 V r).

Lemma balloc_post_quiet V h L s s1 r s' :
  quiet h s s1 → balloc_post V h L s1 r s' → balloc_post V h L s r s'.
Proof.
  intros Q (V' & L' & O2 & Q2 & HH). exists V', L'. split; [done|]. split; [by eapply quiet_trans|done].
Qed.

(** The process holds neither bitmap blocks nor free blocks. *)
Definition holds_used (V : contents) (h : list Z) : Prop :=
  ∀ n, n ∈ h → ¬ is_bmap sb0 n ∧ (0 ≤ n < sb_size sb0 → used sb0 V n = true).

(** The rest of balloc once a clear bit is found. *)
Lemma balloc_take V h L s bp q bi :
  bitmap V → holds_used V h → room sz 2 L → (length h + length L + 1 < 30)%nat →
  let r := BPB * q + bi in
  0 ≤ q → 0 ≤ bi < BPB → r < sb_size sb0 → used sb0 V r = false →
  (∀ b, 0 ≤ b < r → used sb0 V b = true) →
  opened V (BBLOCK (BPB * q) sb0 :: h) L s →
  kheld s bp (BBLOCK (BPB * q) sb0) (V (BBLOCK (BPB * q) sb0)) →
  wp (bp_store bp (set_bit bi) ;;; klog_write bp ;;; kbrelse bp ;;; bzero d (u32 r) ;;;
      ret (@inr Z Z (u32 r)))
     (λ a s', a = inr r ∧ balloc_post V h L s r s') s.
Proof using Hly.
  intros B Hhu Hr Hlen r Hq Hbi Hsz Hf Hbelow O Hh.
  assert (0 ≤ r) as Hr0 by (unfold r, BPB, BSIZE in *; lia).
  destruct (bm_free _ _ _ _ B r (conj Hr0 Hsz) Hf) as (Hpos & Hhome & Hnb).
  assert (BBLOCK (BPB * q) sb0 = BBLOCK r sb0) as EB.
  { rewrite !(BBLOCK_eq st sz sb0 Hly); unfold r, BPB, BSIZE in *; [dlia|lia..]. }
  assert (r mod BPB = bi) as Ebi by (unfold r, BPB, BSIZE in *; dlia).
  rewrite EB in *. wp_step.
  eapply wp_mono; [|by eapply bp_store_spec]. intros _ s1 (O1 & H1 & Q1).
  assert (home st sz (BBLOCK r sb0)) as HB by (by apply BBLOCK_home).
  eapply finish_then; [exact O1|exact H1|done|by eapply room_le; [|exact Hr]; lia|].
  intros s2 O2 Q2. rewrite u32_small by (destruct Hhome; lia).
  pose proof (length_logged (BBLOCK r sb0) L) as Hl1. wp_step.
  eapply wp_mono; [|eapply bzero_spec; [exact O2| |done|by apply room_logged|lia]].
  2:{ intros Hin. destruct (Hhu _ Hin) as [_ Hu]. rewrite Hu in Hf by done. done. }
  intros _ s3 (O3 & Q3). pose proof (length_logged r (logged (BBLOCK r sb0) L)) as Hl2.
  wp_step. split; [done|]. eexists _, _. split; [exact O3|]. split; [by do 2 (eapply quiet_trans; [done|])|].
  split; [etransitivity; apply logged_subseteq|]. split; [lia|]. split.
  { intros n [[?|E]%elem_logged_inv|?]%elem_logged_inv; [by left|right; left|by right; right].
    rewrite E. by exists r. }
  right.
  split_and!; [done..|apply elem_logged|]. unfold allocated. by rewrite Ebi.
Qed.

Lemma balloc_spec V h L s :
  sb (files s) = sb0 → bitmap V → holds_used V h → room sz 2 L → (length h + length L + 1 < 30)%nat →
  opened V h L s → wp (balloc d) (balloc_post V h L s) s.
Proof using Hly.
  intros Esb B Hhu Hr Hlen O. unfold balloc. wp_step. apply wp_getsb. rewrite Esb.
  pose proof (ly_size _ _ _ Hly) as Hsize.
  apply (wp_loop _
    (λ b s', ∃ q, b = BPB * q ∧ 0 ≤ q ∧ b < sb_size sb0 + BPB ∧ opened V h L s' ∧ quiet h s s' ∧
       ∀ b', 0 ≤ b' < Z.min b (sb_size sb0) → used sb0 V b' = true)
    (λ b, Z.to_nat ((sb_size sb0 + 2 * BPB - b) / BPB))).
  - intros b s1 (q & -> & Hq & Hb & O1 & Q1 & Hbelow). unfold BPB, BSIZE in *.
    change (1024 * 8) with 8192 in *. rewrite u32_small by lia.
    destruct (Z.ltb_spec (8192 * q) (sb_size sb0)) as [Hlt|Hge].
    2:{ wp_step. exists V, L. split_and!; [done|done|done|lia|by left|]. left. split_and!; [done..|].
        intros b Hb'. apply Hbelow. lia. }
    assert (0 ≤ 8192 * q < sb_size sb0) as Hin by lia.
    wp_step. eapply wp_mono; [|eapply kbread_spec; [exact O1| |lia]].
    2:{ intros Hh. destruct (Hhu _ Hh) as [Hn _]. apply Hn. by exists (8192 * q). }
    intros bp s2 (O2 & H2 & Q2 & S2). wp_step. eapply bp_data_spec; [exact H2|].
    pose proof (find_clear_spec (Z.to_nat 8192) (V (BBLOCK (8192 * q) sb0)) (8192 * q) (sb_size sb0) 0
      ltac:(lia) ltac:(lia) ltac:(lia)) as Hfind.
    assert (∀ k, 0 ≤ k < 8192 → 8192 * q + k < sb_size sb0 →
      used sb0 V (8192 * q + k) = negb (bit_clear (V (BBLOCK (8192 * q) sb0)) k)) as Hused.
    { intros k Hk Hk2. unfold used. do 2 f_equal.
      - rewrite !(BBLOCK_eq st sz sb0 Hly) by lia. unfold BPB, BSIZE. f_equal. dlia.
      - unfold BPB, BSIZE. dlia. }
    destruct (find_clear _ _ _ _ _) as [bi|].
    + destruct Hfind as (F1 & F2 & F3 & F4).
      assert (used sb0 V (8192 * q + bi) = false) as Hf by (rewrite Hused, F3 by lia; done).
      assert (∀ b, 0 ≤ b < 8192 * q + bi → used sb0 V b = true) as Hlow.
      { intros b Hb'. destruct (decide (b < 8192 * q)); [apply Hbelow; lia|].
        replace b with (8192 * q + (b - 8192 * q)) by lia. rewrite Hused by lia.
        rewrite F4 by lia. done. }
      eapply wp_mono; [|by eapply (balloc_take V h L s2 bp q bi)]. intros a s3 [-> P].
      by eapply balloc_post_quiet; [eapply quiet_trans|].
    + wp_step. eapply wp_mono; [|eapply kbrelse_spec; [exact O2|exact H2|done|done]].
      intros _ s3 (O3 & Q3). wp_step. rewrite s32_small by lia. split.
      * exists (q + 1). split; [lia|]. split; [lia|]. split; [lia|]. split; [done|].
        split; [by do 2 (eapply quiet_trans; [done|])|].
        intros b Hb'. destruct (decide (b < 8192 * q)); [apply Hbelow; lia|].
        replace b with (8192 * q + (b - 8192 * q)) by lia. rewrite Hused by lia.
        rewrite Hfind by lia. done.
      * apply Z2Nat.inj_lt; dlia.
  - exists 0. split_and!; [lia|lia|unfold BPB, BSIZE; lia|done|apply quiet_refl|lia].
  - rewrite <- Z2Nat.inj_pos. unfold BPB, BSIZE, bitmap_fuel. apply Z2Nat.inj_lt; dlia.
Qed.

Lemma bfree_spec V h L s b :
  sb (files s) = sb0 → opened V h L s → 0 ≤ b < sb_size sb0 → used sb0 V b = true →
  BBLOCK b sb0 ∉ h → room sz 1 L → (length h + length L < 30)%nat →
  wp (bfree d b) (λ _ s', opened (freed sb0 V b) h (logged (BBLOCK b sb0) L) s' ∧ quiet h s s') s.
Proof using Hly.
  intros Esb O Hb Hu Hn Hr Hlen. unfold bfree. wp_step. apply wp_getsb. rewrite Esb.
  wp_step. eapply wp_mono; [|by eapply kbread_spec]. intros bp s1 (O1 & H1 & Q1 & _).
  wp_step. eapply bp_data_spec; [exact H1|].
  unfold used in Hu. apply negb_true_iff in Hu. rewrite Hu. wp_step.
  eapply wp_mono; [|by eapply bp_store_spec]. intros _ s2 (O2 & H2 & Q2).
  eapply wp_mono; [|eapply finish_spec; [exact O2|exact H2|by apply BBLOCK_home|done]].
  intros _ s3 (O3 & Q3). split; [exact O3|]. by do 2 (eapply quiet_trans; [done|]).
Qed.

(** Freeing a block that is free stops the kernel. *)
Lemma bfree_free V h L s b :
  sb (files s) = sb0 → opened V h L s → used sb0 V b = false →
  BBLOCK b sb0 ∉ h → (length h + length L < 30)%nat → bfree d b s = Panic "freeing free block".
Proof.
  intros Esb O Hu Hn Hlen.
  destruct (proj1 (wp_returns _ _ _) (kbread_spec d me st sz V h L s (BBLOCK b sb0) O Hn Hlen))
    as (bp & s1 & E & O1 & H1 & Q1 & _).
  unfold bfree. erewrite bind_Ret by reflexivity. rewrite Esb. rewrite (bind_Ret _ _ _ _ _ E).
  destruct (proj1 (wp_returns _ _ _) (bp_data_spec d me s1 bp _ _
    (λ x s2, x = V (BBLOCK b sb0) ∧ s2 = s1) H1 (conj eq_refl eq_refl))) as (x & s2 & E2 & -> & ->).
  rewrite (bind_Ret _ _ _ _ _ E2). unfold used in Hu. apply negb_false_iff in Hu. by rewrite Hu.
Qed.
End ops.
