(* ===== verification/FsFile.v ===== *)
(** * The contents of a file: bmap and readi

    The block map of an inode as a function, the bytes of a file, and what
    bmap and readi compute of them inside a transaction. *)

From Stdlib Require Import ZArith Lia.
From stdpp Require Import base numbers list gmap functions strings tactics.
From S2P Require Import Prelude Riscv Mem Bytes Kalloc Vm Proc ProcRules Locks Bio BioList BioSpec BioProps Log LogSpec LogCrash LogProps Ftypes Fs FsRules FsAlloc.

Local Open Scope Z_scope.

(** ** Entries of the inode table *)

Definition inode_at (s : kernel) (ip : Z) (i : inode) : Prop :=
  0 < ip ∧ itable (files s) !! Z.to_nat (ip - 1) = Some i.
Definition with_inode (ip : Z) (i : inode) (s : kernel) : kernel :=
  s <| files ::= (λ f, f <| itable ::= <[Z.to_nat (ip - 1) := i]> |>) |>.

Lemma wp_geti s ip i (Q : inode → kernel → Prop) : inode_at s ip i → Q i s → wp (geti ip) Q s.
Proof.
  intros [Hp Hi] HQ. unfold wp, geti. destruct (Z.eqb_spec ip 0); [lia|]. by rewrite Hi.
Qed.
Lemma wp_updi s ip i f (Q : unit → kernel → Prop) :
  inode_at s ip i → Q tt (with_inode ip (f i) s) → wp (updi ip f) Q s.
Proof. intros Hi HQ. unfold updi. wp_step. by eapply wp_geti. Qed.

Lemma inode_at_with s ip i i' : inode_at s ip i → inode_at (with_inode ip i' s) ip i'.
Proof.
  intros [Hp Hi]. split; [done|]. simpl. apply list_lookup_insert_eq. by eapply lookup_lt_Some.
Qed.
Lemma with_inode_twice s ip i i' : with_inode ip i' (with_inode ip i s) = with_inode ip i' s.
Proof.
  destruct s as [? ? ? ? ? ? ? []]. unfold with_inode. cbv [set_field]. simpl.
  by rewrite list_insert_insert_eq.
Qed.
Lemma with_inode_same s ip i : inode_at s ip i → with_inode ip i s = s.
Proof.
  intros [_ Hi]. destruct s as [? ? ? ? ? ? ? []]. unfold with_inode. cbv [set_field]. simpl in *.
  by rewrite list_insert_id.
Qed.
Lemma with_inode_log s ip i l : with_inode ip i (with_log l s) = with_log l (with_inode ip i s).
Proof. by destruct s as [? ? ? ? ? ? ? []]. Qed.

(** ** The block map *)

Definition addr (i : inode) (k : Z) : Z := default 0 (iaddrs i !! Z.to_nat k).
Definition ind_addr (x : block_data) (k : Z) : Z := get32 x (indirect_off k).
Definition faddr (V : contents) (i : inode) (bn : Z) : Z :=
  if decide (bn < NDIRECT) then addr i bn
  else if decide (addr i NDIRECT = 0) then 0
  else ind_addr (V (addr i NDIRECT)) (bn - NDIRECT).

(** The byte at offset [off] and a range of bytes. *)
Definition fbyte (V : contents) (i : inode) (off : Z) : Z :=
  default 0 (V (faddr V i (off / BSIZE)) !! Z.to_nat (off mod BSIZE)).
Definition fslice (V : contents) (i : inode) (off n : Z) : list Z := fbyte V i <$> seqZ off n.

Lemma fslice_app V i off m n :
  0 ≤ m → 0 ≤ n → fslice V i off (m + n) = fslice V i off m ++ fslice V i (off + m) n.
Proof. intros. unfold fslice. by rewrite seqZ_app, fmap_app by done. Qed.
Lemma length_fslice V i off n : length (fslice V i off n) = Z.to_nat n.
Proof. unfold fslice. by rewrite length_fmap, length_seqZ. Qed.

(** Bytes of one block. *)
Lemma fslice_block V i off m :
  0 ≤ off → 0 ≤ m → off mod BSIZE + m ≤ BSIZE →
  length (V (faddr V i (off / BSIZE))) = 1024%nat →
  fslice V i off m = sub_bytes (V (faddr V i (off / BSIZE))) (Z.to_nat (off mod BSIZE)) (Z.to_nat m).
Proof.
  unfold BSIZE. intros Hoff Hm Hb Hlen. apply list_eq. intros k. unfold fslice, sub_bytes.
  rewrite list_lookup_fmap. destruct (decide (k < Z.to_nat m)%nat).
  - rewrite lookup_seqZ_lt by lia. rewrite lookup_take_lt, lookup_drop by done. simpl.
    unfold fbyte, BSIZE. rewrite (Z.add_comm off).
    replace ((Z.of_nat k + off) / 1024) with (off / 1024) by dlia.
    replace (Z.to_nat ((Z.of_nat k + off) mod 1024)) with (Z.to_nat (off mod 1024) + k)%nat by dlia.
    destruct (lookup_lt_is_Some_2 (V (faddr V i (off / 1024))) (Z.to_nat (off mod 1024) + k)) as [v ->]; [|done].
    rewrite Hlen. dlia.
  - rewrite lookup_seqZ_ge by lia. by rewrite lookup_take_ge by lia.
Qed.

(** Block [n] belongs to the file. *)
Definition in_file (V : contents) (i : inode) (n : Z) : Prop :=
  n ≠ 0 ∧ (n = addr i NDIRECT ∨ ∃ bn, 0 ≤ bn < MAXFILE ∧ n = faddr V i bn).
Lemma in_file_addr V i bn : 0 ≤ bn < MAXFILE → faddr V i bn ≠ 0 → in_file V i (faddr V i bn).
Proof. intros. split; [done|]. right. by exists bn. Qed.
(** The process holds no block of the file. *)
Definition apart (V : contents) (i : inode) (h : list Z) : Prop := ∀ n, in_file V i n → n ∉ h.
Lemma apart_ind V i h : apart V i h → addr i NDIRECT ≠ 0 → addr i NDIRECT ∉ h.
Proof. intros A Hn. apply A. split; [done|by left]. Qed.

Section file.
Context (d me st sz : Z) (sb0 : superblock).
Hypothesis Hly : layout st sz sb0.
Local Abbreviation opened := (opened d me st sz).
Local Abbreviation quiet := (quiet d me).
Local Abbreviation kheld := (kheld d me).
Local Abbreviation bitmap := (bitmap st sz sb0).

Lemma inode_at_quiet h s s' ip i : quiet h s s' → inode_at s ip i → inode_at s' ip i.
Proof. intros [E _ _ _] [Hp Hi]. split; [done|]. rewrite E. done. Qed.
Lemma opened_inode V h L s ip i : opened V h L s → opened V h L (with_inode ip i s).
Proof. intros. by apply opened_files. Qed.

(** A block that may belong to a file. *)
Record data_block (V : contents) (a : Z) : Prop := {
  db_range : 0 < a < sb_size sb0;
  db_used : used sb0 V a = true;
  db_bmap : ¬ is_bmap sb0 a;
  db_home : home st sz a;
  db_len : length (V a) = 1024%nat;
}.

(** The blocks of the file are data blocks, all different. *)
Record file_ok (V : contents) (i : inode) : Prop := {
  fo_dev : idev i = d;
  fo_len : length (iaddrs i) = 13%nat;
  fo_data bn : 0 ≤ bn < MAXFILE → faddr V i bn ≠ 0 → data_block V (faddr V i bn);
  fo_ind : addr i NDIRECT ≠ 0 → data_block V (addr i NDIRECT) ∧ bytes (V (addr i NDIRECT));
  fo_inj bn bn' : 0 ≤ bn < MAXFILE → 0 ≤ bn' < MAXFILE →
    faddr V i bn ≠ 0 → faddr V i bn = faddr V i bn' → bn = bn';
  fo_apart bn : 0 ≤ bn < MAXFILE → faddr V i bn ≠ 0 → faddr V i bn ≠ addr i NDIRECT;
}.
(** Every block below the size is there. *)
Definition no_holes (V : contents) (i : inode) : Prop :=
  0 ≤ isize i ≤ MAXFILE * BSIZE ∧ ∀ bn, 0 ≤ bn → bn * BSIZE < isize i → faddr V i bn ≠ 0.

Lemma wp_addr_of V s ip i k (Q : Z → kernel → Prop) :
  file_ok V i → inode_at s ip i → 0 ≤ k ≤ NDIRECT → Q (addr i k) s → wp (addr_of ip k) Q s.
Proof.
  intros F Hi Hk HQ. unfold addr_of. wp_step. eapply wp_geti; [done|].
  destruct (lookup_lt_is_Some_2 (iaddrs i) (Z.to_nat k)) as [a Ha].
  { rewrite (fo_len _ _ F). unfold NDIRECT in Hk. lia. }
  unfold addr in HQ. rewrite Ha in *. by wp_step.
Qed.

(** ** bmap of a block that is there *)

Lemma bmap_found V h L s ip i bn :
  opened V h L s → inode_at s ip i → file_ok V i → 0 ≤ bn < MAXFILE → faddr V i bn ≠ 0 →
  (addr i NDIRECT ≠ 0 → addr i NDIRECT ∉ h) → (length h + length L < 30)%nat →
  wp (bmap ip bn) (λ r s', r = faddr V i bn ∧ opened V h L s' ∧ quiet h s s') s.
Proof.
  intros O Hi F Hbn Hf Hh Hlen. unfold bmap. wp_step. eapply wp_geti; [done|].
  unfold faddr in *. unfold MAXFILE in Hbn. destruct (Z.ltb_spec bn NDIRECT) as [Hd|Hd].
  - rewrite decide_True in * by done. wp_step. eapply wp_addr_of; [done|done|lia|].
    test_false (addr i bn =? 0). wp_step. split_and!; [done|done|apply quiet_refl].
  - rewrite (decide_False (P := bn < NDIRECT)) in * by lia. case_decide as Hn; [done|].
    test_true (bn - NDIRECT <? NINDIRECT). wp_step. eapply wp_addr_of; [done|done|done|].
    test_false (addr i NDIRECT =? 0). cbv iota. wp_step. wp_step.
    test_false (addr i NDIRECT =? 0). rewrite (fo_dev _ _ F). wp_step.
    eapply wp_mono; [|by eapply kbread_spec; auto]. intros b s1 (O1 & H1 & Q1 & S1).
    wp_step. eapply bp_data_spec; [exact H1|]. unfold ind_addr in *.
    test_false (get32 (V (addr i NDIRECT)) (indirect_off (bn - NDIRECT)) =? 0). wp_step. wp_step. wp_step.
    eapply wp_mono; [|by eapply kbrelse_spec]. intros _ s2 (O2 & Q2). wp_step.
    split_and!; [done|done|by eapply quiet_trans].
Qed.

(** ** readi *)

(** What readi returns, with the truncation and the overflow test. *)
Definition read_len (i : inode) (off n : Z) : Z :=
  if decide (isize i < off ∨ 2^32 ≤ off + n) then 0 else Z.min n (isize i - off).

(** A round of the loop: the bytes of one block. *)
Lemma read_block V h L s ip i off :
  opened V h L s → inode_at s ip i → file_ok V i → no_holes V i → apart V i h →
  (length h + length L < 30)%nat → 0 ≤ off < isize i →
  let a := faddr V i (off / BSIZE) in
  a ≠ 0 ∧ length (V a) = 1024%nat ∧
  wp (bmap ip (off / BSIZE)) (λ r s', r = a ∧ opened V h L s' ∧ quiet h s s') s ∧
  ∀ s1, opened V h L s1 → quiet h s s1 →
    wp (kbread d a) (λ b s', opened V (a :: h) L s' ∧ kheld s' b a (V a) ∧ quiet h s s' ∧
      synced V L s' a) s1.
Proof.
  intros O Hi F [Hsz Hnh] Hap Hlen Hoff a. unfold BSIZE in *.
  assert (0 ≤ off / 1024 < MAXFILE) as Hbn.
  { unfold MAXFILE, NDIRECT, NINDIRECT, BSIZE in *. dlia. }
  assert (a ≠ 0) as Ha by (apply Hnh; dlia).
  split; [done|]. split; [by apply (fo_data _ _ F)|]. split; [eapply bmap_found; [done..|by eapply apart_ind|done]|].
  intros s1 O1 Q1. eapply wp_mono; [|eapply kbread_spec; [exact O1|by apply Hap, in_file_addr|done]].
  intros b s2 (O2 & H2 & Q2 & S2). split_and!; [done|done|by eapply quiet_trans|done].
Qed.

Lemma readi_buf V h L s ip i off n :
  opened V h L s → inode_at s ip i → file_ok V i → no_holes V i → apart V i h →
  (length h + length L < 30)%nat → 0 ≤ off < 2^32 → 0 ≤ n < 2^32 →
  wp (readi ip DBuf off n) (λ r s',
    r = (read_len i off n, fslice V i off (read_len i off n)) ∧ opened V h L s' ∧ quiet h s s') s.
Proof.
  intros O Hi F Hnh Hap Hlen Hoff Hn. unfold readi. wp_step. eapply wp_geti; [done|].
  pose proof Hnh as [Hsz _]. change (MAXFILE * BSIZE) with 274432 in Hsz.
  assert ((isize i <? off) || (u32 (off + n) <? off) = bool_decide (isize i < off ∨ 2^32 ≤ off + n)) as ->.
  { unfold u32. case_bool_decide as Hc.
    - apply orb_true_iff. destruct Hc; [left; lia|right]. apply Z.ltb_lt. dlia.
    - apply orb_false_iff. split; [lia|]. apply Z.ltb_ge. dlia. }
  unfold read_len. case_bool_decide as Hc.
  { rewrite decide_True by done. wp_step. split_and!; [done|done|apply quiet_refl]. }
  rewrite decide_False by done. rewrite u32_small by lia.
  assert ((if isize i <? off + n then u32 (isize i - off) else n) = Z.min n (isize i - off)) as ->.
  { rewrite u32_small by lia. zcases. }
  set (m := Z.min n (isize i - off)).
  apply (wp_loop _
    (λ '(tot, o, acc) s', 0 ≤ tot ≤ m ∧ o = off + tot ∧ acc = fslice V i off tot ∧
       opened V h L s' ∧ quiet h s s')
    (λ '(tot, o, acc), Z.to_nat (m - tot))).
  - intros [[tot o] acc] s1 (Ht & -> & -> & O1 & Q1). destruct (Z.ltb_spec tot m).
    2:{ wp_step. replace tot with m by lia. split_and!; done. }
    destruct (read_block V h L s1 ip i (off + tot)) as (Ha & Hl & B1 & B2);
      [done|by eapply inode_at_quiet|done|done|done|done|lia|].
    wp_step. eapply wp_mono; [|exact B1]. intros a s2 (-> & O2 & Q2).
    test_false (faddr V i ((off + tot) / BSIZE) =? 0). rewrite (fo_dev _ _ F). wp_step.
    eapply wp_mono; [|by apply B2]. intros b s3 (O3 & H3 & Q3 & S3).
    wp_step. eapply bp_data_spec; [exact H3|]. wp_step. unfold copy_to. wp_step.
    change (0 =? -1) with false. cbv iota. wp_step.
    eapply wp_mono; [|eapply kbrelse_spec; [exact O3|exact H3|done|done]].
    intros _ s4 (O4 & Q4). wp_step.
    pose proof (Z.mod_pos_bound (off + tot) BSIZE ltac:(done)) as Hmod.
    set (k := Z.min _ _). assert (0 < k ≤ m - tot) as Hk by lia. assert (k + (off + tot) mod BSIZE ≤ BSIZE) by lia.
    split; [|lia]. split; [lia|]. split; [rewrite u32_small by lia; lia|].
    split; [|split; [done|by do 2 (eapply quiet_trans; [done|])]].
    rewrite fslice_app by lia. f_equal. symmetry. apply fslice_block; [lia|lia|lia|done].
  - split_and!; [lia|lia|lia|done|done|apply quiet_refl].
  - unfold file_fuel. rewrite <- Z2Nat.inj_pos. apply Z2Nat.inj_lt; lia.
Qed.
End file.
