(* ===== verification/FsWrite.v ===== *)
(** * Growing and writing a file: bmap and writei

    bmap adds a zeroed block that was free and leaves the other blocks of the
    disk alone; writei changes the bytes of the range and no others. *)

From Stdlib Require Import ZArith Lia.
From stdpp Require Import base numbers list gmap functions strings tactics.
From S2P Require Import Prelude Riscv Mem Bytes Kalloc Vm Proc ProcRules Locks Bio BioList BioSpec BioProps Log LogSpec LogCrash LogProps Ftypes Fs FsRules FsAlloc FsFile.

Local Open Scope Z_scope.

Section grow.
Context (d me st sz : Z) (sb0 : superblock).
Hypothesis Hly : layout st sz sb0.
Local Abbreviation opened := (opened d me st sz).
Local Abbreviation quiet := (quiet d me).
Local Abbreviation kheld := (kheld d me).
Local Abbreviation bitmap := (bitmap st sz sb0).
Local Abbreviation file_ok := (file_ok d st sz sb0).
Local Abbreviation data_block := (data_block st sz sb0).

(** Only the cache, the log and the inode [ip] changed. *)
Record iquiet (ip : Z) (i' : inode) (h : list Z) (s s' : kernel) : Prop := {
  iq_only : s' = with_log (logst s') (with_inode ip i' s);
  iq_disk : disk_same (bcache (logst s)) (bcache (logst s'));
  iq_out : outstanding (lg (logst s')) = outstanding (lg (logst s));
  iq_held b n x : n ∈ h → kheld s b n x → kheld s' b n x;
}.

Lemma quiet_iquiet ip i h s s' : inode_at s ip i → quiet h s s' → iquiet ip i h s s'.
Proof. intros Hi [A B C D]. split; [by rewrite with_inode_same|done..]. Qed.
Lemma iquiet_quiet ip i h s s1 s2 : iquiet ip i h s s1 → quiet h s1 s2 → iquiet ip i h s s2.
Proof.
  intros [A1 [B1 B2] C1 D1] [A2 [B3 B4] C2 D2]. split; [|split; congruence|congruence|eauto].
  rewrite A2, A1, with_with. by rewrite logst_with.
Qed.
Lemma iquiet_with ip i i' h s s1 : iquiet ip i h s s1 → iquiet ip i' h s (with_inode ip i' s1).
Proof.
  intros [A1 B1 C1 D1]. split; [|done..]. rewrite A1 at 1.
  by rewrite with_inode_log, with_inode_twice.
Qed.
Lemma iquiet_trans ip i i' h s s1 s2 :
  iquiet ip i h s s1 → iquiet ip i' h s1 s2 → iquiet ip i' h s s2.
Proof.
  intros [A1 [B1 B2] C1 D1] [A2 [B3 B4] C2 D2]. split; [|split; congruence|congruence|eauto].
  rewrite A2, A1, with_inode_log, with_with, with_inode_twice. by rewrite logst_with.
Qed.
Lemma iquiet_at ip i i' h s s' : inode_at s ip i → iquiet ip i' h s s' → inode_at s' ip i'.
Proof.
  intros Hi [E _ _ _]. rewrite E. pose proof (inode_at_with s ip i i' Hi) as [Hp H]. by split.
Qed.
Lemma iquiet_sb ip i' h s s' : iquiet ip i' h s s' → sb (files s') = sb (files s).
Proof. intros [E _ _ _]. by rewrite E. Qed.
Lemma synced_iquiet ip i' V L L' h s s' n :
  iquiet ip i' h s s' → L ⊆ L' → synced V L s n → synced V L' s' n.
Proof.
  intros Q HL [?|E]; [left; by apply HL|right]. destruct (iq_disk _ _ _ _ _ Q) as [-> _]. done.
Qed.

(** What bmap of block [bn] does to a file when it answers [r]. *)
Record grows (bn r : Z) (V : contents) (i : inode) (V' : contents) (i' : inode) : Prop := {
  gr_inode : ∃ a, i' = i <| iaddrs := a |>;
  gr_ok : file_ok V' i';
  gr_bitmap : bitmap V';
  gr_map bn' : 0 ≤ bn' < MAXFILE →
    faddr V' i' bn' = if decide (bn' = bn) then r else faddr V i bn';
  gr_found : faddr V i bn ≠ 0 → r = faddr V i bn;
  gr_zero : r ≠ 0 → faddr V i bn = 0 → V' r = zero_block ∧ used sb0 V r = false;
  gr_used b : 0 ≤ b < sb_size sb0 → used sb0 V b = true → used sb0 V' b = true;
  gr_ind : addr i' NDIRECT = addr i NDIRECT ∨
    addr i NDIRECT = 0 ∧ 0 ≤ addr i' NDIRECT < sb_size sb0 ∧ used sb0 V (addr i' NDIRECT) = false;
  gr_frame n : ¬ is_bmap sb0 n → (n ≠ 0 → n ≠ addr i NDIRECT) →
    (0 ≤ n < sb_size sb0 → used sb0 V n = true) → V' n = V n;
}.

(** ** Allocating a block *)

Lemma bitmap_ext V V' : bitmap V → (∀ n, is_bmap sb0 n → V' n = V n) → bitmap V'.
Proof.
  intros B E. split.
  - intros n Hn. rewrite E by done. by apply B.
  - intros b Hb Hu. apply B; [done|]. rewrite <- Hu. symmetry. apply used_ext, E. by exists b.
Qed.

Lemma allocated_frame V r n :
  ¬ is_bmap sb0 n → (0 ≤ n < sb_size sb0 → used sb0 V n = true) →
  0 ≤ r < sb_size sb0 → used sb0 V r = false → allocated sb0 V r n = V n.
Proof.
  intros Hn Hu Hr Hf. unfold allocated.
  rewrite fn_lookup_insert_ne by (intros ->; rewrite Hu in Hf by done; done).
  rewrite fn_lookup_insert_ne; [done|]. intros <-. apply Hn. by exists r.
Qed.
Lemma data_frame V r a :
  data_block V a → 0 ≤ r < sb_size sb0 → used sb0 V r = false → allocated sb0 V r a = V a.
Proof. intros [] Hr Hf. by apply allocated_frame. Qed.

Lemma data_allocated V r a :
  bitmap V → 0 ≤ r < sb_size sb0 → used sb0 V r = false → data_block V a → data_block (allocated sb0 V r) a.
Proof using Hly.
  intros B Hr Hf D. pose proof D as [H1 H2 H3 H4 H5]. split; try done.
  - rewrite (used_allocated st sz) by (done || lia). by rewrite H2.
  - by rewrite data_frame.
Qed.
Lemma data_new V r :
  bitmap V → 0 < r < sb_size sb0 → used sb0 V r = false → data_block (allocated sb0 V r) r.
Proof using Hly.
  intros B Hr Hf. destruct (bm_free _ _ _ _ B r ltac:(lia) Hf) as (_ & Hh & Hb). split; try done.
  - rewrite (used_allocated st sz) by (done || lia). rewrite bool_decide_true by done. by rewrite orb_true_r.
  - unfold allocated. by rewrite fn_lookup_insert.
Qed.
Lemma data_new_ne V r a : used sb0 V r = false → data_block V a → a ≠ r.
Proof. intros Hf [_ Hu _ _ _] ->. congruence. Qed.

(** A data block of contents that agree on it. *)
Lemma data_ext V V' a :
  data_block V a → used sb0 V' a = used sb0 V a → length (V' a) = length (V a) → data_block V' a.
Proof. intros [] E1 E2. split; congruence. Qed.

(** ** A direct block or the indirect block *)

Definition set_iaddr (i : inode) (k a : Z) : inode := i <| iaddrs ::= <[Z.to_nat k := a]> |>.

Lemma addr_set i k a k' :
  length (iaddrs i) = 13%nat → 0 ≤ k ≤ NDIRECT → 0 ≤ k' → addr (set_iaddr i k a) k' = if decide (k' = k) then a else addr i k'.
Proof.
  unfold NDIRECT. intros Hl Hk Hk'. unfold addr, set_iaddr. simpl. case_decide as E.
  - rewrite E, list_lookup_insert_eq by lia. done.
  - by rewrite list_lookup_insert_ne by lia.
Qed.

Lemma faddr_ext V V' i bn :
  (addr i NDIRECT ≠ 0 → V' (addr i NDIRECT) = V (addr i NDIRECT)) → faddr V' i bn = faddr V i bn.
Proof. intros E. unfold faddr. repeat case_decide; try done. by rewrite E. Qed.

Lemma grows_direct V i bn r :
  file_ok V i → bitmap V → 0 ≤ bn < NDIRECT → faddr V i bn = 0 →
  0 < r < sb_size sb0 → used sb0 V r = false →
  grows bn r V i (allocated sb0 V r) (set_iaddr i bn r).
Proof using Hly.
  intros F B Hbn H0 Hr Hf. pose proof (fo_len _ _ _ _ _ _ F) as Hlen.
  assert (addr (set_iaddr i bn r) NDIRECT = addr i NDIRECT) as Eind.
  { rewrite addr_set by (done || lia). by rewrite decide_False by lia. }
  assert (∀ bn', 0 ≤ bn' < MAXFILE → faddr (allocated sb0 V r) (set_iaddr i bn r) bn' =
    if decide (bn' = bn) then r else faddr V i bn') as Hmap.
  { intros bn' Hbn'. unfold faddr. rewrite Eind. case_decide as Hd.
    - by rewrite addr_set by (done || lia).
    - rewrite (decide_False (P := bn' = bn)) by lia. case_decide as Hi; [done|].
      rewrite data_frame; [done|by apply (fo_ind _ _ _ _ _ _ F)|lia|done]. }
  split.
  - by eexists.
  - split; [apply F|simpl; by rewrite length_insert|..].
    + intros bn' Hbn'. rewrite Hmap by done. case_decide; intros; [by apply data_new|].
      apply data_allocated; [done|lia|done|by apply (fo_data _ _ _ _ _ _ F)].
    + rewrite Eind. intros Hi. destruct (fo_ind _ _ _ _ _ _ F Hi) as [D Hb].
      rewrite data_frame by (done || lia). split; [|done]. apply data_allocated; (done || lia).
    + intros b1 b2 Hb1 Hb2. rewrite !Hmap by done.
      repeat case_decide; subst; try done; intros Hn E.
      * destruct (data_new_ne V r (faddr V i b2) Hf); [|done]. apply (fo_data _ _ _ _ _ _ F); congruence.
      * destruct (data_new_ne V r (faddr V i b1) Hf); [|done]. by apply (fo_data _ _ _ _ _ _ F).
      * by apply (fo_inj _ _ _ _ _ _ F).
    + intros bn' Hbn'. rewrite Hmap, Eind by done. case_decide; intros Hn.
      * intros E. destruct (data_new_ne V r (addr i NDIRECT) Hf); [|done].
        apply (fo_ind _ _ _ _ _ _ F). congruence.
      * by apply (fo_apart _ _ _ _ _ _ F).
  - apply bitmap_allocated; (done || lia).
  - done.
  - done.
  - intros _ _. split; [|done]. unfold allocated. by rewrite fn_lookup_insert.
  - intros b Hb Hu. rewrite (used_allocated st sz) by (done || lia). by rewrite Hu.
  - by left.
  - intros n Hn _ Hu. apply allocated_frame; (done || lia).
Qed.

(** A new indirect block, all of whose entries are 0. *)
Lemma ind_addr_zero k : 0 ≤ k < NINDIRECT → ind_addr zero_block k = 0.
Proof.
  unfold NINDIRECT, BSIZE. change (1024 / 4) with 256. intros Hk. unfold ind_addr, indirect_off, getn, sub_bytes, zero_block.
  rewrite drop_replicate, take_replicate. rewrite Nat.min_l by lia. done.
Qed.

Lemma grows_indirect V i bn r :
  file_ok V i → bitmap V → NDIRECT ≤ bn < MAXFILE → addr i NDIRECT = 0 →
  0 < r < sb_size sb0 → used sb0 V r = false →
  grows bn 0 V i (allocated sb0 V r) (set_iaddr i NDIRECT r).
Proof using Hly.
  intros F B Hbn H0 Hr Hf. pose proof (fo_len _ _ _ _ _ _ F) as Hlen.
  assert (addr (set_iaddr i NDIRECT r) NDIRECT = r) as Eind.
  { by rewrite addr_set, decide_True by done. }
  assert (allocated sb0 V r r = zero_block) as Ez by (unfold allocated; by rewrite fn_lookup_insert).
  assert (faddr V i bn = 0) as Hbn0.
  { unfold faddr. rewrite decide_False by lia. by rewrite decide_True. }
  assert (∀ bn', 0 ≤ bn' < MAXFILE →
    faddr (allocated sb0 V r) (set_iaddr i NDIRECT r) bn' = faddr V i bn') as Hmap.
  { intros bn' Hbn'. unfold faddr. rewrite Eind. case_decide as Hd.
    - rewrite addr_set by (done || lia). by rewrite decide_False by lia.
    - rewrite H0. rewrite (decide_True (P := 0 = 0)) by done. rewrite decide_False by lia.
      rewrite Ez. apply ind_addr_zero. unfold MAXFILE in Hbn'. lia. }
  split.
  - by eexists.
  - split; [apply F|simpl; by rewrite length_insert|..].
    + intros bn' Hbn'. rewrite Hmap by done. intros.
      apply data_allocated; [done|lia|done|by apply (fo_data _ _ _ _ _ _ F)].
    + rewrite Eind, Ez. intros _. split; [by apply data_new|]. by apply Forall_replicate.
    + intros b1 b2 Hb1 Hb2. rewrite !Hmap by done. by apply (fo_inj _ _ _ _ _ _ F).
    + intros bn' Hbn'. rewrite Hmap, Eind by done. intros Hn.
      apply (data_new_ne V); [done|]. by apply (fo_data _ _ _ _ _ _ F).
  - apply bitmap_allocated; (done || lia).
  - intros bn' Hbn'. rewrite Hmap by done. case_decide; [by subst|done].
  - done.
  - done.
  - intros b Hb Hu. rewrite (used_allocated st sz) by (done || lia). by rewrite Hu.
  - right. rewrite Eind. split_and!; [done|lia|lia|done].
  - intros n Hn _ Hu. apply allocated_frame; (done || lia).
Qed.

(** An entry of the indirect block. *)
Lemma grows_entry V i bn r :
  let ind := addr i NDIRECT in
  let off := indirect_off (bn - NDIRECT) in
  file_ok V i → bitmap V → NDIRECT ≤ bn < MAXFILE → ind ≠ 0 → faddr V i bn = 0 →
  0 < r < sb_size sb0 → used sb0 V r = false →
  grows bn r V i (<[ind := put32 (V ind) off r]> (allocated sb0 V r)) i.
Proof using Hly.
  intros ind off F B Hbn Hind H0 Hr Hf.
  pose proof (fo_ind _ _ _ _ _ _ F Hind) as [D Hbytes]. fold ind in D, Hbytes.
  set (V1 := allocated sb0 V r). set (V' := <[ind := _]> V1).
  unfold MAXFILE, NDIRECT, NINDIRECT, BSIZE in Hbn. change (1024 / 4) with 256 in Hbn.
  assert (off + 4 ≤ 1024)%nat as Hoff by (unfold off, indirect_off, NDIRECT; lia).
  assert (V' ind = put32 (V ind) off r) as Eind by (unfold V'; by rewrite fn_lookup_insert).
  assert (∀ n, n ≠ ind → V' n = V1 n) as Eother by (intros; unfold V'; by rewrite fn_lookup_insert_ne).
  pose proof (ly_size _ _ _ Hly) as Hsize.
  assert (∀ bn', 0 ≤ bn' < MAXFILE → faddr V' i bn' = if decide (bn' = bn) then r else faddr V i bn') as Hmap.
  { intros bn' Hbn'. unfold faddr. fold ind. case_decide as Hd.
    - by rewrite decide_False by (unfold NDIRECT in *; lia).
    - rewrite !(decide_False (P := ind = 0)) by done. rewrite Eind. unfold ind_addr. case_decide as E.
      + subst bn'. fold off. rewrite getn_putn_eq by (rewrite (db_len _ _ _ _ _ D); lia).
        apply Z.mod_small. lia.
      + apply getn_putn_ne; [rewrite (db_len _ _ _ _ _ D); lia|].
        unfold off, indirect_off, NDIRECT in *. lia. }
  assert (∀ n, is_bmap sb0 n → V' n = V1 n) as Ebm.
  { intros n Hn. apply Eother. intros ->. by apply (db_bmap _ _ _ _ _ D). }
  assert (∀ a, 0 < a < sb_size sb0 → used sb0 V' a = used sb0 V1 a) as Hu'.
  { intros a Ha. apply used_ext, Ebm. exists a. split; [lia|done]. }
  assert (r ≠ ind) as Hrn by (intros E; by apply (data_new_ne V r ind Hf D)).
  assert (∀ a, a ≠ ind → data_block V1 a → data_block V' a) as Hdata.
  { intros a Ha Da. apply (data_ext V1); [done|by apply Hu', Da|by rewrite Eother]. }
  split.
  - exists (iaddrs i). by destruct i.
  - split; [apply F|apply F|..].
    + intros bn' Hbn'. rewrite Hmap by done. case_decide; intros Hn; [by apply Hdata, data_new|].
      apply Hdata; [by apply (fo_apart _ _ _ _ _ _ F)|].
      apply data_allocated; [done|lia|done|by apply (fo_data _ _ _ _ _ _ F)].
    + intros _. fold ind. rewrite Eind. split.
      * apply (data_ext V); [done| |].
        { rewrite Hu' by apply D. unfold V1. rewrite (used_allocated st sz) by (done || (destruct D; lia)).
          by rewrite (db_used _ _ _ _ _ D). }
        rewrite Eind, length_putn; [done|]. rewrite (db_len _ _ _ _ _ D). lia.
      * apply bytes_overwrite; [done|apply bytes_le_bytes].
    + intros b1 b2 Hb1 Hb2. rewrite !Hmap by done.
      repeat case_decide; subst; try done; intros Hn E.
      * destruct (data_new_ne V r (faddr V i b2) Hf); [|done]. apply (fo_data _ _ _ _ _ _ F); congruence.
      * destruct (data_new_ne V r (faddr V i b1) Hf); [|done]. by apply (fo_data _ _ _ _ _ _ F).
      * by apply (fo_inj _ _ _ _ _ _ F).
    + intros bn' Hbn'. rewrite Hmap by done. case_decide; intros Hn; [done|].
      by apply (fo_apart _ _ _ _ _ _ F).
  - apply (bitmap_ext V1); [by apply bitmap_allocated; (done || lia)|done].
  - done.
  - done.
  - intros _ _. split; [|done]. rewrite Eother by done. unfold V1, allocated. by rewrite fn_lookup_insert.
  - intros b Hb Hu. rewrite (used_ext sb0 V1) by (apply Ebm; by exists b).
    unfold V1. rewrite (used_allocated st sz) by (done || lia). by rewrite Hu.
  - by left.
  - intros n Hn1 Hn2 Hu. rewrite Eother by (intros ->; by apply Hn2). apply allocated_frame; (done || lia).
Qed.

(** Finding the block again, and two steps in a row. *)
Lemma grows_found V i bn :
  file_ok V i → bitmap V → grows bn (faddr V i bn) V i V i.
Proof.
  intros F B. split; try done.
  - exists (iaddrs i). by destruct i.
  - intros bn' _. case_decide; by subst.
  - by left.
Qed.
Lemma grows_trans V i V1 i1 V2 i2 bn r :
  grows bn 0 V i V1 i1 → grows bn r V1 i1 V2 i2 → faddr V i bn = 0 → 0 ≤ bn < MAXFILE →
  addr i NDIRECT = 0 → (0 ≤ addr i1 NDIRECT < sb_size sb0 ∧ used sb0 V (addr i1 NDIRECT) = false) →
  grows bn r V i V2 i2.
Proof.
  intros G1 G2 H0 Hbn Hi0 [Ha Hf]. split.
  - destruct (gr_inode _ _ _ _ _ _ G1) as [a1 ->], (gr_inode _ _ _ _ _ _ G2) as [a2 ->].
    exists a2. by destruct i.
  - apply G2.
  - apply G2.
  - intros bn' Hbn'. rewrite (gr_map _ _ _ _ _ _ G2) by done. case_decide; [done|].
    rewrite (gr_map _ _ _ _ _ _ G1) by done. by rewrite decide_False.
  - done.
  - intros Hr _. destruct (gr_zero _ _ _ _ _ _ G2 Hr) as [E1 E2].
    { rewrite (gr_map _ _ _ _ _ _ G1) by done. by rewrite decide_True. }
    split; [done|]. destruct (used sb0 V r) eqn:Eu; [|done].
    pose proof (gr_map _ _ _ _ _ _ G2 bn Hbn) as Em. rewrite decide_True in Em by done.
    destruct (fo_data _ _ _ _ _ _ (gr_ok _ _ _ _ _ _ G2) bn Hbn) as [Hrange _ _ _ _]; [congruence|].
    rewrite (gr_used _ _ _ _ _ _ G1 r) in E2; [done|rewrite <- Em; lia|done].
  - intros b Hb Hu. by apply G2, G1.
  - right. destruct (gr_ind _ _ _ _ _ _ G2) as [->|(_ & Hr2 & Hf2)]; [done|]. split; [done|]. split; [done|].
    destruct (used sb0 V (addr i2 NDIRECT)) eqn:E; [|done]. by rewrite (gr_used _ _ _ _ _ _ G1) in Hf2.
  - intros n Hn1 Hn2 Hu. rewrite (gr_frame _ _ _ _ _ _ G2).
    + by apply G1.
    + done.
    + intros _ ->. rewrite Hu in Hf by done. done.
    + intros Hn. apply G1; auto.
Qed.

(** ** bmap *)

(** The blocks bmap puts in the log at most: the block and its entry in the
    bitmap, the indirect block, and the entry of the indirect block in the
    bitmap when it is new. *)
Definition grow_max (i : inode) : nat := if decide (addr i NDIRECT = 0) then 4 else 3.

Definition bmap_post (bn : Z) (V : contents) (i : inode) (h L : list Z) (ip : Z) (s : kernel)
    (r : Z) (s' : kernel) : Prop :=
  ∃ V' L' i', grows bn r V i V' i' ∧ opened V' h L' s' ∧ iquiet ip i' h s s' ∧
    L ⊆ L' ∧ (length L' ≤ length L + grow_max i)%nat ∧
    (∀ n, n ∈ L' → n ∈ L ∨ is_bmap sb0 n ∨ n ≠ 0 ∧ (n = addr i' NDIRECT ∨ n = r)) ∧
    (r = 0 → ∀ b, 0 ≤ b < sb_size sb0 → used sb0 V' b = true).

Lemma wp_set_addr s ip i k a (Q : unit → kernel → Prop) :
  inode_at s ip i → Q tt (with_inode ip (set_iaddr i k a) s) → wp (set_addr ip k a) Q s.
Proof. intros Hi HQ. unfold set_addr. by eapply wp_updi. Qed.

(** balloc, and the answer stored in the inode. *)
Lemma balloc_slot V h L s ip i k :
  sb (files s) = sb0 → bitmap V → holds_used sb0 V h → room sz 2 L → (length h + length L + 1 < 30)%nat →
  opened V h L s → inode_at s ip i →
  wp (let* a := balloc d in if a =? 0 then ret 0 else set_addr ip k a ;;; ret a)
     (λ a s', ∃ L', L ⊆ L' ∧ (length L' ≤ length L + 2)%nat ∧
        (∀ n, n ∈ L' → n ∈ L ∨ is_bmap sb0 n ∨ n ≠ 0 ∧ n = a) ∧
        (a = 0 ∧ opened V h L' s' ∧ iquiet ip i h s s' ∧ (∀ b, 0 ≤ b < sb_size sb0 → used sb0 V b = true) ∨
         0 < a < sb_size sb0 ∧ used sb0 V a = false ∧ a ∈ L' ∧ opened (allocated sb0 V a) h L' s' ∧
         iquiet ip (set_iaddr i k a) h s s')) s.
Proof using Hly.
  intros Esb B Hu Hr Hlen O Hi. wp_step.
  eapply wp_mono; [|by eapply (balloc_spec d me st sz sb0)].
  intros a s1 (V' & L' & O1 & Q1 & HL & Hl & Hnew & [(-> & -> & -> & Hall)|(Ha & Hf & _ & HaL & ->)]).
  - rewrite Z.eqb_refl. wp_step. exists L. split; [done|]. split; [lia|]. split; [by left|]. left. split_and!; try done. by apply quiet_iquiet.
  - test_false (a =? 0). wp_step. pose proof (inode_at_quiet _ _ _ _ _ _ _ Q1 Hi) as Hi1.
    eapply wp_set_addr; [done|]. wp_step. exists L'. split; [done|]. split; [done|].
    split; [intros n Hn; destruct (Hnew n Hn) as [?|[?| ->]]; [by left|by right; left|right; right; split; [lia|done]]|]. right.
    split_and!; [lia..|done|done| |].
    + by apply opened_inode.
    + eapply iquiet_with. by apply quiet_iquiet.
Qed.

(** bmap of a block behind the direct ones, once the indirect block exists. *)
Definition bmap_indirect (dev ind k : Z) : M kernel Z :=
  let* bp := kbread dev ind in
  let* x := bp_data bp in
  let addr := get32 x (indirect_off k) in
  let* addr :=
    (if addr =? 0 then
       let* addr := balloc dev in
       if negb (addr =? 0) then
         bp_store bp (λ x, put32 x (indirect_off k) addr) ;;;
         klog_write bp ;;;
         ret addr
       else ret addr
     else ret addr) in
  kbrelse bp ;;;
  ret addr.

Lemma bmap_indirect_spec V h L s ip i bn :
  sb (files s) = sb0 → file_ok V i → bitmap V → holds_used sb0 V h → addr i NDIRECT ∉ h →
  room sz 3 L → (length h + length L + 2 < 30)%nat → opened V h L s → inode_at s ip i →
  NDIRECT ≤ bn < MAXFILE → addr i NDIRECT ≠ 0 →
  wp (bmap_indirect d (addr i NDIRECT) (bn - NDIRECT))
     (λ r s', ∃ V' L', grows bn r V i V' i ∧ opened V' h L' s' ∧ iquiet ip i h s s' ∧
       L ⊆ L' ∧ (length L' ≤ length L + if decide (addr i NDIRECT ∈ L) then 2 else 3)%nat ∧
       (∀ n, n ∈ L' → n ∈ L ∨ is_bmap sb0 n ∨ n ≠ 0 ∧ (n = addr i NDIRECT ∨ n = r)) ∧
       (r = 0 → ∀ b, 0 ≤ b < sb_size sb0 → used sb0 V' b = true)) s.
Proof using Hly.
  intros Esb F B Hhu Hih Hr Hlen O Hi Hbn Hind. unfold bmap_indirect.
  set (ind := addr i NDIRECT) in *. set (off := indirect_off (bn - NDIRECT)).
  destruct (fo_ind _ _ _ _ _ _ F Hind) as [D _]. fold ind in D.
  assert (faddr V i bn = get32 (V ind) off) as Ef.
  { unfold faddr. rewrite decide_False by lia. by rewrite decide_False. }
  wp_step. eapply wp_mono; [|eapply kbread_spec; [done|done|lia]].
  intros bp s1 (O1 & H1 & Q1 & S1). wp_step. eapply bp_data_spec; [exact H1|]. fold ind off. rewrite <- Ef.
  destruct (Z.eqb_spec (faddr V i bn) 0) as [E0|E0].
  2:{ wp_step. wp_step. wp_step. eapply wp_mono; [|by eapply kbrelse_spec]. intros _ s2 (O2 & Q2).
      wp_step. exists V, L. split_and!; [by apply grows_found|done| |done|lia|by left|lia].
      apply quiet_iquiet; [done|]. by eapply quiet_trans. }
  assert (holds_used sb0 V (ind :: h)) as Hhu1.
  { intros n [->|Hn]%elem_of_cons; [|by apply Hhu]. split; [apply D|]. intros _. apply D. }
  wp_step. wp_step. eapply wp_mono; [|eapply (balloc_spec d me st sz sb0 Hly V (ind :: h) L s1);
    [by rewrite (quiet_sb _ _ _ _ _ Q1)|done|done|by eapply room_le; [|done]; lia|simpl; lia|done]].
  intros a s2 (V' & L' & O2 & Q2 & HL & Hl & Hnew & [(-> & -> & -> & Hall)|(Ha & Hf & _ & HaL & ->)]).
  - rewrite Z.eqb_refl. simpl. wp_step. wp_step.
    assert (quiet h s1 s2) as Q2' by (eapply quiet_mono; [|exact Q2]; intros m Hm; by right).
    eapply wp_mono; [|eapply kbrelse_spec; [exact O2|by apply (q_held _ _ _ _ _ Q2); [left|exact H1]|done|]].
    2:{ by eapply synced_quiet. }
    intros _ s3 (O3 & Q3). wp_step. exists V, L. split_and!; [|done| |done|lia|by left|done].
    + rewrite <- E0. by apply grows_found.
    + apply quiet_iquiet; [done|]. by do 2 (eapply quiet_trans; [done|]).
  - test_false (a =? 0). simpl.
    assert (a ≠ ind) as Hai by (intros ->; by apply (data_new_ne V ind ind Hf D)).
    assert (kheld s2 bp ind (V ind)) as H2 by (apply (q_held _ _ _ _ _ Q2); [left|exact H1]).
    wp_step. eapply wp_mono; [|eapply bp_store_spec; [exact O2|exact H2|done]]. intros _ s3 (O3 & H3 & Q3).
    wp_step. eapply wp_mono; [|eapply klog_write_spec; [exact O3|exact H3|apply D|]].
    2:{ unfold room in *. simpl in *. lia. }
    intros _ s4 (O4 & H4 & Q4). wp_step. wp_step.
    eapply wp_mono; [|eapply kbrelse_spec; [exact O4|exact H4|done|left; apply elem_logged]].
    intros _ s5 (O5 & Q5). wp_step. eexists _, _. split_and!; [|exact O5| | | | |lia].
    + by apply grows_entry.
    + apply quiet_iquiet; [done|].
      assert (∀ s s', quiet (ind :: h) s s' → quiet h s s') as Hq
        by (intros ? ? Q; eapply quiet_mono; [|exact Q]; intros m Hm; by right).
      do 2 (eapply quiet_trans; [by eauto|]). do 2 (eapply quiet_trans; [by eauto|]). done.
    + etransitivity; [done|apply logged_subseteq].
    + pose proof (length_logged ind L'). case_decide as Hin; [|lia].
      unfold logged. rewrite decide_True by (by apply HL). lia.
    + intros n [Hn| ->]%elem_logged_inv; [|tauto].
      destruct (Hnew n Hn) as [?|[?| ->]]; [by left|by right; left|right; right; split; [lia|by right]].
Qed.

Lemma bmap_spec V h L s ip i bn :
  sb (files s) = sb0 → file_ok V i → bitmap V → holds_used sb0 V h →
  (addr i NDIRECT ≠ 0 → addr i NDIRECT ∉ h) →
  room sz (S (grow_max i)) L → (length h + length L + grow_max i < 30)%nat → opened V h L s → inode_at s ip i →
  0 ≤ bn < MAXFILE → wp (bmap ip bn) (bmap_post bn V i h L ip s) s.
Proof using Hly.
  intros Esb F B Hhu Hih Hr Hlen O Hi Hbn.
  assert (3 ≤ grow_max i)%nat as Hg by (unfold grow_max; case_decide; lia).
  destruct (decide (faddr V i bn = 0)) as [E0|E0].
  2:{ eapply wp_mono; [|eapply (bmap_found d me st sz sb0 V h L s ip i bn); try done; lia].
      intros r s1 (-> & O1 & Q1). exists V, L, i. split_and!; [by apply grows_found|done|by apply quiet_iquiet|done|lia|by left|done]. }
  unfold bmap. wp_step. eapply wp_geti; [done|]. rewrite (fo_dev _ _ _ _ _ _ F).
  pose proof E0 as Ef. unfold faddr in E0. destruct (Z.ltb_spec bn NDIRECT) as [Hd|Hd].
  - rewrite decide_True in E0 by done. wp_step. eapply wp_addr_of; [done|done|lia|].
    test_true (addr i bn =? 0).
    eapply wp_mono; [|eapply balloc_slot; [done..|by eapply room_le; [|done]; lia|lia|done|done]].
    intros r s1 (L' & HL & Hl & Hnew & [(-> & O1 & Q1 & Hall)|(Ha & Hf & HaL & O1 & Q1)]).
    + exists V, L', i. split_and!; [|done|done|done|lia|intros n Hn; destruct (Hnew n Hn) as [?|[?|[? ?]]]; tauto|done].
      rewrite <- Ef. by apply grows_found.
    + exists (allocated sb0 V r), L', (set_iaddr i bn r). split_and!; [|done|done|done|lia|intros n Hn; destruct (Hnew n Hn) as [?|[?|[? ?]]]; tauto|lia].
      apply grows_direct; (done || lia).
  - rewrite decide_False in E0 by lia. pose proof Hbn as Hbn'. unfold MAXFILE in Hbn'.
    test_true (bn - NDIRECT <? NINDIRECT). clear Hbn'.
    wp_step. eapply wp_addr_of; [done|done|done|].
    wp_step. destruct (Z.eqb_spec (addr i NDIRECT) 0) as [Ei|Ei].
    + assert (grow_max i = 4%nat) as Eg by (unfold grow_max; by rewrite decide_True). rewrite Eg in *.
      eapply wp_mono; [|eapply balloc_slot; [done..|by eapply room_le; [|done]; lia|lia|done|done]].
      intros r s1 (L' & HL & Hl & Hnew & [(-> & O1 & Q1 & Hall)|(Ha & Hf & HaL & O1 & Q1)]).
      { rewrite Z.eqb_refl. wp_step. exists V, L', i. split_and!; [|done|done|done|lia|intros n Hn; destruct (Hnew n Hn) as [?|[?|[? ?]]]; tauto|done].
        rewrite <- Ef. by apply grows_found. }
      test_false (r =? 0). pose proof (grows_indirect V i bn r F B ltac:(lia) Ei Ha Hf) as G1.
      assert (addr (set_iaddr i NDIRECT r) NDIRECT = r) as Er.
      { rewrite addr_set, decide_True; [done|done|apply F|done|done]. }
      pose proof (bmap_indirect_spec (allocated sb0 V r) h L' s1 ip (set_iaddr i NDIRECT r) bn) as HS.
      rewrite Er in HS. rewrite decide_True in HS by done.
      eapply wp_mono; [|apply HS].
      * intros r' s2 (V2 & L2 & G2 & O2 & Q2 & HL2 & Hl2 & Hnew2 & Hfull).
        exists V2, L2, (set_iaddr i NDIRECT r).
        split_and!; [|done|by eapply iquiet_trans|by etransitivity|lia| |done].
        2:{ rewrite Er. intros n Hn. destruct (Hnew2 n Hn) as [H|H]; [|tauto].
            destruct (Hnew n H) as [?|[?|[? ?]]]; tauto. }
        eapply grows_trans; [exact G1|exact G2|done|done|done|]. rewrite Er. split; [lia|done].
      * by rewrite (iquiet_sb _ _ _ _ _ Q1).
      * apply G1.
      * apply G1.
      * intros n Hn. destruct (Hhu n Hn) as [H1 H2]. split; [done|]. intros Hn'. apply G1; auto.
      * intros Hin. destruct (Hhu r Hin) as [_ H2]. rewrite H2 in Hf by lia. done.
      * unfold room in *. lia.
      * lia.
      * done.
      * by eapply iquiet_at.
      * lia.
      * lia.
    + wp_step. test_false (addr i NDIRECT =? 0).
      eapply wp_mono; [|eapply (bmap_indirect_spec V h L s ip i bn); try done; [by apply Hih|unfold room in *; lia|lia|lia]].
      intros r s1 (V2 & L2 & G2 & O2 & Q2 & HL2 & Hl2 & Hnew2 & Hfull).
      exists V2, L2, i. split_and!; try done. destruct (decide (addr i NDIRECT ∈ L)); lia.
Qed.
End grow.
