(* ===== verification/FsInode.v ===== *)
(** * Inodes on disk: iupdate and ilock

    The layout of [struct dinode] in its block, and how iupdate and ilock move
    an inode between the table and the block. *)

From Stdlib Require Import ZArith Lia.
From stdpp Require Import base numbers list gmap functions strings tactics.
From S2P Require Import Prelude Riscv Mem Bytes Kalloc Vm Proc ProcRules Locks Bio BioList BioSpec BioProps Log LogSpec LogCrash LogProps Ftypes Fs FsRules FsAlloc FsFile FsWrite.

Local Open Scope Z_scope.

(** ** The bytes of a dinode *)

(** [get] after [put] of a [k]-byte field, as the [k]-byte integer. *)
Lemma s16_mod x : - 2^15 ≤ x < 2^15 → s16 (x mod 2^(8 * Z.of_nat 2)) = x.
Proof.
  intros Hx. unfold s16. change (8 * Z.of_nat 2) with 16. rewrite Zplus_mod_idemp_l, Z.mod_small; lia.
Qed.

Lemma sub_putn_ne k l off v off' n :
  (off + k ≤ length l)%nat → (off' + n ≤ off ∨ off + k ≤ off')%nat →
  sub_bytes (putn k l off v) off' n = sub_bytes l off' n.
Proof. intros. apply sub_overwrite_ne; rewrite length_le_bytes; lia. Qed.

Definition put_addrs (o : nat) (j : nat) (l : list Z) (x : list Z) : list Z :=
  foldl (λ x '(k, a), put32 x (o + 12 + 4 * k) a) x (imap (λ k a, ((j + k)%nat, a)) l).

Lemma put_addrs_spec o l : ∀ j x,
  (o + 12 + 4 * (j + length l) ≤ length x)%nat →
  length (put_addrs o j l x) = length x ∧
  (∀ k a, l !! k = Some a → get32 (put_addrs o j l x) (o + 12 + 4 * (j + k)) = a mod 2^32) ∧
  (∀ off n, (off + n ≤ o + 12 + 4 * j ∨ o + 12 + 4 * (j + length l) ≤ off)%nat →
     sub_bytes (put_addrs o j l x) off n = sub_bytes x off n) ∧
  (bytes x → bytes (put_addrs o j l x)).
Proof.
  induction l as [|a l IH]; intros j x Hlen; [done|]. unfold put_addrs. rewrite imap_cons.
  cbn [foldl]. simpl in Hlen. rewrite Nat.add_0_r.
  set (x1 := put32 x (o + 12 + 4 * j) a).
  assert (length x1 = length x) as Hl1 by (apply length_putn; lia).
  replace (imap ((λ k b, ((j + k)%nat, b)) ∘ S) l) with (imap (λ k b, ((S j + k)%nat, b)) l)
    by (apply imap_ext; intros; unfold compose; f_equal; lia).
  destruct (IH (S j) x1) as (I1 & I2 & I3 & I4); [lia|]. unfold put_addrs in *. split; [lia|]. split; [|split].
  - intros [|k] b Hb; simpl in Hb.
    + simplify_eq. unfold getn. rewrite I3 by lia. rewrite Nat.add_0_r.
      pose proof (getn_putn_eq 4 x (o + 12 + 4 * j) b ltac:(lia)) as E. exact E.
    + replace (j + S k)%nat with (S j + k)%nat by lia. by apply I2.
  - intros off n Hoff. simpl in Hoff. rewrite I3 by lia. apply sub_overwrite_ne; rewrite length_le_bytes; lia.
  - intros Hx. apply I4, bytes_overwrite; [done|apply bytes_le_bytes].
Qed.

(** The values C can store in the fields. *)
Record inode_ranges (i : inode) : Prop := {
  ir_type : - 2^15 ≤ itype i < 2^15;
  ir_major : - 2^15 ≤ imajor i < 2^15;
  ir_minor : - 2^15 ≤ iminor i < 2^15;
  ir_nlink : - 2^15 ≤ inlink i < 2^15;
  ir_size : 0 ≤ isize i < 2^32;
  ir_len : length (iaddrs i) = 13%nat;
  ir_addrs : Forall (λ a, 0 ≤ a < 2^32) (iaddrs i);
}.

(** The fields of [j] with the contents of [i]: what ilock loads. *)
Definition load_inode (i j : inode) : inode :=
  j <| itype := itype i |> <| imajor := imajor i |> <| iminor := iminor i |>
    <| inlink := inlink i |> <| isize := isize i |> <| iaddrs := iaddrs i |>.

(** *** The header of the dinode *)
Definition put_fields (o : nat) (i : inode) (x : list Z) : list Z :=
  put32 (put16 (put16 (put16 (put16 x o (itype i)) (o + 2) (imajor i)) (o + 4) (iminor i))
          (o + 6) (inlink i)) (o + 8) (isize i).
Lemma put_fields_spec o i x :
  (o + 12 ≤ length x)%nat →
  let x' := put_fields o i x in
  length x' = length x ∧
  get16 x' o = itype i mod 2^16 ∧ get16 x' (o + 2) = imajor i mod 2^16 ∧
  get16 x' (o + 4) = iminor i mod 2^16 ∧ get16 x' (o + 6) = inlink i mod 2^16 ∧
  get32 x' (o + 8) = isize i mod 2^32 ∧
  (∀ off n, (off + n ≤ o ∨ o + 12 ≤ off)%nat → sub_bytes x' off n = sub_bytes x off n) ∧
  (bytes x → bytes x').
Proof.
  intros Hl x'. unfold x', put_fields.
  set (x1 := put16 x o _). assert (length x1 = length x) as L1 by (apply length_putn; lia).
  set (x2 := put16 x1 _ _). assert (length x2 = length x) as L2 by (unfold x2; rewrite length_putn; lia).
  set (x3 := put16 x2 _ _). assert (length x3 = length x) as L3 by (unfold x3; rewrite length_putn; lia).
  set (x4 := put16 x3 _ _). assert (length x4 = length x) as L4 by (unfold x4; rewrite length_putn; lia).
  set (x5 := put32 x4 _ _). assert (length x5 = length x) as L5 by (unfold x5; rewrite length_putn; lia).
  split; [done|].
  split; [unfold x5; rewrite getn_putn_ne by lia; unfold x4; rewrite getn_putn_ne by lia;
    unfold x3; rewrite getn_putn_ne by lia; unfold x2; rewrite getn_putn_ne by lia; by apply getn_putn_eq; lia|].
  split; [unfold x5; rewrite getn_putn_ne by lia; unfold x4; rewrite getn_putn_ne by lia;
    unfold x3; rewrite getn_putn_ne by lia; by apply getn_putn_eq; lia|].
  split; [unfold x5; rewrite getn_putn_ne by lia; unfold x4; rewrite getn_putn_ne by lia; by apply getn_putn_eq; lia|].
  split; [unfold x5; rewrite getn_putn_ne by lia; by apply getn_putn_eq; lia|].
  split; [by apply getn_putn_eq; lia|]. split.
  - intros off n Hoff. unfold x5. rewrite sub_putn_ne by lia. unfold x4. rewrite sub_putn_ne by lia.
    unfold x3. rewrite sub_putn_ne by lia. unfold x2. rewrite sub_putn_ne by lia. apply sub_putn_ne; lia.
  - intros Hx. repeat (apply bytes_overwrite; [|apply bytes_le_bytes]). done.
Qed.

Lemma put_dinode_eq o i x : put_dinode o i x = put_addrs o 0 (iaddrs i) (put_fields o i x).
Proof. reflexivity. Qed.

Lemma iblock_small inum : (dinode_off inum + 64 ≤ 1024)%nat.
Proof.
  unfold dinode_off, IPB, BSIZE. change (1024 / 64) with 16.
  pose proof (Z.mod_pos_bound inum 16 ltac:(lia)). lia.
Qed.
Lemma length_put_dinode o i x :
  (o + 64 ≤ length x)%nat → length (iaddrs i) = 13%nat → length (put_dinode o i x) = length x.
Proof.
  intros Hl H13. rewrite put_dinode_eq.
  destruct (put_fields_spec o i x ltac:(lia)) as (F1 & _).
  destruct (put_addrs_spec o (iaddrs i) 0 (put_fields o i x)) as (A1 & _); lia.
Qed.

Lemma put_dinode_spec o i x :
  (o + 64 ≤ length x)%nat → inode_ranges i →
  length (put_dinode o i x) = length x ∧
  (∀ j, get_dinode (put_dinode o i x) o j = load_inode i j) ∧
  (∀ off n, (off + n ≤ o ∨ o + 64 ≤ off)%nat → sub_bytes (put_dinode o i x) off n = sub_bytes x off n) ∧
  (bytes x → bytes (put_dinode o i x)).
Proof.
  intros Hl [R1 R2 R3 R4 R5 R6 R7]. rewrite put_dinode_eq.
  destruct (put_fields_spec o i x ltac:(lia)) as (F1 & F2 & F3 & F4 & F5 & F6 & F7 & F8).
  destruct (put_addrs_spec o (iaddrs i) 0 (put_fields o i x)) as (A1 & A2 & A3 & A4); [lia|].
  rewrite R6 in *. split; [lia|]. split; [|split].
  - intros j. unfold get_dinode, load_inode, di_type, getn.
    rewrite !A3 by lia. fold (getn 2 (put_fields o i x) o) (getn 2 (put_fields o i x) (o + 2))
      (getn 2 (put_fields o i x) (o + 4)) (getn 2 (put_fields o i x) (o + 6))
      (getn 4 (put_fields o i x) (o + 8)). rewrite F2, F3, F4, F5, F6.
    rewrite !s16_mod by done. rewrite (Z.mod_small (isize i)) by done.
    replace (get_addrs (put_addrs o 0 (iaddrs i) (put_fields o i x)) o) with (iaddrs i); [done|].
    apply list_eq. intros k. unfold get_addrs. rewrite list_lookup_fmap.
    destruct (iaddrs i !! k) as [a|] eqn:E.
    + assert (k < 13)%nat by (rewrite <- R6; by eapply lookup_lt_Some).
      rewrite lookup_seq_lt by done. simpl. f_equal. specialize (A2 k a E). simpl in A2. rewrite A2.
      symmetry. apply Z.mod_small. rewrite list.Forall_lookup in R7. by eapply R7.
    + apply lookup_ge_None in E. by rewrite lookup_seq_ge by lia.
  - intros off n Hoff. rewrite A3 by lia. apply F7. lia.
  - auto.
Qed.

(** ** The inode table *)

Definition refers (dev inum : Z) (x : inode) : Prop :=
  0 < iref x ∧ idev x = dev ∧ Ftypes.inum x = inum.

Record itable_ok (t : list inode) : Prop := {
  it_len : length t = NINODE;
  it_unique j k x y dev inum : t !! j = Some x → t !! k = Some y →
    refers dev inum x → refers dev inum y → j = k;
  it_ref j x : t !! j = Some x → 0 ≤ iref x;
  it_idle j x : t !! j = Some x → iref x = 0 → ilk x = Sleeplock.SleepLock 0 0;
}.

Lemma refers_test dev inum x :
  (0 <? iref x) && (idev x =? dev) && (Ftypes.inum x =? inum) = true ↔ refers dev inum x.
Proof. unfold refers. rewrite !andb_true_iff, Z.ltb_lt, !Z.eqb_eq. tauto. Qed.

(** The scan finds the entry of the inode, or the first free one. *)
Lemma iget_scan_spec dev inum t l : ∀ e,
  (∀ j, j ∈ l → (j < length t)%nat) →
  match iget_scan l dev inum e t with
  | inl j => ∃ x, t !! j = Some x ∧ refers dev inum x
  | inr e' =>
      (∀ j x, j ∈ l → t !! j = Some x → ¬ refers dev inum x) ∧
      match e with
      | Some _ => e' = e
      | None => match e' with
                | Some j => ∃ x, t !! j = Some x ∧ iref x = 0
                | None => ∀ j x, j ∈ l → t !! j = Some x → iref x ≠ 0
                end
      end
  end.
Proof.
  induction l as [|j l IH]; intros e Hl; simpl.
  { split; [by intros ? ? ?%elem_of_nil|]. destruct e; [done|]. by intros ? ? ?%elem_of_nil. }
  destruct (lookup_lt_is_Some_2 t j) as [x Hx]; [apply Hl; by left|]. rewrite Hx.
  destruct (_ && _) eqn:E; [exists x; by rewrite <- refers_test|].
  assert (¬ refers dev inum x) as Hno by (rewrite <- refers_test; congruence).
  set (e1 := match e with Some e => Some e | None => _ end).
  specialize (IH e1 ltac:(intros; apply Hl; by right)).
  destruct (iget_scan l dev inum e1 t) as [k|e']; [done|]. destruct IH as [I1 I2]. split.
  - intros k y [->|Hk]%elem_of_cons Hy; [congruence|by eapply I1].
  - destruct e as [e|]; [done|]. unfold e1 in I2. destruct (Z.eqb_spec (iref x) 0) as [E0|E0].
    + subst e'. by exists x.
    + destruct e' as [k|]; [done|]. intros k y [->|Hk]%elem_of_cons Hy; [congruence|by eapply I2].
Qed.

(** Changing one entry. *)
Lemma itable_ok_insert t j x y :
  itable_ok t → t !! j = Some x → 0 ≤ iref y → (iref y = 0 → ilk y = Sleeplock.SleepLock 0 0) →
  (0 < iref y → ∀ k z, k ≠ j → t !! k = Some z → ¬ refers (idev y) (inum y) z) →
  itable_ok (<[j := y]> t).
Proof.
  intros [A B C D] Hx Hr Hi Hu. assert (j < length t)%nat as Hj by (by eapply lookup_lt_Some). split.
  - by rewrite length_insert.
  - intros j1 j2 x1 x2 dev inum. rewrite !list_lookup_insert by done.
    destruct (decide (j = j1 ∧ (j < length t)%nat)) as [[<- _]|N1],
      (decide (j = j2 ∧ (j < length t)%nat)) as [[<- _]|N2]; [done|..|by apply B].
    + intros ? H2 (P1 & <- & <-) R2. simplify_eq. destruct (Hu P1 j2 x2); [|done..]. intros ->. by destruct N2.
    + intros H1 ? R1 (P2 & <- & <-). simplify_eq. destruct (Hu P2 j1 x1); [|done..]. intros ->. by destruct N1.
  - intros k z. rewrite list_lookup_insert by done. case_decide; intros; [by simplify_eq|by eapply C].
  - intros k z. rewrite list_lookup_insert by done. case_decide; intros; [simplify_eq; auto|by eapply D].
Qed.

(** The entry iget makes of a free one. *)
Definition fresh_inode (dev inum : Z) (x : inode) : inode :=
  x <| idev := dev |> <| Ftypes.inum := inum |> <| iref := 1 |> <| ivalid := 0 |>.
Definition add_ref (x : inode) : inode := x <| iref := s32 (iref x + 1) |>.

Lemma iptr_at s j x : itable (files s) !! j = Some x → inode_at s (iptr j) x.
Proof. intros Hx. unfold iptr. split; [lia|]. by replace (Z.to_nat (Z.of_nat j + 1 - 1)) with j by lia. Qed.
Lemma updi_eq s ip x f : inode_at s ip x → updi ip f s = Ret (tt, with_inode ip (f x) s).
Proof.
  intros Hx. pose proof (wp_updi s ip x f (λ _ s', s' = with_inode ip (f x) s) Hx eq_refl) as H.
  destruct (proj1 (wp_returns _ _ _) H) as ([] & s' & -> & ->). done.
Qed.

Lemma iget_cases s dev inum :
  let t := itable (files s) in
  length t = NINODE →
  (∃ j x, t !! j = Some x ∧ refers dev inum x ∧
     iget dev inum s = Ret (iptr j, with_inode (iptr j) (add_ref x) s)) ∨
  (∀ j x, t !! j = Some x → ¬ refers dev inum x) ∧
  ((∃ j x, t !! j = Some x ∧ iref x = 0 ∧
     iget dev inum s = Ret (iptr j, with_inode (iptr j) (fresh_inode dev inum x) s)) ∨
   (∀ j x, t !! j = Some x → iref x ≠ 0) ∧ iget dev inum s = Panic "iget: no inodes").
Proof.
  intros t Hlen. unfold iget. rewrite (bind_Ret getfs _ s (files s) s eq_refl). fold t.
  pose proof (iget_scan_spec dev inum t (seq 0 NINODE) None) as Hs.
  assert (∀ j x, t !! j = Some x → j ∈ seq 0 NINODE) as Hin.
  { intros j x Hj%lookup_lt_Some. apply elem_of_seq. lia. }
  destruct (iget_scan _ _ _ _ _) as [j|e].
  - destruct Hs as (x & Hx & Hr); [intros j' ?%elem_of_seq; lia|]. left. exists j, x. split; [done|].
    split; [done|]. by rewrite (bind_Ret _ _ _ _ _ (updi_eq s (iptr j) x _ (iptr_at s j x Hx))).
  - destruct Hs as [Hn He]; [intros j' ?%elem_of_seq; lia|]. right. split; [by eauto|].
    destruct e as [j|]; [left|right; split; [by eauto|done]].
    destruct He as (x & Hx & H0). exists j, x. split; [done|]. split; [done|].
    by rewrite (bind_Ret _ _ _ _ _ (updi_eq s (iptr j) x _ (iptr_at s j x Hx))).
Qed.

(** C15: [iget] keeps the table consistent: at most one entry per inode, so that
    every process that names the inode locks the same entry.  An inode that is
    in the table is not copied, its count goes up; another one gets a free
    entry with count 1 that is marked as not read yet; the other entries do not
    change, and the kernel panics exactly when all entries are in use. *)
Theorem iget_unique s dev inum :
  itable_ok (itable (files s)) →
  (∀ j x, itable (files s) !! j = Some x → iref x < 2^31 - 1) →
  match iget dev inum s with
  | Ret (ip, s') => ∃ j x y, ip = iptr j ∧ itable (files s) !! j = Some x ∧ refers dev inum y ∧
      s' = with_inode ip y s ∧ itable_ok (itable (files s')) ∧
      (refers dev inum x ∧ y = x <| iref := iref x + 1 |> ∨
       (∀ k z, itable (files s) !! k = Some z → ¬ refers dev inum z) ∧
       iref x = 0 ∧ iref y = 1 ∧ ivalid y = 0)
  | Panic _ => ∀ j x, itable (files s) !! j = Some x → 0 < iref x ∧ ¬ refers dev inum x
  | _ => False
  end.
Proof.
  intros T Hmax. destruct (iget_cases s dev inum (it_len _ T)) as
    [(j & x & Hx & Hr & ->)|[Hn [(j & x & Hx & H0 & ->)|[Hfull ->]]]].
  - assert (add_ref x = x <| iref := iref x + 1 |>) as E.
    { unfold add_ref. pose proof (it_ref _ T j x Hx). pose proof (Hmax j x Hx). by rewrite s32_small by lia. }
    exists j, x, (add_ref x). rewrite E. destruct Hr as (R1 & R2 & R3).
    split_and!; [done|done|split; simpl; [lia|done]|done| |by left].
    simpl. replace (Z.to_nat (iptr j - 1)) with j by (unfold iptr; lia).
    eapply itable_ok_insert; [done|done|simpl; lia|simpl; lia|].
    simpl. intros _ k z Hk Hz Hrz. apply Hk. eapply (it_unique _ T k j z x); done || (by split).
  - exists j, x, (fresh_inode dev inum x). split_and!; [done|done|by split|done| |right; done].
    simpl. replace (Z.to_nat (iptr j - 1)) with j by (unfold iptr; lia).
    eapply itable_ok_insert; [done|done|done|done|]. simpl. intros _ k z _. apply Hn.
  - intros j x Hx. split; [|by eapply Hn]. pose proof (it_ref _ T j x Hx). specialize (Hfull j x Hx). lia.
Qed.

(** ** Operations on one inode *)

Section inode_ops.
Context (d me st sz : Z) (sb0 : superblock).
Local Abbreviation opened := (opened d me st sz).
Local Abbreviation quiet := (quiet d me).

(** The inode's block can be used by the process. *)
Definition iblock_ok (V : contents) (h : list Z) (n : Z) : Prop :=
  home st sz n ∧ (n ∉ h) ∧ length (V n) = 1024%nat.

Lemma iupdate_spec V h L s ip i :
  let ib := IBLOCK (inum i) sb0 in
  opened V h L s → inode_at s ip i → sb (files s) = sb0 → idev i = d → iblock_ok V h ib →
  room sz 1 L → (length h + length L < 30)%nat →
  wp (iupdate ip) (λ _ s',
    opened (<[ib := put_dinode (dinode_off (inum i)) i (V ib)]> V) h (logged ib L) s' ∧ quiet h s s') s.
Proof.
  intros ib O Hi Esb Ed (Hh & Hn & _) Hr Hlen. unfold iupdate. wp_step. apply wp_getsb. rewrite Esb.
  wp_step. eapply wp_geti; [done|]. rewrite Ed. wp_step.
  eapply wp_mono; [|by eapply kbread_spec]. intros b s1 (O1 & H1 & Q1 & _). wp_step.
  eapply wp_mono; [|by eapply bp_store_spec]. intros _ s2 (O2 & H2 & Q2).
  eapply wp_mono; [|by eapply finish_spec]. intros _ s3 (O3 & Q3).
  split; [done|]. by do 2 (eapply quiet_trans; [done|]).
Qed.

Definition set_lock (l : Sleeplock.sleeplock) (i : inode) : inode := i <| ilk := l |>.

Lemma on_ilock_acquire s ip i (Q : unit → kernel → Prop) :
  inode_at s ip i → Sleeplock.locked (ilk i) = 0 →
  Q tt (with_inode ip (set_lock (Sleeplock.SleepLock 1 me) i) s) →
  wp (on_ilock ip (Sleeplock.acquiresleep me)) Q s.
Proof.
  intros Hi Hl HQ. unfold on_ilock. wp_step. eapply wp_geti; [done|].
  unfold Sleeplock.acquiresleep. rewrite (bind_Ret get _ _ _ _ eq_refl), Hl. simpl. by eapply wp_updi.
Qed.
Lemma on_ilock_release s ip i (Q : unit → kernel → Prop) :
  inode_at s ip i → Q tt (with_inode ip (set_lock (Sleeplock.SleepLock 0 0) i) s) →
  wp (on_ilock ip Sleeplock.releasesleep) Q s.
Proof.
  intros Hi HQ. unfold on_ilock. wp_step. eapply wp_geti; [done|]. by eapply wp_updi.
Qed.

(** The entry after ilock. *)
Definition locked_inode (V : contents) (i : inode) : inode :=
  if ivalid i =? 0 then
    (get_dinode (V (IBLOCK (inum i) sb0)) (dinode_off (inum i)) (set_lock (Sleeplock.SleepLock 1 me) i))
      <| ivalid := 1 |>
  else set_lock (Sleeplock.SleepLock 1 me) i.

Lemma ilock_spec V h L s ip i :
  opened V h L s → inode_at s ip i → sb (files s) = sb0 → idev i = d →
  IBLOCK (inum i) sb0 ∉ h → (length h + length L < 30)%nat →
  1 ≤ iref i → Sleeplock.locked (ilk i) = 0 → (ivalid i = 0 → itype (locked_inode V i) ≠ 0) →
  wp (ilock ip) (λ _ s', opened V h L s' ∧ iquiet d me ip (locked_inode V i) h s s') s.
Proof.
  intros O Hi Esb Ed Hn Hlen Href Hl Ht. unfold ilock. pose proof Hi as [Hip _]. test_false (ip =? 0).
  wp_step. eapply wp_geti; [done|]. test_false (iref i <? 1). wp_step. apply (wp_mypid _ _ _ _ _ _ _ _ _ O).
  wp_step. eapply on_ilock_acquire; [done|done|]. set (i1 := set_lock _ i). set (s1 := with_inode ip i1 s).
  assert (inode_at s1 ip i1) as Hi1 by (by eapply inode_at_with).
  assert (opened V h L s1) as O1 by (by apply opened_inode).
  assert (iquiet d me ip i1 h s s1) as Q1 by (eapply iquiet_with, quiet_iquiet; [done|apply quiet_refl]).
  wp_step. eapply wp_geti; [done|]. unfold locked_inode in *. change (ivalid i1) with (ivalid i).
  destruct (Z.eqb_spec (ivalid i) 0) as [Ev|Ev]; [|by wp_step].
  wp_step. apply wp_getsb. change (sb (files s1)) with (sb (files s)). rewrite Esb.
  change (idev i1) with (idev i). change (inum i1) with (inum i). rewrite Ed. wp_step.
  eapply wp_mono; [|by eapply kbread_spec]. intros b s2 (O2 & H2 & Q2 & S2).
  wp_step. eapply bp_data_spec; [exact H2|]. wp_step.
  pose proof (inode_at_quiet _ _ _ _ _ _ _ Q2 Hi1) as Hi2. eapply wp_updi; [done|].
  set (i3 := get_dinode _ _ i1). wp_step.
  eapply wp_mono; [|eapply kbrelse_spec; [by apply opened_inode|exact H2|done|exact S2]].
  intros _ s3 (O3 & Q3). pose proof (inode_at_quiet _ _ _ _ _ _ _ Q3 (inode_at_with _ _ _ i3 Hi2)) as Hi3.
  wp_step. eapply wp_updi; [done|]. wp_step. eapply wp_geti; [by eapply inode_at_with|].
  specialize (Ht Ev). fold i1 i3 in Ht.
  test_false (itype (i3 <| ivalid := 1 |>) =? 0). wp_step.
  split; [by apply opened_inode|]. eapply iquiet_with. eapply iquiet_quiet; [|exact Q3].
  eapply iquiet_with. by eapply iquiet_quiet.
Qed.

Lemma iunlock_spec V h L s ip i (Q : unit → kernel → Prop) :
  opened V h L s → inode_at s ip i → 1 ≤ iref i → ilk i = Sleeplock.SleepLock 1 me →
  Q tt (with_inode ip (set_lock (Sleeplock.SleepLock 0 0) i) s) → wp (iunlock ip) Q s.
Proof.
  intros O Hi Hr Hl HQ. unfold iunlock. pose proof Hi as [Hip _]. test_false (ip =? 0).
  wp_step. eapply wp_geti; [done|]. wp_step. apply (wp_mypid _ _ _ _ _ _ _ _ _ O). rewrite Hl.
  unfold Sleeplock.holdingsleep. simpl. rewrite Z.eqb_refl. test_false (iref i <? 1). simpl.
  by eapply on_ilock_release.
Qed.

(** iput of an inode that has other references or links. *)
Lemma iput_keep s ip i (Q : unit → kernel → Prop) :
  inode_at s ip i → iref i ≠ 1 ∨ ivalid i = 0 ∨ inlink i ≠ 0 →
  Q tt (with_inode ip (i <| iref := s32 (iref i - 1) |>) s) → wp (iput ip) Q s.
Proof.
  intros Hi Hk HQ. unfold iput. wp_step. eapply wp_geti; [done|].
  replace (_ && _) with false.
  2:{ symmetry. destruct (Z.eqb_spec (iref i) 1), (Z.eqb_spec (ivalid i) 0), (Z.eqb_spec (inlink i) 0); simpl; tauto. }
  wp_step. wp_step. by eapply wp_updi.
Qed.
End inode_ops.

(** ** Write back, drop, load again *)

(** The last user of an inode writes it back, unlocks and drops it; later the
    inode is looked up and locked again. *)
Definition save_and_reload (ip dev inum : Z) : M kernel Z :=
  iupdate ip ;;;
  iunlock ip ;;;
  iput ip ;;;
  let* ip := iget dev inum in
  ilock ip ;;;
  ret ip.

(** C14: Round trip: an inode written by [iupdate] and evicted from the table is
    read back by the next [iget] and [ilock] with the same type, device
    numbers, link count, size and block addresses, and the other inodes of its
    block keep their bytes; the disk is not written before the commit. *)
Theorem iupdate_persists d me st sz V h L s ip i :
  let ib := IBLOCK (inum i) (sb (files s)) in
  opened d me st sz V h L s → inode_at s ip i → itable_ok (itable (files s)) →
  inode_ranges i → iblock_ok st sz V h ib → room sz 1 L → (length h + length L + 1 < 30)%nat →
  idev i = d → iref i = 1 → inlink i ≠ 0 → itype i ≠ 0 → ilk i = Sleeplock.SleepLock 1 me →
  wp (save_and_reload ip d (inum i)) (λ ip' s', ∃ i' V',
    inode_at s' ip' i' ∧ refers d (inum i) i' ∧ ivalid i' = 1 ∧ load_inode i i' = i' ∧
    opened d me st sz V' h (logged ib L) s' ∧ (∀ n, n ≠ ib → V' n = V n) ∧
    (∀ off n, (off + n ≤ dinode_off (inum i) ∨ dinode_off (inum i) + 64 ≤ off)%nat →
       sub_bytes (V' ib) off n = sub_bytes (V ib) off n)) s.
Proof.
  intros ib O Hi T R Hib Hr Hlen Ed Href Hlink Htype Hlk. unfold save_and_reload.
  wp_step. eapply wp_mono; [|eapply (iupdate_spec d me st sz (sb (files s)) V h L s ip i); try done; lia].
  fold ib. intros _ s1 (O1 & Q1). set (V1 := <[ib := _]> V) in *. pose proof (inode_at_quiet _ _ _ _ _ _ _ Q1 Hi) as Hi1.
  wp_step. eapply iunlock_spec; [exact O1|exact Hi1|lia|done|]. set (i2 := set_lock _ i).
  pose proof (inode_at_with _ _ _ i2 Hi1) as Hi2.
  wp_step. eapply iput_keep; [done|by right; right|].
  rewrite with_inode_twice. set (i3 := i2 <| iref := _ |>). set (s3 := with_inode ip i3 s1).
  assert (iref i3 = 0) as Hr3 by (unfold i3, i2; simpl; by rewrite Href).
  assert (itable (files s3) = <[Z.to_nat (ip - 1) := i3]> (itable (files s))) as Et.
  { unfold s3. simpl. by rewrite (q_only _ _ _ _ _ Q1). }
  destruct Hi as [Hip Hi].
  assert (itable_ok (itable (files s3))) as T3.
  { rewrite Et. eapply itable_ok_insert; [done|done|lia|done|lia]. }
  assert (opened d me st sz V1 h (logged ib L) s3) as O3 by (by apply opened_inode).
  assert (length (V1 ib) = 1024%nat ∧ ∀ j, get_dinode (V1 ib) (dinode_off (inum i)) j = load_inode i j) as [HV1 Hget].
  { destruct Hib as (_ & _ & Hl). destruct (put_dinode_spec (dinode_off (inum i)) i (V ib)) as (P1 & P2 & _);
      [rewrite Hl; apply iblock_small|done|]. unfold V1. rewrite fn_lookup_insert. split; [lia|done]. }
  wp_step. unfold wp at 1. destruct (iget_cases s3 d (inum i) (it_len _ T3)) as
    [(j & x & Hx & Hrx & _)|[_ [(j & x & Hx & H0 & ->)|[Hfull _]]]].
  - exfalso. rewrite Et, list_lookup_insert in Hx by (by eapply lookup_lt_Some). case_decide as Hj.
    + simplify_eq. destruct Hrx. lia.
    + apply Hj. split; [|by eapply lookup_lt_Some]. symmetry. eapply (it_unique _ T j _ x i d (inum i)); try done.
      split; [lia|done].
  - set (i4 := fresh_inode d (inum i) x). set (s4 := with_inode (iptr j) i4 s3).
    assert (inode_at s4 (iptr j) i4) as Hi4 by (by eapply inode_at_with, iptr_at).
    assert (sb (files s4) = sb (files s)) as Esb by (by rewrite <- (quiet_sb _ _ _ _ _ Q1)).
    set (i5 := locked_inode me (sb (files s)) V1 i4).
    assert (load_inode i i5 = i5 ∧ ivalid i5 = 1 ∧ refers d (inum i) i5) as (E5 & Ev5 & Er5).
    { unfold i5, locked_inode. simpl. fold ib. rewrite Hget. by destruct x. }
    pose proof (length_logged ib L) as Hll.
    wp_step. eapply wp_mono; [|eapply (ilock_spec d me st sz (sb (files s)) V1 h (logged ib L) s4 (iptr j) i4)].
    + intros _ s5 (O5 & Q5). wp_step. exists i5, V1. split_and!; [by eapply iquiet_at|done|done|done|done| |].
      * intros n Hn. unfold V1. by rewrite fn_lookup_insert_ne.
      * intros off n Hoff. unfold V1. rewrite fn_lookup_insert. destruct Hib as (_ & _ & Hl).
        apply put_dinode_spec; [rewrite Hl; apply iblock_small|done|done].
    + by apply opened_inode.
    + done.
    + done.
    + done.
    + apply Hib.
    + lia.
    + done.
    + simpl. by rewrite (it_idle _ T3 j x Hx H0).
    + intros _. fold i5. rewrite <- E5. done.
  - exfalso. apply (Hfull (Z.to_nat (ip - 1)) i3); [|done]. rewrite Et. apply list_lookup_insert_eq.
    by eapply lookup_lt_Some.
Qed.
