(* ===== verification/FsContents.v ===== *)
(** * Writing a file: writei

    The bytes of a file after writei, the frame (no other file changes), and
    the log space a write uses. *)

From Stdlib Require Import ZArith Lia.
From stdpp Require Import base numbers list gmap functions strings tactics.
From S2P Require Import Prelude Riscv Mem Bytes Kalloc Vm Proc ProcRules Locks Bio BioList BioSpec BioProps Log LogSpec LogCrash LogProps Ftypes Fs FsRules FsAlloc FsFile FsWrite FsInode.

Local Open Scope Z_scope.

Section contents.
Context (d me st sz : Z) (sb0 : superblock).
Hypothesis Hly : layout st sz sb0.
Local Abbreviation opened := (opened d me st sz).
Local Abbreviation quiet := (quiet d me).
Local Abbreviation kheld := (kheld d me).
Local Abbreviation iquiet := (iquiet d me).
Local Abbreviation bitmap := (bitmap st sz sb0).
Local Abbreviation file_ok := (file_ok d st sz sb0).
Local Abbreviation data_block := (data_block st sz sb0).
Local Abbreviation grows := (grows d st sz sb0).

(** A block in use that is neither a bitmap block nor a block of the file. *)
Definition outside (V : contents) (i : inode) (n : Z) : Prop :=
  ¬ is_bmap sb0 n ∧ (0 ≤ n < sb_size sb0 → used sb0 V n = true) ∧ ¬ in_file V i n.

Lemma in_file_data V i n : file_ok V i → in_file V i n → data_block V n.
Proof.
  intros F [Hn [->|(bn & Hbn & ->)]]; [by apply (fo_ind _ _ _ _ _ _ F)|by apply (fo_data _ _ _ _ _ _ F)].
Qed.
(** ** Growing *)

(** The bytes of the blocks that were there. *)
Lemma grows_byte bn r V i V' i' o :
  file_ok V i → grows bn r V i V' i' → 0 ≤ o / BSIZE < MAXFILE → faddr V i (o / BSIZE) ≠ 0 →
  fbyte V' i' o = fbyte V i o.
Proof.
  intros F G Ho Hn. unfold fbyte.
  assert (faddr V' i' (o / BSIZE) = faddr V i (o / BSIZE)) as ->.
  { rewrite (gr_map _ _ _ _ _ _ _ _ _ _ G) by done. case_decide as E; [|done].
    rewrite E in *. by apply (gr_found _ _ _ _ _ _ _ _ _ _ G). }
  destruct (fo_data _ _ _ _ _ _ F _ Ho Hn) as [_ Hu Hb _ _].
  rewrite (gr_frame _ _ _ _ _ _ _ _ _ _ G); [done|done|intros _; by apply (fo_apart _ _ _ _ _ _ F)|done].
Qed.

(** bmap answers with a block of the file, old or new. *)
Lemma grows_addr bn r V i V' i' :
  grows bn r V i V' i' → 0 ≤ bn < MAXFILE → faddr V' i' bn = r.
Proof. intros G Hbn. rewrite (gr_map _ _ _ _ _ _ _ _ _ _ G) by done. by rewrite decide_True. Qed.

(** ** Storing in a block of the file *)

Section store.
Context (V : contents) (i : inode) (bn o : Z) (bs : list Z).
Let r := faddr V i bn.
Let V' := <[r := overwrite (V r) (Z.to_nat o) bs]> V.
Hypothesis (F : file_ok V i) (B : bitmap V) (Hbn : 0 ≤ bn < MAXFILE) (Hr : r ≠ 0).
Hypothesis (Ho : 0 ≤ o) (Hbs : o + Z.of_nat (length bs) ≤ BSIZE).

Lemma store_data : data_block V r.
Proof using F Hbn Hr. by apply (fo_data _ _ _ _ _ _ F). Qed.
Lemma store_length : length (V' r) = 1024%nat.
Proof using F Hbn Hr Ho Hbs.
  unfold V'. rewrite fn_lookup_insert, length_overwrite; [apply store_data|].
  rewrite (db_len _ _ _ _ _ store_data). unfold BSIZE in *. lia.
Qed.
Lemma store_faddr bn' : faddr V' i bn' = faddr V i bn'.
Proof using F Hbn Hr.
  apply faddr_ext. intros _. unfold V'. apply fn_lookup_insert_ne. by apply (fo_apart _ _ _ _ _ _ F).
Qed.
Lemma store_used b : 0 ≤ b < sb_size sb0 → used sb0 V' b = used sb0 V b.
Proof using F Hbn Hr.
  intros Hb. apply used_ext. unfold V'. apply fn_lookup_insert_ne. intros E.
  apply (db_bmap _ _ _ _ _ store_data). rewrite E. by exists b.
Qed.
Lemma store_data' a : data_block V a → data_block V' a.
Proof using F Hbn Hr Ho Hbs.
  intros D. apply (data_ext st sz sb0 V); [done|apply store_used; destruct D; lia|].
  destruct (decide (a = r)) as [->|]; [by rewrite store_length, (db_len _ _ _ _ _ store_data)|].
  unfold V'. by rewrite fn_lookup_insert_ne.
Qed.
Lemma store_ok : file_ok V' i.
Proof using F Hbn Hr Ho Hbs.
  split; try apply F.
  - intros bn' H1. rewrite store_faddr. intros. by apply store_data', (fo_data _ _ _ _ _ _ F).
  - intros H1. destruct (fo_ind _ _ _ _ _ _ F H1) as [D Hb]. split; [by apply store_data'|].
    unfold V'. rewrite fn_lookup_insert_ne; [done|]. by apply (fo_apart _ _ _ _ _ _ F).
  - intros b1 b2 H1 H2. rewrite !store_faddr. by apply (fo_inj _ _ _ _ _ _ F).
  - intros b1 H1. rewrite store_faddr. by apply (fo_apart _ _ _ _ _ _ F).
Qed.
Lemma store_bitmap : bitmap V'.
Proof using F B Hbn Hr.
  apply (bitmap_ext st sz sb0 V); [done|]. intros n Hn. unfold V'. apply fn_lookup_insert_ne.
  intros <-. by apply (db_bmap _ _ _ _ _ store_data).
Qed.
Lemma store_byte p :
  0 ≤ p → p / BSIZE < MAXFILE →
  fbyte V' i p = if decide (bn * BSIZE + o ≤ p < bn * BSIZE + o + Z.of_nat (length bs))
                 then default 0 (bs !! Z.to_nat (p - (bn * BSIZE + o))) else fbyte V i p.
Proof using F Hbn Hr Ho Hbs.
  intros Hp Hp2. unfold fbyte. rewrite store_faddr. pose proof store_data as [_ _ _ _ Hlen].
  unfold BSIZE in *. destruct (decide (p / 1024 = bn)) as [E|E].
  - rewrite E. fold r. unfold V'. rewrite fn_lookup_insert, overwrite_lookup by lia.
    assert (p mod 1024 = p - bn * 1024) as -> by dlia. assert (bn * 1024 ≤ p) by dlia.
    repeat case_decide; try lia.
    do 2 f_equal. lia.
  - rewrite decide_False by dlia. unfold V'.
    destruct (decide (faddr V i (p / 1024) = r)) as [Er|Er]; [|by rewrite fn_lookup_insert_ne].
    destruct E. symmetry. apply (fo_inj _ _ _ _ _ _ F); [done|dlia|done|done].
Qed.
End store.

(** ** The state of a write *)

(** [tot] bytes of [l] have been written at offset [off] of the file [V], [i]. *)
Record written (V : contents) (i : inode) (off : Z) (l : list Z) (tot : Z) (V1 : contents) (i1 : inode)
    : Prop := {
  wr_inode : ∃ a, i1 = i <| iaddrs := a |>;
  wr_ok : file_ok V1 i1;
  wr_bitmap : bitmap V1;
  wr_map bn : 0 ≤ bn < MAXFILE → faddr V i bn ≠ 0 → faddr V1 i1 bn = faddr V i bn;
  wr_cover bn : 0 ≤ bn < MAXFILE → off < (bn + 1) * BSIZE → bn * BSIZE < off + tot → faddr V1 i1 bn ≠ 0;
  wr_byte p : 0 ≤ p < Z.max (isize i) (off + tot) →
    fbyte V1 i1 p = if decide (off ≤ p < off + tot) then default 0 (l !! Z.to_nat (p - off)) else fbyte V i p;
  wr_frame n : outside V i n → V1 n = V n;
  wr_used b : 0 ≤ b < sb_size sb0 → used sb0 V b = true → used sb0 V1 b = true;
  wr_new n : in_file V1 i1 n → in_file V i n ∨ 0 ≤ n < sb_size sb0 ∧ used sb0 V n = false;
}.

Section written.
Context (V : contents) (i : inode) (off n : Z) (l : list Z).
Hypothesis (Hnh : no_holes V i) (Hoff : 0 ≤ off ≤ isize i) (Hmax : off + n ≤ MAXFILE * BSIZE).

Lemma written_start : file_ok V i → bitmap V → written V i off l 0 V i.
Proof using Hnh Hoff.
  intros F B. split; try done.
  - exists (iaddrs i). by destruct i.
  - intros bn Hbn H1 H2. destruct Hnh as [_ Hn]. apply Hn; lia.
  - intros p Hp. by rewrite decide_False by lia.
  - by left.
Qed.

(** Every byte of the file so far is in a block that is there. *)
Lemma written_there tot V1 i1 p :
  written V i off l tot V1 i1 → tot ≤ n → 0 ≤ p < Z.max (isize i) (off + tot) →
  0 ≤ p / BSIZE < MAXFILE ∧ faddr V1 i1 (p / BSIZE) ≠ 0.
Proof using Hnh Hoff Hmax.
  intros W Ht Hp. destruct Hnh as [Hs Hn]. unfold BSIZE in *.
  assert (0 ≤ p / 1024 < MAXFILE) as Hb by dlia. split; [done|].
  destruct (decide (p < isize i)).
  - rewrite (wr_map _ _ _ _ _ _ _ W); [apply Hn; dlia|done|apply Hn; dlia].
  - apply (wr_cover _ _ _ _ _ _ _ W); unfold BSIZE; [done|dlia|dlia].
Qed.

Lemma written_grow tot V1 i1 bn r V2 i2 :
  written V i off l tot V1 i1 → tot ≤ n → grows bn r V1 i1 V2 i2 → 0 ≤ bn < MAXFILE → written V i off l tot V2 i2.
Proof using Hnh Hoff Hmax.
  intros W Ht G Hbn.
  assert (∀ bn', 0 ≤ bn' < MAXFILE → faddr V1 i1 bn' ≠ 0 → faddr V2 i2 bn' = faddr V1 i1 bn') as Hkeep.
  { intros bn' Hbn' Hn. rewrite (gr_map _ _ _ _ _ _ _ _ _ _ G) by done. case_decide; subst; [|done].
    by apply (gr_found _ _ _ _ _ _ _ _ _ _ G). }
  assert (∀ b, 0 ≤ b < sb_size sb0 → used sb0 V1 b = false → used sb0 V b = false) as Hunused.
  { intros b Hb Hu. destruct (used sb0 V b) eqn:E; [|done]. by rewrite (wr_used _ _ _ _ _ _ _ W) in Hu. }
  split.
  - destruct (wr_inode _ _ _ _ _ _ _ W) as [a ->], (gr_inode _ _ _ _ _ _ _ _ _ _ G) as [a' ->].
    exists a'. by destruct i.
  - apply G.
  - apply G.
  - intros bn' Hbn' Hn. pose proof (wr_map _ _ _ _ _ _ _ W bn' Hbn' Hn) as E. rewrite Hkeep; congruence.
  - intros bn' Hbn' H1 H2. pose proof (wr_cover _ _ _ _ _ _ _ W bn' Hbn' H1 H2). by rewrite Hkeep.
  - intros p Hp. destruct (written_there tot V1 i1 p W Ht Hp) as [Hb Hn].
    rewrite (grows_byte bn r V1 i1 V2 i2); [by apply (wr_byte _ _ _ _ _ _ _ W)|by apply (wr_ok _ _ _ _ _ _ _ W)|done..].
  - intros m Hm. rewrite <- (wr_frame _ _ _ _ _ _ _ W m Hm). destruct Hm as (Hm1 & Hm2 & Hm3).
    apply (gr_frame _ _ _ _ _ _ _ _ _ _ G); [done| |].
    + intros Hm0 E. destruct (wr_new _ _ _ _ _ _ _ W m) as [|[Hr Hu]]; [split; [done|by left]|done|].
      rewrite Hm2 in Hu by done. done.
    + intros Hr. by apply W, Hm2.
  - intros b Hb Hu. by apply G, W.
  - intros m [Hm0 [->|(bn' & Hbn' & ->)]].
    + destruct (gr_ind _ _ _ _ _ _ _ _ _ _ G) as [E|(_ & Hr & Hu)]; [|right; by auto].
      rewrite E in *. apply (wr_new _ _ _ _ _ _ _ W). split; [done|by left].
    + destruct (decide (faddr V1 i1 bn' = 0)) as [E0|E0].
      * rewrite (gr_map _ _ _ _ _ _ _ _ _ _ G) in * by done. case_decide; subst; [|done].
        destruct (gr_zero _ _ _ _ _ _ _ _ _ _ G Hm0 E0) as [_ Hu]. right.
        assert (0 ≤ r < sb_size sb0) as Hr; [|by auto].
        pose proof (fo_data _ _ _ _ _ _ (gr_ok _ _ _ _ _ _ _ _ _ _ G) bn Hbn) as D.
        rewrite (grows_addr _ _ _ _ _ _ G Hbn) in D. destruct (D Hm0). lia.
      * rewrite Hkeep by done. apply (wr_new _ _ _ _ _ _ _ W). split; [done|]. right. by exists bn'.
Qed.

Lemma outside_not_in tot V1 i1 m k : written V i off l tot V1 i1 → outside V i m → in_file V1 i1 k → m ≠ k.
Proof.
  intros W (Hm1 & Hm2 & Hm3) Hk ->. destruct (wr_new _ _ _ _ _ _ _ W k Hk) as [|[Hr Hu]]; [done|].
  rewrite Hm2 in Hu by done. done.
Qed.

Lemma written_store tot V2 i2 m :
  let o := off + tot in
  let r := faddr V2 i2 (o / BSIZE) in
  let bs := sub_bytes l (Z.to_nat tot) (Z.to_nat m) in
  written V i off l tot V2 i2 → 0 ≤ tot → 0 < m → tot + m ≤ n → o mod BSIZE + m ≤ BSIZE →
  n ≤ Z.of_nat (length l) → r ≠ 0 →
  written V i off l (tot + m) (<[r := overwrite (V2 r) (Z.to_nat (o mod BSIZE)) bs]> V2) i2.
Proof using Hnh Hoff Hmax.
  intros o r bs W Ht Hm Htm Hb Hl Hr.
  assert (0 ≤ o / BSIZE < MAXFILE) as Hbn by (unfold o, BSIZE in *; dlia).
  assert (length bs = Z.to_nat m) as Hlen by (apply length_sub; lia).
  pose proof (Z.mod_pos_bound o BSIZE ltac:(done)) as Hmod.
  pose proof (wr_ok _ _ _ _ _ _ _ W) as F2. pose proof (wr_bitmap _ _ _ _ _ _ _ W) as B2.
  set (V3 := <[r := _]> V2).
  assert (∀ bn, faddr V3 i2 bn = faddr V2 i2 bn) as Hfa by (intros; by apply store_faddr).
  split.
  - apply W.
  - apply store_ok; [done|done|done|lia|rewrite Hlen; lia].
  - by apply store_bitmap.
  - intros bn Hbn'. rewrite Hfa. by apply W.
  - intros bn Hbn' H1 H2. rewrite Hfa. destruct (decide (bn * BSIZE < off + tot)); [by apply W|].
    replace bn with (o / BSIZE); [done|]. unfold o, BSIZE in *. dlia.
  - intros p Hp. unfold V3.
    rewrite (store_byte V2 i2 (o / BSIZE) (o mod BSIZE) bs F2 Hbn Hr ltac:(lia) ltac:(rewrite Hlen; lia)).
    2:{ lia. } 2:{ pose proof Hnh as [? _]. unfold BSIZE in *. dlia. }
    replace (o / BSIZE * BSIZE + o mod BSIZE) with o by (unfold BSIZE; dlia). rewrite Hlen.
    unfold o. destruct (decide (off + tot ≤ p < off + tot + Z.of_nat (Z.to_nat m))).
    + rewrite decide_True by lia. unfold bs, sub_bytes. rewrite lookup_take_lt, lookup_drop by lia.
      do 2 f_equal. lia.
    + rewrite (wr_byte _ _ _ _ _ _ _ W) by lia. repeat case_decide; (done || lia).
  - intros k Hk. unfold V3. rewrite fn_lookup_insert_ne; [by apply W|]. intros E.
    eapply (outside_not_in tot V2 i2 k r); [done|done|by apply in_file_addr|done].
  - intros b Hb' Hu. assert (used sb0 V3 b = used sb0 V2 b) as -> by (by apply store_used). by apply W.
  - intros k [Hk0 [->|(bn & Hbn' & ->)]]; apply (wr_new _ _ _ _ _ _ _ W); (split; [done|]); [by left|].
    right. exists bn. by rewrite Hfa.
Qed.

(** ** The loop of writei *)

Context (ip : Z) (h L : list Z) (s : kernel).
Hypothesis (Esb : sb (files s) = sb0) (Hhu : holds_used sb0 V h) (Hap : apart V i h).
Hypothesis (Hi : inode_at s ip i) (Hl : n ≤ Z.of_nat (length l)).
Hypothesis one_bitmap : sb_size sb0 ≤ BPB.

(** The source of the bytes is a buffer of the kernel, or user memory that holds
    them: [copy_from] answers the bytes of [l] whatever the file system does. *)
Definition supplies (src : source) (l : list Z) (n : Z) (s : kernel) : Prop :=
  ∀ s1 tot m, kmem s1 = kmem s → procs s1 = procs s → cur s1 = cur s → 0 ≤ tot → 0 ≤ m → tot + m ≤ n →
    copy_from src tot m s1 = Ret ((0, sub_bytes l (Z.to_nat tot) (Z.to_nat m)), s1).
Context (src : source).
Hypothesis Hsrc : supplies src l n s.

(** The number of blocks the range touches, and its first [tot] bytes. *)
Definition span : Z := (off + n - 1) / BSIZE - off / BSIZE + 1.
Definition covered (tot : Z) : Z := if decide (tot = 0) then 0 else (off + tot - 1) / BSIZE - off / BSIZE + 1.
(** The log contains the bitmap block, the indirect block and the blocks of
    the range. *)
Definition write_log_ok (tot : Z) (V1 : contents) (i1 : inode) (L1 : list Z) : Prop :=
  ∀ m, m ∈ L1 → m ∈ L ∨ is_bmap sb0 m ∨ (m ≠ 0 ∧ m = addr i1 NDIRECT) ∨
    ∃ bn, off / BSIZE ≤ bn ∧ bn < off / BSIZE + covered tot ∧ m = faddr V1 i1 bn.

Record write_inv (tot : Z) (s1 : kernel) (V1 : contents) (i1 : inode) (L1 : list Z) : Prop := {
  wi_tot : 0 ≤ tot ≤ n;
  wi_round : tot = 0 ∨ tot = n ∨ (off + tot) mod BSIZE = 0;
  wi_written : written V i off l tot V1 i1;
  wi_opened : opened V1 h L1 s1;
  wi_quiet : iquiet ip i1 h s s1;
  wi_sub : L ⊆ L1;
  wi_log : write_log_ok tot V1 i1 L1;
}.

Lemma is_bmap_one m : is_bmap sb0 m → m = bmapstart sb0.
Proof using Hly one_bitmap.
  clear - Hly one_bitmap. intros (b & Hb & ->). rewrite (BBLOCK_eq st sz sb0 Hly) by done.
  rewrite Z.div_small by lia. lia.
Qed.

Lemma covered_bounds tot : 0 ≤ tot ≤ n → 0 ≤ covered tot ≤ span.
Proof using Hoff.
  clear - Hoff. intros H. unfold covered, span, BSIZE. case_decide; dlia.
Qed.
(** Before a round the block at [off + tot] is not covered yet. *)
Lemma covered_round tot : 0 ≤ tot < n → tot = 0 ∨ (off + tot) mod BSIZE = 0 → covered tot + 1 ≤ span.
Proof using Hoff.
  clear - Hoff. intros H Hr. unfold covered, span, BSIZE in *. case_decide; [dlia|]. destruct Hr; [done|]. dlia.
Qed.

(** What the log can hold at most. *)
Lemma write_log_length tot s1 V1 i1 L1 :
  write_inv tot s1 V1 i1 L1 → NoDup L →
  Z.of_nat (length L1) + Z.of_nat (grow_max i1) ≤ Z.of_nat (length L) + 5 + covered tot.
Proof using Hly one_bitmap Hoff Hmax.
  intros [T _ W O Q _ HL] Hd. pose proof (o_fits _ _ _ _ _ _ _ _ O) as [_ Hd1 _ _].
  pose proof (covered_bounds tot T) as Hc. unfold grow_max.
  set (X := bmapstart sb0 :: (if decide (addr i1 NDIRECT = 0) then [] else [addr i1 NDIRECT])
    ++ (faddr V1 i1 <$> seqZ (off / BSIZE) (covered tot))).
  assert (length L1 ≤ length (L ++ X))%nat as Hle.
  { apply submseteq_length, NoDup_submseteq; [done|]. intros m Hm. apply elem_of_app.
    destruct (HL m Hm) as [?|[Hb|[[Hm0 ->]|(bn & B1 & B2 & ->)]]]; [by left|right..]; unfold X.
    - rewrite (is_bmap_one m Hb). by left.
    - rewrite decide_False by done. right. by left.
    - right. apply elem_of_app. right. apply list_elem_of_fmap_2. apply elem_of_seqZ. lia. }
  rewrite length_app in Hle. unfold X in Hle. simpl in Hle. rewrite length_app, length_fmap, length_seqZ in Hle.
  case_decide; simpl in Hle; lia.
Qed.

Hypothesis (Hroom : 5 + span ≤ sz - 1 - Z.of_nat (length L)).
Hypothesis (Hbufs : Z.of_nat (length h + length L) + 5 + span ≤ 30).
Hypothesis (HL : NoDup L).

Definition write_body : Z * Z → M kernel ((Z * Z) + (Z * Z)) := λ '(tot, off),
  if tot <? n then
    let* addr := bmap ip (off / BSIZE) in
    if addr =? 0 then ret (inr (tot, off))
    else
      let* bp := kbread (idev i) addr in
      let m := Z.min (n - tot) (BSIZE - off mod BSIZE) in
      let* (r, bs) := copy_from src tot m in
      bp_store bp (λ x, overwrite x (Z.to_nat (off mod BSIZE)) bs) ;;;
      if r =? -1 then
        kbrelse bp ;;; ret (inr (tot, off))
      else
        klog_write bp ;;;
        kbrelse bp ;;;
        ret (inl (tot + m, u32 (off + m)))
  else ret (inr (tot, off)).

Lemma held_apart tot V1 i1 m : written V i off l tot V1 i1 → in_file V1 i1 m → m ∉ h.
Proof using Hhu Hap.
  intros W Hm Hin. destruct (wr_new _ _ _ _ _ _ _ W m Hm) as [H|[Hr Hu]].
  - by apply (Hap m).
  - destruct (Hhu m Hin) as [_ H]. rewrite H in Hu by done. done.
Qed.
Lemma held_used tot V1 i1 : written V i off l tot V1 i1 → holds_used sb0 V1 h.
Proof using Hhu.
  intros W m Hm. destruct (Hhu m Hm) as [H1 H2]. split; [done|]. intros Hr. by apply W, H2.
Qed.

Lemma write_round tot s1 V1 i1 L1 :
  write_inv tot s1 V1 i1 L1 →
  wp (write_body (tot, off + tot)) (λ r s2, match r with
    | inl (tot', off') => tot < tot' ∧ off' = off + tot' ∧ ∃ V2 i2 L2, write_inv tot' s2 V2 i2 L2
    | inr (tot', off') => off' = off + tot' ∧ ∃ V2 i2 L2, write_inv tot' s2 V2 i2 L2 ∧
        (tot' < n → ∀ b, 0 ≤ b < sb_size sb0 → used sb0 V2 b = true)
    end) s1.
Proof using All.
  intros I. unfold write_body. destruct (Z.ltb_spec tot n) as [Hlt|Hge].
  2:{ wp_step. split; [done|]. exists V1, i1, L1. split; [done|lia]. }
  pose proof I as [T Hround W O Q Hsub HL1].
  pose proof (write_log_length tot s1 V1 i1 L1 I HL) as Hlen.
  pose proof (covered_bounds tot T) as Hcov.
  assert (tot = 0 ∨ (off + tot) mod BSIZE = 0) as Hround' by (destruct Hround as [?|[?|?]]; [by left|lia|by right]).
  pose proof (covered_round tot ltac:(lia) Hround') as Hcov1.
  assert (off / BSIZE ≤ (off + tot) / BSIZE) as Hdiv by (apply Z.div_le_mono; [done|lia]).
  assert (0 ≤ (off + tot) / BSIZE < MAXFILE) as Hbn by (unfold BSIZE in *; dlia).
  assert (addr i1 NDIRECT ≠ 0 → addr i1 NDIRECT ∉ h) as Hind.
  { intros H0. eapply held_apart; [done|]. split; [done|by left]. }
  wp_step. eapply wp_mono; [|eapply (bmap_spec d me st sz sb0 Hly V1 h L1 s1 ip i1 ((off + tot) / BSIZE));
    [by rewrite (iquiet_sb _ _ _ _ _ _ _ Q)|apply W|apply W|by eapply held_used|done|unfold room; lia|lia|
     done|by eapply iquiet_at|done]].
  intros r s2 (V2 & L2 & i2 & G & O2 & Q2 & Hsub2 & Hl2 & Hnew & Hfull).
  pose proof (written_grow tot V1 i1 _ r V2 i2 W ltac:(lia) G Hbn) as W2.
  assert (iquiet ip i2 h s s2) as Q2' by (by eapply iquiet_trans).
  assert (∀ tot', covered tot ≤ covered tot' → (r ≠ 0 → (off + tot) / BSIZE < off / BSIZE + covered tot') →
    write_log_ok tot' V2 i2 L2) as HL2.
  { intros tot' Ht' Hr m Hm. destruct (Hnew m Hm) as [Hm1|[Hm1|[Hm0 [Hm1|Hm1]]]]; [|pick|by do 2 right; left|].
    - destruct (HL1 m Hm1) as [?|[?|[[Hm0 ->]|(bn & B1 & B2 & ->)]]]; [pick..| |].
      + destruct (gr_ind _ _ _ _ _ _ _ _ _ _ G) as [->|[? _]]; [by do 2 right; left|done].
      + do 3 right. exists bn. split; [done|]. split; [lia|].
        assert (tot ≠ 0 ∧ bn * BSIZE < off + tot) as [Ht0 B3].
        { unfold covered, BSIZE in *. case_decide; [lia|]. split; [done|]. dlia. }
        assert (0 ≤ bn < MAXFILE) as Hbn' by (unfold BSIZE in *; dlia).
        assert (faddr V1 i1 bn ≠ 0) as Hn0 by (apply W; [done|unfold BSIZE in *; dlia|done]).
        rewrite (gr_map _ _ _ _ _ _ _ _ _ _ G) by done. case_decide; subst; [|done].
        symmetry. by apply (gr_found _ _ _ _ _ _ _ _ _ _ G).
    - do 3 right. exists ((off + tot) / BSIZE). split; [done|]. split; [apply Hr; congruence|].
      by rewrite (grows_addr _ _ _ _ _ _ G). }
  destruct (Z.eqb_spec r 0) as [E0|E0].
  { wp_step. split; [done|]. exists V2, i2, L2. split; [|auto]. split; try done; [by etransitivity|].
    apply HL2; [lia|done]. }
  pose proof (grows_addr _ _ _ _ _ _ G Hbn) as Er.
  assert (in_file V2 i2 r) as Hin by (rewrite <- Er; apply in_file_addr; [done|congruence]).
  destruct (in_file_data _ _ _ (wr_ok _ _ _ _ _ _ _ W2) Hin) as [_ _ _ Hhome Hlen2].
  assert (idev i = d) as -> by (destruct (wr_inode _ _ _ _ _ _ _ W) as [a ->]; apply (fo_dev _ _ _ _ _ _ (wr_ok _ _ _ _ _ _ _ W))).
  wp_step. eapply wp_mono; [|eapply kbread_spec; [exact O2|by eapply held_apart|lia]].
  intros bp s3 (O3 & H3 & Q3 & _). set (m := Z.min _ _). wp_step.
  assert (copy_from src tot m s3 = Ret ((0, sub_bytes l (Z.to_nat tot) (Z.to_nat m)), s3)) as Ecopy.
  { pose proof (Z.mod_pos_bound (off + tot) BSIZE ltac:(done)).
    pose proof (iq_only _ _ _ _ _ _ _ Q2') as E2. pose proof (q_only _ _ _ _ _ Q3) as E3.
    apply Hsrc; [by rewrite E3, E2..|lia|lia|lia]. }
  apply wp_returns. eexists _, _. split; [exact Ecopy|]. cbv beta iota. wp_step.
  eapply wp_mono; [|by eapply bp_store_spec]. intros _ s4 (O4 & H4 & Q4). change (0 =? -1) with false. cbv iota.
  eapply finish_then; [exact O4|exact H4|done|unfold room; lia|]. intros s5 O5 Q5. wp_step.
  pose proof (Z.mod_pos_bound (off + tot) BSIZE ltac:(done)) as Hmod.
  assert (0 < m ∧ tot + m ≤ n ∧ (off + tot) mod BSIZE + m ≤ BSIZE) as (M1 & M2 & M3) by lia.
  assert (tot + m = n ∨ (off + tot) mod BSIZE + m = BSIZE) as M4 by lia.
  assert (covered tot ≤ covered (tot + m) ∧ (off + tot) / BSIZE < off / BSIZE + covered (tot + m)) as [M5 M6].
  { unfold covered, BSIZE in *. rewrite (decide_False (P := tot + m = 0)) by lia. case_decide; split; dlia. }
  change (MAXFILE * BSIZE) with 274432 in Hmax. rewrite u32_small by lia.
  split; [lia|]. split; [lia|]. eexists _, i2, _. split; [lia| | |exact O5| | |].
  - destruct M4 as [?|M4]; [by right; left|]. right. right. unfold BSIZE in *. dlia.
  - pose proof (written_store tot V2 i2 m W2 ltac:(lia) M1 M2 M3 Hl ltac:(congruence)) as W3. by rewrite Er in W3.
  - eapply iquiet_quiet; [|exact Q5]. eapply iquiet_quiet; [|exact Q4]. by eapply iquiet_quiet.
  - etransitivity; [exact Hsub|]. etransitivity; [exact Hsub2|]. apply logged_subseteq.
  - intros k Hk%elem_logged_inv.
    assert (k ∈ L2 ∨ k = r → k ∈ L ∨ is_bmap sb0 k ∨ (k ≠ 0 ∧ k = addr i2 NDIRECT) ∨
      ∃ bn, off / BSIZE ≤ bn ∧ bn < off / BSIZE + covered (tot + m) ∧ k = faddr V2 i2 bn) as Hk2.
    { intros [H|H]; [by apply (HL2 (tot + m))|].
      do 3 right. exists ((off + tot) / BSIZE). split; [done|]. split; [done|congruence]. }
    destruct (Hk2 Hk) as [?|[?|[?|(bn & B1 & B2 & ->)]]]; [pick..|]. do 3 right. exists bn.
    split; [done|]. split; [done|]. symmetry. rewrite <- Er.
    apply (store_faddr V2 i2 ((off + tot) / BSIZE)); [apply W2|done|congruence].
Qed.

(** ** writei *)

Context (ib : Z).
Hypothesis (Eib : ib = IBLOCK (inum i) sb0) (Hib : outside V i ib) (Hibh : iblock_ok st sz V h ib).

Record writei_post (tot : Z) (s' : kernel) (V' : contents) (i' : inode) (L' : list Z) : Prop := {
  wp_tot : 0 ≤ tot ≤ n;
  wp_short : tot < n → ∀ b, 0 ≤ b < sb_size sb0 → used sb0 V' b = true;
  wp_opened : opened V' h L' s';
  wp_quiet : iquiet ip i' h s s';
  wp_ok : file_ok V' i';
  wp_bitmap : bitmap V';
  wp_holes : no_holes V' i';
  wp_inode : ∃ a, i' = i <| iaddrs := a |> <| isize := Z.max (isize i) (off + tot) |>;
  wp_byte p : 0 ≤ p < isize i' →
    fbyte V' i' p = if decide (off ≤ p < off + tot) then default 0 (l !! Z.to_nat (p - off)) else fbyte V i p;
  wp_dinode : V' ib = put_dinode (dinode_off (inum i)) i' (V ib);
  wp_frame m : outside V i m → m ≠ ib → V' m = V m;
  wp_used b : 0 ≤ b < sb_size sb0 → used sb0 V b = true → used sb0 V' b = true;
  wp_new m : in_file V' i' m → in_file V i m ∨ 0 ≤ m < sb_size sb0 ∧ used sb0 V m = false;
  wp_sub : L ⊆ L';
  wp_log : Z.of_nat (length L') ≤ Z.of_nat (length L) + 3 + span;
}.

(** The end of writei: the new size, and the inode goes to its block. *)
Lemma writei_end tot s1 V1 i1 L1 :
  write_inv tot s1 V1 i1 L1 → (tot < n → ∀ b, 0 ≤ b < sb_size sb0 → used sb0 V1 b = true) →
  wp (let* i := geti ip in
      (if isize i <? off + tot then updi ip (λ i, i <| isize := off + tot |>) else ret tt) ;;;
      iupdate ip ;;;
      ret tot) (λ r s', r = tot ∧ ∃ V' i' L', writei_post tot s' V' i' L') s1.
Proof using All.
  intros I Hfull. pose proof I as [T _ W O Q Hsub HL1].
  pose proof (write_log_length tot s1 V1 i1 L1 I HL) as Hlen. pose proof (covered_bounds tot T) as Hcov.
  assert (0 ≤ span) as Hspan by (unfold span, BSIZE; dlia).
  assert (3 ≤ grow_max i1)%nat as Hg by (unfold grow_max; case_decide; lia).
  destruct (wr_inode _ _ _ _ _ _ _ W) as [a Ea]. pose proof (iquiet_at _ _ _ _ _ _ _ _ Hi Q) as Hi1.
  set (i2 := i <| iaddrs := a |> <| isize := Z.max (isize i) (off + tot) |>).
  assert (∀ Q' : unit → kernel → Prop, Q' tt (with_inode ip i2 s1) →
    wp (if isize i1 <? off + tot then updi ip (λ i, i <| isize := off + tot |>) else ret tt) Q' s1) as Hset.
  { intros Q' HQ'. rewrite Ea. simpl. destruct (Z.ltb_spec (isize i) (off + tot)).
    - eapply wp_updi; [exact Hi1|]. rewrite Ea. unfold i2 in HQ'. by rewrite Z.max_r in HQ' by lia.
    - wp_step. replace (with_inode ip i2 s1) with s1 in HQ'; [done|]. symmetry. apply with_inode_same.
      unfold i2. rewrite Z.max_l by lia. rewrite Ea in Hi1. by destruct i. }
  wp_step. eapply wp_geti; [done|]. wp_step. apply Hset. clear Hset. wp_step.
  destruct Hibh as (Hb1 & Hb2 & Hb3).
  assert (V1 ib = V ib) as EV by (by apply W).
  eapply wp_mono; [|eapply (iupdate_spec d me st sz sb0 V1 h L1 (with_inode ip i2 s1) ip i2);
    [by apply opened_inode|by eapply inode_at_with|by rewrite <- Esb, <- (iquiet_sb _ _ _ _ _ _ _ Q)| | |unfold room; lia|lia]].
  2:{ pose proof (fo_dev _ _ _ _ _ _ (wr_ok _ _ _ _ _ _ _ W)) as E. by rewrite Ea in E. }
  2:{ change (inum i2) with (inum i). rewrite <- Eib. split_and!; [done|done|by rewrite EV]. }
  change (inum i2) with (inum i). rewrite <- Eib, EV. intros _ s2 (O2 & Q2). wp_step. split; [done|].
  set (V2 := <[ib := _]> V1) in *.
  assert (∀ k, in_file V1 i1 k → V2 k = V1 k) as Hin.
  { intros k Hk. unfold V2. apply fn_lookup_insert_ne. by eapply outside_not_in. }
  assert (addr i2 NDIRECT = addr i1 NDIRECT) as Eind by (by rewrite Ea).
  assert (∀ bn, faddr V2 i2 bn = faddr V1 i1 bn) as Hfa.
  { intros bn. unfold faddr. rewrite Eind, Ea. repeat case_decide; try done.
    rewrite Hin; [done|]. rewrite Ea. split; [done|by left]. }
  assert (∀ m, is_bmap sb0 m → V2 m = V1 m) as Hbm.
  { intros m Hm. unfold V2. apply fn_lookup_insert_ne. intros ->. destruct Hib as [Hib1 _]. by apply Hib1. }
  assert (∀ b, 0 ≤ b < sb_size sb0 → used sb0 V2 b = used sb0 V1 b) as Hus.
  { intros b Hb. apply used_ext, Hbm. by exists b. }
  assert (∀ k, in_file V1 i1 k → data_block V2 k) as Hdb.
  { intros k Hk. pose proof (in_file_data _ _ _ (wr_ok _ _ _ _ _ _ _ W) Hk) as D.
    apply (data_ext st sz sb0 V1); [done|apply Hus; destruct D; lia|by rewrite Hin]. }
  assert (∀ p, 0 ≤ p < Z.max (isize i) (off + tot) → fbyte V2 i2 p = fbyte V1 i1 p) as Hby.
  { intros p Hp. destruct (written_there tot V1 i1 p W ltac:(lia) Hp) as [Hb Hn].
    unfold fbyte. rewrite Hfa, Hin; [done|]. by apply in_file_addr. }
  pose proof (wr_ok _ _ _ _ _ _ _ W) as F1.
  exists V2, i2, (logged ib L1). split.
  - done.
  - intros Ht b Hb. rewrite Hus by done. by apply Hfull.
  - done.
  - eapply iquiet_quiet; [|exact Q2]. by eapply iquiet_with.
  - split.
    + pose proof (fo_dev _ _ _ _ _ _ F1) as E. by rewrite Ea in E.
    + pose proof (fo_len _ _ _ _ _ _ F1) as E. by rewrite Ea in E.
    + intros bn Hbn. rewrite Hfa. intros Hn. by apply Hdb, in_file_addr.
    + rewrite Eind. intros Hn. assert (in_file V1 i1 (addr i1 NDIRECT)) as Hk by (split; [done|by left]).
      split; [by apply Hdb|]. rewrite Hin by done. by apply (fo_ind _ _ _ _ _ _ F1).
    + intros b1 b2 H1 H2. rewrite !Hfa. by apply (fo_inj _ _ _ _ _ _ F1).
    + intros b1 H1. rewrite Hfa, Eind. by apply (fo_apart _ _ _ _ _ _ F1).
  - apply (bitmap_ext st sz sb0 V1); [apply W|done].
  - split; [unfold i2; simpl; pose proof Hnh as [? _]; lia|]. intros bn H1 H2. rewrite Hfa.
    change (isize i2) with (Z.max (isize i) (off + tot)) in H2.
    destruct (written_there tot V1 i1 (bn * BSIZE) W ltac:(lia) ltac:(unfold BSIZE in *; lia)) as [_ Hn].
    by rewrite Z.div_mul in Hn by done.
  - by exists a.
  - intros p Hp. rewrite Hby by done. by apply (wr_byte _ _ _ _ _ _ _ W).
  - unfold V2. by rewrite fn_lookup_insert.
  - intros m Hm Hne. unfold V2. rewrite fn_lookup_insert_ne by done. by apply (wr_frame _ _ _ _ _ _ _ W).
  - intros b Hb Hu. rewrite Hus by done. by apply W.
  - intros m [Hm0 Hm]. apply (wr_new _ _ _ _ _ _ _ W). split; [done|].
    destruct Hm as [->|(bn & Hbn & ->)]; [by left; rewrite Eind|right]. exists bn. by rewrite Hfa.
  - etransitivity; [exact Hsub|apply logged_subseteq].
  - pose proof (length_logged ib L1). lia.
Qed.

Lemma writei_spec :
  opened V h L s → file_ok V i → bitmap V → 0 ≤ n →
  wp (writei ip src off n) (λ tot s', ∃ V' i' L', writei_post tot s' V' i' L') s.
Proof using All.
  intros O F B Hn. unfold writei. wp_step. eapply wp_geti; [exact Hi|].
  pose proof Hmax as Hmax'. change (MAXFILE * BSIZE) with 274432 in Hmax'.
  rewrite u32_small by lia. test_false (isize i <? off). test_false (off + n <? off). cbn [orb].
  test_false (MAXFILE * BSIZE <? off + n). wp_step.
  apply (wp_loop _
    (λ '(tot, o) s', o = off + tot ∧ ∃ V1 i1 L1, write_inv tot s' V1 i1 L1)
    (λ '(tot, o), Z.to_nat (n - tot))).
  - intros [tot o] s1 (-> & V1 & i1 & L1 & I). eapply wp_mono; [|by apply (write_round tot s1 V1 i1 L1)].
    intros [[tot' o']|[tot' o']] s2.
    + intros (H1 & -> & V2 & i2 & L2 & I2). pose proof (wi_tot _ _ _ _ _ I2). split; [|lia]. split; [done|]. by exists V2, i2, L2.
    + intros (-> & V2 & i2 & L2 & I2 & Hf). eapply wp_mono; [|by eapply writei_end].
      intros r s3 (-> & V3 & i3 & L3 & HP). by exists V3, i3, L3.
  - split; [lia|]. exists V, i, L. split; [lia|by left|by apply written_start|done| |done|by left].
    apply quiet_iquiet; [done|apply quiet_refl].
  - unfold file_fuel. rewrite <- Z2Nat.inj_pos. apply Z2Nat.inj_lt; lia.
Qed.
End written.
End contents.
