(* ===== verification/File.v ===== *)
(** * Open files and pipes (kernel/file.c, kernel/pipe.c)

    A pipe call that has to wait is split at its [sleep]: it answers [inl]
    with its loop counter, and [pipewrite_again]/[piperead_again] continue
    when the process runs again.  The device switch [devsw] is an interface
    that console.c implements. *)

From Stdlib Require Import ZArith Lia.
From stdpp Require Import base numbers list gmap strings tactics.
From S2P Require Import Prelude Riscv Mem Bytes Kalloc Vm Proc Locks Bio Log Ftypes Fs.

Local Open Scope Z_scope.

(** ** Pipes *)

Definition PIPESIZE : Z := 512.

(** Addresses inside [struct pipe]: the spinlock takes 24 bytes. *)
Definition pipe_data_off : Z := 24.
Definition chan_nread (pi : Z) : channel := ChAddr (pi + 536).
Definition chan_nwrite (pi : Z) : channel := ChAddr (pi + 540).

Definition getpipe (pi : Z) : M kernel pipe := λ s,
  match pipes (files s) !! pi with Some p => Ret (p, s) | None => Fault "pipe" end.
Definition updpipe (pi : Z) (f : pipe → pipe) : M kernel unit :=
  let* p := getpipe pi in
  updfs (λ fs, fs <| pipes ::= <[pi := f p]> |>).

Definition pipeclose (pi writable : Z) : M kernel unit :=
  acquire (LOther pi) ;;;
  (if negb (writable =? 0) then
     updpipe pi (λ p, p <| writeopen := 0 |>) ;;;
     wakeup (chan_nread pi)
   else
     updpipe pi (λ p, p <| readopen := 0 |>) ;;;
     wakeup (chan_nwrite pi)) ;;;
  let* p := getpipe pi in
  if (readopen p =? 0) && (writeopen p =? 0) then
    release (LOther pi) ;;;
    kern (kfree pi) ;;;
    updfs (λ fs, fs <| pipes ::= delete pi |>)
  else release (LOther pi).

(** The loop of [pipewrite] from byte [i] on, with the pipe's lock held. *)
Definition pipewrite_from (pi addr n i : Z) : M kernel (Z + Z) :=
  let* pr := myproc in
  let* r := loop (Pos.of_succ_nat (Z.to_nat n)) (λ i,
    if i <? n then
      let* p := getpipe pi in
      let* k := if readopen p =? 0 then ret 1 else killed pr in
      if negb (k =? 0) then
        release (LOther pi) ;;; ret (inr (inr (inr (-1))))
      else if nwrite p =? u32 (nread p + PIPESIZE) then
        wakeup (chan_nread pi) ;;;
        sleep_out (chan_nwrite pi) (LOther pi) ;;;
        ret (inr (inr (inl i)))
      else
        let* q := getp pr in
        let* (c, ch) := kern (copyin (pagetable q) (u64 (addr + i)) 1) in
        if c =? -1 then ret (inr (inl i))
        else
          updpipe pi (λ p, p <| pdata ::= <[Z.to_nat (nwrite p mod PIPESIZE) := default 0 (ch !! 0%nat)]> |>
                             <| nwrite := u32 (nwrite p + 1) |>) ;;;
          ret (inl (i + 1))
    else ret (inr (inl i))) i in
  match r with
  | inr r => ret r
  | inl i =>
      wakeup (chan_nread pi) ;;;
      release (LOther pi) ;;;
      ret (inr i)
  end.
Definition pipewrite (pi addr n : Z) : M kernel (Z + Z) :=
  acquire (LOther pi) ;;; pipewrite_from pi addr n 0.
Definition pipewrite_again (pi addr n i : Z) : M kernel (Z + Z) :=
  sleep_in (LOther pi) ;;; pipewrite_from pi addr n i.

(** [piperead] with the pipe's lock held; [inl] when it went to sleep. *)
Definition piperead_pass (pi addr n : Z) : M kernel (unit + Z) :=
  let* pr := myproc in
  let* p := getpipe pi in
  if (nread p =? nwrite p) && negb (writeopen p =? 0) then
    let* k := killed pr in
    if negb (k =? 0) then release (LOther pi) ;;; ret (inr (-1))
    else sleep_out (chan_nread pi) (LOther pi) ;;; ret (inl tt)
  else
    let* i := loop (Pos.of_succ_nat (Z.to_nat n)) (λ i,
      if i <? n then
        let* p := getpipe pi in
        if nread p =? nwrite p then ret (inr i)
        else
          let ch := default 0 (pdata p !! Z.to_nat (nread p mod PIPESIZE)) in
          updpipe pi (λ p, p <| nread := u32 (nread p + 1) |>) ;;;
          let* q := getp pr in
          let* c := kern (copyout (pagetable q) (u64 (addr + i)) [ch]) in
          if c =? -1 then ret (inr i) else ret (inl (i + 1))
      else ret (inr i)) 0 in
    wakeup (chan_nwrite pi) ;;;
    release (LOther pi) ;;;
    ret (inr i).
Definition piperead (pi addr n : Z) : M kernel (unit + Z) :=
  acquire (LOther pi) ;;; piperead_pass pi addr n.
Definition piperead_again (pi addr n : Z) : M kernel (unit + Z) :=
  sleep_in (LOther pi) ;;; piperead_pass pi addr n.

(** The result of a call that did not have to wait. *)
Definition awake {A B} (r : A + B) : M kernel B :=
  match r with inr b => ret b | inl _ => Prelude.block end.

(** ** Files *)

(** [devsw[major]]: the functions of a device, given whether the address is
    a user address, the address and the count. *)
Class Devices := {
  dev_read : Z → option (bool → Z → Z → M kernel Z);
  dev_write : Z → option (bool → Z → Z → M kernel Z);
}.

Definition fptr (i : nat) : Z := Z.of_nat i + 1.

Definition filealloc : M kernel Z :=
  let* r := for_find (seq 0 NFILE) (λ i,
    let* f := getf (fptr i) in
    if fref f =? 0 then
      updf (fptr i) (λ f, f <| fref := 1 |>) ;;; ret (Some (fptr i))
    else ret None) in
  ret (default 0 r).

Definition filedup (f : Z) : M kernel Z :=
  let* x := getf f in
  if fref x <? 1 then panic "filedup"
  else updf f (λ x, x <| fref := s32 (fref x + 1) |>) ;;; ret f.

Definition fileclose (f : Z) : M kernel unit :=
  let* x := getf f in
  if fref x <? 1 then panic "fileclose"
  else
    updf f (λ x, x <| fref := s32 (fref x - 1) |>) ;;;
    let* ff := getf f in
    if 0 <? fref ff then ret tt
    else
      updf f (λ x, x <| fref := 0 |> <| ftype := FD_NONE |>) ;;;
      match ftype ff with
      | FD_PIPE => pipeclose (fpipe ff) (writable ff)
      | FD_INODE | FD_DEVICE =>
          kbegin_op ;;; iput (fip ff) ;;; kend_op
      | FD_NONE => ret tt
      end.

Definition pipealloc : M kernel (Z * (Z * Z)) :=
  let bad f0 f1 :=
    (if negb (f0 =? 0) then fileclose f0 else ret tt) ;;;
    (if negb (f1 =? 0) then fileclose f1 else ret tt) ;;;
    ret (-1, (f0, f1)) in
  let* f0 := filealloc in
  if f0 =? 0 then bad 0 0
  else
    let* f1 := filealloc in
    if f1 =? 0 then bad f0 0
    else
      let* pi := kern kalloc in
      if pi =? 0 then bad f0 f1
      else
        let* junk := kern (rd_bytes (pi + pipe_data_off) (Z.to_nat PIPESIZE)) in
        updfs (λ fs, fs <| pipes ::= <[pi := Pipe junk 0 0 1 1]> |>) ;;;
        updf f0 (λ f, f <| ftype := FD_PIPE |> <| readable := 1 |> <| writable := 0 |> <| fpipe := pi |>) ;;;
        updf f1 (λ f, f <| ftype := FD_PIPE |> <| readable := 0 |> <| writable := 1 |> <| fpipe := pi |>) ;;;
        ret (0, (f0, f1)).

(** [pad] are the bytes of [struct stat] that are not assigned. *)
Definition filestat (pad : list Z) (f addr : Z) : M kernel Z :=
  let* x := getf f in
  if bool_decide (ftype x = FD_INODE ∨ ftype x = FD_DEVICE) then
    ilock (fip x) ;;;
    let* st := stati (fip x) pad in
    iunlock (fip x) ;;;
    let* i := myproc in
    let* p := getp i in
    let* r := kern (copyout (pagetable p) addr st) in
    if r <? 0 then ret (-1) else ret 0
  else ret (-1).

Section fileio.
Context `{Devices}.

Definition fileread (f addr n : Z) : M kernel Z :=
  let* x := getf f in
  if readable x =? 0 then ret (-1)
  else
    match ftype x with
    | FD_PIPE => let* r := piperead (fpipe x) addr n in awake r
    | FD_DEVICE =>
        if (fmajor x <? 0) || (NDEV <=? fmajor x) then ret (-1)
        else
          match dev_read (fmajor x) with
          | None => ret (-1)
          | Some read => read true addr n
          end
    | FD_INODE =>
        ilock (fip x) ;;;
        let* y := getf f in
        let* (r, _) := readi (fip x) (DAddr true addr) (foff y) (u32 n) in
        (if 0 <? r then updf f (λ x, x <| foff := u32 (foff x + r) |>) else ret tt) ;;;
        iunlock (fip x) ;;;
        ret r
    | FD_NONE => panic "fileread"
    end.

Definition write_max : Z := (MAXOPBLOCKS - 1 - 1 - 2) / 2 * BSIZE.

(** The transaction of one piece, up to end_op. *)
Definition write_piece (f ip addr n1 : Z) : M kernel Z :=
  kbegin_op ;;;
  ilock ip ;;;
  let* y := getf f in
  let* r := writei ip (SAddr true addr) (foff y) n1 in
  (if 0 <? r then updf f (λ x, x <| foff := u32 (foff x + r) |>) else ret tt) ;;;
  iunlock ip ;;;
  ret r.

Definition filewrite (f addr n : Z) : M kernel Z :=
  let* x := getf f in
  if writable x =? 0 then ret (-1)
  else
    match ftype x with
    | FD_PIPE => let* r := pipewrite (fpipe x) addr n in awake r
    | FD_DEVICE =>
        if (fmajor x <? 0) || (NDEV <=? fmajor x) then ret (-1)
        else
          match dev_write (fmajor x) with
          | None => ret (-1)
          | Some write => write true addr n
          end
    | FD_INODE =>
        let* i := loop (Pos.of_succ_nat (Z.to_nat n)) (λ i,
          if i <? n then
            let n1 := n - i in
            let n1 := if write_max <? n1 then write_max else n1 in
            let* r := write_piece f (fip x) (u64 (addr + i)) n1 in
            kend_op ;;;
            if negb (r =? n1) then ret (inr i) else ret (inl (i + r))
          else ret (inr i)) 0 in
        ret (if i =? n then n else -1)
    | FD_NONE => panic "filewrite"
    end.
End fileio.

(** The file layer as proc.c uses it. *)
#[global] Instance kernel_files : FileOps fsys := {|
  Proc.filedup := filedup;
  Proc.fileclose := fileclose;
  Proc.idup := Fs.idup;
  Proc.iput := Fs.iput;
  Proc.begin_op := kbegin_op;
  Proc.end_op := kend_op;
  Proc.namei := Fs.namei;
|}.
