(* ===== verification/FsProps.v ===== *)
(** * Properties of the file system

    The contracts of balloc, bfree, readi and writei, as a client inside a
    transaction sees them. *)

From Stdlib Require Import ZArith Lia.
From stdpp Require Import base numbers list gmap functions strings tactics.
From S2P Require Import Prelude Riscv Mem Bytes Kalloc Vm Proc ProcRules Locks Bio BioList BioSpec BioProps Log LogSpec LogCrash LogProps Ftypes Fs FsRules FsAlloc FsFile FsWrite FsInode FsContents File.

Local Open Scope Z_scope.

(** ** Blocks *)

(** [balloc] is first fit: it answers 0 exactly when the bitmap has no clear
    bit, and otherwise the first free block, which it marks as used and
    fills with zeros; the rest of the disk contents, and the disk itself before
    the commit, are unchanged, and at most two blocks join the transaction. *)
Theorem balloc_correct d me st sz V h L s :
  let sb0 := sb (files s) in
  layout st sz sb0 → bitmap st sz sb0 V → holds_used sb0 V h → opened d me st sz V h L s →
  room sz 2 L → (length h + length L + 1 < 30)%nat →
  wp (balloc d) (λ r s', ∃ V' L', opened d me st sz V' h L' s' ∧ quiet d me h s s' ∧
    (length L' ≤ length L + 2)%nat ∧ bitmap st sz sb0 V' ∧
    (r = 0 ∧ V' = V ∧ (∀ b, 0 ≤ b < sb_size sb0 → used sb0 V b = true) ∨
     0 < r < sb_size sb0 ∧ used sb0 V r = false ∧ (∀ b, 0 ≤ b < r → used sb0 V b = true) ∧
     V' r = zero_block ∧
     (∀ b, 0 ≤ b < sb_size sb0 → used sb0 V' b = used sb0 V b || bool_decide (b = r)) ∧
     (∀ n, n ≠ r → n ≠ BBLOCK r sb0 → V' n = V n))) s.
Proof.
  intros sb0 Hly B Hhu O Hr Hlen.
  eapply wp_mono; [|by eapply (balloc_spec d me st sz sb0 Hly V h L s)].
  intros r s' (V' & L' & O' & Q' & _ & Hl & _ & Hcase). exists V', L'.
  split; [done|]. split; [done|]. split; [done|].
  destruct Hcase as [(-> & -> & -> & Hall)|(Hr' & Hf & Hlow & _ & ->)]; [split; [done|by left]|].
  split; [apply bitmap_allocated; (done || lia)|]. right. split_and!; try done.
  - lia.
  - lia.
  - unfold allocated. by rewrite fn_lookup_insert.
  - intros b Hb. apply (used_allocated st sz); (done || lia).
  - intros n H1 H2. unfold allocated. by rewrite !fn_lookup_insert_ne.
Qed.

(** [bfree] undoes [balloc]: freeing the block just allocated gives back the
    bitmap there was, bit for bit, and freeing it once more stops the kernel. *)
Theorem balloc_bfree d me st sz V h L s :
  let sb0 := sb (files s) in
  layout st sz sb0 → bitmap st sz sb0 V → holds_used sb0 V h → opened d me st sz V h L s →
  (∀ n, is_bmap sb0 n → bytes (V n)) → (∃ b, 0 ≤ b < sb_size sb0 ∧ used sb0 V b = false) →
  room sz 3 L → (length h + length L + 3 < 30)%nat →
  wp (let* b := balloc d in bfree d b ;;; ret b) (λ b s', b ≠ 0 ∧ ∃ V' L', opened d me st sz V' h L' s' ∧
    (∀ n, is_bmap sb0 n → V' n = V n) ∧ bfree d b s' = Panic "freeing free block") s.
Proof.
  intros sb0 Hly B Hhu O Hbytes (b0 & Hb0 & Hfree) Hr Hlen. wp_step.
  eapply wp_mono; [|eapply (balloc_spec d me st sz sb0 Hly V h L s); [done..|unfold room in *; lia|lia|done]].
  intros r s1 (V1 & L1 & O1 & Q1 & _ & Hl & _ & [(_ & _ & _ & Hall)|(Hr' & Hf & _ & _ & ->)]).
  { rewrite Hall in Hfree by done. done. }
  pose proof (quiet_sb _ _ _ _ _ Q1) as Esb. fold sb0 in Esb.
  assert (BBLOCK r sb0 ∉ h) as Hbh by (intros Hin; destruct (Hhu _ Hin) as [Hn _]; apply Hn; exists r; split; [lia|done]).
  assert (bitmap st sz sb0 (allocated sb0 V r)) as B1 by (apply bitmap_allocated; (done || lia)).
  assert (used sb0 (allocated sb0 V r) r = true) as Hu1.
  { rewrite (used_allocated st sz) by (done || lia). rewrite bool_decide_true by done. by rewrite orb_true_r. }
  wp_step. eapply wp_mono; [|eapply (bfree_spec d me st sz sb0 Hly _ h L1 s1 r); try done; [lia|unfold room in *; lia|lia]].
  intros _ s2 (O2 & Q2). wp_step. split; [lia|]. eexists _, _. split; [exact O2|].
  destruct (bm_free _ _ _ _ B r ltac:(lia) Hf) as (_ & _ & Hnb). split.
  - intros n Hn. unfold freed.
    assert (allocated sb0 V r (BBLOCK r sb0) = set_bit (r mod BPB) (V (BBLOCK r sb0))) as ->.
    { unfold allocated. rewrite fn_lookup_insert_ne, fn_lookup_insert; [done|].
      intros E. apply Hnb. rewrite E. exists r. split; [lia|done]. }
    assert (is_bmap sb0 (BBLOCK r sb0)) as Hbr by (exists r; split; [lia|done]).
    destruct (decide (BBLOCK r sb0 = n)) as [<-|Hne].
    + rewrite fn_lookup_insert. apply clear_set_bit; [by apply B|by apply Hbytes|apply BPB_bit|].
      unfold used in Hf. by apply negb_false_iff in Hf.
    + rewrite fn_lookup_insert_ne by done. unfold allocated.
      rewrite fn_lookup_insert_ne by (by intros ->). by rewrite fn_lookup_insert_ne.
  - pose proof (length_logged (BBLOCK r sb0) L1).
    eapply (bfree_free d me st sz sb0); [by rewrite (quiet_sb _ _ _ _ _ Q2)|exact O2| |done|lia].
    rewrite (used_freed st sz) by (done || lia). rewrite bool_decide_true by done. by rewrite andb_false_r.
Qed.

(** ** Files *)

(** A locked file inside a transaction: the disk layout is sound, the file has
    its own blocks and no holes, and the process holds none of them. *)
Record file_ready (d me st sz : Z) (V : contents) (h L : list Z) (s : kernel) (ip : Z) (i : inode) : Prop := {
  fr_layout : layout st sz (sb (files s));
  fr_one : sb_size (sb (files s)) ≤ BPB;
  fr_opened : opened d me st sz V h L s;
  fr_inode : inode_at s ip i;
  fr_ok : file_ok d st sz (sb (files s)) V i;
  fr_holes : no_holes V i;
  fr_bitmap : bitmap st sz (sb (files s)) V;
  fr_apart : apart V i h;
  fr_used : holds_used (sb (files s)) V h;
  fr_outside : outside (sb (files s)) V i (IBLOCK (inum i) (sb (files s)));
  fr_iblock : iblock_ok st sz V h (IBLOCK (inum i) (sb (files s)));
}.

Definition fcontents (V : contents) (i : inode) : list Z := fslice V i 0 (isize i).

Lemma fcontents_lookup V i k :
  fcontents V i !! k = if decide (Z.of_nat k < isize i) then Some (fbyte V i (Z.of_nat k)) else None.
Proof.
  unfold fcontents, fslice. rewrite list_lookup_fmap. case_decide.
  - rewrite lookup_seqZ_lt by lia. simpl. by rewrite Z.add_0_l.
  - by rewrite lookup_seqZ_ge by lia.
Qed.
Lemma length_fcontents V i : length (fcontents V i) = Z.to_nat (isize i).
Proof. apply length_fslice. Qed.

Lemma fslice_sub V i off n :
  0 ≤ off → 0 ≤ n → fslice V i off (Z.max 0 (Z.min n (isize i - off))) = sub_bytes (fcontents V i) (Z.to_nat off) (Z.to_nat n).
Proof.
  intros Ho Hn. apply list_eq. intros k. unfold sub_bytes, fslice. rewrite list_lookup_fmap.
  destruct (decide (k < Z.to_nat n)%nat).
  - rewrite lookup_take_lt, lookup_drop, fcontents_lookup by done. case_decide.
    + rewrite lookup_seqZ_lt by lia. simpl. do 2 f_equal. lia.
    + by rewrite lookup_seqZ_ge by lia.
  - rewrite lookup_take_ge by lia. by rewrite lookup_seqZ_ge by lia.
Qed.

Lemma ready_quiet d me st sz V h L s s' ip i :
  file_ready d me st sz V h L s ip i → quiet d me h s s' → opened d me st sz V h L s' →
  file_ready d me st sz V h L s' ip i.
Proof.
  intros [] Q O. pose proof (quiet_sb _ _ _ _ _ Q) as E.
  split; rewrite ?E; try done. by eapply inode_at_quiet.
Qed.

Lemma readi_ready d me st sz V h L s ip i off n :
  file_ready d me st sz V h L s ip i → (length h + length L < 30)%nat →
  0 ≤ off < 2^32 → 0 ≤ n < 2^32 →
  wp (readi ip DBuf off n) (λ '(r, bs) s',
    file_ready d me st sz V h L s' ip i ∧ quiet d me h s s' ∧ r = Z.of_nat (length bs) ∧
    bs = if decide (off + n < 2^32) then sub_bytes (fcontents V i) (Z.to_nat off) (Z.to_nat n) else []) s.
Proof.
  intros R Hlen Hoff Hn. pose proof R as [].
  eapply wp_mono; [|by eapply (readi_buf d me st sz (sb (files s)) V h L s ip i off n)].
  intros [r bs] s' (E & O & Q). simplify_eq. split; [by eapply ready_quiet|]. split; [done|].
  destruct fr_holes0 as [Hs _]. unfold read_len. rewrite length_fslice. case_decide as Hc.
  - split; [done|]. case_decide; [|done]. rewrite <- fslice_sub by lia. do 2 f_equal. lia.
  - split; [lia|]. rewrite decide_True by lia. rewrite <- fslice_sub by lia. f_equal. lia.
Qed.

(** [readi] returns the bytes of the file: cut at the end of the file, none
    beyond it or when the range wraps around; it changes nothing. *)
Theorem readi_correct d me st sz V h L s ip i off n :
  file_ready d me st sz V h L s ip i → (length h + length L < 30)%nat →
  0 ≤ off < 2^32 → 0 ≤ n < 2^32 →
  wp (readi ip DBuf off n) (λ '(r, bs) s',
    file_ready d me st sz V h L s' ip i ∧ quiet d me h s s' ∧ r = Z.of_nat (length bs) ∧
    bs = if decide (off + n < 2^32) then sub_bytes (fcontents V i) (Z.to_nat off) (Z.to_nat n) else []) s.
Proof. apply readi_ready. Qed.

(** The log space and the buffers a write of [n] bytes at [off] needs: at most
    nine blocks for the pieces filewrite writes. *)
Definition write_room (sz : Z) (h L : list Z) (off n : Z) : Prop :=
  Z.of_nat (length L) + 5 + span off n ≤ sz - 1 ∧ Z.of_nat (length h + length L) + 5 + span off n ≤ 30.

Lemma supplies_buf l n s : supplies (SBuf l) l n s.
Proof. by intros s1 tot m. Qed.

(** The contents a write leaves. *)
Lemma fcontents_written V i V' i' l off tot :
  0 ≤ off ≤ isize i → 0 ≤ tot ≤ Z.of_nat (length l) → isize i' = Z.max (isize i) (off + tot) →
  (∀ p, 0 ≤ p < isize i' →
     fbyte V' i' p = if decide (off ≤ p < off + tot) then default 0 (l !! Z.to_nat (p - off)) else fbyte V i p) →
  fcontents V' i' = overwrite (fcontents V i) (Z.to_nat off) (take (Z.to_nat tot) l).
Proof.
  intros Hoff Ht Hs Hb. apply list_eq. intros k. rewrite fcontents_lookup, Hs. unfold overwrite.
  pose proof (length_fcontents V i) as Hl.
  assert (length (take (Z.to_nat off) (fcontents V i)) = Z.to_nat off) as Hl1 by (rewrite length_take; lia).
  assert (length (take (Z.to_nat tot) l) = Z.to_nat tot) as Hl2 by (rewrite length_take; lia).
  destruct (decide (Z.of_nat k < off)); [|destruct (decide (Z.of_nat k < off + tot))].
  - rewrite lookup_app_l by lia. rewrite lookup_take_lt, fcontents_lookup by lia.
    rewrite !decide_True by lia. by rewrite Hb, decide_False by lia.
  - rewrite lookup_app_r, lookup_app_l by lia. rewrite lookup_take_lt by lia.
    rewrite decide_True by lia. rewrite Hb, decide_True by lia. rewrite Hl1.
    replace (Z.to_nat (Z.of_nat k - off)) with (k - Z.to_nat off)%nat by lia.
    destruct (lookup_lt_is_Some_2 l (k - Z.to_nat off)) as [v ->]; [lia|done].
  - rewrite !lookup_app_r by lia. rewrite lookup_drop, Hl1, Hl2, fcontents_lookup.
    replace (Z.of_nat (Z.to_nat off + Z.to_nat tot + (k - Z.to_nat off - Z.to_nat tot)))
      with (Z.of_nat k) by lia.
    repeat case_decide; try lia; [|done]. by rewrite Hb, decide_False by lia.
Qed.

Definition write_post (d me st sz : Z) (V : contents) (h L : list Z) (s : kernel) (ip : Z) (i : inode)
    (l : list Z) (off n : Z) (tot : Z) (s' : kernel) (V' : contents) (i' : inode) (L' : list Z) : Prop :=
  let ib := IBLOCK (inum i) (sb (files s)) in
  file_ready d me st sz V' h L' s' ip i' ∧ iquiet d me ip i' h s s' ∧
  fcontents V' i' = overwrite (fcontents V i) (Z.to_nat off) (take (Z.to_nat tot) l) ∧
  0 ≤ tot ≤ n ∧ (tot < n → ∀ b, 0 ≤ b < sb_size (sb (files s)) → used (sb (files s)) V' b = true) ∧
  (∀ m, outside (sb (files s)) V i m → m ≠ ib → V' m = V m) ∧
  V' ib = put_dinode (dinode_off (inum i)) i' (V ib) ∧
  (∃ a, i' = i <| iaddrs := a |> <| isize := Z.max (isize i) (off + tot) |>) ∧
  isize i' = Z.max (isize i) (off + tot) ∧
  Z.of_nat (length L') ≤ Z.of_nat (length L) + 3 + span off n.

Lemma writei_ready d me st sz V h L s ip i src l off n :
  file_ready d me st sz V h L s ip i → write_room sz h L off n → supplies src l n s →
  0 ≤ off ≤ isize i → 0 ≤ n ≤ Z.of_nat (length l) → off + n ≤ MAXFILE * BSIZE →
  wp (writei ip src off n) (λ tot s', ∃ V' i' L',
    write_post d me st sz V h L s ip i l off n tot s' V' i' L') s.
Proof.
  intros R [Hr1 Hr2] Hsrc Hoff Hn Hmax. pose proof R as [].
  eapply wp_mono; [|eapply (writei_spec d me st sz (sb (files s)) fr_layout0 V i off n l fr_holes0 Hoff Hmax
    ip h L s eq_refl fr_used0 fr_apart0 fr_inode0 ltac:(lia) fr_one0 src Hsrc ltac:(lia) ltac:(lia)
    (lo_nodup _ _ _ (o_fits _ _ _ _ _ _ _ _ fr_opened0)) _ eq_refl fr_outside0 fr_iblock0); (done || lia)].
  intros tot s' (V' & i' & L' & []). exists V', i', L'. pose proof wp_inode as [a Ei].
  pose proof (iquiet_sb _ _ _ _ _ _ _ wp_quiet) as Esb.
  assert (isize i' = Z.max (isize i) (off + tot)) as Es by (by rewrite Ei).
  assert (inum i' = inum i) as Enum by (by rewrite Ei).
  assert (∀ m, in_file V' i' m → m ∉ h) as Hap.
  { intros m Hm. destruct (wp_new m Hm) as [?|[Hm1 Hm2]]; [by apply fr_apart0|]. intros Hin.
    destruct (fr_used0 m Hin) as [_ Hu]. rewrite Hu in Hm2 by done. done. }
  assert (fcontents V' i' = overwrite (fcontents V i) (Z.to_nat off) (take (Z.to_nat tot) l)) as Ec.
  { apply fcontents_written; [done|lia|done|done]. }
  split; [|split_and!; (done || lia)]. split; rewrite ?Esb, ?Enum; try done.
  - by eapply iquiet_at.
  - intros m Hm. destruct (fr_used0 m Hm) as [H1 H2]. split; [done|]. intros Hm'. by apply wp_used, H2.
  - destruct fr_outside0 as (H1 & H2 & H3). split_and!; [done| |].
    + intros Hm. by apply wp_used, H2.
    + intros Hin. destruct (wp_new _ Hin) as [|[Hm1 Hm2]]; [done|]. rewrite H2 in Hm2 by done. done.
  - destruct fr_iblock0 as (H1 & H2 & H3). split_and!; [done|done|]. rewrite wp_dinode, length_put_dinode; [done|rewrite H3; apply iblock_small|].
    apply (fo_len _ _ _ _ _ _ wp_ok).
Qed.

(** The inode after a write, as its block stores it. *)
Lemma ranges_written d st sz sb0 V i a n :
  layout st sz sb0 → file_ok d st sz sb0 V (i <| iaddrs := a |> <| isize := n |>) →
  inode_ranges i → 0 ≤ n < 2^32 → inode_ranges (i <| iaddrs := a |> <| isize := n |>).
Proof.
  intros Hly F [R1 R2 R3 R4 _ _ _] Hn. pose proof (ly_size _ _ _ Hly) as Hsize.
  pose proof (fo_len _ _ _ _ _ _ F) as Hlen. split; try done. apply Forall_lookup. intros k x Hx.
  set (i' := i <| iaddrs := a |> <| isize := n |>) in *.
  assert (k < 13)%nat as Hk by (rewrite <- Hlen; by eapply lookup_lt_Some).
  assert (addr i' (Z.of_nat k) = x) as Ex by (unfold addr; by rewrite Nat2Z.id, Hx).
  destruct (decide (x = 0)) as [->|Hx0]; [lia|].
  assert (data_block st sz sb0 V x) as [Hr _ _ _ _]; [|lia]. rewrite <- Ex.
  destruct (decide (Z.of_nat k < NDIRECT)) as [Hd|Hd].
  - assert (faddr V i' (Z.of_nat k) = addr i' (Z.of_nat k)) as Ef by (unfold faddr; by rewrite decide_True).
    rewrite <- Ef. apply (fo_data _ _ _ _ _ _ F); [|congruence].
    unfold MAXFILE, NDIRECT, NINDIRECT, BSIZE in *. change (1024 / 4) with 256. lia.
  - replace (Z.of_nat k) with NDIRECT in * by (unfold NDIRECT in *; lia).
    apply (fo_ind _ _ _ _ _ _ F). congruence.
Qed.

(** C13: [writei] writes: the file's contents are the old ones with the first
    [tot] bytes of the source at offset [off], longer if they reach beyond the
    end; [tot] is less than [n] only when the disk is full; the block of the
    inode has the new size and addresses in the 64 bytes of this inode, and
    the bytes of the other inodes there are unchanged; every other block in
    use that is not a bitmap block or a block of the file keeps its contents,
    and nothing reaches the disk before the commit.  The source is a buffer of
    the kernel or user memory that holds the bytes [l]. *)
Theorem writei_correct d me st sz V h L s ip i src l off n :
  let ib := IBLOCK (inum i) (sb (files s)) in
  file_ready d me st sz V h L s ip i → write_room sz h L off n → supplies src l n s → inode_ranges i →
  0 ≤ off ≤ isize i → 0 ≤ n ≤ Z.of_nat (length l) → off + n ≤ MAXFILE * BSIZE →
  wp (writei ip src off n) (λ tot s', ∃ V' i' L',
    file_ready d me st sz V' h L' s' ip i' ∧ iquiet d me ip i' h s s' ∧
    fcontents V' i' = overwrite (fcontents V i) (Z.to_nat off) (take (Z.to_nat tot) l) ∧
    0 ≤ tot ≤ n ∧ (tot < n → ∀ b, 0 ≤ b < sb_size (sb (files s)) → used (sb (files s)) V' b = true) ∧
    (∀ j, get_dinode (V' ib) (dinode_off (inum i)) j = load_inode i' j) ∧
    (∀ o k, (o + k ≤ dinode_off (inum i) ∨ dinode_off (inum i) + 64 ≤ o)%nat →
       sub_bytes (V' ib) o k = sub_bytes (V ib) o k) ∧
    (∀ m, outside (sb (files s)) V i m → m ≠ ib → V' m = V m)) s.
Proof.
  intros ib R Hroom Hsrc Hrg Hoff Hn Hmax. eapply wp_mono; [|by eapply writei_ready].
  intros tot s' (V' & i' & L' & R' & Q' & Ec & Ht & Hfull & Hframe & Ed & [a Ei] & Es & _). exists V', i', L'.
  pose proof (fr_iblock _ _ _ _ _ _ _ _ _ _ R) as (_ & _ & Hlen).
  assert (inode_ranges i') as Hrg'.
  { pose proof (fr_ok _ _ _ _ _ _ _ _ _ _ R') as F. pose proof (fr_layout _ _ _ _ _ _ _ _ _ _ R') as Hly.
    change (MAXFILE * BSIZE) with 274432 in Hmax. pose proof (ir_size _ Hrg).
    rewrite Ei in F |- *. eapply ranges_written; [exact Hly|exact F|done|lia]. }
  destruct (put_dinode_spec (dinode_off (inum i)) i' (V ib)) as (_ & P2 & P3 & _);
    [unfold ib; rewrite Hlen; apply iblock_small|done|].
  fold ib in Ed. split_and!; [exact R'|exact Q'|exact Ec|lia|lia|exact Hfull| | |exact Hframe].
  - intros j. rewrite Ed. apply P2.
  - intros o k Ho. rewrite Ed. by apply P3.
Qed.

(** C12: What was written is read back: a write of [n] bytes followed by a read of
    the same range returns exactly the bytes written, if the disk had room. *)
Theorem write_read_roundtrip d me st sz V h L s ip i l off :
  let n := Z.of_nat (length l) in
  file_ready d me st sz V h L s ip i → write_room sz h L off n →
  0 ≤ off ≤ isize i → off + n ≤ MAXFILE * BSIZE →
  wp (let* tot := writei ip (SBuf l) off n in
      let* (r, bs) := readi ip DBuf off n in
      ret (tot, r, bs)) (λ '(tot, r, bs) s', 0 ≤ tot ≤ n ∧ (tot = n → r = n ∧ bs = l)) s.
Proof.
  intros n R Hroom Hoff Hmax. pose proof Hmax as Hmax'. change (MAXFILE * BSIZE) with 274432 in Hmax'.
  wp_step. eapply wp_mono; [|eapply (writei_ready d me st sz V h L s ip i (SBuf l) l off n); (done || lia)].
  intros tot s1 (V' & i' & L' & R' & Q' & Ec & Ht & _ & _ & _ & _ & Es & Hl').
  wp_step. eapply wp_mono; [|eapply (readi_ready d me st sz V' h L' s1 ip i' off n); [done|destruct Hroom; lia|lia|lia]].
  intros [r bs] s2 (_ & _ & Hr & Hbs). wp_step. split; [done|]. intros ->. rewrite decide_True in Hbs by lia.
  assert (bs = l) as ->; [|done]. rewrite Hbs, Ec. unfold n. rewrite Nat2Z.id, firstn_all.
  pose proof (length_fcontents V i). unfold sub_bytes, overwrite.
  rewrite drop_app_length' by (rewrite length_take; lia). by rewrite take_app_length.
Qed.

(** The errors of [writei]: a range that starts beyond the end of the file,
    wraps around or ends beyond the largest file is refused with -1, and
    nothing changes. *)
Theorem writei_rejects s ip i src off n :
  inode_at s ip i → 0 ≤ off < 2^32 → 0 ≤ n < 2^32 →
  isize i < off ∨ MAXFILE * BSIZE < off + n → writei ip src off n s = Ret (-1, s).
Proof.
  intros Hi Hoff Hn Hbad. unfold writei.
  assert (geti ip s = Ret (i, s)) as E.
  { destruct Hi as [Hip Hl]. unfold geti. destruct (Z.eqb_spec ip 0); [lia|]. by rewrite Hl. }
  rewrite (bind_Ret _ _ _ _ _ E). destruct ((isize i <? off) || (u32 (off + n) <? off)) eqn:E1; [done|].
  apply orb_false_iff in E1 as [H1%Z.ltb_ge H2%Z.ltb_ge].
  assert (off + n < 2^32) as Hw by (unfold u32 in H2; dlia). rewrite u32_small by lia.
  test_true (MAXFILE * BSIZE <? off + n). done.
Qed.
