(* ===== verification/FsDemo.v ===== *)
(** * A concrete file system

    A disk of 100 blocks with one file, inode 1, whose five bytes are in block
    35, booted and inside a transaction; and instances of the theorems on the
    file system there. *)

From Stdlib Require Import ZArith Lia.
From stdpp Require Import base numbers list gmap functions strings tactics.
From S2P Require Import Prelude Riscv Mem Bytes Kalloc Vm Proc ProcRules Locks Bio BioList BioSpec BioProps Log LogSpec LogCrash LogProps LogDemo Ftypes Fs FsRules FsAlloc FsFile FsWrite FsInode FsContents File FsProps.

Local Open Scope Z_scope.

(** The log in blocks 2 to 32, the inodes in 33, the bitmap in 34. *)
Definition demo_sb : superblock := Superblock FSMAGIC 100 64 16 31 2 33 34.
Definition demo_inode : inode :=
  Inode 1 1 1 (Sleeplock.SleepLock 1 5) 1 T_FILE 0 0 1 5 (35 :: replicate 12 0).
Definition hello : list Z := [104; 101; 108; 108; 111].
Definition demo_bits : list Z := replicate 4 255 ++ [15] ++ replicate 1019 0.
Definition demo_disk : gmap Z block_data :=
  <[33 := put_dinode 64 demo_inode zero_block]>
    (<[34 := demo_bits]>
       (<[35 := hello ++ replicate 1019 0]> ∅)).

Definition demo_kernel (l : lst) (t : list inode) : kernel :=
  Sys (KSt ∅ 0 ∅) [proc0 <| pid := 5 |> <| state := RUNNING |>] (Some 0%nat) [] None 6 0
    (Fsys l demo_sb t (replicate NFILE file0) ∅ (Console (replicate 128 0) 0 0 0)
       (Uart (replicate 32 0) 0 0 true [] []) 0).
Definition demo_table : list inode := demo_inode :: replicate 49 inode0.

(** The log in which one more call is in progress. *)
Definition one_more (l : lst) : lst := Lst (bcache l) ((lg l) <| outstanding := outstanding (lg l) + 1 |>).

(** A disk without a committed transaction booted, before and after begin_op. *)
Lemma disk_idle D t : disk_block D 2 = zero_block → ∃ l V,
  committing (lg l) = 0 ∧ outstanding (lg l) = 0 ∧ lh_n (lg l) = 0 ∧
  opened 1 5 2 31 V [] [] (demo_kernel (one_more l) t) ∧ ∀ n, n ≠ 2 → V n = disk_block D n.
Proof.
  intros H2. assert (dec_head (disk_block D 2) = []) as Hd by (rewrite H2; by vm_compute).
  assert (good_header 2 31 (disk_block D)) as Hh.
  { split; [rewrite Hd|by rewrite H2; vm_compute|rewrite H2; by vm_compute].
    split; [constructor|apply NoDup_nil_2|simpl; lia|simpl; lia]. }
  destruct (proj1 (wp_returns _ _ _) (boot_log_spec 1 5 2 31 D demo_geometry ltac:(lia) Hh))
    as ([] & s0 & _ & W0 & G0 & O0 & K0 & E & l0 & C0).
  exists s0, E. split; [done|]. split; [done|]. split; [apply (g_n _ _ _ _ _ G0)|]. split.
  - split; [by eexists _, _|destruct G0; by split| |by exists l0|simpl; rewrite O0; lia].
    split; [constructor|apply NoDup_nil_2|simpl; lia|simpl; lia].
  - intros n Hn. rewrite <- (c_clean _ _ _ _ _ _ _ C0) by apply not_elem_of_nil.
    destruct W0 as [W0 _]. unfold on_disk in W0. rewrite W0, Hd.
    change (recovery_writes 2 (disk_block D) []) with [(2, enc_head (disk_block D 2) [])].
    simpl. by rewrite fn_lookup_insert_ne.
Qed.
Lemma disk_booted D t : disk_block D 2 = zero_block → ∃ l V, opened 1 5 2 31 V [] [] (demo_kernel l t) ∧
  ∀ n, n ≠ 2 → V n = disk_block D n.
Proof. intros (l & V & _ & _ & _ & O & HV)%(λ H, disk_idle D t H). by exists (one_more l), V. Qed.
Lemma demo_booted : ∃ l V, opened 1 5 2 31 V [] [] (demo_kernel l demo_table) ∧
  ∀ n, n ≠ 2 → V n = disk_block demo_disk n.
Proof. by apply disk_booted. Qed.

(** ** The layout *)

Lemma demo_layout : layout 2 31 demo_sb.
Proof.
  split; simpl; [lia|lia|]. intros b Hb. unfold BPB, BSIZE. rewrite Z.div_small by lia.
  unfold home. lia.
Qed.
Lemma demo_bmap n : is_bmap demo_sb n → n = 34.
Proof. apply (is_bmap_one 2 31 demo_sb demo_layout). by vm_compute. Qed.

(** *** Blocks 0 to 35 in use, block 35 the only one of a file *)

Section one_block.
Context (V : contents).
Hypothesis H34 : V 34 = demo_bits.

Lemma bits_used b : 0 ≤ b < 100 → used demo_sb V b = (b <? 36).
Proof using H34.
  intros Hb. unfold used. rewrite (BBLOCK_eq 2 31 demo_sb demo_layout) by done.
  unfold BPB, BSIZE. rewrite Z.div_small, Z.mod_small by lia. change (0 + bmapstart demo_sb) with 34. rewrite H34.
  assert (forallb (λ b, eqb (negb (bit_clear demo_bits b)) (b <? 36)) (seqZ 0 100) = true)
    as H by (by vm_compute).
  rewrite forallb_forall in H. apply eqb_prop, H. apply list_elem_of_In, elem_of_seqZ. lia.
Qed.
Lemma bits_bitmap : bitmap 2 31 demo_sb V.
Proof using H34.
  split.
  - intros n ->%demo_bmap. rewrite H34. by vm_compute.
  - intros b Hb. rewrite bits_used by done. intros Hu%Z.ltb_ge. simpl in Hb. unfold home. split_and!; [lia|lia|lia|lia|].
    intros ?%demo_bmap. lia.
Qed.
Lemma demo_addr k : 0 ≤ k → addr demo_inode k = if decide (k = 0) then 35 else 0.
Proof.
  intros Hk. unfold addr. case_decide as E; [by rewrite E|].
  destruct (Z.to_nat k) as [|m] eqn:Em; [lia|].
  change (iaddrs demo_inode !! S m) with (replicate 12 0 !! m).
  destruct (decide (m < 12)%nat); [by rewrite lookup_replicate_2|].
  rewrite lookup_ge_None_2; [done|]. rewrite length_replicate. lia.
Qed.
Lemma demo_faddr bn : 0 ≤ bn → faddr V demo_inode bn = if decide (bn = 0) then 35 else 0.
Proof.
  intros Hbn. unfold faddr. rewrite !demo_addr by (done || lia). unfold NDIRECT.
  repeat case_decide; (done || lia).
Qed.
Lemma demo_in_file n : in_file V demo_inode n → n = 35.
Proof.
  intros [Hn [->|(bn & Hbn & ->)]].
  - by rewrite demo_addr in Hn.
  - rewrite demo_faddr in * by lia. by case_decide.
Qed.
Hypothesis H35 : length (V 35) = 1024%nat.
Lemma demo_block : data_block 2 31 demo_sb V 35.
Proof using H34 H35.
  split; [simpl; lia|by rewrite bits_used|by intros ?%demo_bmap|unfold home; lia|done].
Qed.
Lemma one_block_file : file_ok 1 2 31 demo_sb V demo_inode.
Proof using H34 H35.
  split; try done.
  - intros bn Hbn. rewrite demo_faddr by lia. case_decide; [intros _; apply demo_block|done].
  - intros b1 b2 H1 H2. rewrite !demo_faddr by lia. repeat case_decide; lia.
Qed.
End one_block.

Section demo.
Context (V : contents).
Hypothesis HV : ∀ n, n ≠ 2 → V n = disk_block demo_disk n.

Lemma demo_34 : V 34 = demo_bits.
Proof using HV. by rewrite HV. Qed.
Lemma demo_used b : 0 ≤ b < 100 → used demo_sb V b = (b <? 36).
Proof using HV. apply bits_used, demo_34. Qed.
Lemma demo_bitmap : bitmap 2 31 demo_sb V.
Proof using HV. apply bits_bitmap, demo_34. Qed.
Lemma demo_file : file_ok 1 2 31 demo_sb V demo_inode.
Proof using HV. apply one_block_file; [apply demo_34|]. rewrite HV by done. by vm_compute. Qed.

Lemma demo_ready l :
  opened 1 5 2 31 V [] [] (demo_kernel l demo_table) →
  file_ready 1 5 2 31 V [] [] (demo_kernel l demo_table) 1 demo_inode.
Proof using HV.
  intros O. split; try done.
  - apply demo_layout.
  - apply demo_file.
  - split; [done|]. intros bn Hbn Hs. simpl in Hs. unfold BSIZE in Hs. rewrite demo_faddr by done.
    rewrite decide_True by lia. done.
  - apply demo_bitmap.
  - intros n _. apply not_elem_of_nil.
  - intros n Hn. by apply elem_of_nil in Hn.
  - change (IBLOCK (inum demo_inode) (sb (files (demo_kernel l demo_table)))) with 33. split_and!.
    + intros H%demo_bmap. done.
    + intros _. by rewrite demo_used.
    + intros H%demo_in_file. done.
  - change (IBLOCK (inum demo_inode) (sb (files (demo_kernel l demo_table)))) with 33.
    split; [unfold home; lia|]. split; [apply not_elem_of_nil|]. rewrite HV by done. by vm_compute.
Qed.
Lemma demo_contents : fcontents V demo_inode = hello.
Proof using HV.
  unfold fcontents, fslice. apply list_eq. intros k. rewrite list_lookup_fmap. simpl.
  destruct (decide (k < 5)%nat) as [Hk|Hk].
  - rewrite lookup_seqZ_lt by (simpl; lia). simpl. unfold fbyte, BSIZE. rewrite Z.div_small, Z.mod_small by lia.
    rewrite demo_faddr, decide_True, HV by done. rewrite Z.add_0_l, Nat2Z.id.
    do 5 (destruct k as [|k]; [done|]). lia.
  - rewrite lookup_seqZ_ge by (simpl; lia). simpl. symmetry. apply lookup_ge_None. simpl. lia.
Qed.
Lemma demo_holds : holds_used demo_sb V [].
Proof. intros n Hn. by apply elem_of_nil in Hn. Qed.
End demo.

(** ** Instances *)

Lemma balloc_correct_witness : ∃ l V, opened 1 5 2 31 V [] [] (demo_kernel l demo_table) ∧
  wp (balloc 1) (λ r _, 0 ≤ r < 100 ∧ (r = 0 ∨ used demo_sb V r = false)) (demo_kernel l demo_table).
Proof.
  destruct demo_booted as (l & V & O & HV). exists l, V. split; [exact O|].
  eapply wp_mono; [|apply (balloc_correct 1 5 2 31 V [] [] (demo_kernel l demo_table) demo_layout
    (demo_bitmap V HV) (demo_holds V) O); [unfold room; simpl; lia|simpl; lia]].
  intros r s' (V' & L' & _ & _ & _ & _ & [(-> & _)|(Hr & Hu & _)]); [split; [lia|by left]|].
  simpl in Hr. split; [lia|by right].
Defined.

Lemma balloc_bfree_witness : ∃ l V, opened 1 5 2 31 V [] [] (demo_kernel l demo_table) ∧
  wp (let* b := balloc 1 in bfree 1 b ;;; ret b) (λ b s', b ≠ 0 ∧ ∃ V' L', opened 1 5 2 31 V' [] L' s' ∧
    (∀ n, is_bmap demo_sb n → V' n = V n) ∧ bfree 1 b s' = Panic "freeing free block") (demo_kernel l demo_table).
Proof.
  destruct demo_booted as (l & V & O & HV). exists l, V. split; [exact O|].
  apply (balloc_bfree 1 5 2 31 V [] [] (demo_kernel l demo_table) demo_layout
    (demo_bitmap V HV) (demo_holds V) O); [| |unfold room; simpl; lia|simpl; lia].
  - intros n ->%demo_bmap. rewrite HV by done. apply (bool_decide_unpack _). by vm_compute.
  - exists 36. split; [simpl; lia|]. by rewrite demo_used.
Defined.

Lemma readi_correct_witness : ∃ l V, file_ready 1 5 2 31 V [] [] (demo_kernel l demo_table) 1 demo_inode ∧
  wp (readi 1 DBuf 1 100) (λ '(r, bs) s', r = 4 ∧ bs = [101; 108; 108; 111]) (demo_kernel l demo_table).
Proof.
  destruct demo_booted as (l & V & O & HV). exists l, V. pose proof (demo_ready V HV l O) as R.
  split; [exact R|].
  eapply wp_mono; [|apply (readi_correct 1 5 2 31 V [] [] (demo_kernel l demo_table) 1 demo_inode 1 100 R);
    [simpl; lia|lia|lia]].
  intros [r bs] s' (_ & _ & -> & ->). rewrite decide_True by lia.
  by rewrite (demo_contents V HV).
Defined.

Lemma writei_correct_witness : ∃ l V, file_ready 1 5 2 31 V [] [] (demo_kernel l demo_table) 1 demo_inode ∧
  wp (writei 1 (SBuf [1; 2; 3]) 4 3) (λ tot s', ∃ V' i', tot = 3 → fcontents V' i' = [104; 101; 108; 108; 1; 2; 3])
    (demo_kernel l demo_table).
Proof.
  destruct demo_booted as (l & V & O & HV). exists l, V. pose proof (demo_ready V HV l O) as R.
  split; [exact R|].
  eapply wp_mono; [|apply (writei_correct 1 5 2 31 V [] [] (demo_kernel l demo_table) 1 demo_inode (SBuf [1; 2; 3]) [1; 2; 3] 4 3 R);
    [by vm_compute|apply supplies_buf|split; simpl; try lia; [done|]; repeat constructor; lia|simpl; lia|simpl; lia|by vm_compute]].
  intros tot s' (V' & i' & L' & _ & _ & E & _). exists V', i'. intros ->. rewrite E.
  by rewrite (demo_contents V HV).
Defined.

Lemma write_read_roundtrip_witness : ∃ l V, file_ready 1 5 2 31 V [] [] (demo_kernel l demo_table) 1 demo_inode ∧
  wp (let* tot := writei 1 (SBuf [1; 2; 3]) 4 3 in
      let* (r, bs) := readi 1 DBuf 4 3 in
      ret (tot, r, bs)) (λ '(tot, r, bs) s', 0 ≤ tot ≤ 3 ∧ (tot = 3 → r = 3 ∧ bs = [1; 2; 3]))
    (demo_kernel l demo_table).
Proof.
  destruct demo_booted as (l & V & O & HV). exists l, V. pose proof (demo_ready V HV l O) as R.
  split; [exact R|].
  apply (write_read_roundtrip 1 5 2 31 V [] [] (demo_kernel l demo_table) 1 demo_inode [1; 2; 3] 4 R);
    [by vm_compute|simpl; lia|by vm_compute].
Defined.

Lemma writei_rejects_witness :
  writei 1 (SBuf [1]) 6 1 (demo_kernel (Lst (reboot ∅) log0) demo_table) =
    Ret (-1, demo_kernel (Lst (reboot ∅) log0) demo_table).
Proof.
  apply (writei_rejects (demo_kernel (Lst (reboot ∅) log0) demo_table) 1 demo_inode (SBuf [1]) 6 1);
    [by split|lia|lia|left; simpl; lia].
Defined.

(** ** The inode table *)

Lemma demo_table_cases j x : demo_table !! j = Some x → j = 0%nat ∧ x = demo_inode ∨ x = inode0.
Proof.
  destruct j as [|j]; intros Hx; [left; by injection Hx as <-|right].
  change (replicate 49 inode0 !! j = Some x) in Hx. by apply lookup_replicate_1 in Hx as [-> _].
Qed.
Lemma demo_table_ok : itable_ok demo_table.
Proof.
  split.
  - done.
  - intros j k x y dev inum Hx Hy [Rx _] [Ry _].
    destruct (demo_table_cases j x Hx) as [[-> ->]| ->], (demo_table_cases k y Hy) as [[-> ->]| ->]; done.
  - intros j x Hx. by destruct (demo_table_cases j x Hx) as [[-> ->]| ->].
  - intros j x Hx. by destruct (demo_table_cases j x Hx) as [[-> ->]| ->].
Qed.

Lemma iget_unique_witness :
  let s := demo_kernel (Lst (reboot ∅) log0) demo_table in
  match iget 1 2 s with
  | Ret (ip, s') => ip = 2 ∧ itable_ok (itable (files s'))
  | _ => False
  end.
Proof.
  intros s. assert (∀ j x, itable (files s) !! j = Some x → iref x < 2^31 - 1) as Hmax.
  { intros j x Hx. destruct (demo_table_cases j x Hx) as [[-> ->]| ->]; by vm_compute. }
  pose proof (iget_unique s 1 2 demo_table_ok Hmax) as H.
  assert (∃ s', iget 1 2 s = Ret (2, s')) as [s' E] by (eexists; reflexivity).
  rewrite E in H |- *. split; [done|]. destruct H as (j & x & y & _ & _ & _ & _ & H & _). exact H.
Defined.

Lemma iupdate_persists_witness : ∃ l V, opened 1 5 2 31 V [] [] (demo_kernel l demo_table) ∧
  wp (save_and_reload 1 1 1) (λ ip' s', ∃ i', inode_at s' ip' i' ∧ isize i' = 5 ∧ addr i' 0 = 35)
    (demo_kernel l demo_table).
Proof.
  destruct demo_booted as (l & V & O & HV). exists l, V. split; [exact O|].
  pose proof (demo_ready V HV l O) as R.
  eapply wp_mono; [|apply (iupdate_persists 1 5 2 31 V [] [] (demo_kernel l demo_table) 1 demo_inode O);
    try done; [apply demo_table_ok| |apply (fr_iblock _ _ _ _ _ _ _ _ _ _ R)|unfold room; simpl; lia..]].
  - intros ip' s' (i' & V' & Hi & _ & _ & E & _). exists i'. split; [exact Hi|]. by rewrite <- E.
  - split; simpl; try lia; [done|]. repeat constructor; lia.
Defined.
