(* ===== verification/FileProps.v ===== *)
(** * Writing a file from user memory

    One piece of [filewrite]: the transaction it opens, the bytes it takes from
    the memory of the process, and the log space it uses. *)

From Stdlib Require Import ZArith Lia.
From stdpp Require Import base numbers list gmap functions strings tactics.
From S2P Require Import Prelude Riscv Mem Bytes Kalloc Vm VmTree VmOps VmView VmUser Proc ProcRules Locks Bio BioList BioSpec BioProps Log LogSpec LogCrash LogProps Ftypes Fs FsRules FsAlloc FsFile FsWrite FsInode FsContents File FsProps.

Local Open Scope Z_scope.

(** ** User memory as a source *)

(** The current process has the bytes [l] at [addr] in its address space. *)
Definition user_holds (lo : Z) (s : kernel) (addr : Z) (l : list Z) : Prop :=
  ∃ j p fl t, cur s = Some j ∧ procs s !! j = Some p ∧
    kinv lo (kmem s) fl ∧ pt_repr lo (kmem s) (pagetable p) t ∧ user_ok lo t ∧
    0 ≤ addr ∧ addr + Z.of_nat (length l) + PGSIZE < 2^64 ∧
    ∀ k b, l !! k = Some b → uload (mem (kmem s)) t (addr + Z.of_nat k) = Some b.

Lemma user_holds_same lo s s' addr l :
  kmem s' = kmem s → procs s' = procs s → cur s' = cur s → user_holds lo s addr l → user_holds lo s' addr l.
Proof. intros E1 E2 E3 H. unfold user_holds. by rewrite E1, E2, E3. Qed.

Lemma user_supplies lo s addr l : user_holds lo s addr l → supplies (SAddr true addr) l (Z.of_nat (length l)) s.
Proof.
  intros (j & p & fl & t & Hc & Hp & K & R & U & Ha & Hmax & Hl) s1 tot m E1 E2 E3 Ht Hm Htm.
  rewrite <- E1 in *. rewrite <- E2 in Hp. rewrite <- E3 in Hc. clear E1 E2 E3 s.
  cbn [copy_from]. unfold either_copyin. erewrite bind_Ret by (unfold myproc; by rewrite Hc).
  erewrite bind_Ret by (unfold getp; by rewrite Hp). rewrite u64_small by (unfold PGSIZE in *; lia).
  destruct (proj1 (wp_returns _ _ _) (copyin_correct lo (pagetable p) (kmem s1) fl t (addr + tot) m K R U
    ltac:(lia) Hm ltac:(lia))) as ([r dst] & k & E & -> & Hcase).
  unfold kern, lift. rewrite E. destruct Hcase as [(-> & Hlen & Hdst)|(_ & i & Hi & Hn)].
  - assert (dst = sub_bytes l (Z.to_nat tot) (Z.to_nat m)) as ->; [|by destruct s1].
    apply list_eq. intros i. unfold sub_bytes. destruct (decide (i < Z.to_nat m)%nat) as [Hi|Hi].
    + rewrite lookup_take_lt, lookup_drop by done.
      destruct (lookup_lt_is_Some_2 dst i) as [b Hb]; [lia|].
      destruct (lookup_lt_is_Some_2 l (Z.to_nat tot + i)) as [b' Hb']; [lia|]. rewrite Hb, Hb'.
      pose proof (Hdst _ _ Hb) as H1. pose proof (Hl _ _ Hb') as H2.
      replace (addr + Z.of_nat (Z.to_nat tot + i)) with (addr + tot + Z.of_nat i) in H2 by lia. congruence.
    + rewrite lookup_take_ge by lia. apply lookup_ge_None. lia.
  - destruct (lookup_lt_is_Some_2 l (Z.to_nat (tot + i))) as [b Hb]; [lia|]. apply Hl in Hb.
    replace (addr + Z.of_nat (Z.to_nat (tot + i))) with (addr + tot + i) in Hb by lia. congruence.
Qed.

(** ** Opening, locking, writing *)

(** The file behind the pointer [f]. *)
Definition file_at (s : kernel) (f : Z) (y : file) : Prop := f ≠ 0 ∧ ftable (files s) !! Z.to_nat (f - 1) = Some y.

Lemma wp_getf s f y (Q : file → kernel → Prop) : file_at s f y → Q y s → wp (getf f) Q s.
Proof. intros [Hf Hy] HQ. unfold wp, getf. by rewrite (proj2 (Z.eqb_neq f 0) Hf), Hy. Qed.
Lemma wp_updf s f y g (Q : unit → kernel → Prop) :
  file_at s f y → Q tt (s <| files ::= (λ x, x <| ftable ::= <[Z.to_nat (f - 1) := g y]> |>) |>) → wp (updf f g) Q s.
Proof. intros Hy HQ. unfold updf. wp_step. eapply wp_getf; [done|]. exact HQ. Qed.

Lemma ready_lock d me st sz V h L s s' ip i l :
  file_ready d me st sz V h L s ip i → opened d me st sz V h L s' → iquiet d me ip (set_lock l i) h s s' →
  file_ready d me st sz V h L s' ip (set_lock l i).
Proof.
  intros R O Q. pose proof (iquiet_sb _ _ _ _ _ _ _ Q) as E. pose proof (fr_ok _ _ _ _ _ _ _ _ _ _ R) as F.
  destruct R. split; rewrite ?E; try done; [by eapply iquiet_at|]. destruct F. by split.
Qed.

(** [if(r > 0) f->off += r] *)
Definition advance (f tot : Z) : M kernel unit :=
  if 0 <? tot then updf f (λ x, x <| foff := u32 (foff x + tot) |>) else ret tt.
Definition advanced (y : file) (tot : Z) : file := if 0 <? tot then y <| foff := foff y + tot |> else y.

Lemma wp_advance d me st sz V h L s ip i f y tot (Q : unit → kernel → Prop) :
  opened d me st sz V h L s → inode_at s ip i → file_at s f y → 0 ≤ foff y → 0 ≤ tot → foff y + tot < 2^32 →
  (∀ s', logst s' = logst s → opened d me st sz V h L s' → inode_at s' ip i → file_at s' f (advanced y tot) → Q tt s') →
  wp (advance f tot) Q s.
Proof.
  intros O Hi Hf H0 Ht Hmax HQ. unfold advance, advanced in *. destruct (0 <? tot); [|wp_step; by apply HQ].
  eapply wp_updf; [exact Hf|]. apply HQ; [done|by apply opened_files|done|]. destruct Hf as [Hf0 Hf]. split; [done|]. cbn.
  rewrite list_lookup_insert_eq by (by eapply lookup_lt_Some). do 2 f_equal. by rewrite u32_small by lia.
Qed.

(** begin_op admits a call only when its reservation fits. *)
Lemma kbegin_op_room d st sz s0 s L :
  kbegin_op s0 = Ret (tt, s) → 0 ≤ outstanding (lg (logst s0)) → logging d st sz L (lg (logst s)) →
  Z.of_nat (length L) + MAXOPBLOCKS ≤ LOGSIZE ∧ lh_n (lg (logst s0)) = Z.of_nat (length L).
Proof.
  intros E H0 G. unfold kbegin_op, on_log, lift in E.
  destruct (Log.begin_op (flog (files s0))) as [[[] l1]| | | |] eqn:E1; try done. injection E as <-.
  unfold Log.begin_op in E1. unfold bind in E1. destruct (begin_try (flog (files s0))) as [[[] l2]| | | |] eqn:E2; try done.
  injection E1 as <-. apply begin_try_lg in E2 as (H1 & _ & H2). pose proof (g_n _ _ _ _ _ G) as Hn.
  change (lh_n (lg l2) = Z.of_nat (length L)) in Hn. unfold logst in *. rewrite <- Hn, H2. split; [|done].
  unfold MAXOPBLOCKS in *. lia.
Qed.

(** C20: The reservation of begin_op covers a piece of [filewrite]: from any
    state in which begin_op lets the call in, on a log of [LOGSIZE] blocks or
    more (its header included), the whole transaction of a piece of at most
    [write_max] bytes, taken from the memory of the process, runs without a
    panic and adds at most [MAXOPBLOCKS] blocks to the log; the file then has
    the bytes that were written in place, and the offset of the open file
    has moved behind them. *)
Theorem write_fits_reservation d me st sz V L s0 s ip i f y lo addr l :
  let n := Z.of_nat (length l) in
  kbegin_op s0 = Ret (tt, s) → 0 ≤ outstanding (lg (logst s0)) → LOGSIZE ≤ sz →
  file_ready d me st sz V [] L s ip i → ivalid i ≠ 0 → 1 ≤ iref i → Sleeplock.locked (ilk i) = 0 →
  file_at s f y → 0 ≤ foff y ≤ isize i → foff y + n ≤ MAXFILE * BSIZE →
  user_holds lo s addr l → n ≤ write_max →
  wp (write_piece f ip addr n) (λ tot s',
    lh_n (lg (logst s')) ≤ lh_n (lg (logst s0)) + MAXOPBLOCKS ∧ lh_n (lg (logst s')) < sz ∧
    0 ≤ tot ≤ n ∧ file_at s' f (advanced y tot) ∧
    ∃ V' i' L', opened d me st sz V' [] L' s' ∧ inode_at s' ip i' ∧ Sleeplock.locked (ilk i') = 0 ∧
      fcontents V' i' = overwrite (fcontents V i) (Z.to_nat (foff y)) (take (Z.to_nat tot) l)) s0.
Proof.
  intros n E0 Hout Hsz R Hv Href Hlk Hf Hoff Hmax Hu Hw.
  pose proof (fr_opened _ _ _ _ _ _ _ _ _ _ R) as O.
  destruct (kbegin_op_room d st sz s0 s L E0 Hout (o_log _ _ _ _ _ _ _ _ O)) as [Hroom Hlh].
  unfold write_piece. wp_step. apply wp_returns. exists tt, s. split; [done|]. wp_step.
  unfold LOGSIZE, MAXOPBLOCKS in *. change (10 * 3) with 30 in *. change write_max with 3072 in Hw.
  assert (locked_inode me (sb (files s)) V i = set_lock (Sleeplock.SleepLock 1 me) i) as El.
  { unfold locked_inode. by rewrite (proj2 (Z.eqb_neq _ 0) Hv). }
  eapply wp_mono; [|eapply (ilock_spec d me st sz (sb (files s)) V [] L s ip i); try done].
  2: { apply R. } 2: { apply (fo_dev _ _ _ _ _ _ (fr_ok _ _ _ _ _ _ _ _ _ _ R)). }
  2: { apply not_elem_of_nil. } 2: { simpl. lia. }
  rewrite El. set (i2 := set_lock _ i). intros _ s2 (O2 & Q2). pose proof (ready_lock _ _ _ _ _ _ _ _ _ _ _ _ R O2 Q2) as R2.
  fold i2 in R2. pose proof (iq_only _ _ _ _ _ _ _ Q2) as E2.
  assert (file_at s2 f y) as Hf2 by (unfold file_at; rewrite E2; exact Hf).
  wp_step. eapply wp_getf; [exact Hf2|]. wp_step.
  assert (span (foff y) n ≤ 4) as Hspan by (unfold span, BSIZE; dlia).
  eapply wp_mono; [|eapply (writei_ready d me st sz V [] L s2 ip i2 (SAddr true addr) l (foff y) n R2); [|
    eapply user_supplies, (user_holds_same lo s); [by rewrite E2..|exact Hu]|exact Hoff|lia|done]].
  2: { unfold write_room. simpl. lia. }
  intros tot s3 (V' & i' & L' & R3 & Q3 & Ec & Ht & _ & _ & _ & [a Ei] & Es & Hl').
  pose proof (fr_opened _ _ _ _ _ _ _ _ _ _ R3) as O3. pose proof (iq_only _ _ _ _ _ _ _ Q3) as E3.
  assert (file_at s3 f y) as Hf3 by (unfold file_at; rewrite E3; exact Hf2).
  pose proof (fr_inode _ _ _ _ _ _ _ _ _ _ R3) as Hi3.
  change (MAXFILE * BSIZE) with 274432 in Hmax. wp_step.
  eapply (wp_advance d me st sz V' [] L' s3 ip i' f y tot); [done|done|done|lia|lia|lia|].
  intros s4 El4 O4 Hi4 Hf4. wp_step.
  eapply iunlock_spec; [exact O4|exact Hi4|rewrite Ei; exact Href|by rewrite Ei|]. wp_step.
  pose proof (g_n _ _ _ _ _ (o_log _ _ _ _ _ _ _ _ O3)) as En.
  change (logst (with_inode ip _ s4)) with (logst s4). rewrite El4. unfold logst in *. rewrite En, Hlh.
  split_and!; [lia|lia|lia|lia|exact Hf4|].
  exists V', (set_lock (Sleeplock.SleepLock 0 0) i'), L'. split_and!; [by apply opened_inode|by eapply inode_at_with|done|].
  exact Ec.
Qed.
