(* ===== verification/FileDemo.v ===== *)
(** * A concrete write from user memory

    The file system of FsDemo.v with the address space of VmDemo.v: a process
    writes 100 bytes of its first page at the end of the file. *)

From Stdlib Require Import ZArith Lia.
From stdpp Require Import base numbers list gmap functions strings tactics.
From S2P Require Import Prelude Riscv Mem Bytes Kalloc Vm VmTree VmOps VmView VmUser VmAlloc VmCopy VmCow VmDemo Proc ProcRules Locks Bio BioList BioSpec BioProps Log LogSpec LogCrash LogProps LogDemo Ftypes Fs FsRules FsAlloc FsFile FsWrite FsInode FsContents File FsProps FsDemo FileProps.

Local Open Scope Z_scope.

(** Inode 1 is open as file 1, at its end, and nobody holds its lock. *)
Definition free_inode : inode := set_lock (Sleeplock.SleepLock 0 0) demo_inode.
Definition open_file : file := file0 <| ftype := FD_INODE |> <| writable := 1 |> <| fip := 1 |> <| foff := 5 |>.
Definition write_kernel (l : lst) (k : kst) (root : Z) : kernel :=
  (demo_kernel l (free_inode :: replicate 49 inode0))
    <| kmem := k |> <| procs := [proc0 <| pid := 5 |> <| state := RUNNING |> <| pagetable := root |>] |>
    <| files ::= (λ f, f <| ftable ::= <[0%nat := open_file]> |>) |>.

Lemma write_begins l k root : committing (lg l) = 0 → outstanding (lg l) = 0 → lh_n (lg l) = 0 →
  kbegin_op (write_kernel l k root) = Ret (tt, write_kernel (one_more l) k root).
Proof.
  intros H1 H2 H3. unfold kbegin_op, on_log, lift.
  assert (Log.begin_op l = Ret (tt, one_more l)) as E.
  { destruct l as [b g]. destruct g. simpl in *. by subst. }
  change (flog (files (write_kernel l k root))) with l. by rewrite E.
Qed.

Lemma write_ready V l k root : (∀ n, n ≠ 2 → V n = disk_block demo_disk n) →
  opened 1 5 2 31 V [] [] (demo_kernel l demo_table) →
  file_ready 1 5 2 31 V [] [] (write_kernel l k root) 1 free_inode.
Proof.
  intros HV O. pose proof (demo_ready V HV l O) as R. pose proof (fr_ok _ _ _ _ _ _ _ _ _ _ R) as F.
  destruct R as [R1 R2 _ _ _ R6 R7 R8 R9 R10 R11]. split; try done.
  - destruct O as [_ O2 O3 O4 O5]. split; try done. by eexists 0%nat, _.
  - destruct F. by split.
Qed.

(** The first 100 bytes of the process. *)
Lemma user_page : ∃ k root b, length b = 100%nat ∧ ∀ l, user_holds lo (write_kernel l k root) 0 b.
Proof.
  destruct (proj1 (wp_returns _ _ _) grown_twelve)
    as ([[r1 r2] x] & s & _ & _ & fl & t1 & p & [K [R _ _] _ _ _ _ _] & Hu & _ & Hl).
  pose proof Hu as [L P F _ _].
  exists s, r1, ((λ i, load8 (mem s) (p + Z.of_nat i)) <$> seq 0 100). split; [done|]. intros l.
  exists 0%nat, (proc0 <| pid := 5 |> <| state := RUNNING |> <| pagetable := r1 |>), fl, t1.
  split_and!; [done|done|exact K|exact R| |lia|rewrite length_fmap, length_seq; unfold PGSIZE; lia|].
  - intros v e He _ _. destruct (decide (v = 0)) as [->|Hv]; [|by rewrite Hl in He].
    rewrite L in He. injection He as <-. by rewrite (mkpte_pa P F).
  - intros i b Hb. rewrite list_lookup_fmap in Hb. apply fmap_Some in Hb as (j & Hj & ->).
    apply lookup_seq in Hj as [-> Hi]. cbn [kmem set_field] in *.
    rewrite (uload_mkpte lo _ _ _ p (alloc_flags PTE_W) P F).
    + simpl. rewrite Z.mod_small by (unfold PGSIZE; lia). done.
    + unfold vpn. rewrite Z.div_small by (unfold PGSIZE; lia). exact L.
Qed.

Lemma write_fits_reservation_witness : ∃ s0 b, length b = 100%nat ∧ user_holds lo s0 0 b ∧
  wp (write_piece 1 1 0 100) (λ tot s',
    lh_n (lg (logst s')) ≤ lh_n (lg (logst s0)) + MAXOPBLOCKS ∧
    ∃ V' i', inode_at s' 1 i' ∧ fcontents V' i' = hello ++ take (Z.to_nat tot) b) s0.
Proof.
  destruct user_page as (k & root & b & Hb & Hu).
  destruct (disk_idle demo_disk demo_table eq_refl) as (l & V & H1 & H2 & H3 & O & HV).
  exists (write_kernel l k root), b. split; [exact Hb|]. split; [apply Hu|].
  pose proof (write_fits_reservation 1 5 2 31 V [] (write_kernel l k root) (write_kernel (one_more l) k root) 1 free_inode 1
    open_file lo 0 b (write_begins l k root H1 H2 H3)) as H. cbv zeta in H. rewrite Hb in H.
  eapply wp_mono; [|apply H; clear H; [change (0 ≤ outstanding (lg l)); lia|by vm_compute|by apply write_ready|done|
    by vm_compute|done|done|by vm_compute|by vm_compute|apply Hu|by vm_compute]].
  intros tot s' (A & _ & Ht & _ & V' & i' & L' & _ & B & _ & D). split; [exact A|]. exists V', i'. split; [exact B|].
  rewrite D. change (fcontents V free_inode) with (fcontents V demo_inode). rewrite (demo_contents V HV).
  unfold overwrite. change (Z.to_nat (foff open_file)) with 5%nat. rewrite take_ge by done.
  rewrite (drop_ge hello) by (simpl; lia). by rewrite app_nil_r.
Defined.
