(* ===== verification/PipeProps.v ===== *)
(** * Pipes as bounded queues (kernel/pipe.c)

    The ring buffer of a pipe represents a queue of at most [PIPESIZE] bytes;
    pipewrite appends to it, piperead takes from its front, and each wakes the
    other side up.  The counters wrap around at 2^32. *)

From Stdlib Require Import ZArith Lia.
From stdpp Require Import base numbers list gmap functions strings tactics.
From S2P Require Import Prelude Riscv Mem Bytes Kalloc Vm Proc ProcRules ProcProps Locks Bio Log Ftypes Fs File.

Local Open Scope Z_scope.

(** ** The ring buffer *)

Definition count (p : pipe) : Z := u32 (nwrite p - nread p).
Record pipe_ok (p : pipe) : Prop := {
  pi_len : length (pdata p) = 512%nat;
  pi_read : 0 ≤ nread p < 2^32;
  pi_write : 0 ≤ nwrite p < 2^32;
  pi_count : count p ≤ PIPESIZE;
}.
(** The byte at distance [k] from the read end. *)
Definition nth_byte (p : pipe) (k : Z) : Z := default 0 (pdata p !! Z.to_nat ((nread p + k) mod PIPESIZE)).
Definition queue (p : pipe) : list Z := nth_byte p <$> seqZ 0 (count p).

(** The assignments of pipewrite and piperead. *)
Definition put_byte (c : Z) (p : pipe) : pipe :=
  p <| pdata ::= <[Z.to_nat (nwrite p mod PIPESIZE) := c]> |> <| nwrite := u32 (nwrite p + 1) |>.
Definition take_byte (p : pipe) : pipe := p <| nread := u32 (nread p + 1) |>.

Lemma length_queue p : length (queue p) = Z.to_nat (count p).
Proof. unfold queue. by rewrite length_fmap, length_seqZ. Qed.
Lemma count_range p : 0 ≤ count p < 2^32.
Proof. apply u32_range. Qed.

(** The tests of the code. *)
Lemma pipe_full p : pipe_ok p → (nwrite p =? u32 (nread p + PIPESIZE)) = bool_decide (length (queue p) = 512%nat).
Proof.
  intros [_ H1 H2 _]. rewrite length_queue. unfold count, u32, PIPESIZE.
  case_bool_decide as E; [apply Z.eqb_eq|apply Z.eqb_neq]; dlia.
Qed.
Lemma pipe_empty p : pipe_ok p → (nread p =? nwrite p) = bool_decide (queue p = []).
Proof.
  intros [_ H1 H2 _]. case_bool_decide as E.
  - apply (f_equal length) in E. rewrite length_queue in E. unfold count, u32 in E. simpl in E.
    apply Z.eqb_eq. dlia.
  - apply Z.eqb_neq. intros E'. apply E. unfold queue, count. rewrite E', Z.sub_diag. done.
Qed.

Lemma put_byte_ok c p :
  pipe_ok p → (length (queue p) < 512)%nat → pipe_ok (put_byte c p) ∧ queue (put_byte c p) = queue p ++ [c].
Proof.
  intros P Hlt. pose proof P as [H1 H2 H3 H4]. rewrite length_queue in Hlt. unfold PIPESIZE in *.
  assert (count (put_byte c p) = count p + 1) as Ec.
  { pose proof (count_range p). unfold count, u32 in *. simpl. unfold u32. dlia. }
  split.
  - split; simpl; [by rewrite length_insert|done|apply u32_range|rewrite Ec; unfold PIPESIZE; lia].
  - pose proof (count_range p). unfold queue. rewrite Ec, seqZ_app, fmap_app by lia. f_equal.
    + apply list_fmap_ext. intros k x Hk. apply lookup_seqZ in Hk as [-> Hk]. unfold nth_byte. simpl.
      rewrite list_lookup_insert_ne; [done|]. unfold PIPESIZE, count, u32 in *. dlia.
    + assert ((nread p + (0 + count p)) mod PIPESIZE = nwrite p mod PIPESIZE) as Ei
        by (unfold PIPESIZE, count, u32 in *; dlia).
      rewrite Z.add_0_l in *. change (seqZ (count p) 1) with [Z.of_nat 0 + count p]. cbn [fmap list_fmap].
      rewrite Z.add_0_l. unfold nth_byte. cbn [put_byte]. f_equal.
      change (nread (put_byte c p)) with (nread p). rewrite Ei.
      change (pdata (put_byte c p)) with (<[Z.to_nat (nwrite p mod PIPESIZE) := c]> (pdata p)).
      rewrite list_lookup_insert_eq; [done|]. rewrite H1. unfold PIPESIZE. dlia.
Qed.

Lemma take_byte_ok p c q :
  pipe_ok p → queue p = c :: q →
  nth_byte p 0 = c ∧ pipe_ok (take_byte p) ∧ queue (take_byte p) = q.
Proof.
  intros P Eq. pose proof P as [H1 H2 H3 H4]. pose proof (count_range p) as Hr.
  assert (0 < count p) as Hpos.
  { apply (f_equal length) in Eq. rewrite length_queue in Eq. simpl in Eq. lia. }
  assert (count (take_byte p) = count p - 1) as Ec.
  { unfold count, u32 in *. simpl. unfold u32. dlia. }
  unfold queue in Eq. rewrite seqZ_cons in Eq by lia. simpl in Eq. injection Eq as E1 E2.
  split; [done|]. split.
  - split; simpl; [done|apply u32_range|done|rewrite Ec; lia].
  - unfold queue. rewrite Ec, <- E2. change (Z.succ 0) with (1 + 0). rewrite <- (fmap_add_seqZ 1 0), <- list_fmap_compose.
    replace (Z.pred (count p)) with (count p - 1) by lia.
    apply list_fmap_ext. intros k x Hk. apply lookup_seqZ in Hk as [-> Hk]. unfold nth_byte. simpl.
    do 3 f_equal. unfold PIPESIZE, u32 in *. dlia.
Qed.

(** ** User memory, one byte at a time *)

(** The bytes that [k] calls of copyin return, up to the first failure. *)
Fixpoint gather (pt addr : Z) (k : nat) : M kst (list Z) :=
  match k with
  | O => ret []
  | S k =>
      let* (c, ch) := copyin pt (u64 addr) 1 in
      if c =? -1 then ret []
      else
        let* rest := gather pt (addr + 1) k in
        ret (default 0 (ch !! 0%nat) :: rest)
  end.
(** The number of bytes that copyout delivers, up to the first failure. *)
Fixpoint deliver (pt addr : Z) (bs : list Z) : M kst nat :=
  match bs with
  | [] => ret 0%nat
  | b :: bs =>
      let* c := copyout pt (u64 addr) [b] in
      if c =? -1 then ret 0%nat
      else
        let* k := deliver pt (addr + 1) bs in
        ret (S k)
  end.

(** The state with memory [k] and pipe [pi]. *)
Definition with_pipe (pi : Z) (p : pipe) (k : kst) (s : kernel) : kernel :=
  s <| kmem := k |> <| files ::= (λ f, f <| pipes ::= <[pi := p]> |>) |>.

Lemma with_pipe_twice pi p p' k k' s : with_pipe pi p' k' (with_pipe pi p k s) = with_pipe pi p' k' s.
Proof.
  destruct s as [? ? ? ? ? ? ? []]. unfold with_pipe. cbv [set_field]. simpl. by rewrite insert_insert_eq.
Qed.
Lemma with_pipe_same pi p s : pipes (files s) !! pi = Some p → with_pipe pi p (kmem s) s = s.
Proof.
  intros H. destruct s as [? ? ? ? ? ? ? []]. unfold with_pipe. cbv [set_field]. simpl in *. by rewrite insert_id.
Qed.

Lemma wp_getpipe pi p s (Q : pipe → kernel → Prop) : pipes (files s) !! pi = Some p → Q p s → wp (getpipe pi) Q s.
Proof. intros H HQ. unfold wp, getpipe. by rewrite H. Qed.
Lemma wp_updpipe pi p f s (Q : unit → kernel → Prop) :
  pipes (files s) !! pi = Some p → Q tt (with_pipe pi (f p) (kmem s) s) → wp (updpipe pi f) Q s.
Proof.
  intros H HQ. unfold updpipe. wp_step. eapply wp_getpipe; [done|].
  replace (with_pipe pi (f p) (kmem s) s) with (s <| files ::= (λ f0, f0 <| pipes ::= <[pi := f p]> |>) |>) in HQ; [done|].
  by destruct s.
Qed.
Lemma wp_kern {A} (m : M kst A) a k s (Q : A → kernel → Prop) :
  m (kmem s) = Ret (a, k) → Q a (s <| kmem := k |>) → wp (kern m) Q s.
Proof. intros E HQ. unfold wp, kern, lift. by rewrite E. Qed.

Section pipe.
Context (pi addr : Z) (s : kernel) (pr : nat) (q : proc) (p : pipe).
Hypothesis (Hcur : cur s = Some pr) (Hq : procs s !! pr = Some q) (Hk : killed_ q = 0).
Hypothesis (Hlen : length (procs s) = NPROC) (Hheld : held s = [LOther pi]).
Hypothesis (Hp : pipes (files s) !! pi = Some p) (P : pipe_ok p).

Lemma pipe_unlocked : unlocked s.
Proof using Hheld. intros i. rewrite Hheld. by intros ?%list_elem_of_singleton. Qed.

(** The other processes after the wakeup. *)
Definition others_woken (c : channel) (s' : kernel) : Prop :=
  ∀ j x, j ≠ pr → procs s !! j = Some x → procs s' !! j = Some (woken (Some pr) (ticks s) c j x).

(** *** pipewrite *)

Context (n i : Z) (bs : list Z) (k' : kst).
Hypothesis (Hro : readopen p ≠ 0) (Hi : 0 ≤ i ≤ n).
Hypothesis Hgather : gather (pagetable q) (addr + i)
  (Z.to_nat (Z.min (n - i) (512 - Z.of_nat (length (queue p))))) (kmem s) = Ret (bs, k').

Definition write_inv (j : Z) (s1 : kernel) : Prop :=
  ∃ p1 k1 done rest, s1 = with_pipe pi p1 k1 s ∧ pipe_ok p1 ∧ readopen p1 = readopen p ∧
    queue p1 = queue p ++ done ∧ bs = done ++ rest ∧ j = i + Z.of_nat (length done) ∧ j ≤ n ∧
    gather (pagetable q) (addr + j)
      (Z.to_nat (Z.min (n - j) (512 - Z.of_nat (length (queue p1))))) k1 = Ret (rest, k').

(** The state when the loop ends. *)
Definition write_done (s1 : kernel) : Prop :=
  ∃ p1, s1 = with_pipe pi p1 k' s ∧ pipe_ok p1 ∧ queue p1 = queue p ++ bs.

(** What the writer has achieved: everything, a failed copyin, or a full pipe. *)
Definition pipe_full_now : Prop := i + Z.of_nat (length bs) < n ∧ (length (queue p) + length bs = 512)%nat.

(** The state after waking the readers and sleeping. *)
Definition asleep (c w : channel) (s' : kernel) : Prop :=
  cur s' = None ∧ held s' = [] ∧
  (∃ x, procs s' !! pr = Some x ∧ state x = SLEEPING ∧ chan x = c) ∧ others_woken w s'.

Lemma gather_S pt a k m l m' :
  gather pt a (S k) m = Ret (l, m') →
  (∃ ch, copyin pt (u64 a) 1 m = Ret ((-1, ch), m') ∧ l = []) ∨
  (∃ c ch m1 l1, copyin pt (u64 a) 1 m = Ret ((c, ch), m1) ∧ c ≠ -1 ∧
     gather pt (a + 1) k m1 = Ret (l1, m') ∧ l = default 0 (ch !! 0%nat) :: l1).
Proof.
  cbn [gather]. unfold bind at 1. destruct (copyin pt (u64 a) 1 m) as [[[c ch] m1]| | | |]; try done.
  destruct (Z.eqb_spec c (-1)) as [->|Hc].
  - intros [= <- <-]. left. by exists ch.
  - unfold bind. destruct (gather pt (a + 1) k m1) as [[l1 m2]| | | |] eqn:E; try done.
    intros [= <- <-]. right. by exists c, ch, m1, l1.
Qed.

Lemma wake_and_sleep {A} (r : A) c w s1 p1 k1 :
  s1 = with_pipe pi p1 k1 s →
  wp (wakeup w ;;; sleep_out c (LOther pi) ;;; ret r) (λ a s', a = r ∧ asleep c w s' ∧ kmem s' = k1 ∧
    pipes (files s') !! pi = Some p1) s1.
Proof using Hcur Hq Hlen Hheld.
  intros ->. wp_step.
  eapply wp_mono; [|apply wakeup_spec; [apply pipe_unlocked|exact Hlen]]. intros _ s2 ->.
  set (ps := imap _ _). assert (ps !! pr = Some q) as Hpr.
  { unfold ps. rewrite list_lookup_imap. simpl. rewrite Hq. simpl. unfold woken. simpl.
    by rewrite decide_True. }
  wp_step. eapply wp_mono; [|apply (sleep_out_spec _ _ pr q); [exact Hcur|exact Hpr|exact Hheld|done]].
  intros _ s3 ->. wp_step. split; [done|]. split; [|split; [done|simpl; by rewrite lookup_insert_eq]]. split; [done|]. split; [done|]. split.
  - eexists. simpl. split; [apply list_lookup_insert_eq; by eapply lookup_lt_Some|done].
  - intros j x Hj Hx. simpl. rewrite list_lookup_insert_ne by done. unfold ps. rewrite list_lookup_imap. simpl.
    rewrite Hx. simpl. by rewrite Hcur.
Qed.

Lemma wake_and_release {A} (r : A) w s1 p1 k1 :
  s1 = with_pipe pi p1 k1 s →
  wp (wakeup w ;;; release (LOther pi) ;;; ret r) (λ a s', a = r ∧ cur s' = Some pr ∧ held s' = [] ∧ others_woken w s' ∧
    kmem s' = k1 ∧ pipes (files s') !! pi = Some p1) s1.
Proof using Hcur Hq Hlen Hheld.
  intros ->. wp_step.
  eapply wp_mono; [|apply wakeup_spec; [apply pipe_unlocked|exact Hlen]]. intros _ s2 ->.
  wp_step. eapply (wp_release_last _ []); [exact Hheld|apply not_elem_of_nil|]. wp_step.
  split; [done|]. split; [exact Hcur|]. split; [done|]. split; [|split; [done|simpl; by rewrite lookup_insert_eq]].
  intros j x Hj Hx. simpl. rewrite list_lookup_imap. simpl. rewrite Hx. simpl. by rewrite Hcur.
Qed.

(** The result of the loop and of the call. *)
Definition write_post (r : Z + Z) (s' : kernel) : Prop :=
  ∃ p', pipes (files s') !! pi = Some p' ∧ pipe_ok p' ∧
    queue p' = queue p ++ bs ∧ kmem s' = k' ∧ others_woken (chan_nread pi) s' ∧ held s' = [] ∧
    ((r = inl (i + Z.of_nat (length bs)) ∧ pipe_full_now ∧ asleep (chan_nwrite pi) (chan_nread pi) s') ∨
     (r = inr (i + Z.of_nat (length bs)) ∧ ¬ pipe_full_now ∧ cur s' = Some pr)).

Lemma write_finish p1 :
  pipe_ok p1 → queue p1 = queue p ++ bs → ¬ pipe_full_now →
  wp (wakeup (chan_nread pi) ;;; release (LOther pi) ;;; ret (inr (i + Z.of_nat (length bs))))
     write_post (with_pipe pi p1 k' s).
Proof using Hcur Hq Hlen Hheld.
  intros P1 Eq Hnf. eapply wp_mono; [|by eapply wake_and_release].
  intros r s' (-> & Hc & Hh & Hw & Ek & Ep). exists p1. split_and!; try done. right. done.
Qed.

Lemma pipewrite_spec : wp (pipewrite_from pi addr n i) write_post s.
Proof using All.
  unfold pipewrite_from. wp_step. eapply wp_myproc; [done|]. wp_step.
  apply (wp_loop _ write_inv (λ j, Z.to_nat (n - j))).
  - intros j s1 (p1 & k1 & dn & rest & -> & P1 & Er & Eq & Eb & Ej & Hjn & Hg).
    pose proof (length_queue p1) as Hlq. pose proof (count_range p1) as Hcr. pose proof (pi_count _ P1) as Hc.
    unfold PIPESIZE in Hc. assert (length (queue p1) = length (queue p) + length dn)%nat as Hl1
      by (by rewrite Eq, length_app).
    assert (pipes (files (with_pipe pi p1 k1 s)) !! pi = Some p1) as Hp1 by (simpl; by rewrite lookup_insert_eq).
    destruct (Z.ltb_spec j n) as [Hlt|Hge].
    2:{ replace (Z.to_nat (Z.min (n - j) (512 - Z.of_nat (length (queue p1))))) with 0%nat in Hg by lia.
        simpl in Hg. injection Hg as <- ->. rewrite app_nil_r in Eb. rewrite <- Eb in *. wp_step. rewrite Ej.
        apply write_finish; [done|done|]. unfold pipe_full_now. lia. }
    wp_step. eapply wp_getpipe; [done|]. rewrite Er. test_false (readopen p =? 0). wp_step.
    eapply killed_spec; [apply pipe_unlocked|exact Hq|]. rewrite Hk. simpl negb. cbv iota.
    rewrite pipe_full by done. case_bool_decide as Hfull.
    + replace (Z.to_nat (Z.min (n - j) (512 - Z.of_nat (length (queue p1))))) with 0%nat in Hg by lia.
      simpl in Hg. injection Hg as <- ->. rewrite app_nil_r in Eb. rewrite <- Eb in *.
      eapply wp_mono; [|by eapply (wake_and_sleep _ (chan_nwrite pi) (chan_nread pi))].
      intros r s2 (-> & Hsl & Ek & Ep). wp_step. exists p1. rewrite Ej.
      split_and!; try done; [apply Hsl|apply Hsl|]. left. split; [done|]. split; [|done].
      unfold pipe_full_now. lia.
    + replace (Z.to_nat (Z.min (n - j) (512 - Z.of_nat (length (queue p1)))))
        with (S (Z.to_nat (Z.min (n - (j + 1)) (511 - Z.of_nat (length (queue p1)))))) in Hg by lia.
      wp_step. eapply wp_getp; [exact Hq|]. wp_step.
      apply gather_S in Hg as [(ch & Ec & ->)|(c & ch & m1 & l1 & Ec & Hc1 & Hg & ->)].
      * eapply wp_kern; [exact Ec|]. cbv beta iota. rewrite Z.eqb_refl. wp_step. rewrite app_nil_r in Eb. rewrite <- Eb in *.
        rewrite Ej. change ((with_pipe pi p1 k1 s) <| kmem := k' |>) with (with_pipe pi p1 k' s).
        apply write_finish; [done|done|]. unfold pipe_full_now. lia.
      * eapply wp_kern; [exact Ec|]. cbv beta iota. test_false (c =? -1). wp_step.
        change ((with_pipe pi p1 k1 s) <| kmem := m1 |>) with (with_pipe pi p1 m1 s).
        eapply wp_updpipe; [simpl; by rewrite lookup_insert_eq|]. wp_step. rewrite with_pipe_twice.
        set (b := default 0 _) in *. destruct (put_byte_ok b p1 P1 ltac:(lia)) as [P2 Eq2].
        split; [|lia]. exists (put_byte b p1), m1, (dn ++ [b]), l1.
        rewrite <- app_assoc, length_app. simpl length. split_and!; try done.
        { by rewrite Eq2, Eq, app_assoc. } { lia. } { lia. }
        rewrite Eq2, length_app. simpl length. rewrite Z.add_assoc.
        replace (512 - Z.of_nat (length (queue p1) + 1)) with (511 - Z.of_nat (length (queue p1))) by lia. exact Hg.
  - exists p, (kmem s), [], bs. rewrite app_nil_r. simpl length. rewrite with_pipe_same by done.
    split_and!; (done || lia).
  - lia.
Qed.
End pipe.

(** *** piperead *)

Section piperead.
Context (pi addr : Z) (s : kernel) (pr : nat) (q : proc) (p : pipe).
Hypothesis (Hcur : cur s = Some pr) (Hq : procs s !! pr = Some q).
Hypothesis (Hlen : length (procs s) = NPROC) (Hheld : held s = [LOther pi]).
Hypothesis (Hp : pipes (files s) !! pi = Some p) (P : pipe_ok p).
Context (n : Z) (k : nat) (k' : kst).
Hypothesis Hdeliver : deliver (pagetable q) addr (take (Z.to_nat n) (queue p)) (kmem s) = Ret (k, k').

(** The bytes that leave the pipe: those delivered, and one more when copyout
    failed. *)
Definition taken : nat := if decide (k < length (take (Z.to_nat n) (queue p)))%nat then S k else k.

Definition read_inv (j : Z) (s1 : kernel) : Prop :=
  ∃ p1 k1 dn kr, s1 = with_pipe pi p1 k1 s ∧ pipe_ok p1 ∧ queue p = dn ++ queue p1 ∧
    j = Z.of_nat (length dn) ∧ j ≤ Z.max 0 n ∧ k = (length dn + kr)%nat ∧
    deliver (pagetable q) (addr + j) (take (Z.to_nat (n - j)) (queue p1)) k1 = Ret (kr, k').

Lemma deliver_cons pt a b l m c m' :
  deliver pt a (b :: l) m = Ret (c, m') →
  (copyout pt (u64 a) [b] m = Ret (-1, m') ∧ c = 0%nat) ∨
  (∃ r m1 c1, copyout pt (u64 a) [b] m = Ret (r, m1) ∧ r ≠ -1 ∧
     deliver pt (a + 1) l m1 = Ret (c1, m') ∧ c = S c1).
Proof.
  cbn [deliver]. unfold bind at 1. destruct (copyout pt (u64 a) [b] m) as [[r m1]| | | |]; try done.
  destruct (Z.eqb_spec r (-1)) as [->|Hr].
  - intros [= <- <-]. by left.
  - unfold bind. destruct (deliver pt (a + 1) l m1) as [[c1 m2]| | | |] eqn:E; try done.
    intros [= <- <-]. right. by exists r, m1, c1.
Qed.

(** The state when the loop ends. *)
Definition read_done (j : Z) (s1 : kernel) : Prop :=
  j = Z.of_nat k ∧ ∃ p1, s1 = with_pipe pi p1 k' s ∧ pipe_ok p1 ∧ queue p1 = drop taken (queue p).

Lemma read_stop p1 dn kr :
  queue p = dn ++ queue p1 → k = (length dn + kr)%nat → kr = 0%nat →
  (Z.of_nat (length dn) = Z.max 0 n ∨ queue p1 = []) → drop taken (queue p) = queue p1.
Proof.
  intros Eq Ek -> Hor. unfold taken. rewrite length_take, decide_False.
  - rewrite Eq, Ek, Nat.add_0_r. apply drop_app_length.
  - rewrite Eq, length_app. destruct Hor as [H|H]; [lia|]. rewrite H. simpl. lia.
Qed.

Lemma piperead_spec :
  queue p ≠ [] ∨ writeopen p = 0 →
  wp (piperead_pass pi addr n) (λ r s', r = inr (Z.of_nat k) ∧ ∃ p', pipes (files s') !! pi = Some p' ∧
    pipe_ok p' ∧ queue p' = drop taken (queue p) ∧ kmem s' = k' ∧ cur s' = Some pr ∧ held s' = [] ∧
    others_woken s pr (chan_nwrite pi) s') s.
Proof using All.
  intros Hne. unfold piperead_pass. wp_step. eapply wp_myproc; [done|]. wp_step. eapply wp_getpipe; [done|].
  rewrite pipe_empty by done.
  replace (bool_decide (queue p = []) && negb (writeopen p =? 0)) with false.
  2:{ symmetry. destruct Hne as [H|H]; [by rewrite bool_decide_false|]. rewrite H. by rewrite andb_false_r. }
  wp_step. eapply wp_mono; [|apply (wp_loop _ read_inv (λ j, Z.to_nat (n - j)) read_done)].
  - intros j s1 (-> & p1 & -> & P1 & Eq).
    eapply wp_mono; [|by eapply (wake_and_release pi s pr q Hcur Hq Hlen Hheld)].
    intros r s' (-> & Hc & Hh & Hw & Ek & Ep). split; [done|]. exists p1. by split_and!.
  - intros j s1 (p1 & k1 & dn & kr & -> & P1 & Eq & Ej & Hj & Ek & Hd).
    assert (pipes (files (with_pipe pi p1 k1 s)) !! pi = Some p1) as Hp1 by (simpl; by rewrite lookup_insert_eq).
    destruct (Z.ltb_spec j n) as [Hlt|Hge].
    2:{ replace (Z.to_nat (n - j)) with 0%nat in Hd by lia. rewrite take_0 in Hd. injection Hd as <- ->.
        wp_step. split; [lia|]. exists p1. split_and!; [done|done|]. symmetry. eapply read_stop; [done|done|done|lia]. }
    wp_step. eapply wp_getpipe; [done|]. rewrite pipe_empty by done. case_bool_decide as He.
    { rewrite He, take_nil in Hd. injection Hd as <- ->. wp_step. split; [lia|]. exists p1.
      split_and!; [done|done|]. symmetry. eapply read_stop; [done|done|done|by right]. }
    destruct (queue p1) as [|c l] eqn:E1; [done|].
    destruct (take_byte_ok p1 c l P1 E1) as (Ec & P2 & E2).
    wp_step. eapply wp_updpipe; [done|]. rewrite with_pipe_twice. wp_step. eapply wp_getp; [exact Hq|].
    replace (default 0 (pdata p1 !! Z.to_nat (nread p1 mod PIPESIZE))) with c.
    2:{ rewrite <- Ec. unfold nth_byte. by rewrite Z.add_0_r. }
    replace (Z.to_nat (n - j)) with (S (Z.to_nat (n - (j + 1)))) in Hd by lia. cbn [take] in Hd.
    change (kmem (with_pipe pi p1 k1 s)) with k1. wp_step.
    apply deliver_cons in Hd as [(Eo & ->)|(r & m1 & c1 & Eo & Hr & Hd & ->)].
    + eapply wp_kern; [exact Eo|]. cbv beta iota. rewrite Z.eqb_refl. wp_step. split; [lia|].
      exists (take_byte p1). split_and!; [done|done|]. rewrite E2. unfold taken.
      rewrite decide_True by (rewrite length_take, Eq, length_app; simpl; lia).
      rewrite Eq, Ek, Nat.add_0_r. change (c :: l) with ([c] ++ l). rewrite app_assoc.
      rewrite drop_app_length'; [done|]. rewrite length_app. simpl. lia.
    + eapply wp_kern; [exact Eo|]. cbv beta iota. test_false (r =? -1). wp_step. split; [|lia].
      exists (take_byte p1), m1, (dn ++ [c]), c1. rewrite length_app. simpl length.
      split_and!; try done.
      { rewrite E2, <- app_assoc. exact Eq. } { lia. } { lia. } { lia. }
      rewrite E2, Z.add_assoc. exact Hd.
  - exists p, (kmem s), [], k. rewrite with_pipe_same by done. rewrite Z.add_0_r, Z.sub_0_r.
    split_and!; (done || lia).
  - lia.
Qed.
End piperead.

(** ** The theorems *)

(** C21: A pipe is a bounded queue for the writer: [pipewrite], with the pipe's
    lock held, the read end open and the process not killed, appends the user's
    bytes in order, as many as fit, also across the wrap-around of the
    counters.  It returns when all [n] bytes are in or the user memory ends;
    otherwise the pipe is full, and it sleeps until a reader makes room; in
    every case the readers are awake and the lock is free. *)
Theorem pipewrite_appends pi addr s pr q p n i bs k' :
  cur s = Some pr → procs s !! pr = Some q → killed_ q = 0 → length (procs s) = NPROC →
  held s = [LOther pi] → pipes (files s) !! pi = Some p → pipe_ok p → readopen p ≠ 0 → 0 ≤ i ≤ n →
  gather (pagetable q) (addr + i)
    (Z.to_nat (Z.min (n - i) (512 - Z.of_nat (length (queue p))))) (kmem s) = Ret (bs, k') →
  wp (pipewrite_from pi addr n i) (λ r s', ∃ p', pipes (files s') !! pi = Some p' ∧ pipe_ok p' ∧
    queue p' = queue p ++ bs ∧ kmem s' = k' ∧ others_woken s pr (chan_nread pi) s' ∧ held s' = [] ∧
    if decide (i + Z.of_nat (length bs) < n ∧ (length (queue p) + length bs = 512)%nat)
    then r = inl (i + Z.of_nat (length bs)) ∧ cur s' = None ∧
         ∃ x, procs s' !! pr = Some x ∧ state x = SLEEPING ∧ chan x = chan_nwrite pi
    else r = inr (i + Z.of_nat (length bs)) ∧ cur s' = Some pr) s.
Proof.
  intros. eapply wp_mono; [|by eapply (pipewrite_spec pi addr s pr q p)].
  intros r s' (p' & A1 & A2 & A3 & A4 & A5 & A6 & Hr). exists p'. split_and!; try done.
  destruct Hr as [(-> & Hf & B1 & _ & B2 & _)|(-> & Hf & B)].
  - rewrite decide_True by done. done.
  - rewrite decide_False by done. done.
Qed.

(** C22: A pipe is a queue for the reader: [piperead], when the pipe is not empty or
    its write end is closed, delivers at most [n] bytes from the front of the
    queue in order and wakes the writers.  The rest of the queue stays; but when
    copyout fails, the byte it failed on is gone too. *)
Theorem piperead_takes pi addr s pr q p n k k' :
  cur s = Some pr → procs s !! pr = Some q → length (procs s) = NPROC →
  held s = [LOther pi] → pipes (files s) !! pi = Some p → pipe_ok p → queue p ≠ [] ∨ writeopen p = 0 →
  deliver (pagetable q) addr (take (Z.to_nat n) (queue p)) (kmem s) = Ret (k, k') →
  wp (piperead_pass pi addr n) (λ r s', r = inr (Z.of_nat k) ∧ ∃ p', pipes (files s') !! pi = Some p' ∧
    pipe_ok p' ∧ kmem s' = k' ∧ cur s' = Some pr ∧ held s' = [] ∧ others_woken s pr (chan_nwrite pi) s' ∧
    queue p' = drop (if decide (k < length (take (Z.to_nat n) (queue p)))%nat then S k else k) (queue p)) s.
Proof.
  intros. eapply wp_mono; [|by eapply (piperead_spec pi addr s pr q p)].
  intros r s' (-> & p' & A1 & A2 & A3 & A4 & A5 & A6 & A7). split; [done|]. exists p'. by split_and!.
Qed.

(** ** Concrete pipes *)

Module PipeDemo.
(** A process and a pipe at address 64 whose lock it holds. *)
Definition demo (p : pipe) : kernel :=
  Sys (KSt ∅ 0 ∅) ((proc0 <| state := RUNNING |>) :: replicate 63 proc0) (Some 0%nat)
    [LOther 64] None 2 0
    (Fsys (Lst (Bst [] ∅ []) log0) (Superblock 0 0 0 0 0 0 0 0) [] [] {[64 := p]}
       (Console [] 0 0 0) (Uart [] 0 0 true [] []) 0).
(** A full pipe, and one with the bytes 7 and 8; the counters wrap around. *)
Definition full : pipe := Pipe (replicate 512 7) (2^32 - 256) 256 1 1.
Definition two : pipe := Pipe (<[510%nat := 7]> (<[511%nat := 8]> (replicate 512 0))) (2^32 - 2) 0 1 1.
Lemma full_ok : pipe_ok full.
Proof. split; [done|simpl; lia|simpl; lia|by vm_compute]. Qed.
Lemma two_ok : pipe_ok two.
Proof. split; [done|simpl; lia|simpl; lia|by vm_compute]. Qed.
Lemma two_queue : queue two = [7; 8].
Proof. by vm_compute. Qed.
Lemma full_length : length (queue full) = 512%nat.
Proof. by vm_compute. Qed.
End PipeDemo.

(** A writer finds the pipe full: nothing is written and it sleeps. *)
Lemma pipewrite_appends_witness :
  wp (pipewrite_from 64 0 3 0) (λ r s', r = inl 0 ∧ cur s' = None) (PipeDemo.demo PipeDemo.full).
Proof.
  eapply wp_mono; [|apply (pipewrite_appends 64 0 (PipeDemo.demo PipeDemo.full) 0 (proc0 <| state := RUNNING |>)
    PipeDemo.full 3 0 [] (KSt ∅ 0 ∅) eq_refl eq_refl eq_refl eq_refl eq_refl eq_refl PipeDemo.full_ok);
    [done|lia|rewrite PipeDemo.full_length; reflexivity]].
  intros r s' (p' & A1 & A2 & A3 & A4 & A5 & A6 & Hr). rewrite PipeDemo.full_length in Hr.
  rewrite decide_True in Hr by (simpl; lia). destruct Hr as (-> & Hc & _). done.
Defined.

(** A reader with a bad address: copyout fails and the byte 7 is lost. *)
Lemma piperead_takes_witness :
  wp (piperead_pass 64 MAXVA 5) (λ r s', r = inr 0 ∧ ∃ p', pipes (files s') !! 64 = Some p' ∧ queue p' = [8])
    (PipeDemo.demo PipeDemo.two).
Proof.
  eapply wp_mono; [|apply (piperead_takes 64 MAXVA (PipeDemo.demo PipeDemo.two) 0 (proc0 <| state := RUNNING |>)
    PipeDemo.two 5 0 (KSt ∅ 0 ∅) eq_refl eq_refl eq_refl eq_refl eq_refl PipeDemo.two_ok);
    [by left; rewrite PipeDemo.two_queue|rewrite PipeDemo.two_queue; reflexivity]].
  intros r s' (-> & p' & A1 & _ & _ & _ & _ & _ & E). split; [done|]. exists p'. split; [done|].
  rewrite E, PipeDemo.two_queue. reflexivity.
Defined.
