(* ===== verification/Console.v ===== *)
(** * Console and UART (kernel/console.c, kernel/uart.c)

    The device is its transmit register (free or busy), the queue of received
    bytes and the list of sent bytes.  A byte written to the register makes it
    busy; the device frees it on its own ([uart_drain]) and then interrupts.
    The call of [procdump] on control-P only prints and is left out. *)

From Stdlib Require Import ZArith Lia.
From stdpp Require Import base numbers list gmap strings tactics.
From S2P Require Import Prelude Riscv Mem Bytes Kalloc Vm Proc Locks Bio Log Ftypes Fs File.

Local Open Scope Z_scope.

(** ** uart.c *)

Definition UART_TX_BUF_SIZE : Z := 32.

Definition getuart : M kernel uart := let* f := getfs in ret (uart0 f).
Definition upduart (f : uart → uart) : M kernel unit := updfs (λ fs, fs <| uart0 ::= f |>).
Definition chan_tx_r : channel := ChGlobal "uart_tx_r".
Definition uart_tx_lock : lock := LGlobal "uart".

(** [WriteReg(THR, c)] *)
Definition write_thr (c : Z) : M kernel unit :=
  upduart (λ u, u <| sent ::= cons (u8 c) |> <| tx_idle := false |>).
(** The device has sent the byte in its register. *)
Definition uart_drain : M kernel unit := upduart (λ u, u <| tx_idle := true |>).

(** At most [UART_TX_BUF_SIZE] bytes are buffered. *)
Definition uartstart : M kernel unit :=
  loop 40 (λ _ : unit,
    let* u := getuart in
    if tx_w u =? tx_r u then ret (inr tt)
    else if negb (tx_idle u) then ret (inr tt)
    else
      let c := default 0 (tx_buf u !! Z.to_nat (tx_r u mod UART_TX_BUF_SIZE)) in
      upduart (λ u, u <| tx_r := u64 (tx_r u + 1) |>) ;;;
      wakeup chan_tx_r ;;;
      write_thr c ;;;
      ret (inl tt)) tt.

(** Waits while the buffer is full. *)
Definition uartputc (c : Z) : M kernel unit :=
  acquire uart_tx_lock ;;;
  let* u := getuart in
  if tx_w u =? u64 (tx_r u + UART_TX_BUF_SIZE) then Prelude.block
  else
    upduart (λ u, u <| tx_buf ::= <[Z.to_nat (tx_w u mod UART_TX_BUF_SIZE) := u8 c]> |>) ;;;
    upduart (λ u, u <| tx_w := u64 (tx_w u + 1) |>) ;;;
    uartstart ;;;
    release uart_tx_lock.

(** Spins until the register is free. *)
Definition uartputc_sync (c : Z) : M kernel unit := uart_drain ;;; write_thr c.

Definition uartgetc : M kernel Z :=
  let* u := getuart in
  match rx u with
  | c :: rest => upduart (λ u, u <| rx := rest |>) ;;; ret c
  | [] => ret (-1)
  end.

(** ** console.c *)

Definition BACKSPACE : Z := 0x100.
(** [C(x)] is [x - '@'] *)
Definition ctrl (x : Z) : Z := x - 64.
Definition INPUT_BUF_SIZE : Z := 128.
Definition newline : Z := 10.

Definition consputc (c : Z) : M kernel unit :=
  if c =? BACKSPACE then
    uartputc_sync 8 ;;; uartputc_sync 32 ;;; uartputc_sync 8
  else uartputc_sync c.

Definition getcons : M kernel console := let* f := getfs in ret (kcons f).
Definition updcons (f : console → console) : M kernel unit := updfs (λ fs, fs <| kcons ::= f |>).
Definition cons_lock : lock := LGlobal "cons".
Definition chan_cons_r : channel := ChGlobal "cons.r".

Definition consolewrite (user_src : bool) (src n : Z) : M kernel Z :=
  loop (Pos.of_succ_nat (Z.to_nat n)) (λ i,
    if i <? n then
      let* (r, c) := either_copyin user_src (u64 (src + i)) 1 in
      if r =? -1 then ret (inr i)
      else uartputc (default 0 (c !! 0%nat)) ;;; ret (inl (i + 1))
    else ret (inr i)) 0.

(** [consoleread] with the lock held, [n] bytes left of [target]; [inl] when
    it went to sleep. *)
Definition consoleread_from (user_dst : bool) (target dst n : Z) : M kernel ((Z * Z) + Z) :=
  let* r := loop (Pos.of_succ_nat (Z.to_nat n)) (λ '(dst, n),
    if 0 <? n then
      let* c := getcons in
      if cr c =? cw c then
        let* i := myproc in
        let* k := killed i in
        if negb (k =? 0) then
          release cons_lock ;;; ret (inr (inr (inr (-1))))
        else
          sleep_out chan_cons_r cons_lock ;;; ret (inr (inr (inl (dst, n))))
      else
        let ch := default 0 (cbuf c !! Z.to_nat (cr c mod INPUT_BUF_SIZE)) in
        updcons (λ c, c <| cr := u32 (cr c + 1) |>) ;;;
        if ch =? ctrl 68 then
          (if n <? target then updcons (λ c, c <| cr := u32 (cr c - 1) |>) else ret tt) ;;;
          ret (inr (inl n))
        else
          let* r := either_copyout user_dst dst [ch] in
          if r =? -1 then ret (inr (inl n))
          else if ch =? newline then ret (inr (inl (n - 1)))
          else ret (inl (u64 (dst + 1), n - 1))
    else ret (inr (inl n))) (dst, n) in
  match r with
  | inr r => ret r
  | inl n => release cons_lock ;;; ret (inr (s32 (target - n)))
  end.
Definition consoleread_try (user_dst : bool) (dst n : Z) : M kernel ((Z * Z) + Z) :=
  acquire cons_lock ;;; consoleread_from user_dst (u32 n) dst n.
Definition consoleread_again (user_dst : bool) (target dst n : Z) : M kernel ((Z * Z) + Z) :=
  sleep_in cons_lock ;;; consoleread_from user_dst target dst n.
Definition consoleread (user_dst : bool) (dst n : Z) : M kernel Z :=
  let* r := consoleread_try user_dst dst n in awake r.

(** [cons.buf[(cons.e-1) % INPUT_BUF_SIZE]] *)
Definition last_typed (c : console) : Z :=
  default 0 (cbuf c !! Z.to_nat (u32 (ce c - 1) mod INPUT_BUF_SIZE)).

Definition consoleintr (c : Z) : M kernel unit :=
  acquire cons_lock ;;;
  (if c =? ctrl 80 then ret tt
   else if c =? ctrl 85 then
     loop 200 (λ _ : unit,
       let* k := getcons in
       if negb (ce k =? cw k) && negb (last_typed k =? newline) then
         updcons (λ k, k <| ce := u32 (ce k - 1) |>) ;;;
         consputc BACKSPACE ;;;
         ret (inl tt)
       else ret (inr tt)) tt
   else if (c =? ctrl 72) || (c =? 127) then
     let* k := getcons in
     if negb (ce k =? cw k) then
       updcons (λ k, k <| ce := u32 (ce k - 1) |>) ;;;
       consputc BACKSPACE
     else ret tt
   else
     let* k := getcons in
     if negb (c =? 0) && (u32 (ce k - cr k) <? INPUT_BUF_SIZE) then
       let c := if c =? 13 then newline else c in
       consputc c ;;;
       updcons (λ k, k <| cbuf ::= <[Z.to_nat (ce k mod INPUT_BUF_SIZE) := u8 c]> |>
                       <| ce := u32 (ce k + 1) |>) ;;;
       let* k := getcons in
       if (c =? newline) || (c =? ctrl 68) || (u32 (ce k - cr k) =? INPUT_BUF_SIZE) then
         updcons (λ k, k <| cw := ce k |>) ;;;
         wakeup chan_cons_r
       else ret tt
     else ret tt) ;;;
  release cons_lock.

(** The interrupt handler of the device. *)
Definition uartintr : M kernel unit :=
  let* u := getuart in
  loop (Pos.of_succ_nat (length (rx u))) (λ _ : unit,
    let* c := uartgetc in
    if c =? -1 then ret (inr tt)
    else consoleintr c ;;; ret (inl tt)) tt ;;;
  acquire uart_tx_lock ;;;
  uartstart ;;;
  release uart_tx_lock.

(** [consoleinit] connects the console to the device switch. *)
#[global] Instance console_devices : Devices := {|
  dev_read := λ major, if major =? CONSOLE then Some consoleread else None;
  dev_write := λ major, if major =? CONSOLE then Some consolewrite else None;
|}.
