(* ===== verification/Syscall.v ===== *)
(** * System call arguments (kernel/syscall.c)

    A string argument is the list of its bytes before the NUL.  The table of
    system calls is in Trap.v, after the calls it names. *)

From Stdlib Require Import ZArith Lia.
From stdpp Require Import base numbers list gmap strings tactics.
From S2P Require Import Prelude Riscv Mem Bytes Kalloc Vm Proc Ftypes.

Local Open Scope Z_scope.

Definition MAXPATH : Z := 128.
Definition MAXARG : Z := 32.

(** Offsets in [struct trapframe]. *)
Definition tf_a1 : Z := 120.
Definition tf_a7 : Z := 168.

(** The current process structure. *)
Definition curproc : M kernel proc := let* i := myproc in getp i.

(** The result and the value stored through [ip]. *)
Definition fetchaddr (addr : Z) : M kernel (Z * Z) :=
  let* p := curproc in
  if (sz p <=? addr) || (sz p <? u64 (addr + 8)) then ret (-1, 0)
  else
    let* (r, bs) := kern (copyin (pagetable p) addr 8) in
    if negb (r =? 0) then ret (-1, 0) else ret (0, le_value bs).

(** The result and the bytes copied. *)
Definition fetchstr (addr max : Z) : M kernel (Z * list Z) :=
  let* p := curproc in
  let* (r, bs) := kern (copyinstr (pagetable p) addr max) in
  if r <? 0 then ret (-1, bs)
  else ret (Z.of_nat (length (until_nul bs)), bs).

Definition argraw (n : Z) : M kernel Z :=
  let* p := curproc in
  if (0 <=? n) && (n <=? 5) then kern (rd64 (trapframe p + tf_a0 + 8 * n))
  else panic "argraw".

Definition argint (n : Z) : M kernel Z := let* x := argraw n in ret (s32 x).
Definition argaddr (n : Z) : M kernel Z := argraw n.

Definition argstr (n max : Z) : M kernel (Z * list Z) :=
  let* addr := argaddr n in
  let* (r, bs) := fetchstr addr max in
  ret (r, until_nul bs).
