(* ===== verification/Exec.v ===== *)
(** * Loading programs (kernel/exec.c, kernel/elf.h)

    [exec] is split at its two regions of [goto bad]: while the inode is
    locked, and after it was released.  The arguments are the addresses of
    the strings in kernel memory, without the terminating null pointer. *)

From Stdlib Require Import ZArith Lia.
From stdpp Require Import base numbers list gmap strings tactics.
From S2P Require Import Prelude Riscv Mem Bytes Kalloc Vm Proc Ftypes Fs File Syscall.

Local Open Scope Z_scope.

Definition ELF_MAGIC : Z := 0x464C457F.
Definition ELF_PROG_LOAD : Z := 1.

(** [struct elfhdr] as far as it is used: 64 bytes. *)
Record elfhdr := Elfhdr { e_magic : Z; e_entry : Z; e_phoff : Z; e_phnum : Z }.
Definition elf_size : Z := 64.
Definition dec_elf (x : list Z) : elfhdr :=
  Elfhdr (get32 x 0) (get64 x 24) (get64 x 32) (get16 x 56).

(** [struct proghdr] as far as it is used: 56 bytes. *)
Record proghdr := Proghdr {
  p_type : Z; p_flags : Z; p_off : Z; p_vaddr : Z; p_filesz : Z; p_memsz : Z }.
Definition ph_size : Z := 56.
Definition dec_ph (x : list Z) : proghdr :=
  Proghdr (get32 x 0) (get32 x 4) (get64 x 8) (get64 x 16) (get64 x 32) (get64 x 40).

Definition flags2perm (flags : Z) : Z :=
  let perm := if negb (Z.land flags 1 =? 0) then PTE_X else 0 in
  if negb (Z.land flags 2 =? 0) then Z.lor perm PTE_W else perm.

(** At most 2^32 / PGSIZE pages. *)
Definition loadseg (pagetable va ip offset sz : Z) : M kernel Z :=
  loop (2^21) (λ i,
    if i <? sz then
      let* pa := kern (walkaddr pagetable (u64 (va + i))) in
      if pa =? 0 then panic "loadseg: address should exist"
      else
        let n := if u32 (sz - i) <? PGSIZE then u32 (sz - i) else PGSIZE in
        let* (r, _) := readi ip (DAddr false pa) (u32 (offset + i)) n in
        if negb (r =? n) then ret (inr (-1))
        else ret (inl (u32 (i + PGSIZE)))
    else ret (inr 0)) 0.

Section exec.
Context `{Symbols}.

(** The loop over the program headers: the size of the image, or [inl] with
    the size so far for [goto bad]. *)
Definition load_segments (ip pagetable : Z) (elf : elfhdr) : M kernel (Z + Z) :=
  loop (2^17) (λ '(i, off, sz),
    if i <? e_phnum elf then
      let* (r, x) := readi ip DBuf (u32 off) ph_size in
      if negb (r =? ph_size) then ret (inr (inl sz))
      else
        let ph := dec_ph x in
        if negb (p_type ph =? ELF_PROG_LOAD) then ret (inl (i + 1, s32 (off + ph_size), sz))
        else if p_memsz ph <? p_filesz ph then ret (inr (inl sz))
        else if u64 (p_vaddr ph + p_memsz ph) <? p_vaddr ph then ret (inr (inl sz))
        else if negb (p_vaddr ph mod PGSIZE =? 0) then ret (inr (inl sz))
        else
          let* sz1 := kern (uvmalloc pagetable sz (u64 (p_vaddr ph + p_memsz ph)) (flags2perm (p_flags ph))) in
          if sz1 =? 0 then ret (inr (inl sz))
          else
            let* r := loadseg pagetable (p_vaddr ph) ip (u32 (p_off ph)) (u32 (p_filesz ph)) in
            if r <? 0 then ret (inr (inl sz1))
            else ret (inl (i + 1, s32 (off + ph_size), sz1))
    else ret (inr (inr sz))) (0, s32 (e_phoff elf), 0).

(** From the ELF check to the end of loading: the new page table (0 if there
    is none yet), the size, and the header when nothing went wrong. *)
Definition load_image (i : nat) (ip : Z) : M kernel (Z * Z * option elfhdr) :=
  let* (r, x) := readi ip DBuf 0 elf_size in
  if negb (r =? elf_size) then ret (0, 0, None)
  else
    let elf := dec_elf x in
    if negb (e_magic elf =? ELF_MAGIC) then ret (0, 0, None)
    else
      let* pagetable := proc_pagetable i in
      if pagetable =? 0 then ret (0, 0, None)
      else
        let* r := load_segments ip pagetable elf in
        match r with
        | inl sz => ret (pagetable, sz, None)
        | inr sz => ret (pagetable, sz, Some elf)
        end.

(** [strlen] of a string in kernel memory. *)
Definition kstrlen (a : Z) : M kernel Z :=
  let* s := get in
  match Mem.strlen (Z.to_nat PGSIZE) (mem (kmem s)) a with Some n => ret n | None => fault "strlen" end.

(** Pushing the argument strings: the stack pointer and [ustack], or [None]
    for [goto bad]. *)
Fixpoint push_args (pagetable stackbase : Z) (argv : list Z) (argc sp : Z) (ustack : list Z)
  : M kernel (option (Z * list Z)) :=
  match argv with
  | [] => ret (Some (sp, ustack))
  | a :: argv =>
      if MAXARG <=? argc then ret None
      else
        let* len := kstrlen a in
        let sp := u64 (sp - (len + 1)) in
        let sp := sp - sp mod 16 in
        if sp <? stackbase then ret None
        else
          let* bs := kern (rd_bytes a (Z.to_nat (len + 1))) in
          let* r := kern (copyout pagetable sp bs) in
          if r <? 0 then ret None
          else push_args pagetable stackbase argv (argc + 1) sp (ustack ++ [sp])
  end.

(** The user stack: the size, the stack pointer and the address of the
    argument array, or [inl] with the size for [goto bad]. *)
Definition build_stack (pagetable sz : Z) (argv : list Z) : M kernel (Z + Z * Z) :=
  let sz := PGROUNDUP sz in
  let* sz1 := kern (uvmalloc pagetable sz (u64 (sz + 2 * PGSIZE)) PTE_W) in
  if sz1 =? 0 then ret (inl sz)
  else
    let sz := sz1 in
    kern (uvmclear pagetable (u64 (sz - 2 * PGSIZE))) ;;;
    let stackbase := u64 (sz - PGSIZE) in
    let* r := push_args pagetable stackbase argv 0 sz [] in
    match r with
    | None => ret (inl sz)
    | Some (sp, ustack) =>
        let argc := Z.of_nat (length ustack) in
        if MAXARG <=? argc then fault "ustack"
        else
          let sp := u64 (sp - (argc + 1) * 8) in
          let sp := sp - sp mod 16 in
          if sp <? stackbase then ret (inl sz)
          else
            let* r := kern (copyout pagetable sp (concat (le_bytes 8 <$> (ustack ++ [0])))) in
            if r <? 0 then ret (inl sz) else ret (inr (sz, sp))
    end.

(** The part of the path behind the last slash. *)
Fixpoint last_element (last s : list Z) : list Z :=
  match s with
  | [] => last
  | c :: s => if c =? slash then last_element s s else last_element last s
  end.

Definition exec (path : list Z) (argv : list Z) : M kernel Z :=
  let* i := myproc in
  kbegin_op ;;;
  let* ip := Fs.namei path in
  if ip =? 0 then kend_op ;;; ret (-1)
  else
    ilock ip ;;;
    let* (pagetable, sz, elf) := load_image i ip in
    match elf with
    | None =>
        (if negb (pagetable =? 0) then proc_freepagetable pagetable sz else ret tt) ;;;
        iunlockput ip ;;;
        kend_op ;;;
        ret (-1)
    | Some elf =>
        iunlockput ip ;;;
        kend_op ;;;
        let* p := getp i in
        let oldsz := Proc.sz p in
        let* r := build_stack pagetable sz argv in
        match r with
        | inl sz => proc_freepagetable pagetable sz ;;; ret (-1)
        | inr (sz, sp) =>
            kern (wr64 (trapframe p + tf_a1) sp) ;;;
            updp i (set_name (last_element path path)) ;;;
            let oldpagetable := Proc.pagetable p in
            updp i (λ p, p <| Proc.pagetable := pagetable |>) ;;;
            updp i (λ p, p <| Proc.sz := sz |>) ;;;
            kern (wr64 (trapframe p + tf_epc) (e_entry elf)) ;;;
            kern (wr64 (trapframe p + tf_sp) sp) ;;;
            proc_freepagetable oldpagetable oldsz ;;;
            ret (Z.of_nat (length argv))
        end
    end.
End exec.
