(* ===== verification/Sysfile.v ===== *)
(** * File system calls (kernel/sysfile.c)

    Every call of sysfile.c.  A call returns the value that goes into [a0];
    -1 stands for the [uint64] of all ones. *)

From Stdlib Require Import ZArith Lia.
From stdpp Require Import base numbers list gmap strings tactics.
From S2P Require Import Prelude Riscv Mem Bytes Kalloc Vm Proc Ftypes Fs File Syscall Exec.

Local Open Scope Z_scope.

(** ** File descriptors *)

(** The descriptor and the file, or [None] for the result -1. *)
Definition argfd (n : Z) : M kernel (option (Z * Z)) :=
  let* fd := argint n in
  if (fd <? 0) || (Z.of_nat NOFILE <=? fd) then ret None
  else
    let* p := curproc in
    let f := default 0 (ofile p !! Z.to_nat fd) in
    if f =? 0 then ret None else ret (Some (fd, f)).

Definition set_ofile (fd : nat) (f : Z) : M kernel unit :=
  let* i := myproc in
  updp i (λ p, p <| ofile ::= <[fd := f]> |>).

Definition fdalloc (f : Z) : M kernel Z :=
  let* r := for_find (seq 0 NOFILE) (λ fd,
    let* p := curproc in
    if default 0 (ofile p !! fd) =? 0 then
      set_ofile fd f ;;; ret (Some (Z.of_nat fd))
    else ret None) in
  ret (default (-1) r).

Definition sys_dup : M kernel Z :=
  let* r := argfd 0 in
  match r with
  | None => ret (-1)
  | Some (_, f) =>
      let* fd := fdalloc f in
      if fd <? 0 then ret (-1)
      else filedup f ;;; ret fd
  end.

(** [read_count] is a global [int]. *)
Definition sys_getreadcount : M kernel Z := let* f := getfs in ret (readcount f).

Section sysfile.
Context `{Devices} `{Symbols}.

Definition sys_read : M kernel Z :=
  updfs (λ f, f <| readcount := s32 (readcount f + 1) |>) ;;;
  let* p := argaddr 1 in
  let* n := argint 2 in
  let* r := argfd 0 in
  match r with
  | None => ret (-1)
  | Some (_, f) =>
      acquire LTicks ;;;
      release LTicks ;;;
      fileread f p n
  end.

Definition sys_write : M kernel Z :=
  let* p := argaddr 1 in
  let* n := argint 2 in
  let* r := argfd 0 in
  match r with
  | None => ret (-1)
  | Some (_, f) => filewrite f p n
  end.

Definition sys_close : M kernel Z :=
  let* r := argfd 0 in
  match r with
  | None => ret (-1)
  | Some (fd, f) =>
      set_ofile (Z.to_nat fd) 0 ;;;
      fileclose f ;;;
      ret 0
  end.

Definition sys_fstat (pad : list Z) : M kernel Z :=
  let* st := argaddr 1 in
  let* r := argfd 0 in
  match r with
  | None => ret (-1)
  | Some (_, f) => filestat pad f st
  end.

(** ** Names *)

Definition sys_link : M kernel Z :=
  let* (r0, old) := argstr 0 MAXPATH in
  if r0 <? 0 then ret (-1)
  else
    let* (r1, new) := argstr 1 MAXPATH in
    if r1 <? 0 then ret (-1)
    else
      kbegin_op ;;;
      let* ip := Fs.namei old in
      if ip =? 0 then kend_op ;;; ret (-1)
      else
        ilock ip ;;;
        let* i := geti ip in
        if itype i =? T_DIR then
          iunlockput ip ;;; kend_op ;;; ret (-1)
        else
          updi ip (λ i, i <| inlink := s16 (inlink i + 1) |>) ;;;
          iupdate ip ;;;
          iunlock ip ;;;
          let bad :=
            ilock ip ;;;
            updi ip (λ i, i <| inlink := s16 (inlink i - 1) |>) ;;;
            iupdate ip ;;;
            iunlockput ip ;;;
            kend_op ;;;
            ret (-1) in
          let* (dp, name) := Fs.nameiparent new in
          if dp =? 0 then bad
          else
            ilock dp ;;;
            let* d := geti dp in
            let* i := geti ip in
            let* r := (if negb (idev d =? idev i) then ret (-1) else dirlink dp name (inum i)) in
            if r <? 0 then iunlockput dp ;;; bad
            else
              iunlockput dp ;;;
              Fs.iput ip ;;;
              kend_op ;;;
              ret 0.

(** Whether every entry behind "." and ".." is free. *)
Definition isdirempty (dp : Z) : M kernel Z :=
  let* d := geti dp in
  loop file_fuel (λ off,
    if u32 off <? isize d then
      let* (r, de) := readi dp DBuf (u32 off) de_size in
      if negb (r =? de_size) then panic "isdirempty: readi"
      else if negb (de_inum de =? 0) then ret (inr 0)
      else ret (inl (s32 (off + de_size)))
    else ret (inr 1)) (2 * de_size).

(** "." and ".." *)
Definition dot : list Z := [46].
Definition dotdot : list Z := [46; 46].

Definition sys_unlink : M kernel Z :=
  let* (r, path) := argstr 0 MAXPATH in
  if r <? 0 then ret (-1)
  else
    kbegin_op ;;;
    let* (dp, name) := Fs.nameiparent path in
    if dp =? 0 then kend_op ;;; ret (-1)
    else
      ilock dp ;;;
      let bad := iunlockput dp ;;; kend_op ;;; ret (-1) in
      if (namecmp name dot =? 0) || (namecmp name dotdot =? 0) then bad
      else
        let* (ip, off) := dirlookup dp name in
        if ip =? 0 then bad
        else
          ilock ip ;;;
          let* i := geti ip in
          if inlink i <? 1 then panic "unlink: nlink < 1"
          else
            let* empty := (if itype i =? T_DIR then isdirempty ip else ret 1) in
            if empty =? 0 then iunlockput ip ;;; bad
            else
              let* r := writei dp (SBuf (replicate 16 0)) off de_size in
              if negb (r =? de_size) then panic "unlink: writei"
              else
                (if itype i =? T_DIR then
                   updi dp (λ d, d <| inlink := s16 (inlink d - 1) |>) ;;;
                   iupdate dp
                 else ret tt) ;;;
                iunlockput dp ;;;
                updi ip (λ i, i <| inlink := s16 (inlink i - 1) |>) ;;;
                iupdate ip ;;;
                iunlockput ip ;;;
                kend_op ;;;
                ret 0.

Definition create (path : list Z) (type major minor : Z) : M kernel Z :=
  let* (dp, name) := Fs.nameiparent path in
  if dp =? 0 then ret 0
  else
    ilock dp ;;;
    let* (ip, _) := dirlookup dp name in
    if negb (ip =? 0) then
      iunlockput dp ;;;
      ilock ip ;;;
      let* i := geti ip in
      if (type =? T_FILE) && ((itype i =? T_FILE) || (itype i =? T_DEVICE)) then ret ip
      else iunlockput ip ;;; ret 0
    else
      let* d := geti dp in
      let* ip := ialloc (idev d) type in
      if ip =? 0 then iunlockput dp ;;; ret 0
      else
        ilock ip ;;;
        updi ip (λ i, i <| imajor := major |>) ;;;
        updi ip (λ i, i <| iminor := minor |>) ;;;
        updi ip (λ i, i <| inlink := 1 |>) ;;;
        iupdate ip ;;;
        let fail :=
          updi ip (λ i, i <| inlink := 0 |>) ;;;
          iupdate ip ;;;
          iunlockput ip ;;;
          iunlockput dp ;;;
          ret 0 in
        let* i := geti ip in
        let* r :=
          (if type =? T_DIR then
             let* r := dirlink ip dot (inum i) in
             if r <? 0 then ret r else dirlink ip dotdot (inum d)
           else ret 0) in
        if r <? 0 then fail
        else
          let* r := dirlink dp name (inum i) in
          if r <? 0 then fail
          else
            (if type =? T_DIR then
               updi dp (λ d, d <| inlink := s16 (inlink d + 1) |>) ;;;
               iupdate dp
             else ret tt) ;;;
            iunlockput dp ;;;
            ret ip.

(** The inode [sys_open] works on, locked, or 0. *)
Definition open_inode (path : list Z) (omode : Z) : M kernel Z :=
  if negb (Z.land omode O_CREATE =? 0) then create path T_FILE 0 0
  else
    let* ip := Fs.namei path in
    if ip =? 0 then ret 0
    else
      ilock ip ;;;
      let* i := geti ip in
      if (itype i =? T_DIR) && negb (omode =? O_RDONLY) then
        iunlockput ip ;;; ret 0
      else ret ip.

Definition sys_open : M kernel Z :=
  let* omode := argint 1 in
  let* (n, path) := argstr 0 MAXPATH in
  if n <? 0 then ret (-1)
  else
    kbegin_op ;;;
    let* ip := open_inode path omode in
    if ip =? 0 then kend_op ;;; ret (-1)
    else
      let* i := geti ip in
      let bad := iunlockput ip ;;; kend_op ;;; ret (-1) in
      if (itype i =? T_DEVICE) && ((imajor i <? 0) || (NDEV <=? imajor i)) then bad
      else
        let* f := filealloc in
        if f =? 0 then bad
        else
          let* fd := fdalloc f in
          if fd <? 0 then fileclose f ;;; bad
          else
            (if itype i =? T_DEVICE then
               updf f (λ f, f <| ftype := FD_DEVICE |> <| fmajor := imajor i |>)
             else
               updf f (λ f, f <| ftype := FD_INODE |> <| foff := 0 |>)) ;;;
            updf f (λ f, f <| fip := ip |>) ;;;
            updf f (λ f, f <| readable := if Z.land omode O_WRONLY =? 0 then 1 else 0 |>) ;;;
            updf f (λ f, f <| writable :=
              if negb (Z.land omode O_WRONLY =? 0) || negb (Z.land omode O_RDWR =? 0) then 1 else 0 |>) ;;;
            (if negb (Z.land omode O_TRUNC =? 0) && (itype i =? T_FILE) then itrunc ip else ret tt) ;;;
            iunlock ip ;;;
            kend_op ;;;
            ret fd.

Definition sys_mkdir : M kernel Z :=
  kbegin_op ;;;
  let* (r, path) := argstr 0 MAXPATH in
  let* ip := (if r <? 0 then ret 0 else create path T_DIR 0 0) in
  if ip =? 0 then kend_op ;;; ret (-1)
  else iunlockput ip ;;; kend_op ;;; ret 0.

Definition sys_mknod : M kernel Z :=
  kbegin_op ;;;
  let* major := argint 1 in
  let* minor := argint 2 in
  let* (r, path) := argstr 0 MAXPATH in
  let* ip := (if r <? 0 then ret 0 else create path T_DEVICE (s16 major) (s16 minor)) in
  if ip =? 0 then kend_op ;;; ret (-1)
  else iunlockput ip ;;; kend_op ;;; ret 0.

Definition sys_chdir : M kernel Z :=
  let* i := myproc in
  kbegin_op ;;;
  let* (r, path) := argstr 0 MAXPATH in
  let* ip := (if r <? 0 then ret 0 else Fs.namei path) in
  if ip =? 0 then kend_op ;;; ret (-1)
  else
    ilock ip ;;;
    let* x := geti ip in
    if negb (itype x =? T_DIR) then
      iunlockput ip ;;; kend_op ;;; ret (-1)
    else
      iunlock ip ;;;
      let* p := getp i in
      Fs.iput (cwd p) ;;;
      kend_op ;;;
      updp i (λ p, p <| cwd := ip |>) ;;;
      ret 0.

(** ** exec and pipe *)

(** Fetching the argument strings, from index [i] on: the pages allocated,
    and whether all strings were fetched. *)
Definition fetch_args (uargv : Z) : M kernel (list Z * bool) :=
  loop 40 (λ '(i, argv),
    if MAXARG <=? i then ret (inr (argv, false))
    else
      let* (r, uarg) := fetchaddr (u64 (uargv + 8 * i)) in
      if r <? 0 then ret (inr (argv, false))
      else if uarg =? 0 then ret (inr (argv, true))
      else
        let* page := kern kalloc in
        if page =? 0 then ret (inr (argv, false))
        else
          let* (r, bs) := fetchstr uarg PGSIZE in
          kern (wr_bytes page bs) ;;;
          if r <? 0 then ret (inr (argv ++ [page], false))
          else ret (inl (i + 1, argv ++ [page]))) (0, []).

Definition sys_exec : M kernel Z :=
  let* uargv := argaddr 1 in
  let* (r, path) := argstr 0 MAXPATH in
  if r <? 0 then ret (-1)
  else
    let* (argv, ok) := fetch_args uargv in
    let* r := (if ok : bool then exec path argv else ret (-1)) in
    for_each argv (λ a, kern (kfree a)) ;;;
    ret r.

Definition sys_pipe : M kernel Z :=
  let* i := myproc in
  let* fdarray := argaddr 0 in
  let* (r, files) := pipealloc in
  let rf := files.1 in
  let wf := files.2 in
  if r <? 0 then ret (-1)
  else
    let close := fileclose rf ;;; fileclose wf ;;; ret (-1) in
    let* fd0 := fdalloc rf in
    if fd0 <? 0 then close
    else
      let* fd1 := fdalloc wf in
      if fd1 <? 0 then set_ofile (Z.to_nat fd0) 0 ;;; close
      else
        let* p := getp i in
        let* r := kern (copyout (pagetable p) fdarray (le_bytes 4 fd0)) in
        let* r := (if r <? 0 then ret r
                   else kern (copyout (pagetable p) (u64 (fdarray + 4)) (le_bytes 4 fd1))) in
        if r <? 0 then
          set_ofile (Z.to_nat fd0) 0 ;;;
          set_ofile (Z.to_nat fd1) 0 ;;;
          close
        else ret 0.
End sysfile.
