(* ===== verification/Sysproc.v ===== *)
(** * Process system calls (kernel/sysproc.c)

    A call answers [Some] result, or [None] when the process left the CPU
    inside the call ([sleep], [wait], [exit]); the call is then continued by
    the function named [.._again], if it is.  [yield] gives up the CPU and
    returns when the scheduler picks the same process again; what other
    processes do in between are steps of their own. *)

From Stdlib Require Import ZArith Lia.
From stdpp Require Import base numbers list gmap strings tactics.
From S2P Require Import Prelude Riscv Mem Bytes Kalloc Vm Proc Sched Ftypes Fs File Syscall.

Local Open Scope Z_scope.

Definition chan_ticks : channel := ChGlobal "ticks".

(** The scheduler runs process [i] again. *)
Definition resume (i : nat) : M kernel unit := acquire (LProc i) ;;; dispatch i ;;; yield_in.
Definition yield : M kernel unit := let* i := myproc in yield_out ;;; resume i.

Definition sys_sigalarm : M kernel Z :=
  let* i := myproc in
  updp i (λ p, p <| current_ticks := 0 |>) ;;;
  let* t := argint 0 in
  updp i (λ p, p <| pticks := t |>) ;;;
  let* h := argaddr 1 in
  updp i (λ p, p <| handler := h |>) ;;;
  ret 0.

Definition sys_sigreturn : M kernel Z :=
  let* i := myproc in
  let* p := getp i in
  kern (kmemmove (trapframe p) (sigalarm p) PGSIZE) ;;;
  kern (kfree (sigalarm p)) ;;;
  updp i (λ p, p <| current_ticks := 0 |>) ;;;
  kern (rd64 (trapframe p + tf_a0)).

Definition sys_set_priority : M kernel Z :=
  let* priority := argint 0 in
  let* pid := argint 1 in
  let* r := for_find table (λ i,
    acquire (LProc i) ;;;
    let* p := getp i in
    if Proc.pid p =? pid then
      updp i (λ p, p <| dynamic_priority := s32 (priority + 25) |>) ;;;
      updp i (λ p, p <| Proc.priority := priority |>) ;;;
      release (LProc i) ;;;
      ret (Some (Proc.priority p))
    else release (LProc i) ;;; ret None) in
  match r with
  | None => ret (-1)
  | Some oldpriority =>
      (if priority <? oldpriority then yield else ret tt) ;;;
      ret oldpriority
  end.

Definition sys_getpid : M kernel Z := let* p := curproc in ret (pid p).

Definition sys_sbrk : M kernel Z :=
  let* n := argint 0 in
  let* p := curproc in
  let addr := sz p in
  let* r := growproc n in
  if r <? 0 then ret (-1) else ret addr.

(** One round of the loop of [sys_sleep], with [tickslock] held. *)
Definition sleep_pass (ticks0 n : Z) : M kernel (option Z) :=
  let* now := gticks in
  if u32 (now - ticks0) <? u32 n then
    let* i := myproc in
    let* k := killed i in
    if negb (k =? 0) then release LTicks ;;; ret (Some (-1))
    else sleep_out chan_ticks LTicks ;;; ret None
  else release LTicks ;;; ret (Some 0).
Definition sys_sleep : M kernel (option Z) :=
  let* n := argint 0 in
  acquire LTicks ;;;
  let* ticks0 := gticks in
  sleep_pass ticks0 n.
Definition sys_sleep_again (ticks0 n : Z) : M kernel (option Z) :=
  sleep_in LTicks ;;; sleep_pass ticks0 n.

Definition sys_kill : M kernel Z := let* pid := argint 0 in kill pid.

Definition sys_uptime : M kernel Z :=
  acquire LTicks ;;;
  let* xticks := gticks in
  release LTicks ;;;
  ret xticks.

(** [junk] are the values of the local variables [wtime] and [rtime], which
    [waitx] does not assign when it reaps no child. *)
Definition sys_waitx (junk : Z * Z) : M kernel (option Z) :=
  let* addr := argaddr 0 in
  let* addr1 := argaddr 1 in
  let* addr2 := argaddr 2 in
  let* r := waitx addr in
  match r with
  | None => ret None
  | Some (r, times) =>
      let times := default junk times in
      let* p := curproc in
      let* c := kern (copyout (pagetable p) addr1 (le_bytes 4 times.1)) in
      if c <? 0 then ret (Some (-1))
      else
        let* c := kern (copyout (pagetable p) addr2 (le_bytes 4 times.2)) in
        if c <? 0 then ret (Some (-1)) else ret (Some r)
  end.

Definition sys_wait : M kernel (option Z) := let* p := argaddr 0 in wait p.

Section with_symbols.
Context `{Symbols}.
Definition sys_exit : M kernel (option Z) := let* n := argint 0 in exit n ;;; ret None.
Definition sys_fork : M kernel Z := fork.
End with_symbols.
