(* ===== verification/Trap.v ===== *)
(** * Traps and the system call table (kernel/trap.c, kernel/syscall.c)

    The control registers a handler reads are its arguments; the ones it
    writes are its result.  The addresses of the trampoline's labels and of
    [usertrap] come from the linker; the interrupt number is what the PLIC
    answered.  The disk's interrupt has no effect here, because a disk request
    completes within the call that makes it. *)

From Stdlib Require Import ZArith Lia.
From stdpp Require Import base numbers list gmap strings tactics.
From S2P Require Import Prelude Riscv Mem Bytes Kalloc Vm Proc Sched Ftypes Fs File Console.
From S2P Require Import Syscall Exec Sysfile Sysproc.

Local Open Scope Z_scope.

(** The scheduler the kernel was compiled for. *)
Inductive policy := RR | FCFS | PBS | MLFQ.

Class TrapSymbols := {
  sym_uservec : Z;      (** [uservec - trampoline] *)
  sym_userret : Z;      (** [userret - trampoline] *)
  sym_usertrap : Z;
}.

(** What uninitialised stack variables hold. *)
Record junk := Junk { junk_stat : list Z; junk_times : Z * Z }.

Section trap.
Context `{Symbols} `{TrapSymbols}.
Context (sched : policy) (stack : junk).

(** [syscalls[num]] *)
Definition some {A} (m : M kernel A) : M kernel (option A) := let* a := m in ret (Some a).
Definition syscalls (num : Z) : option (M kernel (option Z)) :=
  match num with
  | 1 => Some (some sys_fork)
  | 2 => Some sys_exit
  | 3 => Some sys_wait
  | 4 => Some (some sys_pipe)
  | 5 => Some (some sys_read)
  | 6 => Some (some sys_kill)
  | 7 => Some (some sys_exec)
  | 8 => Some (some (sys_fstat (junk_stat stack)))
  | 9 => Some (some sys_chdir)
  | 10 => Some (some sys_dup)
  | 11 => Some (some sys_getpid)
  | 12 => Some (some sys_sbrk)
  | 13 => Some sys_sleep
  | 14 => Some (some sys_uptime)
  | 15 => Some (some sys_open)
  | 16 => Some (some sys_write)
  | 17 => Some (some sys_mknod)
  | 18 => Some (some sys_unlink)
  | 19 => Some (some sys_link)
  | 20 => Some (some sys_mkdir)
  | 21 => Some (some sys_close)
  | 22 => Some (sys_waitx (junk_times stack))
  | 23 => Some (some sys_getreadcount)
  | 24 => Some (some sys_sigalarm)
  | 25 => Some (some sys_sigreturn)
  | 26 => Some (some sys_set_priority)
  | _ => None
  end.

(** [false] when the process left the CPU inside the call. *)
Definition syscall : M kernel bool :=
  let* p := curproc in
  let* a7 := kern (rd64 (trapframe p + tf_a7)) in
  let num := s32 a7 in
  match syscalls num with
  | Some call =>
      let* r := call in
      match r with
      | Some r =>
          kern (wr64 (trapframe p + tf_a0) (u64 r)) ;;;
          ret true
      | None => ret false
      end
  | None =>
      kern (wr64 (trapframe p + tf_a0) (u64 (-1))) ;;;
      ret true
  end.

(** ** Interrupts *)

Definition count_tick (p : proc) : proc :=
  match state p with
  | RUNNING => p <| run_time ::= (λ t, s32 (t + 1)) |>
  | SLEEPING => p <| wait_time ::= (λ t, s32 (t + 1)) |>
  | RUNNABLE => p <| sleep_time ::= (λ t, s32 (t + 1)) |>
  | _ => p
  end.

Definition clockintr : M kernel unit :=
  acquire LTicks ;;;
  modify (λ s : kernel, s <| ticks := u32 (ticks s + 1) |>) ;;;
  update_time ;;;
  for_each table (λ i,
    acquire (LProc i) ;;;
    updp i count_tick ;;;
    release (LProc i)) ;;;
  wakeup chan_ticks ;;;
  release LTicks.


(** [irq] is what [plic_claim] answers, [hart] is [cpuid()]. *)
Definition devintr (scause irq hart : Z) : M kernel Z :=
  if negb (Z.land scause (2^63) =? 0) && (Z.land scause 0xff =? 9) then
    (if irq =? UART0_IRQ then uartintr else ret tt) ;;;
    ret 1
  else if scause =? 2^63 + 1 then
    (if hart =? 0 then clockintr else ret tt) ;;;
    ret 2
  else ret 0.

(** What a timer interrupt does to the process that runs. *)
Definition preempt : M kernel unit :=
  match sched with
  | RR | PBS => yield
  | MLFQ =>
      let* i := myproc in
      let* gone := mlfq_yield in
      if gone : bool then resume i else ret tt
  | FCFS => ret tt
  end.

(** ** The trap from user space *)

(** The alarm of [sigalarm], at a timer interrupt. *)
Definition alarm_tick (i : nat) : M kernel unit :=
  let* p := getp i in
  if negb (pticks p =? 0) then
    if current_ticks p =? s32 (pticks p + 1) then
      updp i (λ p, p <| current_ticks := s32 (current_ticks p + 1) |>) ;;;
      let* page := kern kalloc in
      updp i (λ p, p <| sigalarm := page |>) ;;;
      if negb (page =? 0) then
        kern (kmemset page 0 PGSIZE) ;;;
        kern (kmemmove page (trapframe p) PGSIZE) ;;;
        kern (wr64 (trapframe p + tf_epc) (handler p))
      else ret tt
    else if 0 <? pticks p then
      updp i (λ p, p <| current_ticks := s32 (current_ticks p + 1) |>)
    else ret tt
  else ret tt.

(** Control registers on entry. *)
Record csrs := Csrs { r_sstatus : Z; r_scause : Z; r_sepc : Z; r_stval : Z; r_satp : Z; r_tp : Z }.
Definition SSTATUS_SPP : Z := Z.shiftl 1 8.
Definition SSTATUS_SPIE : Z := Z.shiftl 1 5.

(** Control registers [usertrapret] leaves. *)
Record ret_csrs := RetCsrs { w_stvec : Z; w_sstatus : Z; w_sepc : Z; w_satp : Z }.

Definition usertrapret (c : csrs) : M kernel ret_csrs :=
  let* p := curproc in
  let tf := trapframe p in
  kern (wr64 (tf + tf_kernel_satp) (r_satp c)) ;;;
  kern (wr64 (tf + tf_kernel_sp) (u64 (kstack p + PGSIZE))) ;;;
  kern (wr64 (tf + tf_kernel_trap) sym_usertrap) ;;;
  kern (wr64 (tf + tf_kernel_hartid) (r_tp c)) ;;;
  let x := Z.lor (Z.land (r_sstatus c) (Z.lnot SSTATUS_SPP)) SSTATUS_SPIE in
  let* epc := kern (rd64 (tf + tf_epc)) in
  ret (RetCsrs (TRAMPOLINE + sym_uservec) x epc (MAKE_SATP (pagetable p))).

(** The first thing a new process does; [first] is the static variable, and
    the new value of it is returned too. *)
Definition forkret (first : bool) (c : csrs) : M kernel (ret_csrs * bool) :=
  let* i := myproc in
  release (LProc i) ;;;
  (if first then fsinit ROOTDEV else ret tt) ;;;
  let* r := usertrapret c in
  ret (r, false).

(** The registers for the return to user space, or [None] when the process
    left the CPU for good or inside a system call. *)
Definition usertrap (c : csrs) (irq : Z) : M kernel (option ret_csrs) :=
  if negb (Z.land (r_sstatus c) SSTATUS_SPP =? 0) then panic "usertrap: not from user mode"
  else
    let* i := myproc in
    let* p := getp i in
    let tf := trapframe p in
    kern (wr64 (tf + tf_epc) (r_sepc c)) ;;;
    (* the handler: the device number and whether the process is still here *)
    let* (which_dev, here) :=
      (if r_scause c =? 15 then
         let* sp := kern (rd64 (tf + tf_sp)) in
         let* k := kern (removecopy (pagetable p) (r_stval c) (PGROUNDDOWN sp)) in
         updp i (λ p, p <| killed_ := k |>) ;;;
         ret (0, true)
       else if r_scause c =? 8 then
         let* k := killed i in
         if negb (k =? 0) then exit (-1) ;;; ret (0, false)
         else
           let* epc := kern (rd64 (tf + tf_epc)) in
           kern (wr64 (tf + tf_epc) (u64 (epc + 4))) ;;;
           let* here := syscall in
           ret (0, here)
       else
         let* d := devintr (r_scause c) irq (r_tp c) in
         if negb (d =? 0) then ret (d, true)
         else setkilled i ;;; ret (0, true)) in
    if negb here then ret None
    else
      let* k := killed i in
      if negb (k =? 0) then exit (-1) ;;; ret None
      else
        (if which_dev =? 2 then alarm_tick i ;;; preempt else ret tt) ;;;
        let* r := usertrapret c in
        ret (Some r).

(** ** The trap from the kernel *)

(** The registers restored for [kernelvec]: [sepc] and [sstatus]. *)
Definition kerneltrap (c : csrs) (intr : bool) (irq : Z) : M kernel (Z * Z) :=
  if Z.land (r_sstatus c) SSTATUS_SPP =? 0 then panic "kerneltrap: not from supervisor mode"
  else if intr then panic "kerneltrap: interrupts enabled"
  else
    let* d := devintr (r_scause c) irq (r_tp c) in
    if d =? 0 then panic "kerneltrap"
    else
      let* s := get in
      (if d =? 2 then
         match cur s with
         | None => ret tt
         | Some i =>
             let* p := getp i in
             if decide (state p = RUNNING) then preempt else ret tt
         end
       else ret tt) ;;;
      ret (r_sepc c, r_sstatus c).
End trap.
