(* ===== verification/Virtio.v ===== *)
(** * The disk driver (kernel/virtio_disk.c, kernel/virtio.h)

    The descriptor table, the two rings and the driver's book-keeping.  A
    pointer handed to the device is what it points to: a command header, the
    data of a buffer, a status byte.  [virtio_disk_rw] is split where it
    sleeps: the part up to the notification, and the part after the wait. *)

From Stdlib Require Import ZArith Lia.
From stdpp Require Import base numbers list gmap strings tactics.
From S2P Require Import Prelude.

Local Open Scope Z_scope.

Definition NUM : nat := 8.
Definition VRING_DESC_F_NEXT : Z := 1.
Definition VRING_DESC_F_WRITE : Z := 2.
Definition VIRTIO_BLK_T_IN : Z := 0.
Definition VIRTIO_BLK_T_OUT : Z := 1.

Definition u16 (x : Z) : Z := x mod 2^16.

Inductive daddr : Type :=
  | ANull
  | AOp (i : nat)        (** [&disk.ops[i]] *)
  | AData (b : nat)      (** [b->data] *)
  | AStatus (i : nat).   (** [&disk.info[i].status] *)

(** [struct virtq_desc] *)
Record virtq_desc := VirtqDesc {
  addr : daddr;
  dlen : Z;
  dflags : Z;
  dnext : nat;
}.
(** [struct virtio_blk_req] *)
Record virtio_blk_req := VirtioBlkReq {
  rtype : Z;
  rsector : Z;
}.

(** [disk], the [disk] fields and the data of the buffers, and the platter. *)
Record vdisk := VDisk {
  desc : list virtq_desc;
  avail_idx : Z;
  avail_ring : list nat;
  used_ring_idx : Z;            (** [disk.used->idx], written by the device *)
  used_ring : list nat;
  dfree : list bool;
  used_idx : Z;
  info_b : list (option nat);
  info_status : list Z;
  ops : list virtio_blk_req;
  b_disk : gmap nat Z;
  b_data : gmap nat (list Z);
  platter : gmap Z (list Z);    (** by first sector *)
}.
#[global] Instance eta_vdisk : Eta vdisk := λ s,
  VDisk (desc s) (avail_idx s) (avail_ring s) (used_ring_idx s) (used_ring s) (dfree s) (used_idx s)
        (info_b s) (info_status s) (ops s) (b_disk s) (b_data s) (platter s).

Definition null_desc : virtq_desc := VirtqDesc ANull 0 0 0.

(** ** Descriptors *)

Fixpoint first_free (l : list bool) : option nat :=
  match l with
  | [] => None
  | f :: l => if f then Some 0%nat else S <$> first_free l
  end.

Definition alloc_desc : M vdisk (option nat) :=
  let* s := get in
  match first_free (dfree s) with
  | Some i => put (s <| dfree ::= <[i := false]> |>) ;;; ret (Some i)
  | None => ret None
  end.

Definition free_desc (i : nat) : M vdisk unit :=
  if (NUM <=? i)%nat then panic "free_desc 1"
  else
    let* s := get in
    if default false (dfree s !! i) then panic "free_desc 2"
    else put (s <| desc ::= <[i := null_desc]> |> <| dfree ::= <[i := true]> |>).

Fixpoint free_chain (fuel : nat) (i : nat) : M vdisk unit :=
  match fuel with
  | O => λ _, NoFuel
  | S fuel =>
      let* s := get in
      match desc s !! i with
      | None => fault "desc"
      | Some d =>
          free_desc i ;;;
          if negb (Z.land (dflags d) VRING_DESC_F_NEXT =? 0) then free_chain fuel (dnext d) else ret tt
      end
  end.

(** The [i]-th round and the following ones; [idx] holds those before. *)
Fixpoint alloc_more (n : nat) (idx : list nat) : M vdisk (option (list nat)) :=
  match n with
  | O => ret (Some idx)
  | S n =>
      let* d := alloc_desc in
      match d with
      | Some i => alloc_more n (idx ++ [i])
      | None => for_each idx free_desc ;;; ret None
      end
  end.
Definition alloc3_desc : M vdisk (option (list nat)) := alloc_more 3 [].

(** ** Requests *)

(** The arguments of [virtio_disk_rw]: the buffer, its block, the direction. *)
Record request := Request {
  rq_buf : nat;
  rq_blockno : Z;
  rq_write : bool;
}.

Definition sector_of (r : request) : Z := u32 (rq_blockno r * 2).

(** From [buf0->type = ...] to [disk.avail->idx += 1]. *)
Definition submit (r : request) (i0 i1 i2 : nat) (s : vdisk) : vdisk :=
  let b := rq_buf r in
  let s := s <| ops ::= <[i0 := VirtioBlkReq (if rq_write r then VIRTIO_BLK_T_OUT else VIRTIO_BLK_T_IN) (sector_of r)]> |> in
  let s := s <| desc ::= <[i0 := VirtqDesc (AOp i0) 16 VRING_DESC_F_NEXT i1]> |> in
  let flags := Z.lor (if rq_write r then 0 else VRING_DESC_F_WRITE) VRING_DESC_F_NEXT in
  let s := s <| desc ::= <[i1 := VirtqDesc (AData b) 1024 flags i2]> |> in
  let s := s <| info_status ::= <[i0 := 255]> |> in
  let s := s <| desc ::= <[i2 := VirtqDesc (AStatus i0) 1 VRING_DESC_F_WRITE 0]> |> in
  let s := s <| b_disk ::= <[b := 1]> |> in
  let s := s <| info_b ::= <[i0 := Some b]> |> in
  let s := s <| avail_ring ::= <[Z.to_nat (avail_idx s mod Z.of_nat NUM) := i0]> |> in
  s <| avail_idx ::= (λ i, u16 (i + 1)) |>.

(** [virtio_disk_rw] up to the wait; [None] when it sleeps for descriptors. *)
Definition rw_start (r : request) : M vdisk (option (nat * nat * nat)) :=
  let* idx := alloc3_desc in
  match idx with
  | Some [i0; i1; i2] => modify (submit r i0 i1 i2) ;;; ret (Some (i0, i1, i2))
  | _ => ret None
  end.

(** The test of the wait and the rest of [virtio_disk_rw]; [false] when the
    process goes to sleep again. *)
Definition rw_finish (b i0 : nat) : M vdisk bool :=
  let* s := get in
  if default 0 (b_disk s !! b) =? 1 then ret false
  else
    put (s <| info_b ::= <[i0 := None]> |>) ;;;
    free_chain NUM i0 ;;;
    ret true.

(** The loop of [virtio_disk_intr]. *)
Fixpoint intr_loop (fuel : nat) : M vdisk unit :=
  match fuel with
  | O => λ _, NoFuel
  | S fuel =>
      let* s := get in
      if used_idx s =? used_ring_idx s then ret tt
      else
        match used_ring s !! Z.to_nat (used_idx s mod Z.of_nat NUM) with
        | None => fault "used ring"
        | Some id =>
            match info_status s !! id, info_b s !! id with
            | Some status, Some b =>
                if negb (status =? 0) then panic "virtio_disk_intr status"
                else
                  match b with
                  | None => fault "null buf"
                  | Some b =>
                      put (s <| b_disk ::= <[b := 0]> |> <| used_idx ::= (λ i, u16 (i + 1)) |>) ;;;
                      intr_loop fuel
                  end
            | _, _ => fault "info"
            end
        end
  end.
(** At most [NUM] entries can be new. *)
Definition virtio_disk_intr : M vdisk unit := intr_loop (S NUM).

(** The state after [virtio_disk_init]: [kalloc]ed and zeroed rings. *)
Definition virtio_disk_init (data : gmap nat (list Z)) (p : gmap Z (list Z)) : vdisk :=
  VDisk (replicate NUM null_desc) 0 (replicate NUM 0%nat) 0 (replicate NUM 0%nat) (replicate NUM true) 0
        (replicate NUM None) (replicate NUM 0) (replicate NUM (VirtioBlkReq 0 0)) ∅ data p.
