(* ===== verification/VirtioProps.v ===== *)
(** * The disk driver and its device

    The processes inside [virtio_disk_rw], the interrupt handler and the
    device run in any order.  What the driver relies on of the device is the
    class [Device]; the invariant says who owns each descriptor and where each
    request is, and from it follow that no panic of the driver can happen and
    that every request is carried out exactly once before its call returns. *)

From Stdlib Require Import ZArith Lia.
From stdpp Require Import base numbers list gmap strings tactics.
From S2P Require Import Prelude Virtio.

Local Open Scope Z_scope.

(** ** Rings

    [q] is what is in the ring between two free-running 16-bit counters. *)
Definition ring_holds (ring : list nat) (from to : Z) (q : list nat) : Prop :=
  length ring = NUM ∧ (length q ≤ NUM)%nat ∧ 0 ≤ from < 2^16 ∧ to = u16 (from + Z.of_nat (length q)) ∧
  ∀ k x, q !! k = Some x → ring !! Z.to_nat ((from + Z.of_nat k) mod 8) = Some x.

Lemma u16_mod8 x : u16 x mod 8 = x mod 8.
Proof. unfold u16. apply Z.mod_mod_divide. by exists 8192. Qed.

Lemma ring_push ring from to q x : ring_holds ring from to q → (length q < NUM)%nat →
  ring_holds (<[Z.to_nat (to mod Z.of_nat NUM) := x]> ring) from (u16 (to + 1)) (q ++ [x]).
Proof.
  intros (Hlen & Hq & Hf & -> & Hr) Hlt. unfold ring_holds, NUM in *. change (Z.of_nat 8) with 8. split_and!.
  - by rewrite length_insert.
  - rewrite length_app. simpl. lia.
  - lia.
  - lia.
  - rewrite length_app. simpl. unfold u16. rewrite Zplus_mod_idemp_l. f_equal. lia.
  - intros k y. rewrite u16_mod8. intros [Hk|[Hk Hy]]%lookup_app_Some.
    + pose proof (lookup_lt_Some _ _ _ Hk). rewrite list_lookup_insert_ne; [by apply Hr|].
      intros E. apply Z2Nat.inj in E; [|apply Z.mod_pos_bound; lia..]. dlia.
    + apply list_lookup_singleton_Some in Hy as [Hk0 <-]. replace k with (length q) by lia.
      apply list_lookup_insert_eq. rewrite Hlen. pose proof (Z.mod_pos_bound (from + Z.of_nat (length q)) 8). lia.
Qed.

Lemma ring_pop ring from to x q : ring_holds ring from to (x :: q) →
  from ≠ to ∧ ring !! Z.to_nat (from mod Z.of_nat NUM) = Some x ∧ ring_holds ring (u16 (from + 1)) to q.
Proof.
  intros (Hlen & Hq & Hf & -> & Hr). unfold NUM in *. change (Z.of_nat 8) with 8. simpl in Hq. split_and!.
  - simpl. unfold u16. dlia.
  - specialize (Hr 0%nat x eq_refl). by rewrite Z.add_0_r in Hr.
  - split_and!; [done|unfold NUM; lia|unfold u16; apply Z.mod_pos_bound; lia|unfold u16; apply Z.mod_pos_bound; lia| |].
    + simpl. unfold u16. rewrite Zplus_mod_idemp_l. f_equal. lia.
    + intros k y Hk. rewrite <- Zplus_mod_idemp_l, u16_mod8, Zplus_mod_idemp_l.
      specialize (Hr (S k) y Hk). by replace (from + 1 + Z.of_nat k) with (from + Z.of_nat (S k)) by lia.
Qed.

Lemma ring_empty ring from to : ring_holds ring from to [] → from = to.
Proof. intros (_ & _ & Hf & -> & _). simpl. unfold u16. rewrite Z.add_0_r, Z.mod_small; lia. Qed.

Lemma ring_nonempty ring from to q : ring_holds ring from to q → from ≠ to → ∃ x q', q = x :: q'.
Proof. intros H Hne. destruct q as [|x q]; [|eauto]. by apply ring_empty in H. Qed.

(** ** Requests in flight *)

(** The locals of a process inside [virtio_disk_rw]. *)
Record flight := Flight {
  fl_req : request;
  fl0 : nat;
  fl1 : nat;
  fl2 : nat;
}.
Definition fl_buf (f : flight) : nat := rq_buf (fl_req f).
Definition slots (f : flight) : list nat := [fl0 f; fl1 f; fl2 f].
Definition all_slots (fs : list flight) : list nat := mjoin (slots <$> fs).

Definition data_flags (r : request) : Z := Z.lor (if rq_write r then 0 else VRING_DESC_F_WRITE) VRING_DESC_F_NEXT.
(** The chain of three descriptors as the device finds it. *)
Definition formatted (s : vdisk) (f : flight) : Prop :=
  desc s !! fl0 f = Some (VirtqDesc (AOp (fl0 f)) 16 VRING_DESC_F_NEXT (fl1 f)) ∧
  desc s !! fl1 f = Some (VirtqDesc (AData (fl_buf f)) 1024 (data_flags (fl_req f)) (fl2 f)) ∧
  desc s !! fl2 f = Some (VirtqDesc (AStatus (fl0 f)) 1 VRING_DESC_F_WRITE 0) ∧
  ops s !! fl0 f = Some (VirtioBlkReq (if rq_write (fl_req f) then VIRTIO_BLK_T_OUT else VIRTIO_BLK_T_IN) (sector_of (fl_req f))).

(** ** Descriptors *)

(** [s'] is [s] with the descriptors [ids] free and cleared. *)
Definition freed (s s' : vdisk) (ids : list nat) : Prop :=
  ∃ D F, s' = s <| desc := D |> <| dfree := F |> ∧ length D = length (desc s) ∧ length F = length (dfree s) ∧
    (∀ i, i ∉ ids → D !! i = desc s !! i) ∧
    (∀ i, F !! i = if decide (i ∈ ids) then Some true else dfree s !! i).

Lemma freed_cons s s1 s2 i ids :
  freed s s1 [i] → freed s1 s2 ids → freed s s2 (i :: ids).
Proof.
  intros (D1 & F1 & -> & HD1 & HF1 & Hd1 & Hf1) (D2 & F2 & -> & HD2 & HF2 & Hd2 & Hf2). exists D2, F2.
  cbn in *. split_and!; [done|congruence|congruence| |].
  - intros j [Hi Hj]%not_elem_of_cons. rewrite Hd2, Hd1; [done|by apply not_elem_of_cons; split; [|apply not_elem_of_nil]|done].
  - intros j. rewrite Hf2, Hf1. repeat case_decide; set_solver.
Qed.

Lemma free_desc_spec s i : length (dfree s) = NUM → dfree s !! i = Some false →
  ∃ s', free_desc i s = Ret (tt, s') ∧ freed s s' [i].
Proof.
  intros Hlen Hi. pose proof (lookup_lt_Some _ _ _ Hi). unfold free_desc, bind, get, put.
  destruct (Nat.leb_spec NUM i); [lia|]. rewrite Hi. simpl. eexists. split; [done|].
  eexists _, _. split; [done|]. rewrite !length_insert. split_and!; [done|done| |].
  - intros j Hj%not_elem_of_cons. rewrite list_lookup_insert_ne; [done|]. intros ->. tauto.
  - intros j. destruct (decide (j = i)) as [->|Hne].
    + rewrite list_lookup_insert_eq by done. by rewrite decide_True by by left.
    + rewrite list_lookup_insert_ne by done. rewrite decide_False; [done|]. set_solver.
Qed.

Lemma free_all_spec ids : ∀ s, length (dfree s) = NUM → NoDup ids → Forall (λ i, dfree s !! i = Some false) ids →
  ∃ s', for_each ids free_desc s = Ret (tt, s') ∧ freed s s' ids.
Proof.
  induction ids as [|i ids IH]; intros s Hlen Hnd Hf; cbn [for_each].
  - exists s. split; [done|]. exists (desc s), (dfree s). split; [by destruct s|]. by split_and!.
  - inversion Hf as [|?? Hi Hf']; subst. apply list.NoDup_cons in Hnd as [Hni Hnd].
    destruct (free_desc_spec s i Hlen Hi) as (s1 & E1 & H1). rewrite (bind_Ret _ _ _ _ _ E1).
    pose proof H1 as (D1 & F1 & -> & _ & HF1 & _ & Hf1).
    destruct (IH (s <| desc := D1 |> <| dfree := F1 |>)) as (s2 & E2 & H2).
    + cbn. congruence.
    + done.
    + cbn. rewrite list.Forall_forall in Hf' |- *. intros j Hj. rewrite Hf1.
      rewrite decide_False; [by apply Hf'|]. intros ->%list_elem_of_singleton. done.
    + exists s2. split; [done|]. by eapply freed_cons.
Qed.

Lemma first_free_spec l : match first_free l with Some i => l !! i = Some true | None => True end.
Proof.
  induction l as [|[] l IH]; simpl; [done|done|]. by destruct (first_free l).
Qed.

Lemma alloc_desc_eq s :
  alloc_desc s = Ret (match first_free (dfree s) with
                      | Some i => (Some i, s <| dfree ::= <[i := false]> |>)
                      | None => (None, s)
                      end).
Proof. unfold alloc_desc, bind, get. by destruct (first_free (dfree s)). Qed.

Lemma alloc_more_spec n : ∀ idx s,
  length (dfree s) = NUM → NoDup idx → Forall (λ i, dfree s !! i = Some false) idx →
  ∃ r s', alloc_more n idx s = Ret (r, s') ∧
  match r with
  | Some l => ∃ new F, l = idx ++ new ∧ length new = n ∧ NoDup new ∧ Forall (λ i, dfree s !! i = Some true) new ∧
      s' = s <| dfree := F |> ∧ length F = length (dfree s) ∧
      ∀ i, F !! i = if decide (i ∈ new) then Some false else dfree s !! i
  | None => ∃ D F, s' = s <| desc := D |> <| dfree := F |> ∧ length D = length (desc s) ∧ length F = length (dfree s) ∧
      (∀ i, i ∉ idx → dfree s !! i = Some false → D !! i = desc s !! i) ∧
      (∀ i, F !! i = if decide (i ∈ idx) then Some true else dfree s !! i)
  end.
Proof.
  induction n as [|n IH]; intros idx s Hlen Hnd Hf; cbn [alloc_more].
  - eexists _, _. split; [done|]. exists [], (dfree s). rewrite app_nil_r.
    split_and!; [done|done|apply NoDup_nil_2|done|by destruct s|done|done].
  - pose proof (first_free_spec (dfree s)) as Hff. pose proof (alloc_desc_eq s) as Ha.
    destruct (first_free (dfree s)) as [i|]; rewrite (bind_Ret _ _ _ _ _ Ha).
    + set (s1 := s <| dfree ::= <[i:=false]> |>).
      assert (Hi : (i < length (dfree s))%nat) by by eapply lookup_lt_Some.
      assert (Hnot : i ∉ idx). { intros H. rewrite list.Forall_forall in Hf. specialize (Hf i H). congruence. }
      assert (Hf1 : ∀ j, dfree s1 !! j = if decide (j = i) then Some false else dfree s !! j).
      { intros j. cbn. case_decide as E; [subst; by apply list_lookup_insert_eq|by apply list_lookup_insert_ne]. }
      destruct (IH (idx ++ [i]) s1) as (r & s' & -> & Hr).
      { cbn. by rewrite length_insert. }
      { apply list.NoDup_app. split_and!; [done| |apply list.NoDup_singleton]. intros x Hx ->%list_elem_of_singleton. done. }
      { apply Forall_app. split; [|constructor; [by rewrite Hf1, decide_True|constructor]].
        rewrite list.Forall_forall in Hf |- *. intros j Hj. rewrite Hf1. case_decide; [done|by apply Hf]. }
      eexists _, _. split; [done|]. destruct r as [l|].
      * destruct Hr as (new & F & -> & <- & Hnn & Hfree & -> & HF & HFl).
        assert (Hin : i ∉ new).
        { intros Hx. rewrite list.Forall_forall in Hfree. specialize (Hfree i Hx). rewrite Hf1, decide_True in Hfree; done. }
        exists (i :: new), F. rewrite <- app_assoc. split_and!; try done.
        -- by apply list.NoDup_cons.
        -- constructor; [done|]. rewrite list.Forall_forall in Hfree |- *. intros j Hj.
           specialize (Hfree j Hj). rewrite Hf1 in Hfree. by case_decide.
        -- rewrite HF. cbn. by rewrite length_insert.
        -- intros j. rewrite HFl, Hf1. repeat case_decide; set_solver.
      * destruct Hr as (D & F & -> & HD & HF & Hd & HFl). exists D, F. split_and!; try done.
        -- rewrite HF. cbn. by rewrite length_insert.
        -- intros j Hj Hjf. apply Hd.
           ++ rewrite not_elem_of_app. split; [done|]. intros ->%list_elem_of_singleton. congruence.
           ++ rewrite Hf1. by case_decide.
        -- intros j. rewrite HFl, Hf1. repeat case_decide; set_solver.
    + destruct (free_all_spec idx s Hlen Hnd Hf) as (s1 & E1 & D & F & -> & HD & HF & Hd & HFl).
      unfold bind. rewrite E1. eexists _, _. split; [done|]. exists D, F. split_and!; auto.
Qed.

(** ** The device *)

Definition block_at (p : gmap Z (list Z)) (sector : Z) : list Z := default (replicate 1024 0) (p !! sector).

(** The transfer a request asks for. *)
Definition transfer (r : request) (m : gmap nat (list Z) * gmap Z (list Z)) : gmap nat (list Z) * gmap Z (list Z) :=
  if rq_write r then (m.1, <[sector_of r := default [] (m.1 !! rq_buf r)]> m.2)
  else (<[rq_buf r := block_at m.2 (sector_of r)]> m.1, m.2).

(** Completion of the chain with head [i]: the status byte, an entry of the
    used ring, its index. *)
Definition push_used (i : nat) (s : vdisk) : vdisk :=
  s <| info_status ::= <[i := 0]> |>
    <| used_ring ::= <[Z.to_nat (used_ring_idx s mod Z.of_nat NUM) := i]> |>
    <| used_ring_idx ::= (λ k, u16 (k + 1)) |>.

(** What the driver relies on: for a well-formed chain the device carries out
    the request, writes status 0 and adds the head to the used ring. *)
Class Device (complete : nat → vdisk → vdisk) : Prop :=
  complete_formatted : ∀ s f, formatted s f →
    complete (fl0 f) s =
      push_used (fl0 f)
        (let m := transfer (fl_req f) (b_data s, platter s) in s <| b_data := m.1 |> <| platter := m.2 |>).

(** A device that follows the descriptors. *)
Definition simple_device (i : nat) (s : vdisk) : vdisk :=
  match desc s !! i with
  | Some (VirtqDesc (AOp o) _ _ n1) =>
      match desc s !! n1, ops s !! o with
      | Some (VirtqDesc (AData b) _ _ n2), Some op =>
          match desc s !! n2 with
          | Some (VirtqDesc (AStatus j) _ _ _) =>
              let s1 :=
                if rtype op =? VIRTIO_BLK_T_OUT then s <| platter ::= <[rsector op := default [] (b_data s !! b)]> |>
                else s <| b_data ::= <[b := block_at (platter s) (rsector op)]> |> in
              s1 <| info_status ::= <[j := 0]> |>
                 <| used_ring ::= <[Z.to_nat (used_ring_idx s mod Z.of_nat NUM) := i]> |>
                 <| used_ring_idx ::= (λ k, u16 (k + 1)) |>
          | _ => s
          end
      | _, _ => s
      end
  | _ => s
  end.

#[export] Instance simple_device_ok : Device simple_device.
Proof.
  intros s f (H0 & H1 & H2 & Ho). unfold simple_device. rewrite H0, H1, Ho, H2. unfold transfer, fl_buf. simpl.
  by destruct (rq_write (fl_req f)).
Qed.

(** ** Runs *)

Record world := World {
  drv : vdisk;
  procs : list flight;       (** processes waiting in [virtio_disk_rw] *)
  last_avail : Z;            (** how far the device has read the avail ring *)
  fetched : list nat;        (** chains the device works on *)
  xfers : list request;      (** requests carried out, oldest first *)
  returned : list request;   (** requests whose call has returned *)
}.

Section driver.
Context (complete : nat → vdisk → vdisk) `{!Device complete}.

(** A caller holds the lock of its buffer, so no buffer is in flight twice. *)
Inductive step : world → world → Prop :=
  | step_start w r i0 i1 i2 s' :
      rq_buf r ∉ (fl_buf <$> procs w) → rw_start r (drv w) = Ret (Some (i0, i1, i2), s') →
      step w (World s' (procs w ++ [Flight r i0 i1 i2]) (last_avail w) (fetched w) (xfers w) (returned w))
  | step_no_desc w r s' :
      rw_start r (drv w) = Ret (None, s') →
      step w (World s' (procs w) (last_avail w) (fetched w) (xfers w) (returned w))
  | step_fetch w i :
      last_avail w ≠ avail_idx (drv w) → avail_ring (drv w) !! Z.to_nat (last_avail w mod Z.of_nat NUM) = Some i →
      step w (World (drv w) (procs w) (u16 (last_avail w + 1)) (fetched w ++ [i]) (xfers w) (returned w))
  | step_complete w i fs1 fs2 :
      fetched w = fs1 ++ i :: fs2 →
      step w (World (complete i (drv w)) (procs w) (last_avail w) (fs1 ++ fs2)
                    (xfers w ++ (fl_req <$> filter (λ f, fl0 f = i) (procs w))) (returned w))
  | step_intr w s' :
      virtio_disk_intr (drv w) = Ret (tt, s') →
      step w (World s' (procs w) (last_avail w) (fetched w) (xfers w) (returned w))
  | step_finish w f ps1 ps2 s' :
      procs w = ps1 ++ f :: ps2 → rw_finish (fl_buf f) (fl0 f) (drv w) = Ret (true, s') →
      step w (World s' (ps1 ++ ps2) (last_avail w) (fetched w) (xfers w) (returned w ++ [fl_req f])).

Definition boot (data : gmap nat (list Z)) (p : gmap Z (list Z)) : world :=
  World (virtio_disk_init data p) [] 0 [] [] [].

(** ** The invariant *)

Definition replay (rs : list request) (m : gmap nat (list Z) * gmap Z (list Z)) : gmap nat (list Z) * gmap Z (list Z) :=
  foldl (λ m r, transfer r m) m rs.

(** The requests in flight by where they are: in the avail ring, in the
    device, in the used ring, noted by the interrupt handler. *)
Record inv (m0 : gmap nat (list Z) * gmap Z (list Z)) (w : world) (pa pf pu pn : list flight) : Prop := {
  inv_procs : procs w ≡ₚ pa ++ pf ++ pu ++ pn;
  inv_slots : NoDup (all_slots (procs w));
  inv_free : ∀ i, (i < NUM)%nat → dfree (drv w) !! i = Some (bool_decide (i ∉ all_slots (procs w)));
  inv_range : Forall (λ i, (i < NUM)%nat) (all_slots (procs w));
  inv_lens : length (desc (drv w)) = NUM ∧ length (dfree (drv w)) = NUM ∧ length (info_b (drv w)) = NUM ∧
             length (info_status (drv w)) = NUM ∧ length (ops (drv w)) = NUM;
  inv_formatted : Forall (formatted (drv w)) (procs w);
  inv_avail : ring_holds (avail_ring (drv w)) (last_avail w) (avail_idx (drv w)) (fl0 <$> pa);
  inv_fetched : fetched w = fl0 <$> pf;
  inv_used : ring_holds (used_ring (drv w)) (used_idx (drv w)) (used_ring_idx (drv w)) (fl0 <$> pu);
  inv_info : Forall (λ f, info_b (drv w) !! fl0 f = Some (Some (fl_buf f))) (procs w);
  inv_bufs : NoDup (fl_buf <$> procs w);
  inv_busy : Forall (λ f, b_disk (drv w) !! fl_buf f = Some 1) (pa ++ pf ++ pu);
  inv_noted : Forall (λ f, b_disk (drv w) !! fl_buf f = Some 0) pn;
  inv_status : Forall (λ f, info_status (drv w) !! fl0 f = Some 0) pu;
  inv_xfers : xfers w ≡ₚ returned w ++ (fl_req <$> pu ++ pn);
  inv_data : (b_data (drv w), platter (drv w)) = replay (xfers w) m0;
}.

Lemma slots_app fs gs : all_slots (fs ++ gs) = all_slots fs ++ all_slots gs.
Proof. unfold all_slots. by rewrite fmap_app, join_app. Qed.

Lemma elem_of_slots i fs : i ∈ all_slots fs ↔ ∃ f, f ∈ fs ∧ i ∈ slots f.
Proof.
  unfold all_slots. rewrite list_elem_of_join. split.
  - intros (l & Hi & (f & -> & Hf)%list_elem_of_fmap). eauto.
  - intros (f & Hf & Hi). exists (slots f). split; [done|]. by apply list_elem_of_fmap_2.
Qed.

Lemma length_slots fs : length (all_slots fs) = (3 * length fs)%nat.
Proof. induction fs as [|f fs IH]; [done|]. change (length (slots f ++ all_slots fs) = (3 * S (length fs))%nat). rewrite length_app, IH. simpl. lia. Qed.

Lemma formatted_frame s s' f :
  (∀ i, i ∈ slots f → desc s' !! i = desc s !! i) → ops s' !! fl0 f = ops s !! fl0 f →
  formatted s f → formatted s' f.
Proof.
  intros Hd Ho (H0 & H1 & H2 & H3). unfold formatted. rewrite !Hd, Ho by (unfold slots; set_solver). done.
Qed.

(** At most two requests fit in the eight descriptors. *)
Lemma few_flights m0 w pa pf pu pn : inv m0 w pa pf pu pn → (length (procs w) ≤ 2)%nat.
Proof.
  intros I. pose proof (inv_range _ _ _ _ _ _ I) as Hr. pose proof (inv_slots _ _ _ _ _ _ I) as Hn.
  assert (Hsub : all_slots (procs w) ⊆+ seq 0 NUM).
  { apply NoDup_submseteq; [done|]. intros i Hi. rewrite list.Forall_forall in Hr.
    apply elem_of_seq. specialize (Hr i Hi). lia. }
  apply submseteq_length in Hsub. rewrite length_slots, length_seq in Hsub. unfold NUM in Hsub. lia.
Qed.

(** A process that gets no descriptors changes nothing that is in use. *)
Lemma no_desc_inv m0 w pa pf pu pn r s' :
  inv m0 w pa pf pu pn → rw_start r (drv w) = Ret (None, s') →
  inv m0 (World s' (procs w) (last_avail w) (fetched w) (xfers w) (returned w)) pa pf pu pn.
Proof.
  intros I E. destruct (inv_lens _ _ _ _ _ _ I) as (Hld & Hlf & Hl).
  destruct (alloc_more_spec 3 [] (drv w) Hlf) as (o & s1 & Ea & Ho); [apply NoDup_nil_2|done|].
  unfold rw_start, alloc3_desc in E. rewrite (bind_Ret _ _ _ _ _ Ea) in E.
  destruct o as [l|].
  { destruct Ho as (new & F & -> & Hn & _). destruct new as [|? [|? [|? [|]]]]; try done. }
  injection E as <-. destruct Ho as (D & F & -> & HD & HF & Hd & HFl).
  assert (Hfree : ∀ i, F !! i = dfree (drv w) !! i) by (intros i; by rewrite HFl).
  destruct I. constructor; cbn in *; try done.
  - intros i Hi. rewrite Hfree. by apply inv_free0.
  - split_and!; try (done || congruence); tauto.
  - rewrite list.Forall_forall in inv_formatted0 |- *. intros f Hf.
    apply (formatted_frame (drv w)); [|done|by apply inv_formatted0]. cbn. intros i Hi.
    apply Hd; [apply not_elem_of_nil|].
    assert (i ∈ all_slots (procs w)) as His by (apply elem_of_slots; eauto).
    rewrite list.Forall_forall in inv_range0. rewrite inv_free0 by by apply inv_range0.
    by rewrite bool_decide_eq_false_2 by tauto.
Qed.

(** [rw_start] does return. *)
Lemma rw_start_returns m0 w pa pf pu pn r :
  inv m0 w pa pf pu pn → ∃ o s', rw_start r (drv w) = Ret (o, s').
Proof.
  intros I. destruct (inv_lens _ _ _ _ _ _ I) as (_ & Hlf & _).
  destruct (alloc_more_spec 3 [] (drv w) Hlf) as (o & s1 & Ea & Ho); [apply NoDup_nil_2|done|].
  unfold rw_start, alloc3_desc. rewrite (bind_Ret _ _ _ _ _ Ea). destruct o as [l|]; [|by eexists _, _].
  destruct Ho as (new & F & -> & Hn & _). destruct new as [|? [|? [|? [|]]]]; try done. by eexists _, _.
Qed.

Lemma start_slots m0 w pa pf pu pn r i0 i1 i2 s' :
  inv m0 w pa pf pu pn → rw_start r (drv w) = Ret (Some (i0, i1, i2), s') →
  ∃ F, s' = submit r i0 i1 i2 ((drv w) <| dfree := F |>) ∧ length F = NUM ∧
    NoDup [i0; i1; i2] ∧ Forall (λ i, (i < NUM)%nat ∧ i ∉ all_slots (procs w)) [i0; i1; i2] ∧
    ∀ i, F !! i = if decide (i ∈ [i0; i1; i2]) then Some false else dfree (drv w) !! i.
Proof.
  intros I E. destruct (inv_lens _ _ _ _ _ _ I) as (_ & Hlf & _).
  destruct (alloc_more_spec 3 [] (drv w) Hlf) as (o & s1 & Ea & Ho); [apply NoDup_nil_2|done|].
  unfold rw_start, alloc3_desc in E. rewrite (bind_Ret _ _ _ _ _ Ea) in E. destruct o as [l|]; [|done].
  destruct Ho as (new & F & -> & Hn & Hnd & Hfree & -> & HF & HFl).
  destruct new as [|j0 [|j1 [|j2 [|]]]]; try done. simpl in E. injection E as -> -> -> <-.
  exists F. split_and!; [done|congruence|done| |done].
  eapply Forall_impl; [|exact Hfree]. intros i Hi. cbv beta in Hi. pose proof (lookup_lt_Some _ _ _ Hi).
  assert (i < NUM)%nat as Hlt by lia. split; [done|]. rewrite (inv_free _ _ _ _ _ _ I i Hlt) in Hi.
  injection Hi as Hi. by apply bool_decide_eq_true in Hi.
Qed.

(** What [submit] leaves of the tables. *)
Lemma submit_frame r i0 i1 i2 s i : i ∉ [i0; i1; i2] →
  desc (submit r i0 i1 i2 s) !! i = desc s !! i ∧ ops (submit r i0 i1 i2 s) !! i = ops s !! i ∧
  info_b (submit r i0 i1 i2 s) !! i = info_b s !! i ∧ info_status (submit r i0 i1 i2 s) !! i = info_status s !! i.
Proof.
  intros Hi. assert (i0 ≠ i ∧ i1 ≠ i ∧ i2 ≠ i) as (H0 & H1 & H2) by set_solver. cbn.
  by rewrite !list_lookup_insert_ne by done.
Qed.

Lemma submit_formatted r i0 i1 i2 s : NoDup [i0; i1; i2] →
  Forall (λ i, (i < length (desc s))%nat) [i0; i1; i2] → (i0 < length (ops s))%nat →
  formatted (submit r i0 i1 i2 s) (Flight r i0 i1 i2).
Proof.
  intros Hnd Hlt Ho. rewrite !list.NoDup_cons, !not_elem_of_cons in Hnd. destruct Hnd as ((H01 & H02 & _) & (H12 & _) & _).
  inversion Hlt as [|?? L0 Hlt1]; subst. inversion Hlt1 as [|?? L1 Hlt2]; subst. inversion Hlt2 as [|?? L2 _]; subst.
  unfold formatted, fl_buf. cbn. split_and!.
  - rewrite !list_lookup_insert_ne by done. by apply list_lookup_insert_eq.
  - rewrite list_lookup_insert_ne by done. apply list_lookup_insert_eq. by rewrite length_insert.
  - apply list_lookup_insert_eq. by rewrite !length_insert.
  - by apply list_lookup_insert_eq.
Qed.

Lemma start_inv m0 w pa pf pu pn r i0 i1 i2 s' :
  inv m0 w pa pf pu pn → rq_buf r ∉ (fl_buf <$> procs w) → rw_start r (drv w) = Ret (Some (i0, i1, i2), s') →
  inv m0 (World s' (procs w ++ [Flight r i0 i1 i2]) (last_avail w) (fetched w) (xfers w) (returned w))
      (pa ++ [Flight r i0 i1 i2]) pf pu pn.
Proof.
  intros I Hb E. destruct (start_slots _ _ _ _ _ _ _ _ _ _ _ I E) as (F & -> & HF & Hnd & Hnew & HFl).
  pose proof (few_flights _ _ _ _ _ _ I) as Hfew. set (f := Flight r i0 i1 i2).
  assert (Hs : all_slots (procs w ++ [f]) = all_slots (procs w) ++ [i0; i1; i2]) by by rewrite slots_app.
  assert (Hout : ∀ g i, g ∈ procs w → i ∈ slots g → i ∉ [i0; i1; i2]).
  { intros g i Hg Hi Hin. rewrite list.Forall_forall in Hnew. apply (Hnew i Hin). apply elem_of_slots. eauto. }
  set (s' := submit r i0 i1 i2 (drv w) <| dfree := F |>) in *.
  assert (Hsub : ∀ g i, g ∈ procs w → i ∈ slots g →
    desc s' !! i = desc (drv w) !! i ∧ ops s' !! i = ops (drv w) !! i ∧
    info_b s' !! i = info_b (drv w) !! i ∧ info_status s' !! i = info_status (drv w) !! i).
  { intros g i Hg Hi. exact (submit_frame r i0 i1 i2 (drv w) <| dfree := F |> i (Hout g i Hg Hi)). }
  assert (Hhead : ∀ g, fl0 g ∈ slots g) by (intros g; by left).
  assert (Hdiff : ∀ g, g ∈ procs w → rq_buf r ≠ fl_buf g).
  { intros g Hg Eb. apply Hb. rewrite Eb. by apply list_elem_of_fmap_2. }
  destruct I. assert (Hpa : (length pa ≤ 2)%nat).
  { apply Permutation_length in inv_procs0. rewrite !length_app in inv_procs0. lia. }
  assert (Hmem : ∀ g, g ∈ pa ++ pf ++ pu ++ pn → g ∈ procs w) by (intros g; by rewrite inv_procs0).
  destruct inv_lens0 as (L1 & L2 & L3 & L4 & L5).
  assert (Hlt : ∀ i, i ∈ [i0; i1; i2] → (i < NUM)%nat) by (intros i Hi; rewrite list.Forall_forall in Hnew; by apply Hnew).
  constructor; cbn [drv procs last_avail fetched xfers returned].
  - rewrite inv_procs0. solve_Permutation.
  - rewrite Hs. apply list.NoDup_app. split_and!; [done| |done]. intros i Hi Hin.
    rewrite list.Forall_forall in Hnew. by apply (Hnew i Hin).
  - intros i Hi. cbn. rewrite HFl, Hs. case_decide as Hd.
    + rewrite bool_decide_eq_false_2; [done|]. intros H. apply H. apply elem_of_app. by right.
    + rewrite inv_free0 by done. f_equal. apply bool_decide_ext. rewrite elem_of_app. tauto.
  - rewrite Hs. apply Forall_app. split; [done|]. by apply list.Forall_forall.
  - cbn. by rewrite !length_insert.
  - apply Forall_app. split.
    + rewrite list.Forall_forall in inv_formatted0 |- *. intros g Hg.
      apply (formatted_frame (drv w)); [|by apply (Hsub g)|by apply inv_formatted0].
      intros i Hi. by apply (Hsub g).
    + constructor; [|done]. apply submit_formatted; [done| |].
      * apply list.Forall_forall. intros i Hi. cbn. rewrite L1. by apply Hlt.
      * cbn. rewrite L5. apply Hlt. by left.
  - rewrite fmap_app. cbn. apply (ring_push _ _ _ (fl0 <$> pa)); [done|]. rewrite length_fmap. unfold NUM. lia.
  - done.
  - done.
  - apply Forall_app. split.
    + rewrite list.Forall_forall in inv_info0 |- *. intros g Hg. cbv beta. rewrite <- (inv_info0 g Hg).
      by apply (Hsub g).
    + constructor; [|done]. cbn. apply list_lookup_insert_eq. rewrite L3. apply Hlt. by left.
  - rewrite fmap_app. apply list.NoDup_app. split_and!; [done| |apply list.NoDup_singleton].
    intros b Hbb ->%list_elem_of_singleton. done.
  - assert (Ho : ∀ g, g ∈ pa ++ pf ++ pu → b_disk s' !! fl_buf g = Some 1).
    { intros g Hg. cbn. rewrite lookup_insert_ne; [|apply Hdiff, Hmem; set_solver].
      rewrite list.Forall_forall in inv_busy0. by apply inv_busy0. }
    apply list.Forall_forall. intros g Hg.
    assert (g ∈ pa ++ pf ++ pu ∨ g = f) as [Hg'| ->] by set_solver; [by apply Ho|]. cbn. apply lookup_insert_eq.
  - rewrite list.Forall_forall in inv_noted0 |- *. intros g Hg. cbn.
    rewrite lookup_insert_ne; [by apply inv_noted0|]. apply Hdiff, Hmem. set_solver.
  - rewrite list.Forall_forall in inv_status0 |- *. intros g Hg. rewrite <- (inv_status0 g Hg).
    apply (Hsub g); [apply Hmem; set_solver|done].
  - done.
  - done.
Qed.

(** ** The device and the interrupt *)

Lemma heads_nodup fs : NoDup (all_slots fs) → NoDup (fl0 <$> fs).
Proof.
  induction fs as [|f fs IH]; [intros _; apply NoDup_nil_2|].
  change (NoDup (slots f ++ all_slots fs) → NoDup (fl0 f :: (fl0 <$> fs))).
  intros (_ & Hd & Hn)%list.NoDup_app. apply list.NoDup_cons. split; [|auto].
  intros (g & E & Hg)%list_elem_of_fmap. apply (Hd (fl0 f)); [by left|].
  apply elem_of_slots. exists g. split; [done|]. rewrite E. by left.
Qed.

Lemma filter_head fs f : NoDup (fl0 <$> fs) → f ∈ fs → filter (λ g, fl0 g = fl0 f) fs = [f].
Proof.
  intros Hn Hf. apply list_elem_of_split in Hf as (l1 & l2 & ->). rewrite fmap_app in Hn. simpl in Hn.
  apply list.NoDup_app in Hn as (_ & Hd & [Hni _]%list.NoDup_cons).
  rewrite (list.filter_app _), filter_cons_True by done.
  assert (Hnone : ∀ l, (∀ g, g ∈ l → fl0 g ≠ fl0 f) → filter (λ g, fl0 g = fl0 f) l = []).
  { induction l as [|g l IH]; intros H; [done|]. rewrite filter_cons_False; [apply IH|apply H; by left].
    intros h Hh. apply H. by right. }
  rewrite !Hnone; [done| |].
  - intros g Hg E. apply Hni. rewrite <- E. by apply list_elem_of_fmap_2.
  - intros g Hg E. apply (Hd (fl0 g)); [by apply list_elem_of_fmap_2|]. rewrite E. by left.
Qed.

Lemma fetch_inv m0 w pa pf pu pn i :
  inv m0 w pa pf pu pn → last_avail w ≠ avail_idx (drv w) →
  avail_ring (drv w) !! Z.to_nat (last_avail w mod Z.of_nat NUM) = Some i →
  ∃ f pa', pa = f :: pa' ∧
  inv m0 (World (drv w) (procs w) (u16 (last_avail w + 1)) (fetched w ++ [i]) (xfers w) (returned w)) pa' (pf ++ [f]) pu pn.
Proof.
  intros I Hne Hi. destruct I. destruct (ring_nonempty _ _ _ _ inv_avail0 Hne) as (x & q & Eq).
  destruct pa as [|f pa]; [done|]. exists f, pa. split; [done|]. simpl in inv_avail0.
  destruct (ring_pop _ _ _ _ _ inv_avail0) as (_ & Hx & Hr). rewrite Hi in Hx. injection Hx as ->.
  constructor; cbn [drv procs last_avail fetched xfers returned]; try done.
  - rewrite inv_procs0. solve_Permutation.
  - by rewrite fmap_app, inv_fetched0.
  - rewrite list.Forall_forall in inv_busy0 |- *. intros g Hg. apply inv_busy0. set_solver.
Qed.

Lemma complete_inv m0 w pa pf pu pn i fs1 fs2 :
  inv m0 w pa pf pu pn → fetched w = fs1 ++ i :: fs2 →
  ∃ f pf1 pf2, pf = pf1 ++ f :: pf2 ∧ i = fl0 f ∧
  inv m0 (World (complete i (drv w)) (procs w) (last_avail w) (fs1 ++ fs2)
                (xfers w ++ (fl_req <$> filter (λ f, fl0 f = i) (procs w))) (returned w))
      pa (pf1 ++ pf2) (pu ++ [f]) pn.
Proof.
  intros I Ef. pose proof (few_flights _ _ _ _ _ _ I) as Hfew. destruct I. rewrite inv_fetched0 in Ef.
  apply fmap_app_inv in Ef as (pf1 & pf' & -> & Hpf' & ->). symmetry in Hpf'.
  apply fmap_cons_inv in Hpf' as (f & pf2 & -> & -> & ->). exists f, pf1, pf2. split; [done|]. split; [done|].
  assert (Hf : f ∈ procs w) by (rewrite inv_procs0; set_solver).
  assert (Hpu : (length pu ≤ 2)%nat).
  { apply Permutation_length in inv_procs0. rewrite !length_app in inv_procs0. lia. }
  rewrite filter_head by (done || by apply heads_nodup).
  rewrite (complete_formatted (drv w) f) by (rewrite list.Forall_forall in inv_formatted0; by apply inv_formatted0).
  destruct inv_lens0 as (L1 & L2 & L3 & L4 & L5).
  constructor; cbn [drv procs last_avail fetched xfers returned]; try done.
  - rewrite inv_procs0. solve_Permutation.
  - cbn. by rewrite length_insert.
  - by rewrite fmap_app.
  - rewrite fmap_app. cbn. apply (ring_push _ _ _ (fl0 <$> pu)); [done|]. rewrite length_fmap. unfold NUM. lia.
  - rewrite list.Forall_forall in inv_busy0 |- *. intros g Hg. cbn. apply inv_busy0. set_solver.
  - apply Forall_app. split.
    + rewrite list.Forall_forall in inv_status0 |- *. intros g Hg. cbn.
      destruct (decide (fl0 g = fl0 f)) as [->|Hne]; [|rewrite list_lookup_insert_ne by done; by apply inv_status0].
      apply list_lookup_insert_eq. rewrite L4. rewrite list.Forall_forall in inv_range0. apply inv_range0.
      apply elem_of_slots. exists f. split; [done|by left].
    + constructor; [|done]. cbn. apply list_lookup_insert_eq. rewrite L4. rewrite list.Forall_forall in inv_range0.
      apply inv_range0. apply elem_of_slots. exists f. split; [done|by left].
  - rewrite inv_xfers0, !fmap_app. solve_Permutation.
  - unfold replay. rewrite foldl_app. simpl. fold (replay (xfers w) m0). rewrite <- inv_data0. cbn.
    by destruct (transfer (fl_req f) (b_data (drv w), platter (drv w))).
Qed.

Lemma intr_loop_inv fuel : ∀ m0 w pa pf pu pn,
  inv m0 w pa pf pu pn → (length pu < fuel)%nat →
  ∃ s', intr_loop fuel (drv w) = Ret (tt, s') ∧
    inv m0 (World s' (procs w) (last_avail w) (fetched w) (xfers w) (returned w)) pa pf [] (pn ++ pu).
Proof.
  induction fuel as [|fuel IH]; intros m0 w pa pf pu pn I Hlt; [lia|]. cbn [intr_loop]. unfold bind at 1, get.
  destruct pu as [|f pu].
  { rewrite (ring_empty _ _ _ (inv_used _ _ _ _ _ _ I)), Z.eqb_refl. eexists. split; [done|].
    rewrite app_nil_r. by destruct w. }
  destruct (ring_pop _ _ _ _ _ (inv_used _ _ _ _ _ _ I)) as (Hne & Hx & Hr).
  rewrite (proj2 (Z.eqb_neq _ _) Hne), Hx.
  pose proof I as I0. destruct I.
  assert (Hf : f ∈ procs w) by (rewrite inv_procs0; set_solver).
  rewrite list.Forall_forall in inv_info0. rewrite (inv_info0 f Hf).
  inversion inv_status0 as [|?? Hst Hsts]; subst. rewrite Hst. cbn [Z.eqb negb]. unfold bind at 1, put.
  set (s1 := _ <| used_idx ::= _ |>).
  assert (I1 : inv m0 (World s1 (procs w) (last_avail w) (fetched w) (xfers w) (returned w)) pa pf pu (pn ++ [f])).
  { assert (Hd : ∀ g, g ∈ procs w → g ≠ f → fl_buf f ≠ fl_buf g).
    { intros g Hg Hne' Eb. apply Hne'. apply list_elem_of_lookup in Hg as [k1 Hk1]. apply list_elem_of_lookup in Hf as [k2 Hk2].
      assert (k1 = k2) as ->; [|congruence].
      eapply NoDup_lookup; [exact inv_bufs0|by rewrite list_lookup_fmap, Hk1|by rewrite list_lookup_fmap, Hk2; simpl; rewrite Eb]. }
    assert (Hnd : NoDup (pa ++ pf ++ (f :: pu) ++ pn)).
    { rewrite <- inv_procs0. eapply NoDup_fmap_1. by apply heads_nodup. }
    assert (Hother : ∀ g, g ∈ pa ++ pf ++ pu ++ pn → g ≠ f).
    { intros g Hg ->. assert (Hp : pa ++ pf ++ (f :: pu) ++ pn ≡ₚ f :: pa ++ pf ++ pu ++ pn) by solve_Permutation.
      rewrite Hp in Hnd. apply list.NoDup_cons in Hnd as [Hn _]. done. }
    assert (Hin : ∀ g, g ∈ pa ++ pf ++ pu ++ pn → g ∈ procs w) by (intros g Hg; rewrite inv_procs0; set_solver).
    constructor; cbn [drv procs last_avail fetched xfers returned]; try done.
    - rewrite inv_procs0. solve_Permutation.
    - by apply list.Forall_forall.
    - rewrite list.Forall_forall in inv_busy0 |- *. intros g Hg. cbn.
      rewrite lookup_insert_ne; [apply inv_busy0; set_solver|]. apply Hd; [apply Hin|apply Hother]; set_solver.
    - apply Forall_app. split; [|constructor; [cbn; apply lookup_insert_eq|done]].
      rewrite list.Forall_forall in inv_noted0 |- *. intros g Hg. cbn.
      rewrite lookup_insert_ne; [by apply inv_noted0|]. apply Hd; [apply Hin|apply Hother]; set_solver.
    - rewrite inv_xfers0, !fmap_app. solve_Permutation. }
  simpl in Hlt. destruct (IH m0 _ pa pf pu (pn ++ [f]) I1 ltac:(lia)) as (s' & Es & I').
  exists s'. split; [done|]. rewrite <- app_assoc in I'. exact I'.
Qed.

(** ** The end of a request *)

Lemma free_chain_step fuel i s d s1 :
  desc s !! i = Some d → free_desc i s = Ret (tt, s1) →
  free_chain (S fuel) i s =
    if negb (Z.land (dflags d) VRING_DESC_F_NEXT =? 0) then free_chain fuel (dnext d) s1 else Ret (tt, s1).
Proof. intros Hd Hf. cbn [free_chain]. unfold bind, get. rewrite Hd, Hf. by case_match. Qed.

Lemma free_chain_eq s f : formatted s f → NoDup (slots f) → length (dfree s) = NUM →
  Forall (λ i, dfree s !! i = Some false) (slots f) →
  free_chain NUM (fl0 f) s = for_each (slots f) free_desc s.
Proof.
  intros (H0 & H1 & H2 & _) Hnd Hlen Hf. unfold slots in *.
  rewrite !list.NoDup_cons, !not_elem_of_cons in Hnd. destruct Hnd as ((H01 & H02 & _) & (H12 & _) & _).
  inversion Hf as [|?? F0 Hf1]; subst. inversion Hf1 as [|?? F1 Hf2]; subst. inversion Hf2 as [|?? F2 _]; subst.
  assert (Hne : ∀ i j : nat, i ≠ j → i ∉ [j]) by (intros i j Hij ->%list_elem_of_singleton; done).
  destruct (free_desc_spec s (fl0 f) Hlen F0) as (s1 & E1 & D1 & B1 & -> & HD1 & HB1 & Hd1 & Hb1).
  set (s1 := s <| desc := D1 |> <| dfree := B1 |>) in *.
  assert (Hlen1 : length (dfree s1) = NUM) by (cbn; congruence).
  assert (G1 : desc s1 !! fl1 f = Some (VirtqDesc (AData (fl_buf f)) 1024 (data_flags (fl_req f)) (fl2 f)))
    by (cbn; by rewrite Hd1 by by apply Hne).
  destruct (free_desc_spec s1 (fl1 f) Hlen1) as (s2 & E2 & D2 & B2 & -> & HD2 & HB2 & Hd2 & Hb2).
  { cbn. rewrite Hb1, decide_False by by apply Hne. done. }
  set (s2 := s1 <| desc := D2 |> <| dfree := B2 |>) in *.
  assert (G2 : desc s2 !! fl2 f = Some (VirtqDesc (AStatus (fl0 f)) 1 VRING_DESC_F_WRITE 0)).
  { cbn. rewrite Hd2 by by apply Hne. cbn. by rewrite Hd1 by by apply Hne. }
  destruct (free_desc_spec s2 (fl2 f)) as (s3 & E3 & _).
  { cbn. cbn in HB2. congruence. }
  { cbn. rewrite Hb2, decide_False by by apply Hne. cbn. rewrite Hb1, decide_False by by apply Hne. done. }
  unfold NUM. rewrite (free_chain_step _ _ _ _ _ H0 E1). cbn [dflags dnext].
  change (negb (Z.land VRING_DESC_F_NEXT VRING_DESC_F_NEXT =? 0)) with true. cbv iota.
  rewrite (free_chain_step _ _ _ _ _ G1 E2). cbn [dflags dnext].
  replace (negb (Z.land (data_flags (fl_req f)) VRING_DESC_F_NEXT =? 0)) with true
    by (unfold data_flags; by destruct (rq_write (fl_req f))).
  rewrite (free_chain_step _ _ _ _ _ G2 E3). cbn [dflags dnext for_each].
  change (negb (Z.land VRING_DESC_F_WRITE VRING_DESC_F_NEXT =? 0)) with false. cbv iota.
  unfold bind. by rewrite E1, E2, E3.
Qed.

Lemma finish_inv m0 w pa pf pu pn f ps1 ps2 :
  inv m0 w pa pf pu pn → procs w = ps1 ++ f :: ps2 →
  ∃ b s', rw_finish (fl_buf f) (fl0 f) (drv w) = Ret (b, s') ∧
    (if b then ∃ pn1 pn2, pn = pn1 ++ f :: pn2 ∧
       inv m0 (World s' (ps1 ++ ps2) (last_avail w) (fetched w) (xfers w) (returned w ++ [fl_req f])) pa pf pu (pn1 ++ pn2)
     else s' = drv w ∧ f ∈ pa ++ pf ++ pu).
Proof.
  intros I Ep. pose proof I as I0. destruct I.
  assert (Hf : f ∈ pa ++ pf ++ pu ++ pn) by (rewrite <- inv_procs0, Ep; set_solver).
  unfold rw_finish, bind at 1, get.
  assert (f ∈ pa ++ pf ++ pu ∨ f ∈ pn) as [Hb|Hn] by (rewrite !elem_of_app in *; tauto).
  { rewrite list.Forall_forall in inv_busy0.
    rewrite (inv_busy0 f Hb). simpl. eexists _, _. split; [done|]. simpl. done. }
  rewrite list.Forall_forall in inv_noted0. rewrite (inv_noted0 f Hn). cbn [default Z.eqb].
  set (s1 := (drv w) <| info_b ::= <[fl0 f := None]> |>).
  assert (Hs : all_slots (procs w) ≡ₚ slots f ++ all_slots (ps1 ++ ps2)).
  { rewrite Ep, !slots_app. change (all_slots (f :: ps2)) with (slots f ++ all_slots ps2). solve_Permutation. }
  rewrite Hs in inv_slots0, inv_range0. apply list.NoDup_app in inv_slots0 as (Hsf & Hdis & Hsr).
  apply Forall_app in inv_range0 as [Hrf Hrr]. destruct inv_lens0 as (L1 & L2 & L3 & L4 & L5).
  rewrite list.Forall_forall in inv_formatted0.
  assert (Hfalse : Forall (λ i, dfree s1 !! i = Some false) (slots f)).
  { apply list.Forall_forall. intros i Hi. cbn. rewrite list.Forall_forall in Hrf. rewrite inv_free0 by by apply Hrf.
    rewrite bool_decide_eq_false_2; [done|]. rewrite Hs. set_solver. }
  assert (Hfm : formatted s1 f) by (apply inv_formatted0; rewrite Ep; set_solver).
  destruct (free_all_spec (slots f) s1 L2 Hsf Hfalse) as (s2 & E2 & D & F & -> & HD & HF & Hd & HFl).
  pose proof (free_chain_eq s1 f Hfm Hsf L2 Hfalse) as Ec. rewrite E2 in Ec.
  eexists true, _. split.
  { unfold bind, put. fold s1. rewrite Ec. reflexivity. }
  apply list_elem_of_split in Hn as (pn1 & pn2 & ->). exists pn1, pn2. split; [done|].
  assert (Hout : ∀ g i, g ∈ ps1 ++ ps2 → i ∈ slots g → i ∉ slots f).
  { intros g i Hg Hi Hif. apply (Hdis i Hif). apply elem_of_slots. eauto. }
  assert (Hin : ∀ g, g ∈ ps1 ++ ps2 → g ∈ procs w) by (intros g; rewrite Ep; set_solver).
  constructor; cbn [drv procs last_avail fetched xfers returned]; try done.
  - rewrite Ep in inv_procs0. apply (Permutation_cons_inv (a := f)).
    transitivity (ps1 ++ f :: ps2); [solve_Permutation|]. rewrite inv_procs0. solve_Permutation.
  - intros i Hi. cbn. rewrite HFl. case_decide as Hd1.
    + rewrite bool_decide_eq_true_2; [done|]. by apply Hdis.
    + cbn. rewrite inv_free0 by done. f_equal. apply bool_decide_ext. rewrite Hs, elem_of_app. tauto.
  - cbn. rewrite length_insert. cbn in HD, HF. split_and!; (done || congruence).
  - apply list.Forall_forall. intros g Hg. apply (formatted_frame (drv w)); [|done|by apply inv_formatted0, Hin].
    intros i Hi. cbn. rewrite Hd; [done|]. by eapply Hout.
  - rewrite list.Forall_forall in inv_info0 |- *. intros g Hg. cbn.
    rewrite list_lookup_insert_ne; [by apply inv_info0, Hin|]. intros E.
    apply (Hout g (fl0 g) Hg); [by left|]. rewrite <- E. by left.
  - rewrite Ep, fmap_app in inv_bufs0. rewrite fmap_app. simpl in inv_bufs0.
    apply list.NoDup_app in inv_bufs0 as (N1 & Nd & [_ N2]%list.NoDup_cons). apply list.NoDup_app.
    split_and!; [done| |done]. intros b Hb1 Hb2. apply (Nd b Hb1). by right.
  - apply list.Forall_forall. intros g Hg. apply inv_noted0. set_solver.
  - rewrite inv_xfers0, !fmap_app. cbn. solve_Permutation.
Qed.

(** ** Reachable states *)

Lemma virtio_boot_inv data p : inv (data, p) (boot data p) [] [] [] [].
Proof.
  assert (Hr : ring_holds (replicate NUM 0%nat) 0 0 []) by (split_and!; try done; unfold NUM; simpl; lia).
  constructor; try done; try by constructor.
  intros i Hi. change (replicate NUM true !! i = Some (bool_decide (i ∉ @nil nat))).
  by rewrite lookup_replicate_2.
Qed.

Definition reachable (data : gmap nat (list Z)) (p : gmap Z (list Z)) (w : world) : Prop := rtc step (boot data p) w.

Lemma virtio_step_inv m0 w w' : step w w' → (∃ pa pf pu pn, inv m0 w pa pf pu pn) → ∃ pa pf pu pn, inv m0 w' pa pf pu pn.
Proof.
  intros Hs (pa & pf & pu & pn & I). destruct Hs as [w r i0 i1 i2 s' Hb E|w r s' E|w i Hne Hi|w i fs1 fs2 E|w s' E|w f ps1 ps2 s' Ep E].
  - do 4 eexists. by eapply start_inv.
  - do 4 eexists. by eapply no_desc_inv.
  - destruct (fetch_inv _ _ _ _ _ _ i I Hne Hi) as (f & pa' & _ & I'). eauto.
  - destruct (complete_inv _ _ _ _ _ _ i fs1 fs2 I E) as (f & pf1 & pf2 & _ & _ & I'). eauto.
  - pose proof (few_flights _ _ _ _ _ _ I) as Hfew. pose proof (inv_procs _ _ _ _ _ _ I) as Hp.
    apply Permutation_length in Hp. rewrite !length_app in Hp.
    destruct (intr_loop_inv (S NUM) m0 w pa pf pu pn I ltac:(unfold NUM; lia)) as (s2 & E2 & I').
    unfold virtio_disk_intr in E. rewrite E2 in E. injection E as <-. eauto.
  - destruct (finish_inv _ _ _ _ _ _ f ps1 ps2 I Ep) as (b & s2 & E2 & H). rewrite E2 in E. injection E as -> ->.
    destruct H as (pn1 & pn2 & _ & I'). eauto.
Qed.

Lemma virtio_reachable_inv data p w : reachable data p w → ∃ pa pf pu pn, inv (data, p) w pa pf pu pn.
Proof.
  unfold reachable. intros H. remember (boot data p) as w0. assert (∃ pa pf pu pn, inv (data, p) w0 pa pf pu pn) as H0.
  { subst. do 4 eexists. apply virtio_boot_inv. }
  clear Heqw0. revert H0. induction H as [w|w1 w2 w3 Hs _ IH]; [done|]. intros H0. apply IH. by eapply virtio_step_inv.
Qed.

(** C26: in every state that processes, interrupts and the device can bring
    about, no code path of the driver panics or faults: a new request gets
    three descriptors or waits, the interrupt handler finds status 0 and a
    buffer for every entry of the used ring, and a process that is woken with
    its buffer done frees three descriptors that are in use; each descriptor
    is free or belongs to exactly one request. *)
Theorem virtio_never_panics data p w :
  reachable data p w →
  (∀ r, ∃ o s', rw_start r (drv w) = Ret (o, s')) ∧
  (∃ s', virtio_disk_intr (drv w) = Ret (tt, s')) ∧
  (∀ f, f ∈ procs w → ∃ b s', rw_finish (fl_buf f) (fl0 f) (drv w) = Ret (b, s')) ∧
  NoDup (all_slots (procs w)) ∧
  ∀ i, (i < NUM)%nat → dfree (drv w) !! i = Some (bool_decide (i ∉ all_slots (procs w))).
Proof.
  intros (pa & pf & pu & pn & I)%virtio_reachable_inv. pose proof (few_flights _ _ _ _ _ _ I) as Hfew.
  pose proof (inv_procs _ _ _ _ _ _ I) as Hp. apply Permutation_length in Hp. rewrite !length_app in Hp. split_and!.
  - intros r. by eapply rw_start_returns.
  - destruct (intr_loop_inv (S NUM) _ w pa pf pu pn I ltac:(unfold NUM; lia)) as (s' & E & _). by exists s'.
  - intros f (ps1 & ps2 & Ep)%list_elem_of_split.
    destruct (finish_inv _ _ _ _ _ _ f ps1 ps2 I Ep) as (b & s' & E & _). by exists b, s'.
  - apply (inv_slots _ _ _ _ _ _ I).
  - apply (inv_free _ _ _ _ _ _ I).
Qed.

(** C25: the driver and its device implement a disk that carries out each
    request at one moment between the call of [virtio_disk_rw] and its return:
    in every reachable state the buffers and the disk are what the transfers
    so far, one after another, make of them, and these are the requests that
    have returned and some of those still waiting, each exactly once. *)
Theorem virtio_exactly_once data p w :
  reachable data p w →
  (b_data (drv w), platter (drv w)) = replay (xfers w) (data, p) ∧
  ∃ waiting others, procs w ≡ₚ waiting ++ others ∧ xfers w ≡ₚ returned w ++ (fl_req <$> waiting).
Proof.
  intros (pa & pf & pu & pn & I)%virtio_reachable_inv. split; [apply (inv_data _ _ _ _ _ _ I)|].
  exists (pu ++ pn), (pa ++ pf). split; [|apply (inv_xfers _ _ _ _ _ _ I)].
  rewrite (inv_procs _ _ _ _ _ _ I). solve_Permutation.
Qed.
End driver.

(** ** A run: a write of buffer 3 to block 5 and a read of block 5 into
    buffer 4, completed in that order and noted by one interrupt. *)
Module VirtioDemo.
Definition payload : list Z := [7; 8; 9].
Definition w_req : request := Request 3 5 true.
Definition r_req : request := Request 4 5 false.
Definition data0 : gmap nat (list Z) := {[ 3%nat := payload ]}.
Definition run_w {A} (m : M vdisk A) (s : vdisk) : vdisk := match m s with Ret (_, s') => s' | _ => s end.

Definition d0 : vdisk := virtio_disk_init data0 ∅.
Definition d1 : vdisk := run_w (rw_start w_req) d0.
Definition d2 : vdisk := run_w (rw_start r_req) d1.
Definition d3 : vdisk := simple_device 3 (simple_device 0 d2).
Definition d4 : vdisk := run_w virtio_disk_intr d3.
Definition d5 : vdisk := run_w (rw_finish 3 0) d4.
Definition fw : flight := Flight w_req 0 1 2.
Definition fr : flight := Flight r_req 3 4 5.
Definition final : world := World d5 [fr] 2 [] [w_req; r_req] [w_req].

Lemma started_w : rw_start w_req d0 = Ret (Some (0, 1, 2)%nat, d1).
Proof. vm_compute. reflexivity. Qed.
Lemma started_r : rw_start r_req d1 = Ret (Some (3, 4, 5)%nat, d2).
Proof. vm_compute. reflexivity. Qed.
Lemma noted : virtio_disk_intr d3 = Ret (tt, d4).
Proof. vm_compute. reflexivity. Qed.
Lemma finished : rw_finish 3 0 d4 = Ret (true, d5).
Proof. vm_compute. reflexivity. Qed.
Lemma announced : avail_idx d2 = 2 ∧ avail_ring d2 !! 0%nat = Some 0%nat ∧ avail_ring d2 !! 1%nat = Some 3%nat.
Proof. vm_compute. split_and!; reflexivity. Qed.

Lemma demo_run : rtc (step simple_device) (boot data0 ∅) final.
Proof.
  destruct announced as (E2 & R0 & R1).
  apply (rtc_l _ _ (World d1 [fw] 0 [] [] [])). { apply (step_start _ (boot data0 ∅) w_req), started_w. apply not_elem_of_nil. }
  apply (rtc_l _ _ (World d2 [fw; fr] 0 [] [] [])).
  { apply (step_start _ (World d1 [fw] 0 [] [] []) r_req), started_r. by intros [|?%elem_of_nil]%elem_of_cons. }
  apply (rtc_l _ _ (World d2 [fw; fr] 1 [0%nat] [] [])).
  { apply (step_fetch _ (World d2 [fw; fr] 0 [] [] []) 0); cbn [drv last_avail]; [by rewrite E2|exact R0]. }
  apply (rtc_l _ _ (World d2 [fw; fr] 2 [0%nat; 3%nat] [] [])).
  { apply (step_fetch _ (World d2 [fw; fr] 1 [0%nat] [] []) 3); cbn [drv last_avail]; [by rewrite E2|exact R1]. }
  apply (rtc_l _ _ (World (simple_device 0 d2) [fw; fr] 2 [3%nat] [w_req] [])).
  { by apply (step_complete _ (World d2 [fw; fr] 2 [0%nat; 3%nat] [] []) 0 [] [3%nat]). }
  apply (rtc_l _ _ (World d3 [fw; fr] 2 [] [w_req; r_req] [])).
  { by apply (step_complete _ (World (simple_device 0 d2) [fw; fr] 2 [3%nat] [w_req] []) 3 [] []). }
  apply (rtc_l _ _ (World d4 [fw; fr] 2 [] [w_req; r_req] [])).
  { apply (step_intr _ (World d3 [fw; fr] 2 [] [w_req; r_req] [])), noted. }
  apply (rtc_l _ _ final); [|apply rtc_refl].
  apply (step_finish _ (World d4 [fw; fr] 2 [] [w_req; r_req] []) fw [] [fr]); [done|exact finished].
Qed.
End VirtioDemo.
Import VirtioDemo.

Lemma virtio_never_panics_witness :
  (∀ r, ∃ o s', rw_start r d5 = Ret (o, s')) ∧ (∃ s', virtio_disk_intr d5 = Ret (tt, s')) ∧
  (∀ f, f ∈ [fr] → ∃ b s', rw_finish (fl_buf f) (fl0 f) d5 = Ret (b, s')) ∧
  NoDup (all_slots [fr]) ∧
  ∀ i, (i < NUM)%nat → dfree d5 !! i = Some (bool_decide (i ∉ all_slots [fr])).
Proof. apply (virtio_never_panics simple_device data0 ∅ final). exact demo_run. Defined.

Lemma virtio_exactly_once_witness :
  b_data d5 !! 4%nat = Some payload ∧
  (b_data d5, platter d5) = replay [w_req; r_req] (data0, ∅) ∧
  ∃ waiting others, [fr] ≡ₚ waiting ++ others ∧ [w_req; r_req] ≡ₚ [w_req] ++ (fl_req <$> waiting).
Proof. split; [vm_compute; reflexivity|]. apply (virtio_exactly_once simple_device data0 ∅ final). exact demo_run. Defined.
