(* ===== verification/AlarmProps.v ===== *)
(** * Alarms: sigalarm, the timer interrupt and sigreturn

    When the alarm of a process goes off, that its handler runs, and that
    [sigreturn] puts back the state of the process the alarm interrupted. *)

From Stdlib Require Import ZArith Lia.
From stdpp Require Import base numbers list gmap strings tactics.
From S2P Require Import Prelude Riscv Mem Bytes Kalloc Vm Proc ProcRules Bio Log Ftypes Syscall Sysproc Trap.

Local Open Scope Z_scope.

(** The bytes of page [p] in [m'] are those of page [q] in [m]. *)
Definition page_copy (m' : memory) (p : Z) (m : memory) (q : Z) : Prop :=
  ∀ k, 0 ≤ k < PGSIZE → load8 m' (p + k) = load8 m (q + k).

Lemma wp_kern_spec {A} (m : M kst A) (P : A → kst → Prop) (Q : A → kernel → Prop) s :
  wp m P (kmem s) → (∀ a k, P a k → Q a (s <| kmem := k |>)) → wp (kern m) Q s.
Proof.
  intros H HQ. destruct (proj1 (wp_returns _ _ _) H) as (a & k & E & HP).
  unfold wp, kern, lift. rewrite E. by apply HQ.
Qed.

(** Copying one page to another: [memset], [memmove]. *)
Lemma save_page lo m dst src : mem_bytes m → managed lo dst → managed lo src → dst ≠ src →
  let m' := memmove (memset m dst 0 PGSIZE) dst src PGSIZE in
  mem_bytes m' ∧ page_copy m' dst m src ∧ ∀ a, ¬ in_page dst a → load8 m' a = load8 m a.
Proof.
  intros Hb Hd Hs Hne. pose proof (managed_page_ok _ _ Hd) as Hdo. pose proof (managed_page_ok _ _ Hs) as Hso.
  unfold page_ok in *. unfold PGSIZE in *.
  assert (Hm : mem_bytes (memset m dst 0 4096)) by by apply mem_bytes_memset.
  assert (Hdis : ∀ a, in_page src a → ¬ in_page dst a).
  { intros a Ha Ha'. apply Hne. apply (pages_disjoint dst src a); [apply Hd|apply Hs|done|done]. }
  split_and!.
  - by apply mem_bytes_memmove.
  - intros k Hk. rewrite load8_memmove by (done || lia). unfold PGSIZE in Hk.
    test_true (dst <=? dst + k). test_true (dst + k <? dst + 4096). simpl.
    replace (src + (dst + k - dst)) with (src + k) by lia. rewrite load8_memset by lia.
    assert (¬ in_page dst (src + k)) as Ho by (apply Hdis; unfold in_page, PGSIZE; lia).
    unfold in_page, PGSIZE in Ho. by zcases.
  - intros a Ha. unfold in_page, PGSIZE in Ha. rewrite load8_memmove by (done || lia).
    zcases; try (exfalso; lia). all: rewrite load8_memset by lia; by zcases.
Qed.

(** ** The timer interrupt *)

(** Before its time the interrupt only counts. *)
Lemma alarm_counts i p (s : kernel) :
  procs s !! i = Some p → 0 < pticks p < 2^31 - 1 → 0 ≤ current_ticks p ≤ pticks p →
  wp (alarm_tick i) (λ _ s', s' = s <| procs := <[i := p <| current_ticks := current_ticks p + 1 |>]> (procs s) |>) s.
Proof.
  intros Hp Ht Hc. unfold alarm_tick. wp_simp. eapply wp_getp; [done|].
  test_false (pticks p =? 0). cbn [negb]. rewrite s32_small by lia. test_false (current_ticks p =? pticks p + 1).
  test_true (0 <? pticks p). eapply wp_updp; [done|]. by rewrite s32_small by lia.
Qed.

Lemma count_twice p a b : p <| current_ticks := a |> <| current_ticks := b |> = p <| current_ticks := b |>.
Proof. by destruct p. Qed.

Fixpoint ticks_pass (n : nat) (i : nat) : M kernel unit :=
  match n with O => ret tt | S n => alarm_tick i ;;; ticks_pass n i end.

Lemma ticks_pass_counts n : ∀ i p (s : kernel),
  procs s !! i = Some p → 0 < pticks p < 2^31 - 1 → 0 ≤ current_ticks p →
  current_ticks p + Z.of_nat n ≤ pticks p + 1 →
  wp (ticks_pass n i) (λ _ s',
    s' = s <| procs := <[i := p <| current_ticks := current_ticks p + Z.of_nat n |>]> (procs s) |>) s.
Proof.
  induction n as [|n IH]; intros i p s Hp Ht H0 Hc; cbn [ticks_pass]; wp_simp.
  - rewrite Z.add_0_r. replace (p <| current_ticks := current_ticks p |>) with p by by destruct p.
    rewrite list_insert_id by done. by destruct s.
  - eapply wp_mono; [|apply (alarm_counts i p s Hp Ht); lia]. intros _ s1 ->.
    pose proof (lookup_lt_Some _ _ _ Hp) as Hlt.
    eapply wp_mono; [|apply (IH i (p <| current_ticks := current_ticks p + 1 |>))].
    + intros _ s2 ->. rewrite set_procs_twice, count_twice. cbn [procs set_field]. simpl.
      rewrite list_insert_insert_eq.
      by replace (current_ticks p + 1 + Z.of_nat n) with (current_ticks p + Z.of_nat (S n)) by lia.
    + simpl. by apply list_lookup_insert_eq.
    + by destruct p.
    + destruct p; cbn in *. lia.
    + destruct p; cbn in *. lia.
Qed.

(** The alarm goes off: the trapframe is saved in a new page and the process
    will return to its handler. *)
Record fired (i : nat) (p : proc) (pg : Z) (lo : Z) (fl : list Z) (s s' : kernel) : Prop := {
  fired_procs : procs s' = <[i := p <| current_ticks := pticks p + 2 |> <| sigalarm := pg |>]> (procs s);
  fired_cur : cur s' = cur s;
  fired_kinv : kinv lo (kmem s') fl;
  fired_ref : nump (kmem s') (pg / PGSIZE) = 1;
  fired_saved : page_copy (mem (kmem s')) pg (mem (kmem s)) (trapframe p);
  fired_epc : load64 (mem (kmem s')) (trapframe p + tf_epc) = handler p;
  fired_rest : ∀ a, ¬ in_page pg a → ¬ (trapframe p + tf_epc ≤ a < trapframe p + tf_epc + 8) →
    load8 (mem (kmem s')) a = load8 (mem (kmem s)) a;
}.

Lemma alarm_fires lo i p pg fl (s : kernel) :
  procs s !! i = Some p → 0 < pticks p < 2^31 - 2 → current_ticks p = pticks p + 1 →
  kinv lo (kmem s) (pg :: fl) → managed lo (trapframe p) → trapframe p ∉ pg :: fl → 0 ≤ handler p < 2^64 →
  wp (alarm_tick i) (λ _ s', fired i p pg lo fl s s') s.
Proof.
  intros Hp Ht Hc Hk Htf Hnin Hh. pose proof (lookup_lt_Some _ _ _ Hp) as Hlt.
  assert (Hpg : managed lo pg) by (apply (ki_managed _ _ _ Hk); by left).
  assert (Hne : pg ≠ trapframe p) by (intros ->; apply Hnin; by left).
  assert (Hram : ram_range (trapframe p + tf_epc) 8 = true).
  { eapply managed_ram; [exact Htf|unfold tf_epc, PGSIZE; lia..]. }
  unfold alarm_tick. wp_simp. eapply wp_getp; [done|]. test_false (pticks p =? 0). cbn [negb].
  rewrite (s32_small (pticks p + 1)) by lia. rewrite Hc, Z.eqb_refl. wp_simp. eapply wp_updp; [done|].
  wp_simp. eapply wp_kern_spec; [apply (kalloc_spec lo _ _ Hk)|]. cbn beta iota.
  intros r k (-> & Hk1 & Href & Hout & _). wp_simp.
  eapply wp_updp; [simpl; by apply list_lookup_insert_eq|].
  rewrite (proj2 (Z.eqb_neq pg 0)) by (by eapply managed_nonzero). cbn [negb]. wp_simp.
  unfold kern. wp_simp. apply wp_kmemset; [by eapply managed_page_ram|]. wp_simp.
  apply wp_kmemmove; [by eapply managed_page_ram|by eapply managed_page_ram|]. wp_simp.
  apply wp_wr64; [done|]. cbn [kmem set_field].
  destruct (save_page lo (mem k) pg (trapframe p) (ki_bytes _ _ _ Hk1) Hpg Htf Hne) as (Hb & Hcopy & Hsame).
  set (m1 := memmove (memset (mem k) pg 0 PGSIZE) pg (trapframe p) PGSIZE) in *.
  assert (Hdis : ∀ a, in_page pg a → ¬ in_page (trapframe p) a).
  { intros a Ha Ha'. apply Hne. apply (pages_disjoint pg (trapframe p) a); [apply Hpg|apply Htf|done|done]. }
  assert (Hold : ∀ a, ¬ in_page pg a → load8 (mem k) a = load8 (mem (kmem s)) a).
  { intros a Ha. apply Hout. by intros q ->%list_elem_of_singleton. }
  assert (Hst : ∀ a, ¬ (trapframe p + tf_epc ≤ a < trapframe p + tf_epc + 8) →
    load8 (store64 m1 (trapframe p + tf_epc) (handler p)) a = load8 m1 a).
  { intros a Ha. apply load8_store64_ne. lia. }
  assert (Hepc : ∀ a, trapframe p + tf_epc ≤ a < trapframe p + tf_epc + 8 → in_page (trapframe p) a).
  { intros a Ha. unfold in_page, tf_epc, PGSIZE in *. lia. }
  constructor; simpl.
  - rewrite list_insert_insert_eq, Hc. by replace (s32 (pticks p + 1 + 1)) with (pticks p + 2) by (rewrite s32_small; lia).
  - done.
  - eapply kinv_frame; [exact Hk1|by apply mem_bytes_store64| |done|done]. simpl. intros q a Hq Ha.
    assert (Hqm : managed lo q) by (apply (ki_managed _ _ _ Hk1); done).
    assert (Hnot : ∀ x, managed lo x → x ≠ q → ¬ in_page x a).
    { intros x Hx Hxq Hxa. apply Hxq. apply (pages_disjoint x q a); [apply Hx|apply Hqm|done|done]. }
    assert (pg ≠ q).
    { intros ->. pose proof (ki_nodup _ _ _ Hk) as [Hn _]%list.NoDup_cons. done. }
    assert (trapframe p ≠ q) by (intros E; apply Hnin; right; by rewrite E).
    rewrite Hst, Hsame; [done|by apply Hnot|]. intros Ha'. by apply (Hnot (trapframe p)); [| |apply Hepc].
  - unfold nump. simpl. rewrite Href. by rewrite lookup_insert_eq.
  - intros a Ha. rewrite Hst by (intros Hx%Hepc; apply (Hdis (pg + a)); [unfold in_page; lia|done]).
    rewrite Hcopy by done. apply Hold. intros Hx. apply (Hdis _ Hx). unfold in_page. lia.
  - by apply load64_store64_eq.
  - intros a Ha Hb'. by rewrite Hst, Hsame, Hold by done.
Qed.

(** ** sigreturn *)

(** Since the alarm the process ran its handler: whatever it did, it did not
    touch the page the kernel keeps for it. *)
Record handled (i : nat) (tf pg : Z) (lo : Z) (fl : list Z) (s s2 : kernel) (p2 : proc) : Prop := {
  handled_cur : cur s2 = Some i;
  handled_proc : procs s2 !! i = Some p2;
  handled_tf : trapframe p2 = tf;
  handled_page : sigalarm p2 = pg;
  handled_kinv : kinv lo (kmem s2) fl;
  handled_free : (tf ∉ fl) ∧ (pg ∉ fl);
  handled_ref : nump (kmem s2) (pg / PGSIZE) = 1;
  handled_saved : page_copy (mem (kmem s2)) pg (mem (kmem s)) pg;
}.

Lemma sigreturn_restores i tf pg lo fl (s s2 : kernel) p2 :
  handled i tf pg lo fl s s2 p2 → managed lo tf → managed lo pg → tf ≠ pg →
  wp sys_sigreturn (λ r s3,
    page_copy (mem (kmem s3)) tf (mem (kmem s)) pg ∧ (r = load64 (mem (kmem s3)) (tf + tf_a0)) ∧
    procs s3 = <[i := p2 <| current_ticks := 0 |>]> (procs s2) ∧
    kinv lo (kmem s3) (pg :: fl) ∧
    ∀ a, ¬ in_page tf a → ¬ in_page pg a → load8 (mem (kmem s3)) a = load8 (mem (kmem s2)) a) s2.
Proof.
  intros H Htf Hpg Hne. destruct H as [Hcur Hp Et Ep Hk [Hnt Hnp] Href Hsaved].
  pose proof (managed_page_ok _ _ Htf) as Hto. pose proof (managed_page_ok _ _ Hpg) as Hpo. unfold page_ok in *.
  assert (Hdis : ∀ a, in_page tf a → ¬ in_page pg a).
  { intros a Ha Ha'. apply Hne. apply (pages_disjoint tf pg a); [apply Htf|apply Hpg|done|done]. }
  unfold sys_sigreturn. wp_simp. eapply wp_myproc; [done|]. wp_simp. eapply wp_getp; [done|]. rewrite Et, Ep.
  unfold kern. wp_simp. apply wp_kmemmove; [by eapply managed_page_ram|by eapply managed_page_ram|]. wp_simp.
  set (m1 := memmove (mem (kmem s2)) tf pg PGSIZE).
  assert (Hm1 : ∀ a, load8 m1 a = if (tf <=? a) && (a <? tf + PGSIZE) then load8 (mem (kmem s2)) (pg + (a - tf)) else load8 (mem (kmem s2)) a).
  { intros a. unfold m1. apply load8_memmove; [apply (ki_bytes _ _ _ Hk)|unfold PGSIZE in *; lia..]. }
  assert (Hm1o : ∀ a, ¬ in_page tf a → load8 m1 a = load8 (mem (kmem s2)) a).
  { intros a Ha. rewrite Hm1. unfold in_page in Ha. by zcases. }
  assert (Hk1 : kinv lo (set_mem (λ m, memmove m tf pg PGSIZE) (kmem s2)) fl).
  { eapply kinv_frame; [exact Hk|apply mem_bytes_memmove, (ki_bytes _ _ _ Hk)| |done|done]. simpl. intros q a Hq Ha.
    apply Hm1o. intros Hx. apply Hnt. assert (tf = q) as ->; [|done].
    apply (pages_disjoint tf q a); [apply Htf|apply (ki_managed _ _ _ Hk); done|done|done]. }
  eapply wp_mono; [|apply (kfree_spec lo _ fl pg Hk1 Hpg Hnp)]. cbn zeta.
  intros _ k (_ & Hk2 & Hout). change (nump (set_mem _ (kmem s2)) ?x) with (nump (kmem s2) x) in *.
  rewrite Href in *. cbn [Z.eqb Pos.eqb] in *. wp_simp. eapply wp_updp; [exact Hp|]. wp_simp.
  apply wp_rd64; [eapply managed_ram; [exact Htf|unfold tf_a0, PGSIZE; lia..]|]. cbn [kmem set_field]. simpl.
  assert (Hk3 : ∀ a, ¬ in_page pg a → load8 (mem k) a = load8 m1 a).
  { intros a Ha. apply Hout. by intros q ->%list_elem_of_singleton. }
  split_and!; [|done|done|done|].
  - intros a Ha. rewrite Hk3 by (apply Hdis; unfold in_page; lia). rewrite Hm1.
    test_true (tf <=? tf + a). test_true (tf + a <? tf + PGSIZE). simpl.
    replace (pg + (tf + a - tf)) with (pg + a) by lia. by apply Hsaved.
  - intros a Ha1 Ha2. by rewrite Hk3, Hm1o.
Qed.

Lemma ticks_pass_snoc n i (Q : unit → kernel → Prop) s :
  wp (ticks_pass n i) (λ _ s', wp (alarm_tick i) Q s') s → wp (ticks_pass (S n) i) Q s.
Proof.
  revert s. induction n as [|n IH]; intros s H; cbn [ticks_pass] in *.
  - apply wp_bind. apply wp_ret in H. eapply wp_mono; [|exact H]. by intros [] s'.
  - apply wp_bind. apply (proj1 (wp_bind _ _ _ _)) in H. eapply wp_mono; [|exact H]. intros [] s'. apply IH.
Qed.

(** ** Properties *)

(** ** sigalarm *)

(** The process with a new alarm: [t] ticks to go, then [h]. *)
Definition armed (t h : Z) (p : proc) : proc :=
  p <| current_ticks := 0 |> <| pticks := t |> <| handler := h |>.

(** Argument [n] of the system call, a register saved in the trapframe. *)
Definition reg_arg (p : proc) (s : kernel) (n : Z) : Z := load64 (mem (kmem s)) (trapframe p + tf_a0 + 8 * n).

Lemma wp_argraw lo i p n (Q : Z → kernel → Prop) (s : kernel) :
  cur s = Some i → procs s !! i = Some p → managed lo (trapframe p) → 0 ≤ n ≤ 5 →
  Q (reg_arg p s n) s → wp (argraw n) Q s.
Proof.
  intros Hc Hp Htf Hn HQ. unfold argraw, curproc. wp_simp. eapply wp_myproc; [done|]. eapply wp_getp; [done|].
  test_true (0 <=? n). test_true (n <=? 5). cbn [andb]. unfold kern. wp_simp.
  apply wp_rd64; [eapply managed_ram; [exact Htf|unfold tf_a0, PGSIZE; lia..]|]. by destruct s.
Qed.

Lemma sigalarm_arms lo i p (s : kernel) :
  cur s = Some i → procs s !! i = Some p → managed lo (trapframe p) →
  wp sys_sigalarm (λ r s', r = 0 ∧
    s' = s <| procs := <[i := armed (s32 (reg_arg p s 0)) (reg_arg p s 1) p]> (procs s) |>) s.
Proof.
  intros Hc Hp Htf. pose proof (lookup_lt_Some _ _ _ Hp) as Hlt. unfold sys_sigalarm. wp_simp.
  eapply wp_myproc; [done|]. wp_simp. eapply wp_updp; [done|]. wp_simp. unfold argint. wp_simp.
  eapply (wp_argraw lo i); [done|simpl; by apply list_lookup_insert_eq|done|lia|]. wp_simp.
  eapply wp_updp; [simpl; by apply list_lookup_insert_eq|]. wp_simp. unfold argaddr.
  eapply (wp_argraw lo i); [done|simpl; apply list_lookup_insert_eq; by rewrite length_insert|done|lia|]. wp_simp.
  eapply wp_updp; [simpl; apply list_lookup_insert_eq; by rewrite !length_insert|]. wp_simp. split; [done|].
  rewrite !set_procs_twice. cbn [procs set_field]. simpl. rewrite !list_insert_insert_eq. done.
Qed.

(** Counting from an alarm that has just been set. *)
Lemma armed_goes_off lo i p pg fl (s : kernel) :
  procs s !! i = Some p → 0 < pticks p < 2^31 - 2 → current_ticks p = 0 →
  kinv lo (kmem s) (pg :: fl) → managed lo (trapframe p) → trapframe p ∉ pg :: fl → 0 ≤ handler p < 2^64 →
  (∀ n, Z.of_nat n ≤ pticks p + 1 →
     wp (ticks_pass n i) (λ _ s', s' = s <| procs := <[i := p <| current_ticks := Z.of_nat n |>]> (procs s) |>) s) ∧
  wp (ticks_pass (Z.to_nat (pticks p + 2)) i) (λ _ s', fired i p pg lo fl s s') s.
Proof.
  intros Hp Ht Hc Hk Htf Hnin Hh.
  assert (Hcount : ∀ n, Z.of_nat n ≤ pticks p + 1 →
    wp (ticks_pass n i) (λ _ s', s' = s <| procs := <[i := p <| current_ticks := Z.of_nat n |>]> (procs s) |>) s).
  { intros n Hn. eapply wp_mono; [|apply (ticks_pass_counts n i p s Hp); lia]. intros _ s' ->. by rewrite Hc. }
  split; [done|]. replace (Z.to_nat (pticks p + 2)) with (S (Z.to_nat (pticks p + 1))) by lia.
  apply ticks_pass_snoc. eapply wp_mono; [|apply Hcount; lia]. intros _ s1 ->.
  rewrite Z2Nat.id by lia. pose proof (lookup_lt_Some _ _ _ Hp) as Hlt.
  set (p1 := p <| current_ticks := pticks p + 1 |>).
  eapply wp_mono; [|apply (alarm_fires lo i p1 pg fl); try done; simpl; by apply list_lookup_insert_eq].
  intros _ s2 [F1 F2 F3 F4 F5 F6 F7]. constructor; try done. rewrite F1. simpl. by rewrite list_insert_insert_eq.
Qed.

(** C11: after the system call [sigalarm(t, h)] with [t > 0], whatever count
    and alarm there were before, the first [t + 1] timer interrupts only count,
    and the next one fires: the trapframe of the process is saved in a fresh
    page, it will return to [h], and nothing else in memory changes. *)
Theorem alarm_goes_off lo i p pg fl (s : kernel) t h :
  cur s = Some i → procs s !! i = Some p →
  kinv lo (kmem s) (pg :: fl) → managed lo (trapframe p) → trapframe p ∉ pg :: fl →
  s32 (reg_arg p s 0) = t → reg_arg p s 1 = h → 0 < t < 2^31 - 2 →
  (∀ n, Z.of_nat n ≤ t + 1 →
     wp (sys_sigalarm ;;; ticks_pass n i) (λ _ s',
       s' = s <| procs := <[i := (armed t h p) <| current_ticks := Z.of_nat n |>]> (procs s) |>) s) ∧
  wp (sys_sigalarm ;;; ticks_pass (Z.to_nat (t + 2)) i) (λ _ s', fired i (armed t h p) pg lo fl s s') s.
Proof.
  intros Hc Hp Hk Htf Hnin Et Eh Ht. pose proof (lookup_lt_Some _ _ _ Hp) as Hlt.
  pose proof (load64_range (mem (kmem s)) (trapframe p + tf_a0 + 8 * 1) (ki_bytes _ _ _ Hk)) as Hh.
  set (s1 := s <| procs := <[i := armed t h p]> (procs s) |>).
  destruct (armed_goes_off lo i (armed t h p) pg fl s1) as [Hcount Hfire]; try done.
  { by apply list_lookup_insert_eq. }
  { unfold reg_arg in Eh. simpl. by rewrite <- Eh. }
  assert (∀ A (m : M kernel A) (Q : A → kernel → Prop), wp m Q s1 → wp (sys_sigalarm ;;; m) Q s) as Hrun.
  { intros A m Q H. apply wp_bind_2. eapply wp_mono; [|by apply (sigalarm_arms lo i p s)].
    intros r s' [_ ->]. by rewrite Et, Eh. }
  split.
  - intros n Hn. apply Hrun. eapply wp_mono; [|by apply Hcount]. intros [] s' ->. unfold s1.
    rewrite set_procs_twice. cbn [procs set_field]. simpl. by rewrite list_insert_insert_eq.
  - apply Hrun. eapply wp_mono; [|exact Hfire]. intros [] s' [F1 F2 F3 F4 F5 F6 F7].
    constructor; try done. rewrite F1. simpl. by rewrite list_insert_insert_eq.
Qed.

(** C10: an alarm is transparent to the process: whatever its handler does to
    the trapframe and to memory other than the page the kernel keeps for it,
    [sigreturn] brings back every byte of the trapframe that the alarm
    interrupted, returns the [a0] saved in it, frees the page that held it and
    starts a new count. *)
Theorem alarm_roundtrip lo i p pg fl (s : kernel) :
  procs s !! i = Some p → 0 < pticks p < 2^31 - 2 → current_ticks p = pticks p + 1 →
  kinv lo (kmem s) (pg :: fl) → managed lo (trapframe p) → trapframe p ∉ pg :: fl → 0 ≤ handler p < 2^64 →
  wp (alarm_tick i) (λ _ s1,
    load64 (mem (kmem s1)) (trapframe p + tf_epc) = handler p ∧
    ∀ s2 p2 fl2, handled i (trapframe p) pg lo fl2 s1 s2 p2 →
      wp sys_sigreturn (λ r s3,
        page_copy (mem (kmem s3)) (trapframe p) (mem (kmem s)) (trapframe p) ∧
        (r = load64 (mem (kmem s)) (trapframe p + tf_a0)) ∧
        procs s3 = <[i := p2 <| current_ticks := 0 |>]> (procs s2) ∧
        kinv lo (kmem s3) (pg :: fl2)) s2) s.
Proof.
  intros Hp Ht Hc Hk Htf Hnin Hh.
  eapply wp_mono; [|apply (alarm_fires lo i p pg fl s); done]. intros [] s1 F. split; [apply (fired_epc _ _ _ _ _ _ _ F)|].
  intros s2 p2 fl2 H.
  eapply wp_mono; [|apply (sigreturn_restores i (trapframe p) pg lo fl2 s1 s2 p2 H Htf)].
  - intros r s3 (Hcopy & Hr & Hps & Hk3 & _).
    assert (Hall : page_copy (mem (kmem s3)) (trapframe p) (mem (kmem s)) (trapframe p)).
    { intros k Hk'. rewrite Hcopy by done. by apply (fired_saved _ _ _ _ _ _ _ F). }
    split_and!; [done| |done|done]. rewrite Hr. apply load64_ext. intros b Hb.
    replace b with (trapframe p + (b - trapframe p)) by lia. apply Hall. unfold tf_a0, PGSIZE in *. lia.
  - apply (ki_managed _ _ _ Hk). by left.
  - intros E. apply Hnin. rewrite E. by left.
Qed.

(** ** A concrete alarm *)

Module AlarmDemo.
Definition tf : Z := Demo.page 1.
Definition pg : Z := Demo.page 0.
Definition lo : Z := Demo.lo 2.
(** One page is allocated, for the trapframe; one is free. *)
Definition k0 : kst := match kalloc (Demo.demo_kst 2) with Ret (_, k) => k | _ => Demo.demo_kst 2 end.
Definition p0 : proc :=
  proc0 <| state := RUNNING |> <| trapframe := tf |> <| pticks := 2 |> <| handler := 64 |>.
Definition s0 (n : Z) : kernel :=
  Sys k0 ((p0 <| current_ticks := n |>) :: replicate 63 proc0) (Some 0%nat) [] None 2 0
    (Fsys (Lst (Bst [] ∅ []) log0) (Superblock 0 0 0 0 0 0 0 0) [] [] ∅ (Console [] 0 0 0) (Uart [] 0 0 true [] []) 0).

Lemma k0_kinv : kinv lo k0 [pg].
Proof.
  pose proof (kalloc_spec lo _ _ (Demo.demo_kinv 2 ltac:(lia))) as H.
  destruct (proj1 (wp_returns _ _ _) H) as (r & k & E & _ & Hk & _). unfold k0. rewrite E. exact Hk.
Qed.
Lemma tf_managed : managed lo tf.
Proof. unfold managed, lo, Demo.lo, tf, Demo.page, PHYSTOP, KERNBASE, PGSIZE. split_and!; try lia. reflexivity. Qed.
Lemma tf_not_free : tf ∉ [pg].
Proof. intros H%list_elem_of_singleton. unfold tf, pg, Demo.page, PGSIZE in H. lia. Qed.
End AlarmDemo.
Import AlarmDemo.

(** The process calls [sigalarm(2, 64)] in the middle of an older count. *)
Definition call_regs (m : memory) : memory := store64 (store64 m (tf + tf_a0) 2) (tf + tf_a1) 64.
Definition s_call : kernel := (s0 9) <| kmem := set_mem call_regs k0 |>.

Lemma call_regs_kinv k : kinv lo k [pg] → kinv lo (set_mem call_regs k) [pg].
Proof.
  intros Hk. eapply kinv_frame; [exact Hk| | |done|done].
  - apply mem_bytes_store64, mem_bytes_store64, (ki_bytes _ _ _ Hk).
  - intros q a ->%list_elem_of_singleton Ha. cbn [set_mem mem]. unfold call_regs.
    assert (¬ in_page tf a) as Hn.
    { intros Ha'. apply tf_not_free. replace tf with pg; [by left|].
      apply (pages_disjoint pg tf a); [|apply tf_managed|done|done].
      apply (ki_managed _ _ _ Hk). by left. }
    rewrite !load8_store64_ne; [done|..]; unfold in_page, tf_a0, tf_a1, PGSIZE in *; lia.
Qed.

Lemma alarm_goes_off_witness :
  wp (sys_sigalarm ;;; ticks_pass 4 0) (λ _ s', load64 (mem (kmem s')) (tf + tf_epc) = 64) s_call.
Proof.
  destruct (alarm_goes_off lo 0 (p0 <| current_ticks := 9 |>) pg [] s_call 2 64 eq_refl eq_refl
    (call_regs_kinv k0 k0_kinv) tf_managed tf_not_free ltac:(by vm_compute) ltac:(by vm_compute) ltac:(lia)) as [_ H].
  eapply wp_mono; [|exact H]. intros [] s' F. apply (fired_epc _ _ _ _ _ _ _ F).
Defined.

(** A handler that calls [sigreturn] at once. *)
Lemma alarm_roundtrip_witness :
  wp (alarm_tick 0 ;;; sys_sigreturn) (λ r s3,
    page_copy (mem (kmem s3)) tf (mem k0) tf ∧ (r = load64 (mem k0) (tf + tf_a0)) ∧ kinv lo (kmem s3) [pg]) (s0 3).
Proof.
  set (p := p0 <| current_ticks := 3 |>).
  pose proof (alarm_roundtrip lo 0 p pg [] (s0 3) eq_refl ltac:(simpl; lia) eq_refl k0_kinv tf_managed tf_not_free ltac:(simpl; lia)) as H.
  pose proof (alarm_fires lo 0 p pg [] (s0 3) eq_refl ltac:(simpl; lia) eq_refl k0_kinv tf_managed tf_not_free ltac:(simpl; lia)) as HF.
  apply wp_bind_2. eapply wp_mono; [|apply (wp_det _ _ _ _ H HF)]. intros [] s1 [[_ Hs] [F1 F2 F3 F4 F5 F6 F7]].
  eapply wp_mono; [|apply (Hs s1 (p <| current_ticks := pticks p + 2 |> <| sigalarm := pg |>) [])].
  - intros r s3 (A & B & _ & D). split; [exact A|]. split; [exact B|exact D].
  - constructor; [exact F2|by rewrite F1|reflexivity|reflexivity|exact F3|split; apply not_elem_of_nil|exact F4|].
    intros k _. reflexivity.
Defined.
