(* ===== verification/PathProps.v ===== *)
(** * Path names (skipelem of kernel/fs.c)

    The elements [namex] gets one by one from [skipelem] are the non-empty
    pieces of the path between slashes, cut to [DIRSIZ] bytes. *)

From Stdlib Require Import ZArith Lia.
From stdpp Require Import base numbers list gmap strings tactics.
From S2P Require Import Prelude Bytes Ftypes Fs.

Local Open Scope Z_scope.

(** ** The meaning of a path *)

Fixpoint pieces (path : list Z) : list (list Z) :=
  match path with
  | [] => [[]]
  | c :: path =>
      if c =? slash then [] :: pieces path
      else match pieces path with
           | x :: xs => (c :: x) :: xs
           | [] => [[c]]
           end
  end.
Definition components (path : list Z) : list (list Z) := filter (λ x, x ≠ []) (pieces path).

(** The string in a directory entry's name field: up to [DIRSIZ] bytes. *)
Fixpoint name_string (n : nat) (name : list Z) : list Z :=
  match n, name with
  | S n, c :: name => if c =? 0 then [] else c :: name_string n name
  | _, _ => []
  end.

(** The names that a loop on [skipelem] sees. *)
Fixpoint walk (fuel : nat) (path name : list Z) : option (list (list Z)) :=
  match fuel with
  | O => None
  | S fuel =>
      match skipelem path name with
      | None => Some []
      | Some (path, name) => cons (name_string DIRSIZ name) <$> walk fuel path name
      end
  end.

(** ** Proofs *)

Lemma pieces_slash path : components (slash :: path) = components path.
Proof. unfold components. simpl. by rewrite filter_cons_False by tauto. Qed.

Lemma components_skip path : components (skip_slashes path) = components path.
Proof.
  induction path as [|c path IH]; [done|]. simpl. destruct (Z.eqb_spec c slash) as [->|]; [|done].
  by rewrite IH, pieces_slash.
Qed.

Lemma pieces_element path : ∃ xs, pieces path = element path :: xs ∧
  filter (λ x, x ≠ []) xs = components (drop (length (element path)) path).
Proof.
  induction path as [|c path IH]; simpl; [by exists []|].
  destruct (Z.eqb_spec c slash) as [->|Hc].
  - eexists. split; [done|]. simpl. by rewrite pieces_slash.
  - destruct IH as (xs & -> & E). by exists xs.
Qed.

Lemma skip_slashes_head path c rest : skip_slashes path = c :: rest → c ≠ slash.
Proof. induction path as [|x path IH]; [done|]. simpl. destruct (Z.eqb_spec x slash); [done|]. by intros [= <- <-]. Qed.

Lemma skip_slashes_suffix path : ∃ l, path = l ++ skip_slashes path.
Proof.
  induction path as [|x path [l IH]]; [by exists []|]. simpl. destruct (Z.eqb_spec x slash).
  - exists (x :: l). simpl. by rewrite <- IH.
  - by exists [].
Qed.

Lemma element_prefix path : path = element path ++ drop (length (element path)) path.
Proof.
  induction path as [|c path IH]; [done|]. simpl. destruct (Z.eqb_spec c slash); [done|]. simpl. by f_equal.
Qed.

Lemma name_string_app n s rest : Forall (λ c, c ≠ 0) s → (length s ≤ n)%nat →
  (length s = n ∨ ∃ r, rest = 0 :: r) → name_string n (s ++ rest) = s.
Proof.
  intros Hs. revert n. induction Hs as [|c s Hc _ IH]; intros n Hn Hend; cbn [length app] in *.
  - destruct Hend as [<-|[r ->]]; [done|]. by destruct n.
  - destruct n as [|n]; [lia|]. cbn [name_string]. rewrite (proj2 (Z.eqb_neq c 0) Hc). f_equal. apply IH; [lia|].
    destruct Hend as [|]; [left; lia|by right].
Qed.

(** One call: the first component and a path with the others. *)
Lemma skipelem_spec path name :
  Forall (λ c, c ≠ 0) path → length name = DIRSIZ →
  match skipelem path name with
  | None => components path = []
  | Some (rest, name') =>
      components path = element (skip_slashes path) :: components rest ∧
      name_string DIRSIZ name' = take DIRSIZ (element (skip_slashes path)) ∧
      length name' = DIRSIZ ∧ Forall (λ c, c ≠ 0) rest ∧ (length rest < length path)%nat
  end.
Proof.
  intros Hz Hlen. unfold skipelem. destruct (skip_slashes_suffix path) as [l Hl].
  rewrite <- (components_skip path). destruct (skip_slashes path) as [|c p] eqn:Ep; [done|].
  pose proof (skip_slashes_head _ _ _ Ep) as Hc. set (q := c :: p) in *.
  assert (Hne : element q ≠ []) by (unfold q; simpl; by rewrite (proj2 (Z.eqb_neq c slash) Hc)).
  pose proof (element_prefix q) as Hq. set (e := element q) in *. set (r := drop (length e) q) in *.
  assert (Hzq : Forall (λ c, c ≠ 0) q) by (rewrite Hl in Hz; by apply Forall_app in Hz as [_ ?]).
  rewrite Hq in Hzq. apply Forall_app in Hzq as [Hze Hzr]. destruct (skip_slashes_suffix r) as [l2 Hl2].
  split_and!.
  - unfold components at 1. destruct (pieces_element q) as (xs & -> & E). fold e in E |- *. fold r in E.
    rewrite filter_cons_True by done. by rewrite E, components_skip.
  - destruct (Nat.leb_spec DIRSIZ (length e)) as [Hd|Hd]; unfold overwrite; rewrite take_0, app_nil_l.
    + apply name_string_app; [by apply Forall_take|rewrite length_take; lia|left; rewrite length_take; lia].
    + rewrite take_ge by lia. rewrite <- app_assoc. apply name_string_app; [done|lia|right; by eexists].
  - destruct (Nat.leb_spec DIRSIZ (length e)) as [Hd|Hd]; (rewrite length_overwrite; [done|rewrite ?length_take, ?length_app; cbn [length]; lia]).
  - rewrite Hl2 in Hzr. by apply Forall_app in Hzr as [_ ?].
  - assert (length r < length q)%nat as Hlt.
    { rewrite Hq, length_app. destruct e; [done|]. simpl. lia. }
    apply (f_equal length) in Hl, Hl2. rewrite length_app in Hl, Hl2. lia.
Qed.

(** the elements that [namex] obtains from repeated calls of [skipelem],
    each read back from the [name] buffer as a directory entry's name, are
    exactly the non-empty pieces of the path between slashes, in order, each
    cut to [DIRSIZ] bytes: leading, doubled and trailing slashes do not matter,
    and the loop ends. *)
Theorem skipelem_components path name :
  Forall (λ c, c ≠ 0) path → length name = DIRSIZ →
  walk (S (length path)) path name = Some (take DIRSIZ <$> components path).
Proof.
  remember (S (length path)) as fuel eqn:Ef. assert (Hf : (length path < fuel)%nat) by lia. clear Ef.
  revert path name Hf. induction fuel as [|fuel IH]; intros path name Hf Hz Hlen; [lia|]. cbn [walk].
  pose proof (skipelem_spec path name Hz Hlen) as H. destruct (skipelem path name) as [[rest name']|]; [|by rewrite H].
  destruct H as (-> & Hn & Hl & Hr & Hlt). by rewrite Hn, (IH rest name') by (done || lia).
Qed.

(** [//a/bc///d] *)
Lemma skipelem_components_witness :
  walk 11 [47; 47; 97; 47; 98; 99; 47; 47; 47; 100] name0 = Some [[97]; [98; 99]; [100]] ∧
  walk (S (length [47; 47; 97; 47; 98; 99; 47; 47; 47; 100])) [47; 47; 97; 47; 98; 99; 47; 47; 47; 100] name0 =
    Some (take DIRSIZ <$> components [47; 47; 97; 47; 98; 99; 47; 47; 47; 100]).
Proof.
  split; [reflexivity|]. apply (skipelem_components [47; 47; 97; 47; 98; 99; 47; 47; 47; 100] name0); [|reflexivity].
  repeat (constructor; [discriminate|]). constructor.
Defined.
