(* ===== verification/DirProps.v ===== *)
(** * Directories: dirlookup and dirlink (kernel/fs.c)

    A directory is a partial map from names to inode numbers: dirlookup looks
    a name up in it, dirlink adds a name to it. *)

From Stdlib Require Import ZArith Lia.
From stdpp Require Import base numbers list gmap functions strings tactics.
From S2P Require Import Prelude Riscv Mem Bytes Kalloc Vm Proc ProcRules Locks Bio BioList BioSpec BioProps Log LogSpec LogCrash LogProps Ftypes Fs FsRules FsAlloc FsFile FsWrite FsInode FsContents FsProps PathProps.

Local Open Scope Z_scope.

(** ** The meaning of a directory *)

Definition entry := (Z * list Z)%type.

(** The entries of the bytes of a directory: inode number (0 if the entry is
    free) and name. *)
Definition entry_at (x : list Z) (k : nat) : entry :=
  let de := sub_bytes x (16 * k) 16 in (de_inum de, name_string DIRSIZ (de_name de)).
Definition entries (x : list Z) : list entry := entry_at x <$> seq 0 (length x / 16).

(** The first entry in use with the name, from index [k] on. *)
Fixpoint find_from (k : nat) (name : list Z) (es : list entry) : option (nat * Z) :=
  match es with
  | [] => None
  | (n, nm) :: es =>
      if negb (n =? 0) && bool_decide (nm = name) then Some (k, n) else find_from (S k) name es
  end.
Definition find_entry : list Z → list entry → option (nat * Z) := find_from 0.
Definition binds (es : list entry) (name : list Z) : option Z := snd <$> find_entry name es.

(** ** Names *)

Lemma strncmp_name n : ∀ p q, strncmp_buf n p q = 0 ↔ name_string n p = name_string n q.
Proof.
  induction n as [|n IH]; intros p q; [done|]. cbn [strncmp_buf].
  destruct p as [|a p], q as [|b q]; cbn [name_string tail lookup list_lookup default].
  - done.
  - destruct (Z.eqb_spec b 0) as [->|]; [done|]. simpl. split; [lia|done].
  - simpl. destruct (Z.eqb_spec a 0) as [->|]; [done|]. destruct (Z.eqb_spec a 0); [done|]. simpl. split; [lia|done].
  - simpl. destruct (Z.eqb_spec a 0) as [->|Ha]; simpl.
    + destruct (Z.eqb_spec b 0) as [->|]; [done|]. split; [lia|done].
    + destruct (Z.eqb_spec a b) as [->|Hab].
      * destruct (Z.eqb_spec b 0); [done|]. rewrite IH. split; [by intros ->|by intros [=]].
      * destruct (Z.eqb_spec b 0); (split; [lia|]); [done|]. intros [=]. done.
Qed.

Lemma namecmp_test name de :
  (namecmp name (de_name de) =? 0) = bool_decide (name_string DIRSIZ (de_name de) = name_string DIRSIZ name).
Proof.
  unfold namecmp. case_bool_decide as E.
  - apply Z.eqb_eq, strncmp_name. done.
  - apply Z.eqb_neq. intros H%strncmp_name. done.
Qed.

(** ** Finding entries *)

Lemma entries_lookup x k : (16 * S k ≤ length x)%nat → entries x !! k = Some (entry_at x k).
Proof.
  intros Hk. unfold entries. rewrite list_lookup_fmap, lookup_seq_lt; [done|].
  apply Nat.div_le_lower_bound; lia.
Qed.
Lemma length_entries x : length (entries x) = (length x / 16)%nat.
Proof. unfold entries. by rewrite length_fmap, length_seq. Qed.

Lemma find_from_drop es name k e : es !! k = Some e →
  find_from k name (drop k es) =
    if negb (e.1 =? 0) && bool_decide (e.2 = name) then Some (k, e.1) else find_from (S k) name (drop (S k) es).
Proof. intros Hk. rewrite (drop_S es e k Hk). by destruct e. Qed.

(** ** Looking up *)

(** A locked directory: a file of whole entries. *)
Record dir_ready (d me st sz : Z) (V : contents) (h L : list Z) (s : kernel) (dp : Z) (i : inode) : Prop := {
  dr_file : file_ready d me st sz V h L s dp i;
  dr_type : itype i = T_DIR;
  dr_size : isize i mod 16 = 0;
}.

Definition dir (V : contents) (i : inode) : list entry := entries (fcontents V i).

(** [iget] can answer for inode [n]: the table has it or has a free entry. *)
Definition iget_room (t : list inode) (dev n : Z) : Prop :=
  length t = NINODE ∧ ∃ j x, t !! j = Some x ∧ (iref x = 0 ∨ refers dev n x).

(** The effect of [iget]: [ip] refers to the inode, with one more reference. *)
Definition got (dev n : Z) (s : kernel) (ip : Z) (s' : kernel) : Prop :=
  ∃ j x y, ip = iptr j ∧ itable (files s) !! j = Some x ∧ refers dev n y ∧ s' = with_inode ip y s ∧
    (refers dev n x ∧ y = add_ref x ∨
     (∀ k z, itable (files s) !! k = Some z → ¬ refers dev n z) ∧ iref x = 0 ∧ y = fresh_inode dev n x).

Lemma iget_got s dev n : iget_room (itable (files s)) dev n →
  (∀ j x, itable (files s) !! j = Some x → iref x < 2^31 - 1) →
  wp (iget dev n) (got dev n s) s.
Proof.
  intros [Hl (j0 & x0 & Hx0 & Hr0)] Hmax. unfold wp.
  destruct (iget_cases s dev n Hl) as [(j & x & Hx & Hr & ->)|[Hn [(j & x & Hx & H0 & ->)|[Hfull _]]]].
  - exists j, x, (add_ref x). destruct Hr as (R1 & R2 & R3). split_and!; try done; [|left; by split].
    split_and!; [|done|done]. unfold add_ref. simpl. pose proof (Hmax j x Hx). rewrite s32_small; lia.
  - exists j, x, (fresh_inode dev n x). split_and!; try done. by right.
  - exfalso. destruct Hr0 as [Hr0|Hr0]; [by eapply Hfull|by eapply Hn].
Qed.

Lemma quiet_table d me h s s' : quiet d me h s s' → itable (files s') = itable (files s).
Proof. intros [E _ _ _]. by rewrite E. Qed.

Lemma drop_added x : 0 ≤ iref x < 2^31 - 1 → (add_ref x) <| iref := s32 (iref (add_ref x) - 1) |> = x.
Proof.
  intros H. assert (E : iref (add_ref x) = iref x + 1) by (unfold add_ref; simpl; rewrite s32_small; lia).
  rewrite E, Z.add_simpl_r, s32_small by lia. by destruct x.
Qed.

Section lookup.
Context (d me st sz : Z) (V : contents) (h L : list Z) (s : kernel) (dp : Z) (i : inode) (name : list Z).
Context (R : dir_ready d me st sz V h L s dp i) (Hlen : (length h + length L < 30)%nat).
Local Abbreviation nm := (name_string DIRSIZ name).

(** Reading entry [k]. *)
Lemma read_entry s1 k : file_ready d me st sz V h L s1 dp i → (k < length (dir V i))%nat →
  wp (readi dp DBuf (16 * Z.of_nat k) de_size) (λ '(r, de) s', file_ready d me st sz V h L s' dp i ∧ quiet d me h s1 s' ∧
    r = de_size ∧ dir V i !! k = Some (de_inum de, name_string DIRSIZ (de_name de))) s1.
Proof using R Hlen.
  intros R1 Hk. unfold dir in *. rewrite length_entries, length_fcontents in Hk.
  pose proof (fr_holes _ _ _ _ _ _ _ _ _ _ R1) as [Hs _]. change (MAXFILE * BSIZE) with 274432 in Hs.
  pose proof (Nat.Div0.mul_div_le (Z.to_nat (isize i)) 16).
  eapply wp_mono; [|apply (readi_ready d me st sz V h L s1 dp i (16 * Z.of_nat k) de_size R1 Hlen); unfold de_size; lia].
  intros [r de] s' (R' & Q & Hr & Hde). unfold de_size in *. rewrite decide_True in Hde by lia.
  replace (Z.to_nat (16 * Z.of_nat k)) with (16 * k)%nat in Hde by lia. change (Z.to_nat 16) with 16%nat in Hde.
  split_and!; try done.
  - rewrite Hr, Hde, length_sub; [done|]. rewrite length_fcontents. lia.
  - rewrite entries_lookup by (rewrite length_fcontents; lia). unfold entry_at. by rewrite Hde.
Qed.

Definition lookup_post (r : Z * Z) (s' : kernel) : Prop :=
  match find_entry nm (dir V i) with
  | None => r = (0, 0) ∧ quiet d me h s s' ∧ file_ready d me st sz V h L s' dp i
  | Some (k, n) => ∃ s1, quiet d me h s s1 ∧ file_ready d me st sz V h L s1 dp i ∧
      r.2 = 16 * Z.of_nat k ∧ got d n s1 r.1 s'
  end.

Lemma dirlookup_spec :
  (∀ k n, find_entry nm (dir V i) = Some (k, n) → iget_room (itable (files s)) d n) →
  (∀ j x, itable (files s) !! j = Some x → iref x < 2^31 - 1) →
  wp (dirlookup dp name) lookup_post s.
Proof using R Hlen.
  intros Hroom Hmax. destruct R as [R0 Ht Hsz]. pose proof (fr_inode _ _ _ _ _ _ _ _ _ _ R0) as Hi.
  pose proof (fr_holes _ _ _ _ _ _ _ _ _ _ R0) as [Hs _]. change (MAXFILE * BSIZE) with 274432 in Hs.
  pose proof (fo_dev _ _ _ _ _ _ (fr_ok _ _ _ _ _ _ _ _ _ _ R0)) as Hdev.
  assert (Hn : Z.of_nat (length (dir V i)) * 16 = isize i).
  { unfold dir. rewrite length_entries, length_fcontents, Nat2Z.inj_div, Z2Nat.id by lia. change (Z.of_nat 16) with 16. dlia. }
  unfold dirlookup. wp_step. eapply wp_geti; [done|]. rewrite Ht. cbn [negb Z.eqb T_DIR Pos.eqb]. rewrite Hdev.
  apply (wp_loop _ (λ off s1, ∃ k, off = 16 * Z.of_nat k ∧ (k ≤ length (dir V i))%nat ∧ quiet d me h s s1 ∧
    file_ready d me st sz V h L s1 dp i ∧ find_from k nm (drop k (dir V i)) = find_entry nm (dir V i))
    (λ off, Z.to_nat (isize i - off))).
  2: { exists 0%nat. split_and!; try done; [lia|apply quiet_refl]. }
  2: { unfold file_fuel. lia. }
  intros off s1 (k & -> & Hk & Q1 & R1 & Hf). destruct (Z.ltb_spec (16 * Z.of_nat k) (isize i)) as [Hlt|Hge].
  2: { wp_simp. unfold lookup_post. rewrite drop_ge in Hf by lia. rewrite <- Hf. done. }
  wp_step. eapply wp_mono; [|apply (read_entry s1 k R1); lia].
  intros [r de] s2 (R2 & Q2 & -> & He). rewrite Z.eqb_refl. cbn [negb].
  rewrite (find_from_drop _ _ _ _ He) in Hf. cbn [fst snd] in Hf.
  pose proof (quiet_trans _ _ _ _ _ _ Q1 Q2) as Q12.
  assert (Hnext : find_from (S k) nm (drop (S k) (dir V i)) = find_entry nm (dir V i) →
    (∃ k', u32 (16 * Z.of_nat k + de_size) = 16 * Z.of_nat k' ∧ (k' ≤ length (dir V i))%nat ∧ quiet d me h s s2 ∧
      file_ready d me st sz V h L s2 dp i ∧ find_from k' nm (drop k' (dir V i)) = find_entry nm (dir V i)) ∧
    (Z.to_nat (isize i - u32 (16 * Z.of_nat k + de_size)) < Z.to_nat (isize i - 16 * Z.of_nat k))%nat).
  { intros Hf'. unfold de_size. rewrite u32_small by lia. split; [|lia]. exists (S k). split_and!; try done; lia. }
  destruct (Z.eqb_spec (de_inum de) 0) as [Hz|Hz]; cbn [negb andb] in Hf; [wp_simp; by apply Hnext|].
  rewrite namecmp_test. case_bool_decide as Hnm; [|wp_simp; by apply Hnext].
  wp_step. eapply wp_mono; [|apply iget_got].
  - intros ip s3 Hgot. wp_simp. unfold lookup_post. rewrite <- Hf. exists s2. done.
  - rewrite (quiet_table _ _ _ _ _ Q12). eapply Hroom. by rewrite <- Hf.
  - rewrite (quiet_table _ _ _ _ _ Q12). done.
Qed.
End lookup.

(** ** Adding an entry *)

Lemma binds_from name es : ∀ k, snd <$> find_from k name es = binds es name.
Proof.
  unfold binds, find_entry. generalize 0%nat. induction es as [|[n m] es IH]; intros j k; cbn [find_from]; [done|].
  destruct (negb (n =? 0) && bool_decide (m = name)); [done|]. by rewrite (IH (S j) (S k)).
Qed.
Lemma binds_cons n m es name :
  binds ((n, m) :: es) name = if negb (n =? 0) && bool_decide (m = name) then Some n else binds es name.
Proof.
  unfold binds at 1, find_entry. cbn [find_from]. destruct (negb (n =? 0) && bool_decide (m = name)); [done|].
  apply binds_from.
Qed.
Lemma binds_app es es' name :
  binds (es ++ es') name = match binds es name with Some n => Some n | None => binds es' name end.
Proof.
  induction es as [|[n m] es IH]; [done|]. cbn [app]. rewrite !binds_cons.
  by destruct (negb (n =? 0) && bool_decide (m = name)).
Qed.
Lemma binds_found es name : binds es name = None ↔ find_entry name es = None.
Proof. unfold binds. apply fmap_None. Qed.

(** The first free entry, or the end. *)
Fixpoint free_slot (es : list entry) : nat :=
  match es with
  | [] => 0
  | (n, _) :: es => if n =? 0 then 0 else S (free_slot es)
  end.
Definition put_entry (k : nat) (e : entry) (es : list entry) : list entry := take k es ++ e :: drop (S k) es.

Lemma free_slot_split es : ∃ l1 l2, take (free_slot es) es = l1 ∧ drop (free_slot es) es = l2 ∧ es = l1 ++ l2 ∧
  (l2 = [] ∨ ∃ m l, l2 = (0, m) :: l).
Proof.
  eexists _, _. split_and!; [done|done|by rewrite take_drop|].
  induction es as [|[n m] es IH]; [by left|]. cbn [free_slot]. destruct (Z.eqb_spec n 0) as [->|]; [right; by eexists _, _|done].
Qed.

(** The entry put there is found, the others stay what they were. *)
Lemma binds_put es n nm name : binds es nm = None → n ≠ 0 →
  binds (put_entry (free_slot es) (n, nm) es) name = if decide (name = nm) then Some n else binds es name.
Proof.
  intros Hnone Hn. unfold put_entry. destruct (free_slot_split es) as (l1 & l2 & E1 & E2 & E & Hl2).
  assert (E3 : drop (S (free_slot es)) es = tail l2).
  { replace (S (free_slot es)) with (free_slot es + 1)%nat by lia. rewrite <- drop_drop, E2. by destruct l2. }
  rewrite E1, E3, binds_app, binds_cons. rewrite E, binds_app in Hnone.
  destruct (binds l1 nm) eqn:H1; [done|]. test_false (n =? 0). cbn [negb andb].
  assert (Hes : ∀ x, binds es x = match binds l1 x with Some k => Some k | None => binds (tail l2) x end).
  { intros x. rewrite E at 1. rewrite binds_app. destruct Hl2 as [->|(m & l & ->)]; [done|]. by rewrite binds_cons. }
  destruct (decide (name = nm)) as [->|Hne].
  - rewrite H1. by rewrite bool_decide_true.
  - rewrite Hes. by rewrite bool_decide_false by done.
Qed.

(** *** The bytes of an entry *)

Lemma name_string_until n : ∀ l, name_string n l = take n (until_nul l).
Proof.
  induction n as [|n IH]; intros [|c l]; cbn [name_string until_nul]; try done.
  destruct (c =? 0); [done|]. cbn [firstn]. by rewrite IH.
Qed.
Lemma name_string_pad n : ∀ l k, Forall (λ c, c ≠ 0) l → (length l ≤ n)%nat → name_string n (l ++ replicate k 0) = l.
Proof.
  induction n as [|n IH]; intros [|c l] k Hl Hn; cbn [app] in *.
  - by destruct k.
  - simpl in Hn. lia.
  - by destruct k.
  - inversion Hl; subst. cbn [name_string]. test_false (c =? 0). rewrite IH; [done|done|simpl in Hn; lia].
Qed.
Lemma until_nul_nonzero l : Forall (λ c, c ≠ 0) (until_nul l).
Proof.
  induction l as [|c l IH]; cbn [until_nul]; [constructor|]. destruct (Z.eqb_spec c 0); [constructor|by constructor].
Qed.
Lemma strncpy_name name : name_string DIRSIZ (strncpy_buf DIRSIZ name) = name_string DIRSIZ name.
Proof.
  unfold strncpy_buf. rewrite name_string_pad, name_string_until; [done|by apply Forall_take, until_nul_nonzero|].
  rewrite length_take. lia.
Qed.
Lemma length_strncpy n name : length (strncpy_buf n name) = n.
Proof. unfold strncpy_buf. rewrite length_app, length_replicate, length_take. lia. Qed.
Lemma length_enc n name : length (enc_dirent n name) = 16%nat.
Proof. unfold enc_dirent. by rewrite length_app, length_le_bytes, length_strncpy. Qed.

Lemma entry_enc n name : 0 ≤ n < 2^16 →
  (de_inum (enc_dirent n name), name_string DIRSIZ (de_name (enc_dirent n name))) = (n, name_string DIRSIZ name).
Proof.
  intros Hn. unfold de_inum, de_name, enc_dirent, getn, sub_bytes. f_equal.
  - rewrite drop_0, take_app_length' by (by rewrite length_le_bytes). rewrite le_value_bytes. by apply Z.mod_small.
  - rewrite drop_app_length' by (by rewrite length_le_bytes). rewrite take_ge by (by rewrite length_strncpy). apply strncpy_name.
Qed.

Lemma sub_app_l x y off n : (off + n ≤ length x)%nat → sub_bytes (x ++ y) off n = sub_bytes x off n.
Proof. intros H. unfold sub_bytes. rewrite drop_app_le, take_app_le by (rewrite ?length_drop; lia). done. Qed.
Lemma sub_app_r x y off n : sub_bytes (x ++ y) (length x + off) n = sub_bytes y off n.
Proof. unfold sub_bytes. by rewrite drop_app_add. Qed.

Lemma entries_app k x y : length x = (16 * k)%nat → entries (x ++ y) = entries x ++ entries y.
Proof.
  intros Hx. unfold entries. rewrite length_app, Hx, (Nat.mul_comm 16 k), Nat.div_add_l, Nat.div_mul by lia.
  rewrite seq_app, fmap_app, Nat.add_0_l. f_equal.
  - apply list_fmap_ext. intros j m [-> Hj]%lookup_seq. unfold entry_at. by rewrite sub_app_l by lia.
  - rewrite <- (Nat.add_0_r k) at 1. rewrite <- fmap_add_seq, <- list_fmap_compose. apply list_fmap_ext. intros j m _.
    unfold entry_at, compose. replace (16 * (k + m))%nat with (length x + 16 * m)%nat by lia. by rewrite sub_app_r.
Qed.
Lemma entries_one de : length de = 16%nat → entries de = [(de_inum de, name_string DIRSIZ (de_name de))].
Proof.
  intros H. unfold entries. rewrite H. change (16 / 16)%nat with 1%nat. cbn. unfold entry_at, sub_bytes. cbn [Nat.mul].
  rewrite drop_0, take_ge by lia. done.
Qed.

Lemma entries_overwrite x k de : length de = 16%nat → (16 * k ≤ length x)%nat →
  entries (overwrite x (16 * k) de) = put_entry k (de_inum de, name_string DIRSIZ (de_name de)) (entries x).
Proof.
  intros Hde Hk. unfold overwrite, put_entry. rewrite Hde.
  assert (Ht : length (take (16 * k) x) = (16 * k)%nat) by (rewrite length_take; lia).
  rewrite (entries_app k _ _ Ht), (entries_app 1 de _ Hde), (entries_one de Hde). cbn [app].
  assert (Htk : length (entries (take (16 * k) x)) = k) by (rewrite length_entries, Ht, Nat.mul_comm; apply Nat.div_mul; lia).
  assert (E : entries x = entries (take (16 * k) x) ++ entries (drop (16 * k) x)).
  { rewrite <- (entries_app k) by done. by rewrite take_drop. }
  rewrite E. rewrite take_app_length' by done. f_equal. f_equal.
  rewrite drop_app_ge by lia. rewrite Htk. replace (S k - k)%nat with 1%nat by lia.
  rewrite <- drop_drop.
  set (y := drop (16 * k) x). destruct (decide (16 ≤ length y)%nat) as [Hy|Hy].
  - assert (H16 : length (take 16 y) = 16%nat) by (rewrite length_take; lia).
    rewrite <- (take_drop 16 y) at 2. by rewrite (entries_app 1 _ _ H16), (entries_one _ H16).
  - rewrite drop_ge by lia. unfold entries. rewrite (Nat.div_small (length y)) by lia. done.
Qed.

Section link.
Context (d me st sz : Z) (V : contents) (h L : list Z) (s : kernel) (dp : Z) (i : inode) (name : list Z) (n : Z).
Context (R : dir_ready d me st sz V h L s dp i) (Hlen : (length h + length L < 30)%nat).
Local Abbreviation nm := (name_string DIRSIZ name).

(** The search for a free entry. *)
Lemma slot_found es k e : es !! k = Some e → (k + free_slot (drop k es) = free_slot es)%nat →
  if e.1 =? 0 then k = free_slot es else (S k + free_slot (drop (S k) es) = free_slot es)%nat.
Proof.
  intros He E. rewrite (drop_S es e k He) in E. destruct e as [m x]. cbn [free_slot fst] in *. destruct (m =? 0); lia.
Qed.

Lemma link_scan s1 : file_ready d me st sz V h L s1 dp i →
  wp (loop file_fuel (λ off,
      if u32 off <? isize i then
        let* (r, de) := readi dp DBuf (u32 off) de_size in
        if negb (r =? de_size) then panic "dirlink read"
        else if de_inum de =? 0 then ret (inr off)
        else ret (inl (s32 (off + de_size)))
      else ret (inr off)) 0)
    (λ off s2, off = 16 * Z.of_nat (free_slot (dir V i)) ∧ (free_slot (dir V i) ≤ length (dir V i))%nat ∧
      quiet d me h s1 s2 ∧ file_ready d me st sz V h L s2 dp i) s1.
Proof using R Hlen.
  intros R1. pose proof (fr_holes _ _ _ _ _ _ _ _ _ _ R1) as [Hs _]. change (MAXFILE * BSIZE) with 274432 in Hs.
  assert (Hn : Z.of_nat (length (dir V i)) * 16 = isize i).
  { destruct R as [_ _ Hsz]. unfold dir. rewrite length_entries, length_fcontents, Nat2Z.inj_div, Z2Nat.id by lia.
    change (Z.of_nat 16) with 16. dlia. }
  apply (wp_loop _ (λ off s2, ∃ k, off = 16 * Z.of_nat k ∧ (k ≤ length (dir V i))%nat ∧ quiet d me h s1 s2 ∧
    file_ready d me st sz V h L s2 dp i ∧ (k + free_slot (drop k (dir V i)) = free_slot (dir V i))%nat)
    (λ off, Z.to_nat (isize i - off))).
  2: { exists 0%nat. split_and!; try done; [lia|apply quiet_refl]. }
  2: { unfold file_fuel. lia. }
  intros off s2 (k & -> & Hk & Q2 & R2 & Hf). rewrite u32_small by lia.
  destruct (Z.ltb_spec (16 * Z.of_nat k) (isize i)) as [Hlt|Hge].
  2: { wp_simp. rewrite drop_ge in Hf by lia. cbn [free_slot] in Hf. split_and!; try done; lia. }
  wp_step. eapply wp_mono; [|apply (read_entry d me st sz V h L s dp i R Hlen s2 k R2); lia].
  intros [r de] s3 (R3 & Q3 & -> & He). rewrite Z.eqb_refl. cbn [negb].
  pose proof (slot_found _ _ _ He Hf) as Hs'. cbn [fst] in Hs'. pose proof (quiet_trans _ _ _ _ _ _ Q2 Q3).
  destruct (de_inum de =? 0); wp_simp.
  - split_and!; try done; lia.
  - unfold de_size. rewrite s32_small by lia. split; [|lia]. exists (S k). split_and!; try done; lia.
Qed.

(** What [dirlink] leaves when the name is new. *)
Definition link_post (r : Z) (s' : kernel) : Prop :=
  ∃ V' i' L', file_ready d me st sz V' h L' s' dp i' ∧ iquiet d me dp i' h s s' ∧
    (∀ m, outside (sb (files s)) V i m → m ≠ IBLOCK (inum i) (sb (files s)) → V' m = V m) ∧
    (r = 0 ∧ dir_ready d me st sz V' h L' s' dp i' ∧
       (∀ x, binds (dir V' i') x = if decide (x = nm) then Some n else binds (dir V i) x) ∨
     r = -1 ∧ ∀ b, 0 ≤ b < sb_size (sb (files s)) → used (sb (files s)) V' b = true).

Lemma dirlink_new : binds (dir V i) nm = None → 0 < n < 2^16 →
  isize i + 16 ≤ MAXFILE * BSIZE → (∀ off, 0 ≤ off ≤ isize i → write_room sz h L off 16) →
  (∀ j x, itable (files s) !! j = Some x → iref x < 2^31 - 1) →
  wp (dirlink dp name n) link_post s.
Proof using R Hlen.
  intros Hnew Hn Hmax Hroom Htab. unfold dirlink. wp_step.
  eapply wp_mono; [|apply (dirlookup_spec d me st sz V h L s dp i name R Hlen); [|done]].
  2: { intros k m Hf. apply binds_found in Hnew. by rewrite Hf in Hnew. }
  unfold lookup_post. rewrite (proj1 (binds_found _ _) Hnew). intros r s1 (-> & Q1 & R1). cbn [negb Z.eqb].
  wp_step. eapply wp_geti; [by apply (fr_inode _ _ _ _ _ _ _ _ _ _ R1)|].
  wp_step. eapply wp_mono; [|by apply link_scan]. intros off s2 (-> & Hslot & Q2 & R2).
  pose proof (fr_holes _ _ _ _ _ _ _ _ _ _ R2) as [Hs _]. change (MAXFILE * BSIZE) with 274432 in *.
  assert (Hd : Z.of_nat (length (dir V i)) * 16 = isize i).
  { destruct R as [_ _ Hsz]. unfold dir. rewrite length_entries, length_fcontents, Nat2Z.inj_div, Z2Nat.id by lia.
    change (Z.of_nat 16) with 16. dlia. }
  set (k := free_slot (dir V i)) in *. rewrite u32_small by lia.
  replace (u16 n) with n by (unfold u16; rewrite Z.mod_small; lia).
  wp_step. eapply wp_mono; [|eapply (writei_ready d me st sz V h L s2 dp i _ _ (16 * Z.of_nat k) de_size R2)].
  2: { apply Hroom. lia. }
  2: apply supplies_buf.
  2: lia.
  2: { rewrite length_enc. done. }
  2: { change (MAXFILE * BSIZE) with 274432. unfold de_size. lia. }
  pose proof (quiet_trans _ _ _ _ _ _ Q1 Q2) as Q12. pose proof (quiet_sb _ _ _ _ _ Q12) as Esb.
  intros tot s3 (V' & i' & L' & R3 & Q3 & Ec & Ht & Hfull & Hout & _ & (a & Ei) & Es & _). rewrite Esb in Hfull, Hout.
  pose proof (quiet_iquiet _ _ _ _ _ _ _ (fr_inode _ _ _ _ _ _ _ _ _ _ (dr_file _ _ _ _ _ _ _ _ _ _ R)) Q12) as Q02.
  pose proof (iquiet_trans _ _ _ _ _ _ _ _ _ Q02 Q3) as Q03.
  destruct (Z.eqb_spec tot de_size) as [->|Hne]; cbn [negb]; wp_simp; exists V', i', L'; split_and!; try done.
  - left. split; [done|]. change (Z.to_nat de_size) with 16%nat in Ec. rewrite take_ge in Ec by (by rewrite length_enc).
    replace (Z.to_nat (16 * Z.of_nat k)) with (16 * k)%nat in Ec by lia.
    destruct R as [R0 Ht' Hsz]. split.
    + split; [done|by rewrite Ei|]. rewrite Es. unfold de_size. dlia.
    + intros x. unfold dir at 1. rewrite Ec, entries_overwrite; [|apply length_enc|rewrite length_fcontents; lia].
      rewrite entry_enc by lia. fold (dir V i). apply binds_put; [done|lia].
  - right. split; [done|]. apply Hfull. lia.
Qed.

(** The name is there already. *)
Lemma dirlink_old m : binds (dir V i) nm = Some m → iget_room (itable (files s)) d m →
  (∀ j x, itable (files s) !! j = Some x → 0 ≤ iref x < 2^31 - 1) →
  wp (dirlink dp name n) (λ r s', r = -1 ∧ ∃ s1, quiet d me h s s1 ∧
    (s' = s1 ∨ ∃ j x, itable (files s) !! j = Some x ∧ iref x = 0 ∧
       s' = with_inode (iptr j) ((fresh_inode d m x) <| iref := 0 |>) s1)) s.
Proof using R Hlen.
  intros Hold Hroom Htab. unfold binds in Hold. apply fmap_Some in Hold as ([k m'] & Hf & ->). cbn [snd] in *.
  unfold dirlink. wp_step. eapply wp_mono; [|apply (dirlookup_spec d me st sz V h L s dp i name R Hlen)].
  2: { intros k' n' Hf'. rewrite Hf in Hf'. by simplify_eq. }
  2: { intros j x Hx. by apply (Htab j). }
  unfold lookup_post. rewrite Hf. intros [ip off] s2 (s1 & Q1 & R1 & _ & Hgot). cbn [fst snd] in *.
  destruct Hgot as (j & x & y & -> & Hx & Hr & -> & Hcase). rewrite (quiet_table _ _ _ _ _ Q1) in Hx.
  assert (Hx1 : itable (files s1) !! j = Some x) by (by rewrite (quiet_table _ _ _ _ _ Q1)).
  rewrite (proj2 (Z.eqb_neq (iptr j) 0)) by (unfold iptr; lia). cbn [negb]. wp_step.
  assert (Hy : inode_at (with_inode (iptr j) y s1) (iptr j) y) by (by eapply inode_at_with, iptr_at).
  pose proof (Htab j x Hx). eapply iput_keep; [exact Hy| |].
  - destruct Hcase as [[(Hp & _) ->]|(_ & _ & ->)]; [left|by right; left].
    unfold add_ref. simpl. rewrite s32_small; lia.
  - wp_simp. split; [done|]. exists s1. split; [done|]. rewrite with_inode_twice.
    destruct Hcase as [[(Hp & _) ->]|(_ & H0 & ->)].
    + left. rewrite drop_added by lia. apply with_inode_same. by apply iptr_at.
    + right. by exists j, x.
Qed.
End link.

(** ** Properties *)

(** [dirlookup] finds the first entry in use with the name, compared up to
    the NUL or [DIRSIZ] bytes, and answers its offset and a counted reference
    to its inode; it answers 0 exactly when no entry has the name.  It reads
    every entry it must and changes nothing but that reference. *)
Theorem dirlookup_correct d me st sz V h L s dp i name :
  dir_ready d me st sz V h L s dp i → (length h + length L < 30)%nat →
  (∀ k n, find_entry (name_string DIRSIZ name) (dir V i) = Some (k, n) → iget_room (itable (files s)) d n) →
  (∀ j x, itable (files s) !! j = Some x → iref x < 2^31 - 1) →
  wp (dirlookup dp name) (λ '(ip, off) s',
    match find_entry (name_string DIRSIZ name) (dir V i) with
    | None => ip = 0 ∧ off = 0 ∧ quiet d me h s s' ∧ file_ready d me st sz V h L s' dp i
    | Some (k, n) => ∃ s1, quiet d me h s s1 ∧ off = 16 * Z.of_nat k ∧ got d n s1 ip s'
    end) s.
Proof.
  intros R Hlen Hroom Hmax. eapply wp_mono; [|by apply (dirlookup_spec d me st sz V h L s dp i name R Hlen)].
  intros [ip off] s'. unfold lookup_post. destruct (find_entry _ _) as [[k n]|].
  - intros (s1 & Q & _ & E & G). eauto.
  - intros ([= -> ->] & Q & F). done.
Qed.

(** C17: a directory is a finite map and [dirlink] is its insertion: a new name
    is bound to the inode number and every other name keeps its binding,
    whether the entry reuses a free one or extends the directory; a name that
    is bound already is refused with -1, with the directory and the reference
    counts as they were; -1 for a new name means that the disk is full.  Blocks
    outside the directory keep their contents. *)
Theorem dirlink_correct d me st sz V h L s dp i name n :
  dir_ready d me st sz V h L s dp i → (length h + length L < 30)%nat → 0 < n < 2^16 →
  isize i + 16 ≤ MAXFILE * BSIZE → (∀ off, 0 ≤ off ≤ isize i → write_room sz h L off 16) →
  (∀ m, binds (dir V i) (name_string DIRSIZ name) = Some m → iget_room (itable (files s)) d m) →
  (∀ j x, itable (files s) !! j = Some x → 0 ≤ iref x < 2^31 - 1) →
  wp (dirlink dp name n) (λ r s',
    match binds (dir V i) (name_string DIRSIZ name) with
    | None => link_post d me st sz V h s dp i name n r s'
    | Some m => r = -1 ∧ ∃ s1, quiet d me h s s1 ∧
        (s' = s1 ∨ ∃ j x, itable (files s) !! j = Some x ∧ iref x = 0 ∧
           s' = with_inode (iptr j) ((fresh_inode d m x) <| iref := 0 |>) s1)
    end) s.
Proof.
  intros R Hlen Hn Hmax Hw Hroom Htab. destruct (binds (dir V i) (name_string DIRSIZ name)) as [m|] eqn:E.
  - apply (dirlink_old d me st sz V h L s dp i name n R Hlen m E); auto.
  - apply (dirlink_new d me st sz V h L s dp i name n R Hlen E Hn Hmax Hw). intros j x Hx. by apply (Htab j).
Qed.
