(* ===== verification/NamexProps.v ===== *)
(** * Path names resolve to inodes (namex of kernel/fs.c)

    A directory tree on disk is a graph on inode numbers.  [namex] follows the
    elements of a path in it, taking and dropping inode locks and references
    on the way; the theorem says that it finds what the path names and leaves
    no lock or reference behind. *)

From Stdlib Require Import ZArith Lia.
From stdpp Require Import base numbers list gmap functions strings tactics.
From S2P Require Import Prelude Riscv Mem Bytes Kalloc Vm Proc ProcRules Locks Bio BioList BioSpec BioProps Log LogSpec LogCrash LogProps Ftypes Fs FsRules FsAlloc FsFile FsWrite FsInode FsContents FsProps PathProps DirProps.

Local Open Scope Z_scope.

(** ** Sums over the inode table *)

Fixpoint tsum (f : inode → Z) (t : list inode) : Z :=
  match t with [] => 0 | x :: t => f x + tsum f t end.

Lemma tsum_insert f t : ∀ j x y, t !! j = Some x → tsum f (<[j := y]> t) = tsum f t - f x + f y.
Proof.
  induction t as [|z t IH]; intros [|j] x y Hx; simplify_eq/=; [lia|]. rewrite (IH j x y Hx). lia.
Qed.
Lemma tsum_nonneg f t : (∀ x, x ∈ t → 0 ≤ f x) → 0 ≤ tsum f t.
Proof.
  induction t as [|z t IH]; intros H; simpl; [lia|]. pose proof (H z ltac:(by left)).
  assert (0 ≤ tsum f t) by (apply IH; intros; apply H; by right). lia.
Qed.
Lemma tsum_ge f t j x : (∀ x, x ∈ t → 0 ≤ f x) → t !! j = Some x → f x ≤ tsum f t.
Proof.
  revert j. induction t as [|z t IH]; intros [|j] H Hx; simplify_eq/=.
  - assert (0 ≤ tsum f t) by (apply tsum_nonneg; intros; apply H; by right). lia.
  - pose proof (H z ltac:(by left)). assert (f x ≤ tsum f t) by (eapply IH; [|done]; intros; apply H; by right). lia.
Qed.
Lemma tsum_pos f t : 0 < tsum f t → ∃ j x, t !! j = Some x ∧ 0 < f x.
Proof.
  induction t as [|z t IH]; intros H; simpl in H; [lia|]. destruct (Z.lt_ge_cases 0 (f z)).
  - by exists 0%nat, z.
  - destruct IH as (j & x & Hx & ?); [lia|]. by exists (S j), x.
Qed.

(** The references to inode [n] of device [d], and the free entries. *)
Definition ref_count (d n : Z) (x : inode) : Z := if decide (idev x = d ∧ inum x = n) then iref x else 0.
Definition refs (d n : Z) (t : list inode) : Z := tsum (ref_count d n) t.
Definition unused (x : inode) : Z := if decide (iref x = 0) then 1 else 0.
Definition nfree (t : list inode) : Z := tsum unused t.
Definition delta (m n : Z) : Z := if decide (m = n) then 1 else 0.

(** ** The tree on disk *)

Lemma get_dinode_any x o i j : get_dinode x o j = load_inode (get_dinode x o i) j.
Proof. by destruct j. Qed.
Lemma load_link i x : inlink (load_inode i x) = inlink i.
Proof. done. Qed.

Section tree.
Context (d me st sz : Z) (sb0 : superblock) (V : contents) (L : list Z).

(** Inode [n] as its block has it. *)
Definition dinode (n : Z) : inode :=
  get_dinode (V (IBLOCK n sb0)) (dinode_off n) (inode0 <| idev := d |> <| Ftypes.inum := n |>).

Lemma get_dinode_load n j : get_dinode (V (IBLOCK n sb0)) (dinode_off n) j = load_inode (dinode n) j.
Proof. apply get_dinode_any. Qed.
#[local] Opaque dinode.

(** A set of inodes closed under directory entries, each of them sound. *)
Record sound (G : Z → Prop) (n : Z) : Prop := {
  so_type : itype (dinode n) ≠ 0;
  so_link : inlink (dinode n) ≠ 0;
  so_file : file_ok d st sz sb0 V (dinode n);
  so_holes : no_holes V (dinode n);
  so_out : outside sb0 V (dinode n) (IBLOCK n sb0);
  so_iblock : iblock_ok st sz V [] (IBLOCK n sb0);
  so_dir : itype (dinode n) = T_DIR → isize (dinode n) mod 16 = 0;
  so_next name m : itype (dinode n) = T_DIR → binds (dir V (dinode n)) name = Some m → G m;
}.

(** What a path names: an inode, and for the parent of a path the last element. *)
Fixpoint resolve (parent : bool) (n : Z) (path : list (list Z)) : option (Z * list Z) :=
  match path with
  | [] => if parent then None else Some (n, [])
  | c :: path' =>
      if itype (dinode n) =? T_DIR then
        if parent && bool_decide (path' = []) then Some (n, c)
        else match binds (dir V (dinode n)) c with
             | Some m => resolve parent m path'
             | None => None
             end
      else None
  end.

(** ** The inode table *)

(** An entry agrees with the disk; only the entry [held] is locked. *)
Definition entry_ok (locked : bool) (x : inode) : Prop :=
  ilk x = (if locked then Sleeplock.SleepLock 1 me else Sleeplock.SleepLock 0 0) ∧
  (0 < iref x → idev x = d ∧ (ivalid x ≠ 0 → load_inode (dinode (inum x)) x = x)).
Record table_ok (held : option nat) (t : list inode) : Prop := {
  tb_ok : itable_ok t;
  tb_entry j x : t !! j = Some x → entry_ok (bool_decide (held = Some j)) x;
}.

Lemma table_insert held held' t j x y :
  table_ok held t → t !! j = Some x → 0 ≤ iref y → entry_ok (bool_decide (held' = Some j)) y →
  (0 < iref y → ∀ k z, k ≠ j → t !! k = Some z → ¬ refers (idev y) (inum y) z) →
  (iref y = 0 → held' ≠ Some j) →
  (∀ k, k ≠ j → bool_decide (held' = Some k) = bool_decide (held = Some k)) →
  table_ok held' (<[j := y]> t).
Proof.
  intros [T E] Hx Hy Ey Hu H0 Hk. split.
  - eapply itable_ok_insert; try done. intros Hz. destruct Ey as [-> _]. by rewrite bool_decide_false by auto.
  - intros k z. destruct (decide (k = j)) as [->|Hne].
    + rewrite list_lookup_insert_eq by (by eapply lookup_lt_Some). by intros [= <-].
    + rewrite list_lookup_insert_ne by done. rewrite Hk by done. apply E.
Qed.

(** The same inode in the same entry. *)
Lemma table_same held held' t j x y :
  table_ok held t → t !! j = Some x → 0 < iref x → 0 ≤ iref y → idev y = idev x → inum y = inum x →
  entry_ok (bool_decide (held' = Some j)) y → (iref y = 0 → held' ≠ Some j) →
  (∀ k, k ≠ j → bool_decide (held' = Some k) = bool_decide (held = Some k)) →
  table_ok held' (<[j := y]> t).
Proof.
  intros T Hx Hr Hy Hd Hn Ey H0 Hk. eapply table_insert; try done. intros _ k z Hne Hz Hrz. apply Hne.
  eapply (it_unique _ (tb_ok _ _ T) k j z x); [done|done|exact Hrz|by split].
Qed.

Lemma refs_insert t j x y n : t !! j = Some x → refs d n (<[j := y]> t) = refs d n t - ref_count d n x + ref_count d n y.
Proof. apply tsum_insert. Qed.
Lemma nfree_insert t j x y : t !! j = Some x → nfree (<[j := y]> t) = nfree t - unused x + unused y.
Proof. apply tsum_insert. Qed.

Lemma refs_ge held t j x n : table_ok held t → t !! j = Some x → refers d n x → iref x ≤ refs d n t.
Proof.
  intros T Hx (_ & Hd & Hn). replace (iref x) with (ref_count d n x) by (unfold ref_count; by rewrite decide_True).
  eapply tsum_ge; [|done]. intros z [k Hz]%list_elem_of_lookup. unfold ref_count. case_decide; [|done].
  by eapply (it_ref _ (tb_ok _ _ T)).
Qed.
(** A bound on the references of all inodes bounds each entry. *)
Lemma refs_bound held t B : table_ok held t → (∀ n, refs d n t < B) → 0 < B → ∀ j x, t !! j = Some x → 0 ≤ iref x < B.
Proof.
  intros T H HB j x Hx. pose proof (it_ref _ (tb_ok _ _ T) j x Hx). split; [done|]. destruct (decide (0 < iref x)); [|lia].
  pose proof (tb_entry _ _ T j x Hx) as [_ Hd]. destruct (Hd ltac:(done)) as [Hd' _].
  pose proof (refs_ge _ _ j x (inum x) T Hx ltac:(by split)). specialize (H (inum x)). lia.
Qed.
Lemma free_room held t n : table_ok held t → 0 < nfree t → iget_room t d n.
Proof.
  intros T (j & x & Hx & Hp)%tsum_pos. split; [apply (it_len _ (tb_ok _ _ T))|]. exists j, x. split; [done|]. left.
  unfold unused in Hp. by case_decide.
Qed.
(** No entry refers to an inode without references. *)
Lemma refs_zero t n : (∀ j x, t !! j = Some x → 0 ≤ iref x) → (∀ j x, t !! j = Some x → ¬ refers d n x) → refs d n t = 0.
Proof.
  intros Hr H. unfold refs. induction t as [|z t IH]; [done|]. simpl.
  rewrite IH.
  - unfold ref_count. case_decide as E; [|done]. pose proof (Hr 0%nat z eq_refl).
    destruct (decide (0 < iref z)); [|lia]. exfalso. by apply (H 0%nat z eq_refl).
  - intros j x. by apply (Hr (S j)).
  - intros j x. by apply (H (S j)).
Qed.

(** ** Locks and references *)

Record tree_state (held : option nat) (s : kernel) : Prop := {
  ts_opened : opened d me st sz V [] L s;
  ts_sb : sb (files s) = sb0;
  ts_table : table_ok held (itable (files s));
}.
(** [ip] is an entry that refers to inode [n]. *)
Definition points (s : kernel) (ip n : Z) : Prop :=
  ∃ j x, ip = iptr j ∧ itable (files s) !! j = Some x ∧ refers d n x.

Lemma with_entry s j y : itable (files (with_inode (iptr j) y s)) = <[j := y]> (itable (files s)).
Proof. unfold iptr. cbn. by replace (Z.to_nat (Z.of_nat j + 1 - 1)) with j by lia. Qed.
Lemma state_with held held' s j y :
  tree_state held s → table_ok held' (<[j := y]> (itable (files s))) → tree_state held' (with_inode (iptr j) y s).
Proof. intros [O E T] H. split; [by apply opened_inode|done|by rewrite with_entry]. Qed.
Lemma state_quiet held s s' : tree_state held s → opened d me st sz V [] L s' → quiet d me [] s s' → tree_state held s'.
Proof. intros [_ E T] O Q. split; [done|by rewrite (quiet_sb _ _ _ _ _ Q)|by rewrite (quiet_table _ _ _ _ _ Q)]. Qed.
Lemma disk_quiet s s' : quiet d me [] s s' → disk_same (bcache (logst s)) (bcache (logst s')).
Proof. by intros [_ H _ _]. Qed.

Lemma load_same i x y : load_inode i x = x → itype y = itype x → imajor y = imajor x → iminor y = iminor x →
  inlink y = inlink x → isize y = isize x → iaddrs y = iaddrs x → load_inode i y = y.
Proof. destruct x, y. unfold load_inode. cbn. intros [= -> -> -> -> -> ->]. by intros -> -> -> -> -> ->. Qed.

(** The references to an inode are those of its entry. *)
Lemma refs_entry held t j x n : table_ok held t → t !! j = Some x → refers d n x → refs d n t = iref x.
Proof.
  intros T Hx Hr. set (y := x <| iref := 0 |>). pose proof (refs_insert t j x y n Hx) as E.
  assert (Ex : ref_count d n x = iref x) by (unfold ref_count; destruct Hr; by rewrite decide_True).
  assert (Ey : ref_count d n y = 0) by (unfold ref_count; by case_decide).
  assert (E0 : refs d n (<[j := y]> t) = 0); [|rewrite E0, Ex, Ey in E; lia].
  apply refs_zero.
  - intros k z. destruct (decide (k = j)) as [->|Hne].
    + rewrite list_lookup_insert_eq by (by eapply lookup_lt_Some). by intros [= <-].
    + rewrite list_lookup_insert_ne by done. apply (it_ref _ (tb_ok _ _ T)).
  - intros k z. destruct (decide (k = j)) as [->|Hne].
    + rewrite list_lookup_insert_eq by (by eapply lookup_lt_Some). intros Ez [Hp _]. injection Ez as <-. by apply Z.lt_irrefl in Hp.
    + rewrite list_lookup_insert_ne by done. intros Hz Hrz. apply Hne. by eapply (it_unique _ (tb_ok _ _ T) k j z x).
Qed.

(** *** Dropping a reference *)

Section entry.
Context (G : Z → Prop) (n : Z) (Hn : sound G n).

Lemma linked held t j x : table_ok held t → t !! j = Some x → refers d n x → ivalid x = 0 ∨ inlink x ≠ 0.
Proof using Hn.
  intros T Hx (Hr & Hd & E). destruct (decide (ivalid x = 0)) as [|Hv]; [by left|right].
  pose proof (tb_entry _ _ T j x Hx) as [_ H]. destruct (H Hr) as [_ Hl]. specialize (Hl Hv). rewrite E in Hl.
  rewrite <- Hl, load_link. apply (so_link _ _ Hn).
Qed.

Definition dropped (x : inode) : inode := x <| iref := s32 (iref x - 1) |>.

Lemma drop_table t j x : table_ok None t → t !! j = Some x → refers d n x → iref x < 2^31 →
  table_ok None (<[j := dropped x]> t) ∧
  (∀ m, refs d m (<[j := dropped x]> t) = refs d m t - delta n m) ∧
  nfree (<[j := dropped x]> t) = nfree t + (if decide (iref x = 1) then 1 else 0).
Proof using Hn.
  intros T Hx (Hr & Hd & E) Hb. pose proof (tb_entry _ _ T j x Hx) as [Hl Hc].
  assert (Ed : iref (dropped x) = iref x - 1) by (unfold dropped; simpl; rewrite s32_small; lia).
  split_and!.
  - eapply (table_same None None); try done; [lia|]. split; [by destruct x|]. intros _. destruct (Hc Hr) as [? Hv].
    split; [by destruct x|]. intros Hv'. apply (load_same _ x); [by apply Hv|done..].
  - intros m. rewrite (refs_insert _ _ _ _ _ Hx). unfold ref_count, delta. rewrite Ed.
    replace (idev (dropped x)) with d by (by destruct x). replace (inum (dropped x)) with n by (by destruct x).
    repeat case_decide; try lia; try tauto.
  - rewrite (nfree_insert _ _ _ _ Hx). unfold unused. rewrite Ed. repeat case_decide; lia.
Qed.

Lemma iput_ok s j x : tree_state None s → itable (files s) !! j = Some x → refers d n x → iref x < 2^31 →
  wp (iput (iptr j)) (λ _ s', tree_state None s' ∧ disk_same (bcache (logst s)) (bcache (logst s')) ∧
    itable (files s') = <[j := dropped x]> (itable (files s))) s.
Proof using Hn.
  intros S Hx Hr Hb. eapply iput_keep; [by apply iptr_at| |].
  - destruct (linked _ _ _ _ (ts_table _ _ S) Hx Hr); tauto.
  - split_and!; [|done|apply with_entry]. eapply state_with; [done|].
    by apply (drop_table _ _ _ (ts_table _ _ S) Hx Hr Hb).
Qed.

(** *** Unlocking *)

Definition unlocked (x : inode) : inode := set_lock (Sleeplock.SleepLock 0 0) x.

Lemma unlock_table t j x : table_ok (Some j) t → t !! j = Some x → 0 < iref x → table_ok None (<[j := unlocked x]> t).
Proof.
  intros T Hx Hr. pose proof (tb_entry _ _ T j x Hx) as [_ Hc]. eapply (table_same (Some j) None); try done.
  - by destruct x; simpl in *; lia.
  - split; [done|]. intros _. destruct (Hc Hr) as [? Hv]. split; [done|]. intros Hv'. apply (load_same _ x); [by apply Hv|done..].
  - intros k Hk. rewrite !bool_decide_false; congruence.
Qed.
Lemma iunlock_ok s j x (Q : unit → kernel → Prop) : tree_state (Some j) s → itable (files s) !! j = Some x → 0 < iref x →
  (∀ s', tree_state None s' → disk_same (bcache (logst s)) (bcache (logst s')) →
     itable (files s') = <[j := unlocked x]> (itable (files s)) → Q tt s') →
  wp (iunlock (iptr j)) Q s.
Proof.
  intros S Hx Hr HQ. pose proof (tb_entry _ _ (ts_table _ _ S) j x Hx) as [Hl _]. rewrite bool_decide_true in Hl by done.
  eapply iunlock_spec; [apply (ts_opened _ _ S)|by apply iptr_at|lia|done|].
  apply HQ; [|done|apply with_entry]. eapply state_with; [done|]. apply unlock_table; [apply (ts_table _ _ S)|done|done].
Qed.

Lemma unlocked_refers x m : refers d m x → refers d m (unlocked x).
Proof. by destruct x. Qed.

(** The effect on the counts of dropping a reference to [n]. *)
Definition less (t t' : list inode) (one : bool) : Prop :=
  (∀ m, refs d m t' = refs d m t - delta n m) ∧ nfree t' = nfree t + (if one then 1 else 0).

Lemma unlocked_counts t j x : t !! j = Some x →
  (∀ m, refs d m (<[j := unlocked x]> t) = refs d m t) ∧ nfree (<[j := unlocked x]> t) = nfree t.
Proof.
  intros Hx. split.
  - intros m. rewrite (refs_insert _ _ _ _ _ Hx). replace (ref_count d m (unlocked x)) with (ref_count d m x) by (by destruct x). lia.
  - rewrite (nfree_insert _ _ _ _ Hx). replace (unused (unlocked x)) with (unused x) by (by destruct x). lia.
Qed.

Lemma iunlockput_ok s j x : tree_state (Some j) s → itable (files s) !! j = Some x → refers d n x → iref x < 2^31 →
  wp (iunlockput (iptr j)) (λ _ s', tree_state None s' ∧ disk_same (bcache (logst s)) (bcache (logst s')) ∧
    itable (files s') = <[j := dropped (unlocked x)]> (itable (files s)) ∧
    less (itable (files s)) (itable (files s')) (bool_decide (iref x = 1))) s.
Proof using Hn.
  intros S Hx Hr Hb. unfold iunlockput. wp_step. eapply iunlock_ok; [done|done|by destruct Hr|].
  intros s1 S1 D1 E1. assert (Hx1 : itable (files s1) !! j = Some (unlocked x)).
  { rewrite E1. apply list_lookup_insert_eq. by eapply lookup_lt_Some. }
  pose proof (unlocked_refers _ _ Hr) as Hr1.
  eapply wp_mono; [|apply (iput_ok s1 j _ S1 Hx1 Hr1); by destruct x].
  intros [] s2 (S2 & [D2 D2'] & E2). rewrite E1, list_insert_insert_eq in E2. destruct D1 as [D1 D1'].
  split_and!; [done|split; congruence|done|]. rewrite E2. rewrite <- (list_insert_insert_eq (itable (files s)) j (dropped (unlocked x)) (unlocked x)), <- E1.
  destruct (drop_table _ _ _ (ts_table _ _ S1) Hx1 Hr1 ltac:(by destruct x)) as (_ & H1 & H2).
  destruct (unlocked_counts _ _ _ Hx) as [U1 U2]. rewrite <- E1 in U1, U2. split.
  - intros m. rewrite H1, U1. done.
  - rewrite H2, U2. replace (iref (unlocked x)) with (iref x) by (by destruct x). clear H2. case_decide; case_bool_decide; lia.
Qed.
End entry.

(** *** Taking a reference *)

(** The effect on the counts of taking a reference to [n]. *)
Definition more (n : Z) (t t' : list inode) : Prop :=
  (∀ m, refs d m t' = refs d m t + delta n m) ∧ nfree t' = nfree t - (if decide (refs d n t = 0) then 1 else 0).

Lemma added_table held t j x n : table_ok held t → t !! j = Some x → refers d n x → iref x < 2^31 - 1 →
  table_ok held (<[j := add_ref x]> t) ∧ more n t (<[j := add_ref x]> t) ∧ refers d n (add_ref x).
Proof.
  intros T Hx Hr Hb. pose proof (refs_entry _ _ _ _ _ T Hx Hr) as Er. destruct Hr as (Hr & Hd & E).
  pose proof (tb_entry _ _ T j x Hx) as [Hl Hc].
  assert (Ea : iref (add_ref x) = iref x + 1) by (unfold add_ref; simpl; rewrite s32_small; lia).
  split_and!; [| |split; [lia|done]].
  - eapply (table_same held held); try done; [lia| |lia]. split; [done|]. intros _. destruct (Hc Hr) as [? Hv].
    split; [done|]. intros Hv'. apply (load_same _ x); [by apply Hv|done..].
  - split.
    + intros m. rewrite (refs_insert _ _ _ _ _ Hx). unfold ref_count, delta. rewrite Ea.
      replace (idev (add_ref x)) with d by done. replace (inum (add_ref x)) with n by done.
      repeat case_decide; try lia; try tauto.
    + rewrite (nfree_insert _ _ _ _ Hx), Er. unfold unused. rewrite Ea. repeat case_decide; lia.
Qed.

Lemma fresh_table held t j x n : table_ok held t → t !! j = Some x → iref x = 0 →
  (∀ k z, t !! k = Some z → ¬ refers d n z) →
  table_ok held (<[j := fresh_inode d n x]> t) ∧ more n t (<[j := fresh_inode d n x]> t) ∧
  refers d n (fresh_inode d n x).
Proof.
  intros T Hx H0 Hno. pose proof (tb_entry _ _ T j x Hx) as [Hl Hc].
  split_and!; [| |done].
  - eapply (table_insert held held); try done. intros _ k z _ Hz. by apply (Hno k).
  - split.
    + intros m. rewrite (refs_insert _ _ _ _ _ Hx). unfold ref_count, delta.
      replace (idev (fresh_inode d n x)) with d by done. replace (inum (fresh_inode d n x)) with n by done.
      replace (iref (fresh_inode d n x)) with 1 by done. rewrite H0. repeat case_decide; try lia; try tauto.
    + rewrite (nfree_insert _ _ _ _ Hx). unfold unused. rewrite (refs_zero t n (it_ref _ (tb_ok _ _ T)) Hno).
      replace (iref (fresh_inode d n x)) with 1 by done. rewrite H0. rewrite !decide_True, decide_False by done. lia.
Qed.

Lemma got_ok held s ip s' n : tree_state held s → got d n s ip s' → (∀ m, refs d m (itable (files s)) < 2^31 - 1) →
  tree_state held s' ∧ points s' ip n ∧ logst s' = logst s ∧ more n (itable (files s)) (itable (files s')) ∧
  ∀ k x m, itable (files s) !! k = Some x → refers d m x →
    ∃ x', itable (files s') !! k = Some x' ∧ refers d m x'.
Proof.
  intros S (j & x & y & -> & Hx & Hr & -> & Hc) Hb. pose proof (ts_table _ _ S) as T.
  assert (table_ok held (<[j := y]> (itable (files s))) ∧ more n (itable (files s)) (<[j := y]> (itable (files s))) ∧
    ∀ m, refers d m x → refers d m y) as (T' & M & K).
  { pose proof (refs_bound held _ (2^31 - 1) T Hb ltac:(lia) j x Hx) as [_ Hbx]. destruct Hc as [[Hrx ->]|(Hno & H0 & ->)].
    - destruct (added_table held _ j x n T Hx Hrx Hbx) as (A1 & A2 & A3). split_and!; try done.
      intros m (? & ? & ?). destruct A3 as (? & _). by split.
    - destruct (fresh_table held _ j x n T Hx H0 Hno) as (A1 & A2 & A3). split_and!; try done. intros m (? & _). lia. }
  assert (Hj : (j < length (itable (files s)))%nat) by (by eapply lookup_lt_Some).
  split_and!.
  - by eapply state_with.
  - exists j, y. rewrite with_entry, list_lookup_insert_eq by done. done.
  - done.
  - by rewrite with_entry.
  - intros k z m Hz Hm. rewrite with_entry. destruct (decide (k = j)) as [->|].
    + rewrite list_lookup_insert_eq by done. exists y. split; [done|]. simplify_eq. by apply K.
    + rewrite list_lookup_insert_ne by done. by exists z.
Qed.

(** *** Locking *)

Lemma load_idem i x v : load_inode i ((load_inode i x) <| ivalid := v |>) = (load_inode i x) <| ivalid := v |>.
Proof. by destruct x. Qed.

Lemma locked_entry x n : inum x = n → (ivalid x ≠ 0 → load_inode (dinode n) x = x) →
  let i := locked_inode me sb0 V x in
  load_inode (dinode n) i = i ∧ idev i = idev x ∧ inum i = n ∧ iref i = iref x ∧ ilk i = Sleeplock.SleepLock 1 me.
Proof.
  intros E Hv i. unfold i, locked_inode. rewrite E. destruct (Z.eqb_spec (ivalid x) 0) as [|Hx].
  - rewrite get_dinode_load. split; [apply load_idem|]. subst n. generalize (dinode (inum x)). intros i0. by destruct x.
  - specialize (Hv Hx). split; [|by destruct x]. by apply (load_same _ x).
Qed.

Lemma load_fields i x : load_inode i x = x →
  itype x = itype i ∧ inlink x = inlink i ∧ isize x = isize i ∧ iaddrs x = iaddrs i.
Proof. intros <-. done. Qed.

Lemma ilock_ok G s j x n : sound G n → tree_state None s → itable (files s) !! j = Some x → refers d n x →
  (length L < 30)%nat →
  wp (ilock (iptr j)) (λ _ s', ∃ i, tree_state (Some j) s' ∧ disk_same (bcache (logst s)) (bcache (logst s')) ∧
    itable (files s') = <[j := i]> (itable (files s)) ∧ refers d n i ∧ iref i = iref x ∧ load_inode (dinode n) i = i) s.
Proof.
  intros Hn S Hx (Hr & Hd & E) Hlen. pose proof (ts_table _ _ S) as T. pose proof (tb_entry _ _ T j x Hx) as [Hl Hc].
  destruct (Hc Hr) as [_ Hv]. rewrite E in Hv. destruct (locked_entry x n E Hv) as (I1 & I2 & I3 & I4 & I5).
  set (i := locked_inode me sb0 V x) in *.
  eapply wp_mono; [|apply (ilock_spec d me st sz sb0 V [] L s (iptr j) x); try done].
  - intros [] s' (O' & Q'). assert (Et : itable (files s') = <[j := i]> (itable (files s))).
    { rewrite <- with_entry. by rewrite (iq_only _ _ _ _ _ _ _ Q'). }
    exists i. split_and!; try done.
    + split; [done|by rewrite (iquiet_sb _ _ _ _ _ _ _ Q'); apply S|]. rewrite Et.
      eapply (table_same None (Some j)); try done; [lia|congruence| |lia|].
      * rewrite bool_decide_true by done. split; [done|]. intros _. rewrite I3. split; [congruence|done].
      * intros k Hk. rewrite !bool_decide_false; congruence.
    + by apply (iq_disk _ _ _ _ _ _ _ Q').
    + split; [lia|]. split; [congruence|done].
  - apply (ts_opened _ _ S).
  - by apply iptr_at.
  - apply (ts_sb _ _ S).
  - apply not_elem_of_nil.
  - lia.
  - by rewrite Hl.
  - intros _. fold i. destruct (load_fields _ _ I1) as (-> & _). apply (so_type _ _ Hn).
Qed.

(** *** Reading a locked directory *)

Lemma faddr_inode i i' bn : iaddrs i' = iaddrs i → faddr V i' bn = faddr V i bn.
Proof. intros E. unfold faddr, addr. by rewrite E. Qed.
Lemma dir_inode i i' : iaddrs i' = iaddrs i → isize i' = isize i → dir V i' = dir V i.
Proof.
  intros E1 E2. unfold dir, fcontents, fslice. rewrite E2. f_equal. apply list_fmap_ext. intros k p _.
  unfold fbyte. by rewrite (faddr_inode i i').
Qed.
Lemma file_ok_inode i i' : iaddrs i' = iaddrs i → idev i' = idev i → file_ok d st sz sb0 V i → file_ok d st sz sb0 V i'.
Proof.
  intros E1 E2 [F1 F2 F3 F4 F5 F6]. assert (Ea : ∀ k, addr i' k = addr i k) by (intros; unfold addr; by rewrite E1).
  split.
  - congruence.
  - by rewrite E1.
  - intros bn. rewrite !(faddr_inode i i') by done. apply F3.
  - rewrite Ea. apply F4.
  - intros bn bn'. rewrite !(faddr_inode i i') by done. apply F5.
  - intros bn. rewrite !(faddr_inode i i'), Ea by done. apply F6.
Qed.
Lemma in_file_inode i i' a : iaddrs i' = iaddrs i → in_file V i' a → in_file V i a.
Proof.
  intros E [Hn H]. split; [done|]. destruct H as [->|(bn & Hbn & ->)].
  - left. unfold addr. by rewrite E.
  - right. exists bn. by rewrite (faddr_inode i i').
Qed.

Context (Hly : layout st sz sb0) (Hone : sb_size sb0 ≤ BPB) (Hbm : bitmap st sz sb0 V) (Hlen : (length L < 30)%nat).

Lemma dinode_dev n : idev (dinode n) = d ∧ inum (dinode n) = n.
Proof. done. Qed.

Lemma locked_ready G s j i n : sound G n → tree_state (Some j) s → itable (files s) !! j = Some i → refers d n i →
  load_inode (dinode n) i = i → file_ready d me st sz V [] L s (iptr j) i.
Proof using Hly Hone Hbm.
  intros Hn S Hi (Hr & Hd & E) Hl. destruct (load_fields _ _ Hl) as (E1 & E2 & E3 & E4). destruct (dinode_dev n) as [D1 D2].
  pose proof (ts_sb _ _ S) as Esb. split; rewrite ?Esb, ?E; try done.
  - apply (ts_opened _ _ S).
  - by apply iptr_at.
  - apply (file_ok_inode (dinode n)); [done|congruence|apply (so_file _ _ Hn)].
  - destruct (so_holes _ _ Hn) as [H1 H2]. split; [by rewrite E3|]. intros bn Hbn. rewrite E3, (faddr_inode (dinode n) i) by done. by apply H2.
  - intros a _. apply not_elem_of_nil.
  - intros a Ha. by apply elem_of_nil in Ha.
  - destruct (so_out _ _ Hn) as (H1 & H2 & H3). split_and!; try done. intros H. apply H3. by apply (in_file_inode _ i).
  - apply (so_iblock _ _ Hn).
Qed.

Lemma lookup_ok G s j i n name : sound G n → tree_state (Some j) s → itable (files s) !! j = Some i → refers d n i →
  load_inode (dinode n) i = i → itype i = T_DIR → 0 < nfree (itable (files s)) →
  (∀ m, refs d m (itable (files s)) < 2^31 - 1) →
  wp (dirlookup (iptr j) name) (λ '(next, _) s', tree_state (Some j) s' ∧ disk_same (bcache (logst s)) (bcache (logst s')) ∧
    match binds (dir V (dinode n)) (name_string DIRSIZ name) with
    | None => next = 0 ∧ itable (files s') = itable (files s)
    | Some m => next ≠ 0 ∧ points s' next m ∧ more m (itable (files s)) (itable (files s')) ∧
        ∃ i', itable (files s') !! j = Some i' ∧ refers d n i'
    end) s.
Proof using Hly Hone Hbm Hlen.
  intros Hn S Hi Hr Hl Ht Hf Hb. destruct (load_fields _ _ Hl) as (E1 & E2 & E3 & E4).
  pose proof (locked_ready G s j i n Hn S Hi Hr Hl) as R. pose proof (dir_inode (dinode n) i E4 E3) as Ed.
  assert (R' : dir_ready d me st sz V [] L s (iptr j) i).
  { split; [done|done|]. rewrite E3. apply (so_dir _ _ Hn). congruence. }
  eapply wp_mono; [|apply (dirlookup_spec d me st sz V [] L s (iptr j) i name R'); [done| |]].
  - intros [next off] s'. unfold lookup_post, binds. rewrite Ed. destruct (find_entry _ _) as [[k m]|]; cbn [fmap option_fmap option_map snd fst].
    + intros (s1 & Q1 & R1 & _ & Hgot). pose proof (state_quiet _ _ _ S (fr_opened _ _ _ _ _ _ _ _ _ _ R1) Q1) as S1.
      pose proof (quiet_table _ _ _ _ _ Q1) as Et. destruct (got_ok _ _ _ _ _ S1 Hgot) as (S2 & P2 & L2 & M2 & K2); [by rewrite Et|].
      rewrite Et in M2, K2. split; [done|]. split; [rewrite L2; by apply disk_quiet|]. split_and!; try done; [|by apply (K2 j i n)].
      destruct P2 as (j' & x' & -> & _). unfold iptr. lia.
    + intros ([= -> ->] & Q1 & R1). split; [apply (state_quiet _ s); [done|apply (fr_opened _ _ _ _ _ _ _ _ _ _ R1)|done]|].
      split; [by apply disk_quiet|]. split; [done|]. by rewrite (quiet_table _ _ _ _ _ Q1).
  - intros k m _. by eapply free_room, Hf; apply (ts_table _ _ S).
  - intros k x Hx. by apply (refs_bound _ _ _ (ts_table _ _ S) Hb ltac:(lia) k x).
Qed.

(** *** Counting along a path *)

Lemma refs_nonneg held t n : table_ok held t → 0 ≤ refs d n t.
Proof.
  intros T. apply tsum_nonneg. intros x [k Hx]%list_elem_of_lookup. unfold ref_count. case_decide; [|done].
  by eapply (it_ref _ (tb_ok _ _ T)).
Qed.

(** From a reference to [n] to one to [m]. *)
Lemma more_step held t0 t1 t2 t3 n m k : table_ok held t0 → more n t0 t1 → more m t1 t2 →
  less n t2 t3 (bool_decide (k = 1)) → refs d n t2 = k → more m t0 t3.
Proof.
  intros T [A1 A2] [B1 B2] [C1 C2] Hk. split.
  - intros p. rewrite C1, B1, A1. lia.
  - rewrite C2, B2, A2, A1. rewrite B1, A1 in Hk. unfold delta in *. rewrite decide_True in Hk by done.
    pose proof (refs_nonneg _ _ n T). pose proof (refs_nonneg _ _ m T).
    case_bool_decide; destruct (decide (m = n)) as [->|Hne].
    + lia.
    + rewrite (decide_False (P := n = m)) by done. repeat case_decide; lia.
    + rewrite (decide_True (P := n = n)) by done. repeat case_decide; lia.
    + rewrite (decide_False (P := n = m)) by done. repeat case_decide; lia.
Qed.
Lemma locked_counts t j x i : t !! j = Some x → iref i = iref x → idev i = idev x → inum i = inum x →
  (∀ m, refs d m (<[j := i]> t) = refs d m t) ∧ nfree (<[j := i]> t) = nfree t.
Proof.
  intros Hx E1 E2 E3. split.
  - intros m. rewrite (refs_insert _ _ _ _ _ Hx). unfold ref_count. rewrite E1, E2, E3. lia.
  - rewrite (nfree_insert _ _ _ _ Hx). unfold unused. rewrite E1. lia.
Qed.

(** ** The walk *)

Section walk.
Context (G : Z → Prop) (HG : ∀ n, G n → sound G n) (s0 : kernel) (parent : bool).
Local Abbreviation t0 := (itable (files s0)).
Context (S0 : tree_state None s0) (Hfree : 2 ≤ nfree t0) (Hrefs : ∀ n, refs d n t0 < 2^31 - 4).

(** At inode [n], with one reference more than at the start. *)
Record at_node (ip n : Z) (s : kernel) : Prop := {
  an_state : tree_state None s;
  an_points : points s ip n;
  an_good : G n;
  an_refs : more n t0 (itable (files s));
  an_disk : disk_same (bcache (logst s0)) (bcache (logst s));
}.
(** Every reference given back. *)
Record finished (s : kernel) : Prop := {
  fi_state : tree_state None s;
  fi_refs m : refs d m (itable (files s)) = refs d m t0;
  fi_disk : disk_same (bcache (logst s0)) (bcache (logst s));
}.

Lemma disk_trans a b c : disk_same a b → disk_same b c → disk_same a c.
Proof. intros [? ?] [? ?]. split; congruence. Qed.
Lemma more_bound n t B : more n t0 t → (∀ m, refs d m t0 < B) → ∀ m, refs d m t < B + 1.
Proof. intros [H _] Hb m. rewrite H. specialize (Hb m). unfold delta. case_decide; lia. Qed.
Lemma less_back n t t' one : more n t0 t → less n t t' one → ∀ m, refs d m t' = refs d m t0.
Proof. intros [H _] [H' _] m. rewrite H', H. lia. Qed.

(** A reference to [m] survives dropping one to [n]. *)
Lemma points_kept s s' ip j i n m : points s ip m → itable (files s) !! j = Some i → refers d n i → iref i < 2^31 →
  itable (files s') = <[j := dropped (unlocked i)]> (itable (files s)) → (m = n → 1 < iref i) → points s' ip m.
Proof.
  intros (k & x & -> & Hx & Hm) Hi (Hr & Hd & E) Hb Et Hk. destruct (decide (k = j)) as [->|Hne].
  - simplify_eq. destruct Hm as (_ & _ & Em). specialize (Hk (eq_sym Em)). exists j, (dropped (unlocked x)). split; [done|].
    rewrite Et. split; [apply list_lookup_insert_eq; by eapply lookup_lt_Some|]. split; [|by split].
    unfold dropped, unlocked. simpl. rewrite s32_small; lia.
  - exists k, x. split; [done|]. rewrite Et, list_lookup_insert_ne by done. done.
Qed.

(** What one round of the loop of [namex] does after [skipelem]. *)
Definition round (ip : Z) (path name : list Z) : M kernel ((Z * list Z * list Z) + (Z * list Z * bool)) :=
  ilock ip ;;;
  let* i := geti ip in
  if negb (itype i =? T_DIR) then
    iunlockput ip ;;; ret (inr (0, name, true))
  else if parent && bool_decide (path = []) then
    iunlock ip ;;; ret (inr (ip, name, true))
  else
    let* (next, _) := dirlookup ip name in
    if next =? 0 then
      iunlockput ip ;;; ret (inr (0, name, true))
    else
      iunlockput ip ;;; ret (inl (next, path, name)).

Definition round_post (ip n : Z) (path name : list Z) (r : (Z * list Z * list Z) + (Z * list Z * bool)) (s' : kernel) : Prop :=
  let b := binds (dir V (dinode n)) (name_string DIRSIZ name) in
  let stop := parent && bool_decide (path = []) in
  match r with
  | inl (next, path', name') => path' = path ∧ name' = name ∧ itype (dinode n) = T_DIR ∧ stop = false ∧
      ∃ m, b = Some m ∧ at_node next m s'
  | inr (ip', name', f) => name' = name ∧ f = true ∧
      (ip' = 0 ∧ finished s' ∧ (itype (dinode n) ≠ T_DIR ∨ itype (dinode n) = T_DIR ∧ stop = false ∧ b = None) ∨
       ip' = ip ∧ itype (dinode n) = T_DIR ∧ stop = true ∧ at_node ip n s')
  end.

Lemma round_ok ip n path name s : at_node ip n s → wp (round ip path name) (round_post ip n path name) s.
Proof using All.
  intros [S (j & x & -> & Hx & Hr) Hg M D]. pose proof (HG n Hg) as Hn. unfold round.
  pose proof (more_bound _ _ _ M Hrefs) as B1.
  assert (F1 : 1 ≤ nfree (itable (files s))) by (destruct M as [_ M2]; rewrite M2; case_decide; lia).
  wp_step. eapply wp_mono; [|by apply (ilock_ok G s j x n)].
  intros [] s1 (i & S1 & D1 & E1 & Hri & Ei & Hl). pose proof (lookup_lt_Some _ _ _ Hx) as Hj.
  assert (Hi : itable (files s1) !! j = Some i) by (rewrite E1; by apply list_lookup_insert_eq).
  destruct (load_fields _ _ Hl) as (T1 & _). destruct (locked_counts _ _ _ i Hx Ei) as [C1 C2];
    [by destruct Hri as (_ & -> & _), Hr as (_ & -> & _)|by destruct Hri as (_ & _ & ->), Hr as (_ & _ & ->)|].
  rewrite <- E1 in C1, C2. pose proof (disk_trans _ _ _ D D1) as D01.
  assert (M1 : more n t0 (itable (files s1))).
  { destruct M as [M1 M2]. split; [intros m; by rewrite C1|by rewrite C2]. }
  pose proof (more_bound _ _ _ M1 Hrefs) as B1'.
  assert (Hib : iref i < 2^31) by (pose proof (refs_bound _ _ _ (ts_table _ _ S1) B1' ltac:(lia) j i Hi); lia).
  wp_step. eapply wp_geti; [by apply iptr_at|]. rewrite T1.
  destruct (Z.eqb_spec (itype (dinode n)) T_DIR) as [Hdir|Hdir]; cbn [negb].
  2: { wp_step. eapply wp_mono; [|by apply (iunlockput_ok G n Hn s1 j i)].
    intros [] s2 (S2 & D2 & _ & L2). wp_simp. split; [done|]. split; [done|]. left. split; [done|]. split; [|by left].
    split; [done|by eapply less_back|by eapply disk_trans]. }
  destruct (parent && bool_decide (path = [])) eqn:Estop.
  { wp_step. eapply iunlock_ok; [exact S1|exact Hi|by destruct Hri|]. intros s2 S2 D2 E2. wp_simp. unfold round_post. rewrite Estop.
    split; [done|]. split; [done|]. right. split_and!; try done. destruct (unlocked_counts _ _ _ Hi) as [U1 U2]. rewrite <- E2 in U1, U2. split.
    - done.
    - exists j, (unlocked i). split; [done|]. rewrite E2. split; [|by apply unlocked_refers].
      apply list_lookup_insert_eq. rewrite E1, length_insert. done.
    - done.
    - destruct M1 as [M1 M2]. split; [intros m; by rewrite U1|by rewrite U2].
    - by eapply disk_trans. }
  wp_step. eapply wp_mono; [|apply (lookup_ok G s1 j i n name Hn S1 Hi Hri Hl); [congruence|lia|]].
  2: { intros m. specialize (B1' m). lia. }
  intros [next off] s2 (S2 & D2 & Hres). pose proof (disk_trans _ _ _ D01 D2) as D02.
  unfold round_post. rewrite Estop. destruct (binds _ _) as [m|] eqn:Eb.
  - destruct Hres as (Hnext & P2 & M2 & i' & Hi' & Hri'). rewrite (proj2 (Z.eqb_neq next 0)) by done.
    assert (B2 : ∀ m, refs d m (itable (files s2)) < 2^31 - 1).
    { intros k. destruct M2 as [M2 _]. rewrite M2. specialize (B1' k). unfold delta. case_decide; lia. }
    pose proof (refs_bound _ _ _ (ts_table _ _ S2) B2 ltac:(lia) j i' Hi') as Hb'.
    wp_step. eapply wp_mono; [|apply (iunlockput_ok G n Hn s2 j i' S2 Hi' Hri'); lia].
    intros [] s3 (S3 & D3 & E3 & L3). wp_simp. split_and!; try done. exists m. split; [done|]. split.
    + done.
    + apply (points_kept s2 s3 next j i' n m P2 Hi' Hri' ltac:(lia) E3). pose proof (refs_entry _ _ _ _ _ (ts_table _ _ S2) Hi' Hri') as Er.
      destruct M1 as [M1 _], M2 as [M2 _]. rewrite M2, M1 in Er. pose proof (refs_nonneg _ _ n (ts_table _ _ S0)).
      intros ->. unfold delta in Er. rewrite !decide_True in Er by done. lia.
    + by apply (so_next _ _ Hn (name_string DIRSIZ name) m).
    + apply (more_step None t0 (itable (files s1)) (itable (files s2)) _ n m (iref i') (ts_table _ _ S0) M1 M2 L3).
      by apply (refs_entry _ _ _ _ _ (ts_table _ _ S2) Hi').
    + by eapply disk_trans.
  - destruct Hres as (-> & E2). cbn [Z.eqb]. rewrite <- E2 in Hi, M1.
    wp_step. eapply wp_mono; [|by apply (iunlockput_ok G n Hn s2 j i)].
    intros [] s3 (S3 & D3 & _ & L3). wp_simp. split; [done|]. split; [done|]. left. split; [done|]. split; [|by right].
    split; [done|by eapply less_back|by eapply disk_trans].
Qed.

Lemma skipelem_rest path name rest name' : skipelem path name = Some (rest, name') →
  rest = [] ↔ take DIRSIZ <$> components rest = [].
Proof.
  unfold skipelem. destruct (skip_slashes path) as [|c p]; [done|]. intros [= <- _].
  set (r := drop _ _). split; [by intros ->|]. intros H%fmap_nil_inv.
  destruct (skip_slashes r) as [|a q] eqn:E; [done|]. exfalso. pose proof (skip_slashes_head _ _ _ E) as Ha.
  revert H. unfold components. destruct (pieces_element (a :: q)) as (xs & -> & _).
  cbn [element]. rewrite (proj2 (Z.eqb_neq a slash) Ha). by rewrite filter_cons_True.
Qed.

(** The answer of a walk. *)
Definition answer (r : option (Z * list Z)) (ip : Z) (name : list Z) (s' : kernel) : Prop :=
  match r with
  | None => ip = 0 ∧ finished s'
  | Some (m, c) => at_node ip m s' ∧ (parent = true → name_string DIRSIZ name = c)
  end.

Definition round_loop : Z * list Z * list Z → M kernel ((Z * list Z * list Z) + (Z * list Z * bool)) :=
  λ '(ip, path, name),
    match skipelem path name with
    | None => ret (inr (ip, name, false))
    | Some (path, name) => round ip path name
    end.

Lemma walk_ok ip n path name s : at_node ip n s → Forall (λ c, c ≠ 0) path → length name = DIRSIZ →
  wp (loop (Pos.of_succ_nat (length path)) round_loop (ip, path, name))
    (λ '(ip', name', found) s',
      if found : bool then answer (resolve parent n (take DIRSIZ <$> components path)) ip' name' s'
      else ∃ m, at_node ip' m s' ∧
        resolve parent n (take DIRSIZ <$> components path) = if parent then None else Some (m, [])) s.
Proof using All.
  intros A Hz Hl. set (R := resolve parent n _).
  apply (wp_loop _ (λ '(ip, path, name) s1, ∃ n1, at_node ip n1 s1 ∧ Forall (λ c, c ≠ 0) path ∧ length name = DIRSIZ ∧
    R = resolve parent n1 (take DIRSIZ <$> components path)) (λ '(ip, path, name), length path)).
  2: by exists n.
  2: { rewrite SuccNat2Pos.id_succ. lia. }
  intros [[ip1 path1] name1] s1 (n1 & A1 & Hz1 & Hl1 & ->). unfold round_loop.
  pose proof (skipelem_spec path1 name1 Hz1 Hl1) as Hs. destruct (skipelem path1 name1) as [[path2 name2]|] eqn:Ek.
  2: { rewrite Hs. wp_simp. by exists n1. }
  destruct Hs as (-> & Hn & Hl2 & Hz2 & Hlt). rewrite fmap_cons, <- Hn. cbn [resolve].
  pose proof (skipelem_rest _ _ _ _ Ek) as Hrest.
  replace (bool_decide (take DIRSIZ <$> components path2 = [])) with (bool_decide (path2 = [])) by (by apply bool_decide_ext).
  eapply wp_mono; [|by apply (round_ok ip1 n1 path2 name2 s1)].
  intros [[[ip2 path3] name3]|[[ip2 name3] f]] s2.
  - intros (-> & -> & Ht & Hstop & m & Hm & A2). split; [|lia]. exists m. split_and!; try done.
    rewrite Hstop, Hm, Ht. done.
  - intros (-> & -> & [(-> & F & [Ht|(Ht & Hstop & Hb)])|(-> & Ht & Hstop & A2)]).
    + by rewrite (proj2 (Z.eqb_neq _ _) Ht).
    + by rewrite Ht, Hstop, Hb.
    + by rewrite Ht, Hstop.
Qed.

(** *** The start *)

(** Where a path starts: the root, or the directory of the process. *)
Definition starts (path : list Z) (n : Z) : Prop :=
  if bool_decide (path !! 0%nat = Some slash) then n = ROOTINO
  else ∃ i p j x, cur s0 = Some i ∧ procs s0 !! i = Some p ∧ cwd p = iptr j ∧ t0 !! j = Some x ∧ refers d n x.

Lemma start_ok path n : d = ROOTDEV → G n → starts path n →
  wp (if bool_decide (path !! 0%nat = Some slash) then iget ROOTDEV ROOTINO
      else let* i := myproc in let* p := getp i in idup (cwd p)) (λ ip s', at_node ip n s') s0.
Proof using All.
  intros Hd Hg Hst. unfold starts in Hst. pose proof (ts_table _ _ S0) as T.
  assert (B : ∀ m, refs d m t0 < 2^31 - 1) by (intros m; specialize (Hrefs m); lia).
  pose proof (refs_bound _ _ _ T B ltac:(lia)) as Bx. case_bool_decide.
  - subst n. rewrite <- Hd. eapply wp_mono; [|apply (iget_got s0 d ROOTINO)].
    + intros ip s' Hgot. destruct (got_ok _ _ _ _ _ S0 Hgot B) as (S1 & P1 & L1 & M1 & _). split; try done. by rewrite L1.
    + apply (free_room None); [done|lia].
    + intros j x Hx. by apply (Bx j).
  - destruct Hst as (i & p & j & x & Hc & Hp & Hcwd & Hx & Hr). wp_step. eapply wp_myproc; [done|]. wp_step. eapply wp_getp; [done|].
    unfold idup. rewrite Hcwd. wp_step. eapply wp_updi; [by apply iptr_at|]. wp_simp.
    destruct (added_table None _ j x n T Hx Hr) as (A1 & A2 & A3); [by apply (Bx j)|]. split.
    + by apply (state_with None None).
    + exists j, (add_ref x). split; [done|]. rewrite with_entry. split; [|done]. apply list_lookup_insert_eq. by eapply lookup_lt_Some.
    + done.
    + by rewrite with_entry.
    + done.
Qed.

Lemma namex_ok path name n : d = ROOTDEV → G n → starts path n → Forall (λ c, c ≠ 0) path → length name = DIRSIZ →
  wp (namex path parent name) (λ '(ip, name') s',
    answer (resolve parent n (take DIRSIZ <$> components path)) ip name' s') s0.
Proof using All.
  intros Hd Hg Hst Hz Hl. unfold namex. wp_step. eapply wp_mono; [|by apply (start_ok path n)].
  intros ip s1 A1. wp_step. eapply wp_mono; [|by apply (walk_ok ip n path name s1)].
  intros [[ip2 name2] found] s2. destruct found; [done|]. intros (m & A2 & ->). destruct parent eqn:Ep.
  - destruct A2 as [S2 (j & x & -> & Hx & Hr) Hg2 M2 D2]. pose proof (more_bound _ _ _ M2 Hrefs) as B2.
    pose proof (refs_bound _ _ _ (ts_table _ _ S2) B2 ltac:(lia) j x Hx) as Hb.
    wp_step. eapply wp_mono; [|apply (iput_ok G m (HG m Hg2) s2 j x S2 Hx Hr); lia].
    intros [] s3 (S3 & D3 & E3). wp_simp. split; [done|]. split; [done| |by eapply disk_trans].
    destruct (drop_table G m (HG m Hg2) _ j x (ts_table _ _ S2) Hx Hr ltac:(lia)) as (_ & H1 & H2). rewrite <- E3 in H1.
    destruct M2 as [M2 _]. intros k. rewrite H1, M2. lia.
  - wp_simp. split; [done|]. congruence.
Qed.
End walk.
End tree.

(** C16: a path names what following its elements in the directories on disk
    finds.  [namex] starts at the root or at the current directory, looks up
    one element after the other (cut to [DIRSIZ] bytes), stops at what is not a
    directory and at names that are not there, and for the parent of a path
    stops one element early with that element in [name].  It answers a counted
    reference to the inode, or 0 exactly when there is none; every lock it
    takes is free again, every other reference is given back, the disk is not
    written and the loop ends. *)
Theorem namex_correct me st sz sb0 V L G s0 parent path name n :
  let t0 := itable (files s0) in
  layout st sz sb0 → sb_size sb0 ≤ BPB → bitmap st sz sb0 V → (length L < 30)%nat →
  (∀ m, G m → sound ROOTDEV st sz sb0 V G m) → G n → starts ROOTDEV s0 path n →
  tree_state ROOTDEV me st sz sb0 V L None s0 → 2 ≤ nfree t0 → (∀ m, refs ROOTDEV m t0 < 2^31 - 4) →
  Forall (λ c, c ≠ 0) path → length name = DIRSIZ →
  wp (namex path parent name) (λ '(ip, name') s',
    tree_state ROOTDEV me st sz sb0 V L None s' ∧ disk_same (bcache (logst s0)) (bcache (logst s')) ∧
    match resolve ROOTDEV sb0 V parent n (take DIRSIZ <$> components path) with
    | None => ip = 0 ∧ ∀ m, refs ROOTDEV m (itable (files s')) = refs ROOTDEV m t0
    | Some (m, c) => points ROOTDEV s' ip m ∧ (parent = true → name_string DIRSIZ name' = c) ∧
        ∀ k, refs ROOTDEV k (itable (files s')) = refs ROOTDEV k t0 + delta m k
    end) s0.
Proof.
  intros t0 Hly Hone Hbm HL HG Hg Hst S0 Hf Hr Hz Hl. eapply wp_mono; [|by eapply (namex_ok ROOTDEV me st sz sb0 V L)].
  intros [ip name'] s'. unfold answer. destruct (resolve _ _ _ _ _ _) as [[m c]|].
  - intros [[S1 P1 _ [M1 _] D1] Hn]. done.
  - intros [-> [S1 R1 D1]]. done.
Qed.
