(* ===== verification/DirDemo.v ===== *)
(** * A concrete directory tree

    The root directory, inode 1, with the entries [.], [..] and [a], in block
    35; [a] is an empty file, inode 2.  Instances of the theorems on
    directories and paths there. *)

From Stdlib Require Import ZArith Lia.
From stdpp Require Import base numbers list gmap functions strings tactics.
From S2P Require Import Prelude Riscv Mem Bytes Kalloc Vm Proc ProcRules Locks Bio BioList BioSpec BioProps Log LogSpec LogCrash LogProps LogDemo Ftypes Fs FsRules FsAlloc FsFile FsWrite FsInode FsContents File FsProps FsDemo PathProps DirProps NamexProps.

Local Open Scope Z_scope.

Definition root_inode : inode :=
  Inode 1 1 1 (Sleeplock.SleepLock 1 5) 1 T_DIR 0 0 1 48 (35 :: replicate 12 0).
Definition a_inode : inode :=
  Inode 1 2 0 (Sleeplock.SleepLock 0 0) 0 T_FILE 0 0 1 0 (replicate 13 0).
Definition root_bytes : list Z := enc_dirent 1 [46] ++ enc_dirent 1 [46; 46] ++ enc_dirent 2 [97].
Definition tree_disk : gmap Z block_data :=
  <[33 := put_dinode 128 a_inode (put_dinode 64 root_inode zero_block)]>
    (<[34 := demo_bits]> (<[35 := root_bytes ++ replicate 976 0]> ∅)).
Definition root_table : list inode := root_inode :: replicate 49 inode0.

(** The directory as a list. *)
Definition root_dir : list entry := [(1, [46]); (1, [46; 46]); (2, [97])].

Section tree.
Context (V : contents).
Hypothesis HV : ∀ n, n ≠ 2 → V n = disk_block tree_disk n.

Lemma tree_34 : V 34 = demo_bits.
Proof using HV. by rewrite HV. Qed.
Lemma tree_33 : length (V 33) = 1024%nat.
Proof using HV. rewrite HV by done. by vm_compute. Qed.
Lemma tree_35 : length (V 35) = 1024%nat.
Proof using HV. rewrite HV by done. by vm_compute. Qed.

(** An inode whose only block is 35. *)
Section root.
Context (i : inode) (Ha : iaddrs i = 35 :: replicate 12 0) (Hd : idev i = 1) (Hs : isize i = 48).

Lemma root_faddr bn : 0 ≤ bn → faddr V i bn = if decide (bn = 0) then 35 else 0.
Proof using Ha. intros. rewrite (faddr_inode V demo_inode i) by done. by apply demo_faddr. Qed.
Lemma root_file : file_ok 1 2 31 demo_sb V i.
Proof using All.
  apply (file_ok_inode 1 2 31 demo_sb V demo_inode); [done|done|]. apply one_block_file; [apply tree_34|apply tree_35].
Qed.
Lemma root_holes : no_holes V i.
Proof using Ha Hs.
  split; [rewrite Hs; by vm_compute|]. intros bn Hbn. rewrite Hs, root_faddr by done. unfold BSIZE. intros. by rewrite decide_True by lia.
Qed.
Lemma root_outside : outside demo_sb V i 33.
Proof using All.
  split_and!; [by intros ?%demo_bmap| |].
  - intros _. by rewrite bits_used by (done || apply tree_34).
  - intros H. apply (in_file_inode V demo_inode) in H; [|done]. by apply demo_in_file in H.
Qed.
Lemma root_entries : dir V i = root_dir.
Proof using All.
  unfold dir, fcontents. rewrite Hs, fslice_block; rewrite ?root_faddr by done; try done; [|apply tree_35].
  rewrite HV by done. by vm_compute.
Qed.
End root.

Lemma iblock_33 : iblock_ok 2 31 V [] 33.
Proof using HV. split; [unfold home; lia|]. split; [apply not_elem_of_nil|apply tree_33]. Qed.

(** The root locked by process 5. *)
Lemma root_ready l : opened 1 5 2 31 V [] [] (demo_kernel l root_table) →
  dir_ready 1 5 2 31 V [] [] (demo_kernel l root_table) 1 root_inode.
Proof using HV.
  intros O. split; [|done|done]. split; try done.
  - apply demo_layout.
  - by apply root_file.
  - by apply root_holes.
  - apply bits_bitmap, tree_34.
  - intros n _. apply not_elem_of_nil.
  - intros n Hn. by apply elem_of_nil in Hn.
  - by apply root_outside.
  - apply iblock_33.
Qed.
End tree.

Lemma root_table_refs j x : root_table !! j = Some x → 0 ≤ iref x < 2^31 - 1.
Proof.
  destruct j as [|j]; intros Hx; [injection Hx as <-; by vm_compute|]. change (replicate 49 inode0 !! j = Some x) in Hx.
  apply lookup_replicate_1 in Hx as [-> _]. by vm_compute.
Qed.
Lemma root_room dev n : iget_room root_table dev n.
Proof. split; [done|]. exists 1%nat, inode0. split; [done|by left]. Qed.
Lemma root_booted t : ∃ l V, opened 1 5 2 31 V [] [] (demo_kernel l t) ∧ ∀ n, n ≠ 2 → V n = disk_block tree_disk n.
Proof. by apply disk_booted. Qed.

(** ** Instances *)

Lemma dirlookup_correct_witness : ∃ l V, dir_ready 1 5 2 31 V [] [] (demo_kernel l root_table) 1 root_inode ∧
  wp (dirlookup 1 [97; 0]) (λ '(ip, off) s', off = 32 ∧ ∃ s1, got 1 2 s1 ip s') (demo_kernel l root_table) ∧
  wp (dirlookup 1 [98]) (λ '(ip, off) s', ip = 0) (demo_kernel l root_table).
Proof.
  destruct (root_booted root_table) as (l & V & O & HV). exists l, V. pose proof (root_ready V HV l O) as R.
  split; [exact R|]. split.
  - eapply wp_mono; [|apply (dirlookup_correct 1 5 2 31 V [] [] (demo_kernel l root_table) 1 root_inode [97; 0] R);
      [simpl; lia|intros; apply root_room|intros j x Hx; by apply (root_table_refs j)]].
    rewrite (root_entries V HV root_inode) by done. intros [ip off] s' (s1 & _ & -> & G). eauto.
  - eapply wp_mono; [|apply (dirlookup_correct 1 5 2 31 V [] [] (demo_kernel l root_table) 1 root_inode [98] R);
      [simpl; lia|intros; apply root_room|intros j x Hx; by apply (root_table_refs j)]].
    rewrite (root_entries V HV root_inode) by done. intros [ip off] s' (-> & _). done.
Defined.

Lemma dirlink_correct_witness : ∃ l V, dir_ready 1 5 2 31 V [] [] (demo_kernel l root_table) 1 root_inode ∧
  wp (dirlink 1 [98] 7) (λ r s', r = -1 ∨ ∃ V' i', binds (dir V' i') [98] = Some 7 ∧ binds (dir V' i') [97] = Some 2)
    (demo_kernel l root_table) ∧
  wp (dirlink 1 [97] 7) (λ r s', r = -1) (demo_kernel l root_table).
Proof.
  destruct (root_booted root_table) as (l & V & O & HV). exists l, V. pose proof (root_ready V HV l O) as R.
  assert (∀ off, 0 ≤ off ≤ isize root_inode → write_room 31 [] [] off 16) as Hroom.
  { intros off Hoff. simpl in Hoff. unfold write_room, span, BSIZE. split; simpl; dlia. }
  split; [exact R|]. split.
  - eapply wp_mono; [|apply (dirlink_correct 1 5 2 31 V [] [] (demo_kernel l root_table) 1 root_inode [98] 7 R);
      [simpl; lia|lia|by vm_compute|exact Hroom|intros; apply root_room|apply root_table_refs]].
    rewrite (root_entries V HV root_inode) by done. intros r s' (V' & i' & L' & _ & _ & _ & [(_ & _ & Hb)|[-> _]]); [right|by left].
    exists V', i'. rewrite !Hb. rewrite (root_entries V HV root_inode) by done. by vm_compute.
  - eapply wp_mono; [|apply (dirlink_correct 1 5 2 31 V [] [] (demo_kernel l root_table) 1 root_inode [97] 7 R);
      [simpl; lia|lia|by vm_compute|exact Hroom|intros; apply root_room|apply root_table_refs]].
    rewrite (root_entries V HV root_inode) by done. intros r s' [-> _]. done.
Defined.

(** The two inodes of the tree. *)
Definition in_tree (n : Z) : Prop := n = 1 ∨ n = 2.

Lemma root_binds name m : binds root_dir name = Some m → in_tree m.
Proof.
  unfold root_dir. rewrite !binds_cons. cbn [negb andb Z.eqb].
  repeat (case_bool_decide; [intros [= <-]; (by left) || (by right)|]). done.
Qed.

Lemma tree_inodes V : (∀ n, n ≠ 2 → V n = disk_block tree_disk n) →
  dinode 1 demo_sb V 1 = root_inode <| iref := 0 |> <| ilk := Sleeplock.SleepLock 0 0 |> <| ivalid := 0 |> ∧
  dinode 1 demo_sb V 2 = a_inode.
Proof.
  intros HV. unfold dinode. change (IBLOCK 1 demo_sb) with 33. change (IBLOCK 2 demo_sb) with 33.
  rewrite HV by done. split; by vm_compute.
Qed.

Lemma tree_sound V : (∀ n, n ≠ 2 → V n = disk_block tree_disk n) →
  ∀ n, in_tree n → sound ROOTDEV 2 31 demo_sb V in_tree n.
Proof.
  intros HV n Hn. destruct (tree_inodes V HV) as [E1 E2]. change ROOTDEV with 1. destruct Hn as [->| ->].
  - split; rewrite ?E1; try done.
    + by apply root_file.
    + by apply root_holes.
    + by apply root_outside.
    + apply iblock_33, HV.
    + intros name m _. rewrite (root_entries V HV) by done. apply root_binds.
  - assert (Hz : ∀ bn, 0 ≤ bn → faddr V a_inode bn = 0).
    { intros bn Hbn. unfold faddr. repeat case_decide; try done. unfold addr.
      change (iaddrs a_inode) with (replicate 13 0). destruct (decide (Z.to_nat bn < 13)%nat); [by rewrite lookup_replicate_2|].
      by rewrite lookup_ge_None_2 by (rewrite length_replicate; lia). }
    split; rewrite ?E2; try done.
    + split; try done.
      * intros bn Hbn. rewrite Hz by lia. done.
      * intros bn bn' Hbn _. rewrite Hz by lia. done.
    + split; [by vm_compute|]. intros bn Hbn Hs. exfalso. simpl in Hs. unfold BSIZE in Hs. lia.
    + split_and!; [by intros ?%demo_bmap| |].
      * intros _. by rewrite bits_used by (done || by apply tree_34).
      * intros [_ [H|(bn & Hbn & H)]]; [by vm_compute in H|]. rewrite Hz in H by lia. done.
    + apply iblock_33, HV.
Qed.

Lemma empty_table j x : replicate 50 inode0 !! j = Some x → x = inode0.
Proof. by intros [-> _]%lookup_replicate_1. Qed.

(** [/a] is inode 2, [/a/b] does not exist. *)
Lemma namex_correct_witness : ∃ l V, opened 1 5 2 31 V [] [] (demo_kernel l (replicate 50 inode0)) ∧
  let s := demo_kernel l (replicate 50 inode0) in
  wp (namex [47; 97] false name0) (λ '(ip, _) s', points 1 s' ip 2) s ∧
  wp (namex [47; 97; 47; 98] false name0) (λ '(ip, _) s', ip = 0) s.
Proof.
  destruct (root_booted (replicate 50 inode0)) as (l & V & O & HV). exists l, V. split; [exact O|]. intros s.
  assert (S0 : tree_state ROOTDEV 5 2 31 demo_sb V [] None s).
  { split; [exact O|done|]. split.
    - split; [done| | |].
      + intros j k x y dev n Hx _ [Hr _]. by rewrite (empty_table j x Hx) in Hr.
      + intros j x Hx. by rewrite (empty_table j x Hx).
      + intros j x Hx. by rewrite (empty_table j x Hx).
    - intros j x Hx. rewrite (empty_table j x Hx). split; [done|]. intros Hlt. destruct (Z.lt_irrefl 0 Hlt). }
  assert (Hr : ∀ m, refs ROOTDEV m (itable (files s)) < 2^31 - 4).
  { intros m. replace (refs ROOTDEV m (itable (files s))) with 0 by done. by vm_compute. }
  destruct (tree_inodes V HV) as [E1 E2]. split.
  - eapply wp_mono; [|apply (namex_correct 5 2 31 demo_sb V [] in_tree s false [47; 97] name0 1 demo_layout ltac:(by vm_compute)
      (bits_bitmap V (tree_34 V HV)) ltac:(simpl; lia) (tree_sound V HV) ltac:(by left) eq_refl S0 ltac:(by vm_compute) Hr);
      [repeat (constructor; [discriminate|]); constructor|done]].
    change (take DIRSIZ <$> components [47; 97]) with [[97]]. cbn [resolve]. change ROOTDEV with 1. rewrite E1, (root_entries V HV) by done.
    intros [ip name'] s' (_ & _ & P & _). exact P.
  - eapply wp_mono; [|apply (namex_correct 5 2 31 demo_sb V [] in_tree s false [47; 97; 47; 98] name0 1 demo_layout ltac:(by vm_compute)
      (bits_bitmap V (tree_34 V HV)) ltac:(simpl; lia) (tree_sound V HV) ltac:(by left) eq_refl S0 ltac:(by vm_compute) Hr);
      [repeat (constructor; [discriminate|]); constructor|done]].
    change (take DIRSIZ <$> components [47; 97; 47; 98]) with [[97]; [98]]. cbn [resolve]. change ROOTDEV with 1.
    rewrite E1, (root_entries V HV) by done. 
    change (binds root_dir [97]) with (Some 2). cbn [resolve]. rewrite E2.
    intros [ip name'] s' (_ & _ & -> & _). done.
Defined.
