(* ===== verification/Mkfs.v ===== *)
(** * The image builder (mkfs/mkfs.c)

    [mkfs] runs on the host, which is taken to be little-endian; it writes the
    file system image sector by sector.  The image is a map from sectors to
    blocks, [host] what the host answers when a file is opened and read: the
    pieces that [read] returns, or nothing.  A [struct dinode] is an [inode] of
    which only the fields on disk count.  [die] and a failed [assert] end the
    program; they are panics here. *)

From Stdlib Require Import ZArith Lia.
From stdpp Require Import base numbers list gmap strings tactics.
From S2P Require Import Prelude Bytes Mem Proc Bio Log Ftypes Fs.

Local Open Scope Z_scope.

(** The parameters of the layout (kernel/param.h and the top of mkfs.c). *)
Definition FSSIZE : Z := 2000.
Definition NINODES : Z := 200.
Definition nbitmap : Z := FSSIZE / (BSIZE * 8) + 1.
Definition ninodeblocks : Z := NINODES / IPB + 1.
Definition mk_nlog : Z := LOGSIZE.
Definition nmeta : Z := 2 + mk_nlog + ninodeblocks + nbitmap.
Definition mk_nblocks : Z := FSSIZE - nmeta.

(** The state: the image, [freeinode] and [freeblock]. *)
Record mkst := MkSt {
  img : gmap Z (list Z);
  freeinode : Z;
  freeblock : Z;
}.
#[global] Instance eta_mkst : Eta mkst := λ s, MkSt (img s) (freeinode s) (freeblock s).

Definition die {A} (msg : string) : M mkst A := panic msg.
Definition assert_ (b : bool) : M mkst unit := if b then ret tt else panic "assert".

(** Integers in the byte order of RISC-V, read back on the host. *)
Definition xshort (x : Z) : Z := le_value (le_bytes 2 x).
Definition xint (x : Z) : Z := le_value (le_bytes 4 x).

(** [sb] as main fills it. *)
Definition mk_sb : superblock :=
  Superblock FSMAGIC (xint FSSIZE) (xint mk_nblocks) (xint NINODES) (xint mk_nlog)
    (xint 2) (xint (2 + mk_nlog)) (xint (2 + mk_nlog + ninodeblocks)).
Definition enc_superblock (sb : superblock) : list Z :=
  le_bytes 4 (magic sb) ++ le_bytes 4 (sb_size sb) ++ le_bytes 4 (nblocks sb) ++
  le_bytes 4 (ninodes sb) ++ le_bytes 4 (nlog sb) ++ le_bytes 4 (logstart sb) ++
  le_bytes 4 (inodestart sb) ++ le_bytes 4 (bmapstart sb).

Definition wsect (sec : Z) (buf : list Z) : M mkst unit := modify (λ s, s <| img ::= <[sec := buf]> |>).
Definition rsect (sec : Z) : M mkst (list Z) :=
  let* s := get in
  match img s !! sec with
  | Some buf => ret buf
  | None => die "read"
  end.

Definition winode (inum : Z) (ip : inode) : M mkst unit :=
  let bn := IBLOCK inum mk_sb in
  let* buf := rsect bn in
  wsect bn (put_dinode (dinode_off inum) ip buf).

Definition rinode (inum : Z) : M mkst inode :=
  let bn := IBLOCK inum mk_sb in
  let* buf := rsect bn in
  ret (get_dinode buf (dinode_off inum) inode0).

Definition ialloc (type : Z) : M mkst Z :=
  let* s := get in
  let inum := freeinode s in
  put (s <| freeinode := u32 (inum + 1) |>) ;;;
  winode inum (inode0 <| itype := xshort type |> <| inlink := xshort 1 |> <| isize := xint 0 |>) ;;;
  ret inum.

(** The bitmap with the first [used] bits set. *)
Definition bits (used : Z) : list Z := foldl (λ buf i, set_bit i buf) zero_block (seqZ 0 used).
Definition balloc (used : Z) : M mkst unit :=
  assert_ (used <? BSIZE * 8) ;;;
  wsect (bmapstart mk_sb) (bits used).

(** [freeblock++] *)
Definition next_block : M mkst Z :=
  let* s := get in
  put (s <| freeblock := u32 (freeblock s + 1) |>) ;;;
  ret (freeblock s).

Definition din_addr (din : inode) (k : Z) : M mkst Z :=
  match iaddrs din !! Z.to_nat k with Some a => ret (xint a) | None => λ _, Fault "addrs" end.
Definition set_din (k a : Z) (din : inode) : inode := din <| iaddrs ::= <[Z.to_nat k := xint a]> |>.

(** [din.addrs[k]], allocated if it is 0. *)
Definition direct (din : inode) (k : Z) : M mkst (Z * inode) :=
  let* a := din_addr din k in
  if a =? 0 then let* b := next_block in ret (xint b, set_din k b din) else ret (a, din).

(** The block of the file for [fbn]. *)
Definition data_sector (din : inode) (fbn : Z) : M mkst (Z * inode) :=
  if fbn <? NDIRECT then direct din fbn
  else
    let* (ind, din) := direct din NDIRECT in
    let* indirect := rsect ind in
    let o := indirect_off (fbn - NDIRECT) in
    if get32 indirect o =? 0 then
      let* b := next_block in
      wsect ind (put32 indirect o (xint b)) ;;;
      ret (xint b, din)
    else ret (get32 indirect o, din).

Definition append_fuel : positive := 2^32.

(** The loop: the inode, the offset and the bytes that are left. *)
Definition append_body : inode * Z * list Z → M mkst ((inode * Z * list Z) + (inode * Z)) :=
  λ '(din, off, p),
    let n := Z.of_nat (length p) in
    if 0 <? n then
      let fbn := off / BSIZE in
      assert_ (fbn <? MAXFILE) ;;;
      let* (x, din) := data_sector din fbn in
      let n1 := Z.min n ((fbn + 1) * BSIZE - off) in
      let* buf := rsect x in
      wsect x (overwrite buf (Z.to_nat (off - fbn * BSIZE)) (take (Z.to_nat n1) p)) ;;;
      ret (inl (din, u32 (off + n1), drop (Z.to_nat n1) p))
    else ret (inr (din, off)).

Definition iappend (inum : Z) (p : list Z) : M mkst unit :=
  let* din := rinode inum in
  let* (din, off) := loop append_fuel append_body (din, xint (isize din), p) in
  winode inum (din <| isize := xint off |>).

Section main.
Context (host : list Z → option (list (list Z))).

(** The characters of user/ and _ *)
Definition user_dir : list Z := [117; 115; 101; 114; 47].
Definition underscore : Z := 95.
Definition shortname (path : list Z) : list Z :=
  if bool_decide (take 5 path = user_dir) then drop 5 path else path.
Definition skip_underscore (name : list Z) : list Z :=
  match name with c :: rest => if c =? underscore then rest else name | [] => [] end.

Definition add_file (rootino : Z) (path : list Z) : M mkst unit :=
  let name := shortname path in
  assert_ (negb (existsb (Z.eqb slash) name)) ;;;
  match host path with
  | None => die "open"
  | Some pieces =>
      let name := skip_underscore name in
      let* inum := ialloc T_FILE in
      iappend rootino (enc_dirent (xshort inum) name) ;;;
      for_each pieces (iappend inum)
  end.

Definition dot : list Z := [46].
Definition dotdot : list Z := [46; 46].

(** "fix size of root inode dir" *)
Definition fix_root (rootino : Z) : M mkst unit :=
  let* din := rinode rootino in
  let off := xint (isize din) in
  let off := u32 ((off / BSIZE + 1) * BSIZE) in
  winode rootino (din <| isize := xint off |>).

Definition main (argv : list (list Z)) : M mkst unit :=
  match argv with
  | _ :: _ :: files =>
      modify (λ s, s <| freeblock := nmeta |>) ;;;
      for_each (seqZ 0 FSSIZE) (λ i, wsect i zero_block) ;;;
      wsect 1 (overwrite zero_block 0 (enc_superblock mk_sb)) ;;;
      let* rootino := ialloc T_DIR in
      assert_ (rootino =? ROOTINO) ;;;
      iappend rootino (enc_dirent (xshort rootino) dot) ;;;
      iappend rootino (enc_dirent (xshort rootino) dotdot) ;;;
      for_each files (add_file rootino) ;;;
      fix_root rootino ;;;
      let* s := get in
      balloc (freeblock s)
  | _ => die "Usage: mkfs fs.img files..."
  end.
End main.

(** The state the program starts in. *)
Definition mkst0 : mkst := MkSt ∅ 1 0.
