(* ===== verification/MkfsSteps.v ===== *)
(** * mkfs writes files as the kernel does

    [rel s W]: the image of [s], with the bitmap that mkfs will write at the
    end, has the contents [W].  The steps of [iappend] are on [W] what bmap and
    writei do in the kernel, so that the facts about those carry over. *)

From Stdlib Require Import ZArith Lia.
From stdpp Require Import base numbers list gmap functions strings tactics.
From S2P Require Import Prelude Bytes Mem Proc Bio BioSpec Log LogSpec LogCrash LogProps Ftypes Fs FsRules FsAlloc FsFile FsWrite FsContents Mkfs.

Local Open Scope Z_scope.

Lemma xint_small x : 0 ≤ x < 2^32 → xint x = x.
Proof. intros H. unfold xint. rewrite le_value_bytes. by apply Z.mod_small. Qed.
Lemma xshort_small x : 0 ≤ x < 2^16 → xshort x = x.
Proof. intros H. unfold xshort. rewrite le_value_bytes. by apply Z.mod_small. Qed.

(** ** The layout *)

Lemma mk_layout : layout 2 30 mk_sb.
Proof.
  split; [by vm_compute|by vm_compute|]. intros b Hb. change (sb_size mk_sb) with 2000 in Hb.
  unfold BPB, BSIZE. rewrite Z.div_small by lia. change (bmapstart mk_sb) with 45. unfold home. lia.
Qed.
Lemma mk_bblock b : 0 ≤ b < 2000 → BBLOCK b mk_sb = 45.
Proof. intros Hb. rewrite (BBLOCK_eq 2 30 mk_sb mk_layout) by done. unfold BPB, BSIZE. by rewrite Z.div_small by lia. Qed.
Lemma mk_is_bmap n : is_bmap mk_sb n ↔ n = 45.
Proof.
  split; [intros (b & Hb & ->); by apply mk_bblock|]. intros ->. exists 0. split; [by vm_compute|]. by rewrite mk_bblock.
Qed.

(** *** The bitmap *)

Lemma bits_succ k : 0 ≤ k → bits (k + 1) = set_bit k (bits k).
Proof. intros Hk. unfold bits. rewrite seqZ_app by lia. rewrite foldl_app. by rewrite Z.add_0_l. Qed.
Lemma length_bits k : length (bits k) = 1024%nat.
Proof.
  unfold bits. generalize (seqZ 0 k). intros l. assert (Hz : length zero_block = 1024%nat) by (by vm_compute). revert Hz.
  generalize zero_block. induction l as [|b l IH]; intros x Hx; [done|]. apply IH. by rewrite length_set_bit.
Qed.
Lemma bits_clear k b : 0 ≤ k ≤ 2000 → 0 ≤ b < 2000 → bit_clear (bits k) b = negb (b <? k).
Proof.
  intros [Hk Hm] Hb. revert k Hk Hm. apply (natlike_ind (λ k, k ≤ 2000 → bit_clear (bits k) b = negb (b <? k))).
  - intros _. test_false (b <? 0). change (bits 0) with zero_block. unfold bit_clear, bit_byte.
    destruct (zero_block !! Z.to_nat (b / 8)) as [v|] eqn:E; [|done]. unfold zero_block in E.
    apply lookup_replicate_1 in E as [-> _]. done.
  - intros k Hk IH Hm. unfold Z.succ. rewrite bits_succ by done. rewrite bit_clear_set by (apply length_bits || lia).
    rewrite IH by lia. destruct (Z.ltb_spec b k), (Z.ltb_spec b (k + 1)); case_bool_decide; try lia; done.
Qed.

(** ** The contents *)

Record rel (s : mkst) (W : contents) : Prop := {
  r_bits : W 45 = bits (freeblock s);
  r_img n : 0 ≤ n < FSSIZE → n ≠ 45 → img s !! n = Some (W n);
  r_zero n : freeblock s ≤ n < FSSIZE → W n = zero_block;
  r_fb : nmeta ≤ freeblock s ≤ FSSIZE;
  r_len n : 0 ≤ n < FSSIZE → length (W n) = 1024%nat;
}.

Section steps.
Context (s : mkst) (W : contents) (R : rel s W).

Lemma rel_used b : 0 ≤ b < 2000 → used mk_sb W b = (b <? freeblock s).
Proof using R.
  intros Hb. pose proof (r_fb _ _ R) as Hf. change nmeta with 46 in Hf. unfold FSSIZE in Hf.
  unfold used. rewrite mk_bblock, (r_bits _ _ R) by done. unfold BPB, BSIZE. rewrite Z.mod_small by lia.
  rewrite bits_clear by lia. apply negb_involutive.
Qed.
Lemma rel_bitmap : bitmap 2 30 mk_sb W.
Proof using R.
  split.
  - intros n ->%mk_is_bmap. rewrite (r_bits _ _ R). apply length_bits.
  - intros b Hb. change (sb_size mk_sb) with 2000 in Hb. rewrite rel_used by done. intros Hu%Z.ltb_ge.
    pose proof (r_fb _ _ R) as Hf. change nmeta with 46 in Hf. unfold home. rewrite mk_is_bmap. lia.
Qed.

(** [freeblock++] *)
Lemma next_block_ok : freeblock s < FSSIZE →
  ∃ s', next_block s = Ret (freeblock s, s') ∧ rel s' (allocated mk_sb W (freeblock s)) ∧
    freeblock s' = freeblock s + 1 ∧ freeinode s' = freeinode s.
Proof using R.
  intros Hlt. pose proof (r_fb _ _ R) as Hf. change nmeta with 46 in Hf. unfold FSSIZE in *.
  eexists. split; [reflexivity|]. cbn. rewrite u32_small by lia. split; [|done].
  assert (E : allocated mk_sb W (freeblock s) 45 = bits (freeblock s + 1)).
  { unfold allocated. rewrite fn_lookup_insert_ne by lia. rewrite mk_bblock, fn_lookup_insert by lia.
    rewrite bits_succ, (r_bits _ _ R) by lia. unfold BPB, BSIZE. by rewrite Z.mod_small by lia. }
  assert (N : ∀ n, n ≠ 45 → allocated mk_sb W (freeblock s) n = if decide (n = freeblock s) then zero_block else W n).
  { intros n Hn. unfold allocated. rewrite mk_bblock by lia. destruct (decide (n = freeblock s)) as [->|].
    - by rewrite fn_lookup_insert.
    - by rewrite !fn_lookup_insert_ne by done. }
  split; cbn.
  - rewrite E. done.
  - intros n Hn Hne. rewrite N by done. rewrite (r_img _ _ R) by done. case_decide; [|done]. by rewrite (r_zero _ _ R) by lia.
  - intros n Hn. rewrite N by lia. case_decide; [done|]. apply (r_zero _ _ R). lia.
  - change nmeta with 46. unfold FSSIZE. lia.
  - intros n Hn. destruct (decide (n = 45)) as [->|Hne]; [rewrite E; apply length_bits|]. rewrite N by done.
    case_decide; [done|by apply (r_len _ _ R)].
Qed.

Lemma rsect_ok n : 0 ≤ n < FSSIZE → n ≠ 45 → rsect n s = Ret (W n, s).
Proof using R. intros Hn Hne. unfold rsect. rewrite (bind_Ret get _ s s s) by done. by rewrite (r_img _ _ R). Qed.
Lemma wsect_ok n x : 0 ≤ n < freeblock s → n ≠ 45 → length x = 1024%nat →
  ∃ s', wsect n x s = Ret (tt, s') ∧ rel s' (<[n := x]> W) ∧ freeblock s' = freeblock s ∧ freeinode s' = freeinode s.
Proof using R.
  intros Hn Hne Hx. eexists. split; [reflexivity|]. split; [|done]. split; cbn.
  - rewrite fn_lookup_insert_ne by done. apply (r_bits _ _ R).
  - intros m Hm Hm2. destruct (decide (n = m)) as [->|].
    + by rewrite fn_lookup_insert, lookup_insert_eq.
    + rewrite fn_lookup_insert_ne, lookup_insert_ne by done. by apply (r_img _ _ R).
  - intros m Hm. rewrite fn_lookup_insert_ne by lia. by apply (r_zero _ _ R).
  - apply (r_fb _ _ R).
  - intros m Hm. destruct (decide (n = m)) as [->|]; [by rewrite fn_lookup_insert|]. rewrite fn_lookup_insert_ne by done.
    by apply (r_len _ _ R).
Qed.
End steps.

(** ** Blocks of a file *)

Definition as_inode (n : Z) (din : inode) : inode := din <| idev := 1 |> <| Ftypes.inum := n |>.
Local Abbreviation file_ok := (file_ok 1 2 30 mk_sb).
Local Abbreviation grows := (grows 1 2 30 mk_sb).
Local Abbreviation data_block := (data_block 2 30 mk_sb).

Lemma as_addr n din k : addr (as_inode n din) k = addr din k.
Proof. done. Qed.
Lemma as_set n din k a : 0 ≤ a < 2^32 → as_inode n (set_din k a din) = set_iaddr (as_inode n din) k a.
Proof. intros H. unfold set_din. rewrite xint_small by done. by destruct din. Qed.

Lemma data_range s W a : rel s W → data_block W a → 0 < a < freeblock s ∧ a ≠ 45 ∧ a < 2000.
Proof.
  intros R [Hr Hu Hb _ _]. change (sb_size mk_sb) with 2000 in Hr. rewrite (rel_used s W R) in Hu by lia.
  apply Z.ltb_lt in Hu. rewrite mk_is_bmap in Hb. lia.
Qed.
Lemma free_unused s W : rel s W → freeblock s < FSSIZE →
  0 < freeblock s < sb_size mk_sb ∧ used mk_sb W (freeblock s) = false.
Proof.
  intros R Hf. pose proof (r_fb _ _ R) as Hb. change nmeta with 46 in Hb. unfold FSSIZE in *. change (sb_size mk_sb) with 2000.
  split; [lia|]. rewrite (rel_used s W R) by lia. by apply Z.ltb_irrefl.
Qed.

(** The addresses of an inode are 0 or blocks of the file. *)
Lemma addr_cases W i k : file_ok W i → 0 ≤ k ≤ NDIRECT → addr i k = 0 ∨ data_block W (addr i k).
Proof.
  intros F Hk. destruct (decide (addr i k = 0)) as [|Hn]; [by left|right]. destruct (decide (k = NDIRECT)) as [->|].
  - by apply (fo_ind _ _ _ _ _ _ F).
  - assert (E : faddr W i k = addr i k) by (unfold faddr; by rewrite decide_True by lia).
    rewrite <- E. apply (fo_data _ _ _ _ _ _ F); [change MAXFILE with 268; unfold NDIRECT in *; lia|by rewrite E].
Qed.

Lemma direct_eq s W n din k : rel s W → file_ok W (as_inode n din) → 0 ≤ k ≤ NDIRECT →
  if decide (addr din k = 0) then
    freeblock s < FSSIZE →
    ∃ s', direct din k s = Ret ((freeblock s, set_din k (freeblock s) din), s') ∧ rel s' (allocated mk_sb W (freeblock s)) ∧
      freeblock s' = freeblock s + 1 ∧ freeinode s' = freeinode s
  else direct din k s = Ret ((addr din k, din), s).
Proof.
  intros R F Hk. pose proof (fo_len _ _ _ _ _ _ F) as Hlen. change (length (iaddrs din) = 13%nat) in Hlen.
  destruct (lookup_lt_is_Some_2 (iaddrs din) (Z.to_nat k)) as [a Ha]; [unfold NDIRECT in Hk; lia|].
  assert (Ea : addr din k = a) by (unfold addr; by rewrite Ha).
  assert (Ex : xint a = a).
  { destruct (addr_cases W _ k F Hk) as [E|D].
    - rewrite as_addr, Ea in E. by rewrite E.
    - rewrite as_addr, Ea in D. destruct (data_range _ _ _ R D). apply xint_small. lia. }
  assert (Ed : din_addr din k s = Ret (a, s)) by (unfold din_addr; rewrite Ha, Ex; done).
  unfold direct. rewrite (bind_Ret _ _ _ _ _ Ed), Ea. case_decide as E.
  - intros Hf. rewrite E. cbn [Z.eqb]. destruct (next_block_ok s W R Hf) as (s' & En & R' & Hf' & Hi').
    exists s'. rewrite (bind_Ret _ _ _ _ _ En). destruct (free_unused s W R Hf) as [Hr _]. change (sb_size mk_sb) with 2000 in Hr.
    rewrite xint_small by lia. done.
  - by rewrite (proj2 (Z.eqb_neq a 0)) by done.
Qed.

(** The answer of [data_sector]: the file has grown by the block. *)
Definition sector_post (n fbn : Z) (W : contents) (i : inode) (s : mkst) (x : Z) (din' : inode) (s' : mkst) : Prop :=
  ∃ W', rel s' W' ∧ grows fbn x W i W' (as_inode n din') ∧ x ≠ 0 ∧ freeinode s' = freeinode s ∧
    (fbn < NDIRECT → addr din' NDIRECT = addr i NDIRECT) ∧
    freeblock s' = freeblock s + (if decide (faddr W i fbn = 0) then 1 else 0) +
      (if decide (NDIRECT ≤ fbn ∧ addr i NDIRECT = 0) then 1 else 0).

Lemma entry_step s W n din fbn : rel s W → file_ok W (as_inode n din) → NDIRECT ≤ fbn < MAXFILE → addr din NDIRECT ≠ 0 →
  freeblock s + (if decide (faddr W (as_inode n din) fbn = 0) then 1 else 0) ≤ FSSIZE →
  wp (let* indirect := rsect (addr din NDIRECT) in
      let o := indirect_off (fbn - NDIRECT) in
      if get32 indirect o =? 0 then
        let* b := next_block in
        wsect (addr din NDIRECT) (put32 indirect o (xint b)) ;;;
        ret (xint b, din)
      else ret (get32 indirect o, din)) (λ '(x, din') s', sector_post n fbn W (as_inode n din) s x din' s') s.
Proof.
  intros R F Hfbn Hind Hroom. set (i := as_inode n din) in *. set (ind := addr din NDIRECT) in *.
  destruct (fo_ind _ _ _ _ _ _ F Hind) as [D Hbytes]. change (addr i NDIRECT) with ind in D, Hbytes.
  destruct (data_range _ _ _ R D) as (Hr & H45 & H2000). set (o := indirect_off (fbn - NDIRECT)).
  assert (Ef : faddr W i fbn = get32 (W ind) o).
  { unfold faddr. rewrite decide_False by lia. by rewrite decide_False. }
  apply wp_bind_2, wp_returns. exists (W ind), s. split; [apply (rsect_ok s W R); unfold FSSIZE; lia|]. cbv zeta. fold o.
  rewrite <- Ef. destruct (Z.eqb_spec (faddr W i fbn) 0) as [E0|E0].
  - rewrite decide_True in Hroom by done. assert (Hf : freeblock s < FSSIZE) by lia.
    destruct (next_block_ok s W R Hf) as (s1 & En & R1 & Hf1 & Hi1). destruct (free_unused s W R Hf) as [Hb Hu].
    change (sb_size mk_sb) with 2000 in Hb.
    apply wp_bind_2, wp_returns. exists (freeblock s), s1. split; [done|]. rewrite xint_small by lia.
    assert (Hl : length (put32 (W ind) o (freeblock s)) = 1024%nat).
    { pose proof (db_len _ _ _ _ _ D) as Hl. rewrite length_putn; [done|]. rewrite Hl. unfold o, indirect_off.
      change MAXFILE with 268 in Hfbn. unfold NDIRECT in *. lia. }
    destruct (wsect_ok s1 _ R1 ind (put32 (W ind) o (freeblock s)) ltac:(lia) H45 Hl) as (s2 & Ew & R2 & Hf2 & Hi2).
    apply wp_bind_2, wp_returns. exists tt, s2. split; [done|]. cbn [wp ret].
    eexists. split; [exact R2|]. split.
    + apply (grows_entry 1 2 30 mk_sb mk_layout W i fbn (freeblock s) F (rel_bitmap s W R) Hfbn Hind E0); done.
    + split; [lia|]. split; [congruence|]. split; [lia|]. rewrite decide_True by done.
      rewrite decide_False by (intros [_ ?]; by apply Hind). lia.
  - exists W. split; [done|]. split; [by apply grows_found; [|apply (rel_bitmap s)]|]. split; [done|]. split; [done|]. split; [lia|].
    rewrite decide_False by done. rewrite decide_False by (intros [_ ?]; by apply Hind). lia.
Qed.

Lemma data_sector_ok s W n din fbn : rel s W → file_ok W (as_inode n din) → 0 ≤ fbn < MAXFILE →
  freeblock s + (if decide (faddr W (as_inode n din) fbn = 0) then 1 else 0) +
    (if decide (NDIRECT ≤ fbn ∧ addr (as_inode n din) NDIRECT = 0) then 1 else 0) ≤ FSSIZE →
  wp (data_sector din fbn) (λ '(x, din') s', sector_post n fbn W (as_inode n din) s x din' s') s.
Proof.
  intros R F Hfbn Hroom. set (i := as_inode n din) in *. unfold data_sector.
  pose proof (rel_bitmap s W R) as B. destruct (Z.ltb_spec fbn NDIRECT) as [Hd|Hd].
  - assert (Ef : faddr W i fbn = addr din fbn) by (unfold faddr; by rewrite decide_True by lia).
    pose proof (direct_eq s W n din fbn R F ltac:(lia)) as E. rewrite (decide_False (P := NDIRECT ≤ fbn ∧ _)) in Hroom by lia.
    case_decide as E0.
    + rewrite decide_True in Hroom by congruence. assert (Hf : freeblock s < FSSIZE) by lia. destruct (E Hf) as (s' & Es & R' & Hf' & Hi').
      destruct (free_unused s W R Hf) as [Hb Hu]. pose proof Hb as Hb'. change (sb_size mk_sb) with 2000 in Hb'.
      apply wp_returns. eexists _, s'. split; [exact Es|]. exists (allocated mk_sb W (freeblock s)). split; [done|].
      rewrite as_set by lia. split; [apply (grows_direct 1 2 30 mk_sb mk_layout W i fbn (freeblock s) F B); [lia|congruence|done|done]|].
      split; [lia|]. split; [done|]. split.
      { intros _. change (addr (as_inode n (set_din fbn (freeblock s) din)) NDIRECT = addr i NDIRECT). rewrite as_set by lia.
        rewrite addr_set by (unfold NDIRECT in *; lia || apply (fo_len _ _ _ _ _ _ F)). by rewrite decide_False by lia. }
      rewrite decide_True by congruence. rewrite decide_False by lia. lia.
    + apply wp_returns. eexists _, s. split; [exact E|]. exists W. split; [done|]. fold i. rewrite <- Ef.
      split; [by apply grows_found|]. split; [congruence|]. split; [done|]. split; [done|]. rewrite !decide_False by (lia || congruence). lia.
  - pose proof (direct_eq s W n din NDIRECT R F ltac:(done)) as E. change (addr i NDIRECT) with (addr din NDIRECT) in Hroom.
    case_decide as E0.
    + assert (Ef : faddr W i fbn = 0) by (unfold faddr; rewrite decide_False by lia; by rewrite decide_True).
      rewrite !decide_True in Hroom by done. destruct (E ltac:(lia)) as (s1 & Es & R1 & Hf1 & Hi1).
      destruct (free_unused s W R ltac:(lia)) as [Hb Hu]. pose proof Hb as Hb'. change (sb_size mk_sb) with 2000 in Hb'.
      apply wp_bind_2, wp_returns. eexists _, s1. split; [exact Es|]. cbn beta iota.
      pose proof (grows_indirect 1 2 30 mk_sb mk_layout W i fbn (freeblock s) F B ltac:(lia) E0 Hb Hu) as G1.
      rewrite <- (as_set n din NDIRECT (freeblock s) ltac:(lia) : _ = set_iaddr i NDIRECT (freeblock s)) in G1. set (din1 := set_din NDIRECT (freeblock s) din) in *.
      assert (Ea : addr din1 NDIRECT = freeblock s).
      { change (addr din1 NDIRECT) with (addr (as_inode n din1) NDIRECT). unfold din1. rewrite as_set by lia.
        rewrite addr_set by (done || apply (fo_len _ _ _ _ _ _ F)). by rewrite decide_True. }
      assert (Ef1 : faddr (allocated mk_sb W (freeblock s)) (as_inode n din1) fbn = 0).
      { rewrite (gr_map _ _ _ _ _ _ _ _ _ _ G1) by done. by rewrite decide_True. }
      pose proof (entry_step s1 _ n din1 fbn R1 (gr_ok _ _ _ _ _ _ _ _ _ _ G1) ltac:(lia) ltac:(lia)) as En. rewrite Ea in En.
      eapply wp_mono; [|apply En].
      2: { rewrite Ef1, decide_True by done. lia. }
      intros [x din'] s' (W' & R' & G' & Hx & Hi' & _ & Hf'). exists W'. split; [done|]. split.
      * apply (grows_trans 1 2 30 mk_sb W i _ (as_inode n din1) W' _ fbn x G1 G' Ef ltac:(lia) E0).
        change (addr (as_inode n din1) NDIRECT) with (addr din1 NDIRECT). rewrite Ea. split; [lia|done].
      * split; [done|]. split; [congruence|]. split; [lia|]. rewrite (decide_True _ _ Ef), decide_True by done.
        rewrite Ef1, decide_True in Hf' by done. rewrite decide_False in Hf'; [lia|]. rewrite as_addr, Ea. lia.
    + rewrite (decide_False (P := NDIRECT ≤ fbn ∧ _)) in Hroom by tauto.
      apply wp_bind_2, wp_returns. eexists _, s. split; [exact E|]. cbn beta iota.
      rewrite Z.add_0_r in Hroom. apply (entry_step s W n din fbn); [done|done|lia|done|done].
Qed.
