(* ===== verification/MkfsFile.v ===== *)
(** * The files that mkfs writes

    [iappend] on the contents [W] of the image: the bytes are added at the end
    of the file, in blocks that were free, and no other file changes. *)

From Stdlib Require Import ZArith Lia.
From stdpp Require Import base numbers list gmap functions strings tactics.
From S2P Require Import Prelude Bytes Mem Proc Bio BioSpec Log LogSpec LogCrash LogProps Ftypes Fs FsRules FsAlloc FsFile FsWrite FsInode FsContents FsProps Mkfs MkfsSteps.

Local Open Scope Z_scope.
Local Abbreviation file_ok := (file_ok 1 2 30 mk_sb).
Local Abbreviation grows := (grows 1 2 30 mk_sb).
Local Abbreviation written := (written 1 2 30 mk_sb).

(** ** The blocks of a file of [e] bytes *)

(** Their number, with the indirect block. *)
Definition blocks_of (e : Z) : Z := (e + BSIZE - 1) / BSIZE + (if NDIRECT * BSIZE <? e then 1 else 0).

Lemma blocks_of_add e m : 0 ≤ e → 0 < m → e mod BSIZE + m ≤ BSIZE →
  blocks_of (e + m) = blocks_of e + (if decide (e mod BSIZE = 0) then 1 else 0) +
    (if decide (e = NDIRECT * BSIZE) then 1 else 0).
Proof.
  unfold blocks_of, BSIZE, NDIRECT. intros He Hm Hb.
  destruct (Z.ltb_spec (12 * 1024) (e + m)), (Z.ltb_spec (12 * 1024) e); repeat case_decide; dlia.
Qed.
Lemma blocks_of_mono e e' : 0 ≤ e ≤ e' → blocks_of e ≤ blocks_of e'.
Proof.
  unfold blocks_of, BSIZE, NDIRECT. intros He.
  destruct (Z.ltb_spec (12 * 1024) e'), (Z.ltb_spec (12 * 1024) e); dlia.
Qed.

(** Past [e] the file has no blocks, and the rest of the last block is zero. *)
Record beyond (e : Z) (W : contents) (i : inode) : Prop := {
  be_addr bn : 0 ≤ bn < MAXFILE → e ≤ bn * BSIZE → faddr W i bn = 0;
  be_ind : e ≤ NDIRECT * BSIZE → addr i NDIRECT = 0;
  be_byte p : e ≤ p → 0 ≤ p / BSIZE < MAXFILE → faddr W i (p / BSIZE) ≠ 0 → fbyte W i p = 0;
}.

Lemma zero_byte k : default 0 (zero_block !! k) = 0.
Proof.
  destruct (zero_block !! k) as [v|] eqn:E; [|done]. unfold zero_block in E. by apply lookup_replicate_1 in E as [-> _].
Qed.

Section step.
Context (W W' : contents) (i i' : inode) (e m x : Z) (bs : list Z).
Hypothesis (F : file_ok W i) (Be : beyond e W i) (He : 0 ≤ e < MAXFILE * BSIZE).
Hypothesis (G : grows (e / BSIZE) x W i W' i') (Hx : x ≠ 0).
Hypothesis (Hind : e / BSIZE < NDIRECT → addr i' NDIRECT = addr i NDIRECT).
Hypothesis (Hm : 0 < m) (Hb : e mod BSIZE + m ≤ BSIZE) (Hbs : Z.of_nat (length bs) = m).

Lemma beyond_fbn : 0 ≤ e / BSIZE < MAXFILE.
Proof using He. clear -He. unfold BSIZE in *. dlia. Qed.

Lemma beyond_byte p : e ≤ p → 0 ≤ p / BSIZE < MAXFILE → faddr W' i' (p / BSIZE) ≠ 0 → fbyte W' i' p = 0.
Proof using F Be He G Hx.
  intros Hp Hr Hn. destruct (decide (faddr W i (p / BSIZE) = 0)) as [E|E].
  - unfold fbyte. rewrite (gr_map _ _ _ _ _ _ _ _ _ _ G) in * by done. case_decide as Ep; [|done]. rewrite Ep in E.
    destruct (gr_zero _ _ _ _ _ _ _ _ _ _ G Hx E) as [-> _]. apply zero_byte.
  - rewrite (grows_byte 1 2 30 mk_sb (e / BSIZE) x W i W' i') by done. by apply (be_byte _ _ _ Be).
Qed.

Lemma beyond_step : beyond (e + m) (<[x := overwrite (W' x) (Z.to_nat (e mod BSIZE)) bs]> W') i'.
Proof using All.
  pose proof beyond_fbn as Hfbn. pose proof (gr_ok _ _ _ _ _ _ _ _ _ _ G) as F'.
  pose proof (grows_addr 1 2 30 mk_sb _ _ _ _ _ _ G Hfbn) as Ex.
  pose proof (Z.mod_pos_bound e BSIZE ltac:(done)) as Hmod.
  assert (Hfa : ∀ bn, faddr (<[x := overwrite (W' x) (Z.to_nat (e mod BSIZE)) bs]> W') i' bn = faddr W' i' bn).
  { intros bn. rewrite <- Ex. eapply (store_faddr 1 2 30 mk_sb W'); [exact F'|exact Hfbn|by rewrite Ex]. }
  split.
  - intros bn Hbn Hle. rewrite Hfa, (gr_map _ _ _ _ _ _ _ _ _ _ G) by done.
    rewrite decide_False by (unfold BSIZE in *; dlia). apply (be_addr _ _ _ Be); [done|lia].
  - intros Hle. rewrite Hind by (unfold BSIZE in *; dlia). apply (be_ind _ _ _ Be). lia.
  - intros p Hp Hr. rewrite Hfa. intros Hn. rewrite <- Ex.
    rewrite (store_byte 1 2 30 mk_sb W' i' (e / BSIZE) (e mod BSIZE) bs F' Hfbn ltac:(by rewrite Ex) ltac:(lia) ltac:(lia))
      by (unfold BSIZE in *; dlia).
    rewrite decide_False by (rewrite Hbs; unfold BSIZE in *; dlia). apply beyond_byte; [lia|done|done].
Qed.
End step.

(** ** What a file of the image is *)

(** The inode [i] has the bytes [data] and no more blocks than they need, all
    of them behind the bitmap. *)
Record core (W : contents) (i : inode) (data : list Z) : Prop := {
  co_ok : file_ok W i;
  co_holes : no_holes W i;
  co_beyond : beyond (isize i) W i;
  co_size : isize i = Z.of_nat (length data);
  co_data : fcontents W i = data;
  co_blocks b : in_file W i b → nmeta ≤ b;
}.

(** Only the blocks of the file count. *)
Section frame.
Context (W W' : contents) (i : inode).
Hypothesis (Hsame : ∀ b, in_file W i b → W' b = W b).
Hypothesis (Hused : ∀ b, 0 ≤ b < sb_size mk_sb → used mk_sb W b = true → used mk_sb W' b = true).

Lemma frame_faddr bn : faddr W' i bn = faddr W i bn.
Proof using Hsame. apply faddr_ext. intros Hn. apply Hsame. split; [done|by left]. Qed.
Lemma frame_byte p : 0 ≤ p / BSIZE < MAXFILE → faddr W i (p / BSIZE) ≠ 0 → fbyte W' i p = fbyte W i p.
Proof using Hsame. intros Hp Hn. unfold fbyte. rewrite frame_faddr, Hsame; [done|]. by apply in_file_addr. Qed.
Lemma frame_in b : in_file W' i b ↔ in_file W i b.
Proof using Hsame. unfold in_file. by setoid_rewrite frame_faddr. Qed.
Lemma frame_data b : in_file W i b → data_block 2 30 mk_sb W b → data_block 2 30 mk_sb W' b.
Proof using Hsame Hused.
  intros Hb D. apply (data_ext 2 30 mk_sb W); [done| |by rewrite Hsame]. rewrite (db_used _ _ _ _ _ D).
  apply Hused; [destruct D; lia|apply D].
Qed.

Lemma frame_ok : file_ok W i → file_ok W' i.
Proof using Hsame Hused.
  intros F. split; try apply F.
  - intros bn Hbn. rewrite frame_faddr. intros Hn. apply frame_data; [by apply in_file_addr|by apply (fo_data _ _ _ _ _ _ F)].
  - intros Hn. destruct (fo_ind _ _ _ _ _ _ F Hn) as [D Hb]. assert (in_file W i (addr i NDIRECT)) by (split; [done|by left]).
    split; [by apply frame_data|by rewrite Hsame].
  - intros b1 b2 H1 H2. rewrite !frame_faddr. by apply (fo_inj _ _ _ _ _ _ F).
  - intros b1 H1. rewrite frame_faddr. by apply (fo_apart _ _ _ _ _ _ F).
Qed.

Lemma core_frame data : core W i data → core W' i data.
Proof using Hsame Hused.
  intros [F [H1 H2] [B1 B2 B3] Hs Hd Hb]. split.
  - by apply frame_ok.
  - split; [done|]. intros bn. rewrite frame_faddr. apply H2.
  - split; [intros bn; rewrite frame_faddr; apply B1|done|]. intros p. rewrite frame_faddr. intros P1 P2 P3.
    rewrite frame_byte by done. by apply B3.
  - done.
  - rewrite <- Hd. apply list_eq. intros k. rewrite !fcontents_lookup. case_decide as Hk; [|done]. f_equal.
    change MAXFILE with 268 in H1. unfold BSIZE in H1.
    apply frame_byte; [change MAXFILE with 268; unfold BSIZE; dlia|]. apply H2; unfold BSIZE; dlia.
  - intros b Hin%frame_in. by apply Hb.
Qed.
End frame.

(** ** The loop of [iappend] *)

Section append.
Context (s0 : mkst) (W0 : contents) (n : Z) (din0 : inode) (p : list Z).
Local Abbreviation i0 := (as_inode n din0).
Local Abbreviation off := (isize din0).
Local Abbreviation len := (Z.of_nat (length p)).
Hypothesis (R0 : rel s0 W0) (F0 : file_ok W0 i0) (H0 : no_holes W0 i0) (B0 : beyond off W0 i0).
Hypothesis (Hmax : off + len ≤ MAXFILE * BSIZE).
Hypothesis (Hroom : freeblock s0 + blocks_of (off + len) - blocks_of off ≤ FSSIZE).

Record app_inv (tot : Z) (s : mkst) (W : contents) (din : inode) : Prop := {
  ai_tot : 0 ≤ tot ≤ len;
  ai_rel : rel s W;
  ai_written : written W0 i0 off p tot W (as_inode n din);
  ai_beyond : beyond (off + tot) W (as_inode n din);
  ai_fb : freeblock s = freeblock s0 + blocks_of (off + tot) - blocks_of off;
  ai_fi : freeinode s = freeinode s0;
}.

Lemma app_size : 0 ≤ off ≤ MAXFILE * BSIZE.
Proof using H0. apply H0. Qed.

(** When a block is missing. *)
Lemma app_missing tot s W din : app_inv tot s W din → tot < len →
  let e := off + tot in let i := as_inode n din in
  (faddr W i (e / BSIZE) = 0 ↔ e mod BSIZE = 0) ∧
  (NDIRECT ≤ e / BSIZE ∧ addr i NDIRECT = 0 ↔ e = NDIRECT * BSIZE).
Proof using All.
  intros [T R Wr Be _ _] Ht e i. pose proof app_size as Hs.
  assert (There : ∀ q, 0 ≤ q < e → faddr W i (q / BSIZE) ≠ 0).
  { intros q Hq. eapply (written_there 1 2 30 mk_sb W0 i0 off len p H0 ltac:(simpl; lia) Hmax tot W i q Wr); simpl; lia. }
  pose proof Hmax as Hm. change MAXFILE with 268 in Hm, Hs. unfold BSIZE, NDIRECT in *.
  split; split.
  - intros E. destruct (decide (e mod 1024 = 0)) as [|Hne]; [done|]. exfalso. apply (There (e - 1)); [unfold e in *; dlia|].
    replace ((e - 1) / 1024) with (e / 1024) by dlia. done.
  - intros E. apply (be_addr _ _ _ Be); change MAXFILE with 268; unfold BSIZE; fold e; unfold e in *; dlia.
  - intros [E1 E2]. destruct (decide (e = 12 * 1024)) as [|Hne]; [done|]. exfalso. apply (There (12 * 1024)); [dlia|].
    change (12 * 1024 / 1024) with 12. unfold faddr, NDIRECT. rewrite decide_False by lia. by rewrite decide_True.
  - intros E. split; [dlia|]. apply (be_ind _ _ _ Be). unfold NDIRECT, BSIZE. fold e. lia.
Qed.

Lemma app_round tot s W din : app_inv tot s W din → tot < len →
  wp (append_body (din, off + tot, drop (Z.to_nat tot) p))
    (λ r s', ∃ tot' W' din', r = inl (din', off + tot', drop (Z.to_nat tot') p) ∧ tot < tot' ∧ app_inv tot' s' W' din') s.
Proof using All.
  intros I Ht. destruct (app_missing tot s W din I Ht) as [M1 M2]. destruct I as [T R Wr Be Hfb Hfi]. pose proof app_size as Hs. assert (Hsz : 0 ≤ off ≤ isize i0) by (simpl; lia).
  set (e := off + tot) in *. set (i := as_inode n din) in *.
  assert (Hmod := Z.mod_pos_bound e BSIZE ltac:(done)).
  assert (Hfbn : 0 ≤ e / BSIZE < MAXFILE) by (apply beyond_fbn; unfold e; lia).
  unfold append_body. rewrite length_drop. set (rest := Z.of_nat (length p - Z.to_nat tot)).
  assert (Erest : rest = len - tot) by lia.
  rewrite (proj2 (Z.ltb_lt 0 rest)) by lia. cbv zeta. apply wp_bind_2. rewrite (proj2 (Z.ltb_lt _ _) (proj2 Hfbn)). cbn [assert_ wp ret].
  set (m := Z.min rest ((e / BSIZE + 1) * BSIZE - e)).
  assert (Hm : 0 < m ∧ tot + m ≤ len ∧ e mod BSIZE + m ≤ BSIZE) by (unfold m, BSIZE in *; dlia). destruct Hm as (Hm1 & Hm2 & Hm3).
  assert (Hu : 0 ≤ e + m < 2^32).
  { assert (Hmx : MAXFILE * BSIZE = 274432) by done. unfold e. lia. }
  pose proof (blocks_of_add e m ltac:(lia) Hm1 Hm3) as Hbl. pose proof (blocks_of_mono (e + m) (off + len) ltac:(lia)) as Hmono.
  rewrite <- (decide_ext _ _ 1 0 M1), <- (decide_ext _ _ 1 0 M2) in Hbl.
  apply wp_bind_2. eapply wp_mono; [|apply (data_sector_ok s W n din (e / BSIZE) R (wr_ok _ _ _ _ _ _ _ _ _ _ _ Wr) Hfbn); fold i; lia].
  intros [x din'] s1 (W1 & R1 & G & Hx & Hi1 & Hind & Hf1). fold i in G, Hf1.
  pose proof (written_grow 1 2 30 mk_sb W0 i0 off len p H0 Hsz Hmax tot W i _ x W1 _ Wr ltac:(lia) G Hfbn) as Wr1.
  pose proof (grows_addr 1 2 30 mk_sb _ _ _ _ _ _ G Hfbn) as Ex.
  assert (D : data_block 2 30 mk_sb W1 x).
  { rewrite <- Ex. apply (fo_data _ _ _ _ _ _ (gr_ok _ _ _ _ _ _ _ _ _ _ G)); [done|by rewrite Ex]. }
  destruct (data_range _ _ _ R1 D) as (Hr & H45 & H2000).
  apply wp_bind_2, wp_returns. exists (W1 x), s1. split; [apply (rsect_ok s1 W1 R1); unfold FSSIZE; lia|].
  set (bs := take (Z.to_nat m) (drop (Z.to_nat tot) p)).
  assert (Hbs : Z.of_nat (length bs) = m) by (clear -T Hm1 Hm2; unfold bs; rewrite length_take, length_drop; lia).
  assert (Eo : e - e / BSIZE * BSIZE = e mod BSIZE) by (rewrite Z.mod_eq by done; lia). rewrite Eo.
  assert (Hlen : length (overwrite (W1 x) (Z.to_nat (e mod BSIZE)) bs) = 1024%nat).
  { rewrite length_overwrite; [apply D|]. rewrite (db_len _ _ _ _ _ D). unfold BSIZE in *. lia. }
  destruct (wsect_ok s1 W1 R1 x _ ltac:(lia) H45 Hlen) as (s2 & Ew & R2 & Hf2 & Hi2).
  apply wp_bind_2, wp_returns. exists tt, s2. split; [exact Ew|]. cbn [wp ret].
  exists (tot + m), (<[x := overwrite (W1 x) (Z.to_nat (e mod BSIZE)) bs]> W1), din'.
  split; [|split; [lia|split]].
  - rewrite u32_small by done. rewrite drop_drop, <- Z2Nat.inj_add by lia. unfold e. by rewrite Z.add_assoc.
  - lia.
  - done.
  - pose proof (written_store 1 2 30 mk_sb W0 i0 off len p H0 Hsz Hmax tot W1 _ m Wr1 ltac:(lia) Hm1 Hm2 Hm3 ltac:(lia)) as Wr2.
    cbv zeta in Wr2. fold e in Wr2. rewrite Ex in Wr2. apply Wr2, Hx.
  - rewrite Z.add_assoc. fold e. apply (beyond_step W W1 i _ e m x bs); try done; [apply Wr|lia].
  - rewrite Z.add_assoc. fold e. lia.
  - congruence.
Qed.

Lemma app_end s W din : app_inv len s W din → wp (append_body (din, off + len, [])) (λ r s', r = inr (din, off + len) ∧ s' = s) s.
Proof. done. Qed.

Lemma append_loop : wp (loop append_fuel append_body (din0, off, p))
  (λ '(din, off') s, off' = off + len ∧ ∃ W, app_inv len s W din) s0.
Proof using All.
  apply (wp_loop _ (λ '(din, off', q) s, ∃ tot W, off' = off + tot ∧ q = drop (Z.to_nat tot) p ∧ app_inv tot s W din)
    (λ '(_, _, q), length q)).
  - intros [[din off'] q] s (tot & W & -> & -> & I). pose proof (ai_tot _ _ _ _ I) as T. destruct (decide (tot = len)) as [->|Hne].
    + rewrite drop_ge by lia. eapply wp_mono; [|by apply (app_end s W)]. intros r s' [-> ->]. split; [done|]. by exists W.
    + eapply wp_mono; [|apply (app_round tot s W din I); lia]. intros r s' (tot' & W' & din' & -> & Ht & I'). split; [by exists tot', W'|].
      pose proof (ai_tot _ _ _ _ I'). rewrite !length_drop. lia.
  - exists 0, W0. rewrite Z.add_0_r. split; [done|]. split; [done|]. split; try done; [lia| |by rewrite Z.add_0_r|rewrite Z.add_0_r; lia].
    apply written_start; [done|simpl; pose proof app_size; lia|done|apply (rel_bitmap s0 W0 R0)].
  - pose proof app_size. assert (Hmx : MAXFILE * BSIZE = 274432) by done.
    unfold append_fuel. rewrite <- Z2Nat.inj_pos, <- (Nat2Z.id (length p)). apply Z2Nat.inj_lt; lia.
Qed.

(** What the loop leaves, with the new size. *)
Lemma app_core s W din data : core W0 i0 data → app_inv len s W din →
  core W (as_inode n (din <| isize := off + len |>)) (data ++ p).
Proof using All.
  intros C [T R Wr Be _ _]. set (i := as_inode n din) in *. set (i' := as_inode n (din <| isize := off + len |>)).
  pose proof app_size as Hs. assert (Hsz : 0 ≤ off ≤ isize i0) by (simpl; lia).
  assert (There := written_there 1 2 30 mk_sb W0 i0 off len p H0 Hsz Hmax len W i).
  pose proof (wr_ok _ _ _ _ _ _ _ _ _ _ _ Wr) as [F1 F2 F3 F4 F5 F6].
  split.
  - split; [exact F1|exact F2|exact F3|exact F4|exact F5|exact F6].
  - split; [simpl; lia|]. intros bn Hb Hlt. change (isize i') with (off + len) in Hlt.
    destruct (There (bn * BSIZE) Wr ltac:(lia) ltac:(unfold BSIZE in *; simpl; lia)) as [_ Hn]. by rewrite Z.div_mul in Hn.
  - destruct Be as [B1 B2 B3]. split; [exact B1|exact B2|exact B3].
  - rewrite length_app. pose proof (co_size _ _ _ C) as E. simpl in E |- *. lia.
  - rewrite (fcontents_written W0 i0 W i' p off len); [|lia|lia| |].
    + rewrite (co_data _ _ _ C). rewrite take_ge by lia. pose proof (co_size _ _ _ C) as E. simpl in E. unfold overwrite.
      rewrite take_ge, drop_ge by lia. by rewrite app_nil_r.
    + simpl. lia.
    + intros q Hq. change (isize i') with (off + len) in Hq. apply (wr_byte _ _ _ _ _ _ _ _ _ _ _ Wr). simpl. lia.
  - intros b Hb. change (in_file W i b) in Hb. destruct (wr_new _ _ _ _ _ _ _ _ _ _ _ Wr b Hb) as [H|[H1 H2]]; [by apply (co_blocks _ _ _ C)|].
    change (sb_size mk_sb) with 2000 in H1. rewrite (rel_used s0 W0 R0) in H2 by done. apply Z.ltb_ge in H2.
    pose proof (r_fb _ _ R0). lia.
Qed.
End append.
