(* ===== verification/MkfsImage.v ===== *)
(** * The image that mkfs builds

    [image s W fs]: the inodes 1, 2, ... of the image are the files [fs], each
    with its type and its bytes.  The operations of mkfs are operations on the
    list [fs]. *)

From Stdlib Require Import ZArith Lia.
From stdpp Require Import base numbers list gmap functions strings tactics.
From S2P Require Import Prelude Bytes Mem Proc Bio BioSpec Log LogSpec LogCrash LogProps Ftypes Fs FsRules FsAlloc FsFile FsWrite FsInode FsContents FsProps DirProps NamexProps Mkfs MkfsSteps MkfsFile.

Local Open Scope Z_scope.
Local Abbreviation file_ok := (file_ok 1 2 30 mk_sb).
Local Abbreviation dinode := (NamexProps.dinode 1 mk_sb).

(** ** Inodes on disk *)

(** The inode blocks have room for this many. *)
Definition max_inodes : Z := 208.
Lemma mk_iblock n : 0 ≤ n < max_inodes → IBLOCK n mk_sb = n / 16 + 32 ∧ 32 ≤ IBLOCK n mk_sb < 45.
Proof.
  unfold max_inodes. intros Hn. assert (E : IBLOCK n mk_sb = n / 16 + 32); [|rewrite E; split; [done|dlia]].
  unfold IBLOCK, IPB, BSIZE. change (inodestart mk_sb) with 32. change (1024 / 64) with 16. apply u32_small. dlia.
Qed.

Lemma get_dinode_ext x x' o j :
  (∀ off k, (o ≤ off)%nat → (off + k ≤ o + 64)%nat → sub_bytes x' off k = sub_bytes x off k) →
  get_dinode x' o j = get_dinode x o j.
Proof.
  intros H. unfold get_dinode, di_type, getn. rewrite !H by lia.
  assert (get_addrs x' o = get_addrs x o) as ->; [|done].
  unfold get_addrs. apply list_fmap_ext. intros k m [-> Hk]%lookup_seq. unfold getn. by rewrite H by lia.
Qed.

Definition put_at (n : Z) (i : inode) (W : contents) : contents :=
  let ib := IBLOCK n mk_sb in <[ib := put_dinode (dinode_off n) i (W ib)]> W.
(** What is read back. *)
Definition read_back (n : Z) (i : inode) : inode := load_inode i (inode0 <| idev := 1 |> <| Ftypes.inum := n |>).

Section put.
Context (s : mkst) (W : contents) (n : Z) (i : inode).
Hypothesis (R : rel s W) (Hn : 0 ≤ n < max_inodes) (Hi : inode_ranges i).

Lemma put_room m : 0 ≤ m < max_inodes → (dinode_off m + 64 ≤ length (W (IBLOCK m mk_sb)))%nat.
Proof using R.
  intros Hm. destruct (mk_iblock m Hm) as [_ Hb]. rewrite (r_len _ _ R) by (unfold FSSIZE; lia). apply iblock_small.
Qed.
Lemma put_same b : ¬ 32 ≤ b < 45 → put_at n i W b = W b.
Proof using Hn. intros Hb. destruct (mk_iblock n Hn) as [_ H]. apply fn_lookup_insert_ne. lia. Qed.
Lemma dinode_put : dinode (put_at n i W) n = read_back n i.
Proof using R Hn Hi.
  unfold NamexProps.dinode, put_at. rewrite fn_lookup_insert. by apply (put_dinode_spec _ i _ (put_room n Hn)).
Qed.
Lemma dinode_put_ne m : 0 ≤ m < max_inodes → m ≠ n → dinode (put_at n i W) m = dinode W m.
Proof using R Hn Hi.
  intros Hm Hne. unfold NamexProps.dinode, put_at. destruct (decide (IBLOCK n mk_sb = IBLOCK m mk_sb)) as [E|E]; [|by rewrite fn_lookup_insert_ne].
  rewrite <- E, fn_lookup_insert. apply get_dinode_ext. intros off k H1 H2.
  apply (put_dinode_spec _ i _ (put_room n Hn) Hi).
  destruct (mk_iblock n Hn) as [En _], (mk_iblock m Hm) as [Em _]. unfold dinode_off, IPB, BSIZE in *. change (1024 / 64) with 16 in *.
  assert (m mod 16 ≠ n mod 16) by (unfold max_inodes in *; dlia).
  pose proof (Z.mod_pos_bound m 16). pose proof (Z.mod_pos_bound n 16). lia.
Qed.

Lemma winode_ok : ∃ s', winode n i s = Ret (tt, s') ∧ rel s' (put_at n i W) ∧ freeblock s' = freeblock s ∧ freeinode s' = freeinode s.
Proof using R Hn Hi.
  destruct (mk_iblock n Hn) as [_ Hb]. pose proof (r_fb _ _ R) as Hf. change nmeta with 46 in Hf.
  unfold winode. rewrite (bind_Ret _ _ _ _ _ (rsect_ok s W R (IBLOCK n mk_sb) ltac:(unfold FSSIZE; lia) ltac:(lia))).
  apply (wsect_ok s W R); [lia|lia|]. destruct (put_dinode_spec _ i _ (put_room n Hn) Hi) as [-> _].
  apply (r_len _ _ R). unfold FSSIZE. lia.
Qed.
End put.

Lemma rinode_ok s W n : rel s W → 0 ≤ n < max_inodes →
  ∃ din, rinode n s = Ret (din, s) ∧ as_inode n din = dinode W n.
Proof.
  intros R Hn. destruct (mk_iblock n Hn) as [_ Hb]. unfold rinode.
  rewrite (bind_Ret _ _ _ _ _ (rsect_ok s W R (IBLOCK n mk_sb) ltac:(unfold FSSIZE; lia) ltac:(lia))). eexists. split; reflexivity.
Qed.

#[local] Opaque NamexProps.dinode.

(** The addresses of a file fit in 32 bits. *)
Lemma core_addrs s W i : rel s W → file_ok W i → Forall (λ a, 0 ≤ a < 2^32) (iaddrs i).
Proof.
  intros R F. apply list.Forall_lookup. intros k a Hk. pose proof (lookup_lt_Some _ _ _ Hk) as Hlt. rewrite (fo_len _ _ _ _ _ _ F) in Hlt.
  assert (E : addr i (Z.of_nat k) = a) by (unfold addr; by rewrite Nat2Z.id, Hk).
  destruct (addr_cases W i (Z.of_nat k) F ltac:(unfold NDIRECT; lia)) as [H|H]; rewrite E in H; [lia|].
  destruct (data_range s W a R H). lia.
Qed.

(** Only the addresses, the size and the device of the inode count. *)
Lemma core_inode W i i' data : iaddrs i' = iaddrs i → isize i' = isize i → idev i' = idev i → core W i data → core W i' data.
Proof.
  intros E1 E2 E3 [F [H1 H2] [B1 B2 B3] Hs Hd Hb]. assert (Ef : ∀ bn, faddr W i' bn = faddr W i bn) by (intros; by apply faddr_inode).
  assert (Eb : ∀ p, fbyte W i' p = fbyte W i p) by (intros; unfold fbyte; by rewrite Ef).
  split.
  - by apply (file_ok_inode 1 2 30 mk_sb W i).
  - split; [by rewrite E2|]. intros bn. rewrite E2, Ef. apply H2.
  - rewrite E2. split; [intros bn; rewrite Ef; apply B1| |intros p; rewrite Ef, Eb; apply B3].
    unfold addr. rewrite E1. exact B2.
  - congruence.
  - rewrite <- Hd. unfold fcontents, fslice. rewrite E2. apply list_fmap_ext. intros. apply Eb.
  - intros b Hin. by apply Hb, (in_file_inode W i i').
Qed.

(** ** The image *)

(** Inode [n] is a file of type [tp] with the bytes [data]. *)
Record file_at (W : contents) (n tp : Z) (data : list Z) : Prop := {
  fa_type : itype (dinode W n) = tp;
  fa_dev : imajor (dinode W n) = 0 ∧ iminor (dinode W n) = 0;
  fa_link : inlink (dinode W n) = 1;
  fa_core : core W (dinode W n) data;
}.

Definition total (fs : list (Z * list Z)) : Z := foldr (λ f, Z.add (blocks_of (Z.of_nat (length f.2)))) 0 fs.
Definition sb_block : list Z := overwrite zero_block 0 (enc_superblock mk_sb).
Definition inode_no (k : nat) : Z := Z.of_nat k + 1.

Record image (s : mkst) (W : contents) (fs : list (Z * list Z)) : Prop := {
  im_rel : rel s W;
  im_meta n : 0 ≤ n < 32 → W n = if decide (n = 1) then sb_block else zero_block;
  im_fi : freeinode s = inode_no (length fs);
  im_max : (length fs < Z.to_nat max_inodes)%nat;
  im_file k tp data : fs !! k = Some (tp, data) → 1 ≤ tp ≤ 3 ∧ file_at W (inode_no k) tp data;
  im_apart k k' b : (k < length fs)%nat → (k' < length fs)%nat → k ≠ k' →
    in_file W (dinode W (inode_no k)) b → ¬ in_file W (dinode W (inode_no k')) b;
  im_fb : freeblock s = nmeta + total fs;
}.

Lemma total_concat fs fs' : total (fs ++ fs') = total fs + total fs'.
Proof. induction fs as [|f fs IH]; [done|]. cbn. fold (total (fs ++ fs')). fold (total fs). lia. Qed.
Lemma total_nonneg fs : 0 ≤ total fs.
Proof.
  induction fs as [|f fs IH]; [done|]. change (0 ≤ blocks_of (Z.of_nat (length f.2)) + total fs).
  pose proof (blocks_of_mono 0 (Z.of_nat (length f.2)) ltac:(lia)) as H. change (blocks_of 0) with 0 in H. lia.
Qed.
Lemma total_insert fs k tp data tp' data' : fs !! k = Some (tp, data) →
  total (<[k := (tp', data')]> fs) = total fs - blocks_of (Z.of_nat (length data)) + blocks_of (Z.of_nat (length data')).
Proof.
  revert k. induction fs as [|f fs IH]; intros [|k] Hk; simplify_eq/=; [fold (total fs); lia|].
  fold (total (<[k := (tp', data')]> fs)). fold (total fs). rewrite (IH k Hk). lia.
Qed.

(** *** One inode changes *)

Section update.
Context (s : mkst) (W : contents) (fs : list (Z * list Z)) (I : image s W fs).
Context (k : nat) (tp : Z) (data : list Z) (fs' : list (Z * list Z)).
Hypothesis (Hk : fs' !! k = Some (tp, data)) (Hj : ∀ j, j ≠ k → fs' !! j = fs !! j) (Htp : 1 ≤ tp ≤ 3).
Hypothesis (Hmax : (length fs' < Z.to_nat max_inodes)%nat).
(** The contents after the blocks are written. *)
Context (s1 : mkst) (W1 : contents) (i : inode).
Hypothesis (R1 : rel s1 W1) (Hfi : freeinode s1 = inode_no (length fs')) (Hfb : freeblock s1 = nmeta + total fs').
Hypothesis (C : core W1 (as_inode (inode_no k) i) data) (Ht : itype i = tp) (Hmm : imajor i = 0 ∧ iminor i = 0) (Hln : inlink i = 1).
Hypothesis (Hmeta : ∀ b, 0 ≤ b < 45 → W1 b = W b).
Hypothesis (Hused : ∀ b, 0 ≤ b < sb_size mk_sb → used mk_sb W b = true → used mk_sb W1 b = true).
Hypothesis (Hkeep : ∀ j b, (j < length fs)%nat → j ≠ k → in_file W (dinode W (inode_no j)) b → W1 b = W b ∧ ¬ in_file W1 i b).

Lemma update_ranges : inode_ranges i.
Proof using All.
  split; rewrite ?(proj1 Hmm), ?(proj2 Hmm), ?Ht, ?Hln; try lia.
  - destruct (co_holes _ _ _ C) as [H _]. change (MAXFILE * BSIZE) with 274432 in H. simpl in H. lia.
  - apply (fo_len _ _ _ _ _ _ (co_ok _ _ _ C)).
  - apply (core_addrs s1 W1 _ R1 (co_ok _ _ _ C)).
Qed.
Lemma update_room : 0 ≤ inode_no k < max_inodes.
Proof using Hk Hmax. apply lookup_lt_Some in Hk. unfold inode_no, max_inodes in *. lia. Qed.
Local Abbreviation W2 := (put_at (inode_no k) i W1).

Lemma update_used b : used mk_sb W2 b = used mk_sb W1 b ∨ ¬ 0 ≤ b < sb_size mk_sb.
Proof using Hk Hmax.
  destruct (decide (0 ≤ b < sb_size mk_sb)) as [Hb|]; [left|by right]. apply used_ext, put_same; [apply update_room|].
  change (sb_size mk_sb) with 2000 in Hb. rewrite mk_bblock by done. lia.
Qed.
Lemma update_block b : nmeta ≤ b → W2 b = W1 b.
Proof using Hk Hmax. intros Hb. change nmeta with 46 in Hb. apply put_same; [apply update_room|lia]. Qed.

Lemma update_dinode : dinode W2 (inode_no k) = read_back (inode_no k) i.
Proof using All. apply (dinode_put s1 W1 _ i R1 update_room update_ranges). Qed.
Lemma update_dinode_ne j : (j < length fs)%nat → j ≠ k → dinode W2 (inode_no j) = dinode W (inode_no j).
Proof using All.
  intros Hlt Hne. pose proof (im_max _ _ _ I). assert (Hr : 0 ≤ inode_no j < max_inodes) by (unfold inode_no, max_inodes in *; lia).
  rewrite (dinode_put_ne s1 W1 _ i R1 update_room update_ranges) by (unfold inode_no in *; lia).
  destruct (mk_iblock _ Hr) as [_ Hb]. Transparent NamexProps.dinode. unfold NamexProps.dinode. Opaque NamexProps.dinode.
  by rewrite Hmeta by lia.
Qed.

Lemma update_core : core W2 (read_back (inode_no k) i) data.
Proof using All.
  apply (core_inode W2 (as_inode (inode_no k) i)); [done..|]. apply (core_frame W1 W2); [| |done].
  - intros b Hb. apply update_block, (co_blocks _ _ _ C), Hb.
  - intros b Hb Hu. destruct (update_used b) as [->|]; done.
Qed.
Lemma update_core_ne j tpj dj : fs !! j = Some (tpj, dj) → j ≠ k → core W2 (dinode W (inode_no j)) dj.
Proof using All.
  intros Hf Hne. destruct (im_file _ _ _ I j tpj dj Hf) as [_ [_ _ _ Cj]]. apply lookup_lt_Some in Hf.
  apply (core_frame W W2); [| |done].
  - intros b Hb. rewrite update_block by (by apply (co_blocks _ _ _ Cj)). by apply (Hkeep j b).
  - intros b Hb Hu. destruct (update_used b) as [->|]; [by apply Hused|done].
Qed.

(** The blocks of the other files are where they were. *)
Lemma update_in_ne j b : (j < length fs)%nat → j ≠ k → in_file W2 (dinode W2 (inode_no j)) b → in_file W (dinode W (inode_no j)) b.
Proof using All.
  intros Hlt Hne. rewrite update_dinode_ne by done. apply (frame_in W W2). intros a Ha.
  destruct (lookup_lt_is_Some_2 fs j Hlt) as [[tpj dj] Hf]. destruct (im_file _ _ _ I j tpj dj Hf) as [_ [_ _ _ Cj]].
  rewrite update_block by (by apply (co_blocks _ _ _ Cj)). by apply (Hkeep j a).
Qed.
Lemma update_in b : in_file W2 (dinode W2 (inode_no k)) b → in_file W1 i b.
Proof using All.
  rewrite update_dinode. intros Hb. apply (in_file_inode W2 i) in Hb; [|done]. revert Hb. apply (frame_in W1 W2).
  intros a Ha. apply update_block, (co_blocks _ _ _ C), Ha.
Qed.
Lemma update_length j : (j < length fs')%nat → j ≠ k → (j < length fs)%nat.
Proof using Hj.
  intros Hlt Hne. destruct (lookup_lt_is_Some_2 fs' j Hlt) as [f Hf]. rewrite Hj in Hf by done. by eapply lookup_lt_Some.
Qed.

Lemma update_image : ∃ s2, winode (inode_no k) i s1 = Ret (tt, s2) ∧ image s2 W2 fs'.
Proof using All.
  destruct (winode_ok s1 W1 _ i R1 update_room update_ranges) as (s2 & Ew & R2 & Eb & Ei). exists s2. split; [done|]. split.
  - done.
  - intros n Hn. rewrite put_same by (apply update_room || lia). rewrite Hmeta by lia. by apply (im_meta _ _ _ I).
  - congruence.
  - done.
  - intros j tpj dj. destruct (decide (j = k)) as [->|Hne].
    + rewrite Hk. intros [= <- <-]. split; [done|]. split; rewrite ?update_dinode; try done. apply update_core.
    + rewrite Hj by done. intros Hf. pose proof (im_file _ _ _ I j tpj dj Hf) as [? [F1 F2 F3 F4]]. split; [done|].
      pose proof (lookup_lt_Some _ _ _ Hf). split; rewrite ?update_dinode_ne by done; try done. by eapply update_core_ne.
  - intros j j' b Hlj Hlj' Hne H1 H2. destruct (decide (j = k)) as [->|N1]; [|destruct (decide (j' = k)) as [->|N2]].
    + pose proof (update_length j' Hlj' ltac:(done)) as Hl. apply update_in in H1. apply update_in_ne in H2; [|done|done].
      by destruct (Hkeep j' b Hl ltac:(done) H2).
    + pose proof (update_length j Hlj ltac:(done)) as Hl. apply update_in in H2. apply update_in_ne in H1; [|done|done].
      by destruct (Hkeep j b Hl N1 H1).
    + apply update_in_ne in H1, H2; try done; [|by apply update_length..].
      by apply (im_apart _ _ _ I j j' b); [apply update_length..| | |].
  - congruence.
Qed.
End update.

(** *** Only the blocks of the image count *)

Section extend.
Context (s : mkst) (W V : contents) (fs : list (Z * list Z)) (I : image s W fs) (E : ∀ n, 0 ≤ n < FSSIZE → V n = W n).

Lemma ext_rel : rel s V.
Proof using I E.
  destruct (im_rel _ _ _ I) as [R1 R2 R3 R4 R5]. change nmeta with 46 in R4. split.
  - by rewrite E.
  - intros n Hn Hne. by rewrite E, R2.
  - intros n Hn. rewrite E by lia. by apply R3.
  - done.
  - intros n Hn. rewrite E by done. by apply R5.
Qed.
Lemma ext_dinode k : (k < length fs)%nat → dinode V (inode_no k) = dinode W (inode_no k).
Proof using I E.
  intros Hk. pose proof (im_max _ _ _ I). destruct (mk_iblock (inode_no k)) as [_ Hb]; [unfold inode_no, max_inodes in *; lia|].
  Transparent NamexProps.dinode. unfold NamexProps.dinode. Opaque NamexProps.dinode. by rewrite E by (unfold FSSIZE; lia).
Qed.
Lemma ext_same k tp data b : fs !! k = Some (tp, data) → in_file W (dinode W (inode_no k)) b → V b = W b.
Proof using I E.
  intros Hk Hb. destruct (im_file _ _ _ I k tp data Hk) as [_ [_ _ _ C]].
  destruct (in_file_data 1 2 30 mk_sb W _ b (co_ok _ _ _ C) Hb) as [Hr _ _ _ _]. change (sb_size mk_sb) with 2000 in Hr.
  apply E. unfold FSSIZE. lia.
Qed.
Lemma ext_core k tp data : fs !! k = Some (tp, data) → core W (dinode W (inode_no k)) data → core V (dinode W (inode_no k)) data.
Proof using I E.
  intros Hk C. apply (core_frame W V); [|intros b Hb|done].
  - intros b Hb. by eapply ext_same.
  - rewrite <- (used_ext mk_sb W V b); [done|]. change (sb_size mk_sb) with 2000 in Hb. by rewrite mk_bblock, E.
Qed.
Lemma ext_in k b : (k < length fs)%nat → in_file V (dinode V (inode_no k)) b → in_file W (dinode W (inode_no k)) b.
Proof using I E.
  intros Hk. rewrite ext_dinode by done. destruct (lookup_lt_is_Some_2 fs k Hk) as [[tp data] Hf].
  apply (frame_in W V). intros a Ha. by eapply ext_same.
Qed.

Lemma image_ext : image s V fs.
Proof using I E.
  split.
  - apply ext_rel.
  - intros n Hn. rewrite E by (unfold FSSIZE; lia). by apply (im_meta _ _ _ I).
  - apply I.
  - apply I.
  - intros k tp data Hk. destruct (im_file _ _ _ I k tp data Hk) as [Ht [F1 F2 F3 C]]. split; [done|].
    pose proof (lookup_lt_Some _ _ _ Hk) as Hlt. split; rewrite ext_dinode by done; try done. by eapply ext_core.
  - intros k k' b Hk Hk' Hne H1%ext_in H2%ext_in; [|done|done]. by apply (im_apart _ _ _ I k k' b).
  - apply I.
Qed.
End extend.
