(* ===== verification/MkfsProps.v ===== *)
(** * mkfs builds what the kernel expects

    The operations of mkfs on the list of files of the image, the directory
    they make, and the correctness of the whole program. *)

From Stdlib Require Import ZArith Lia.
From stdpp Require Import base numbers list gmap functions strings tactics.
From S2P Require Import Prelude Bytes Mem Proc Bio BioSpec Log LogSpec LogCrash LogProps Ftypes Fs FsRules FsAlloc FsFile FsWrite FsInode FsContents FsProps PathProps DirProps NamexProps Mkfs MkfsSteps MkfsFile MkfsImage.

Local Open Scope Z_scope.
Local Abbreviation dinode := (NamexProps.dinode 1 mk_sb).
#[local] Opaque NamexProps.dinode.

(** ** The operations *)

Section empty.
Context (W : contents) (i : inode) (Ea : iaddrs i = replicate 13 0).
Lemma empty_addr k : addr i k = 0.
Proof using Ea.
  unfold addr. rewrite Ea. destruct (replicate 13 0 !! Z.to_nat k) as [v|] eqn:E; [|done]. by apply lookup_replicate_1 in E as [-> _].
Qed.
Lemma empty_faddr bn : faddr W i bn = 0.
Proof using Ea. unfold faddr. rewrite !empty_addr. case_decide; [done|]. by rewrite decide_True. Qed.
Lemma empty_in b : ¬ in_file W i b.
Proof using Ea. intros [Hb [H|(bn & _ & H)]]; [by rewrite empty_addr in H|by rewrite empty_faddr in H]. Qed.
Lemma core_empty : isize i = 0 → idev i = 1 → core W i [].
Proof using Ea.
  intros Es Ed. split.
  - split; [done|by rewrite Ea|intros bn _; by rewrite empty_faddr|by rewrite empty_addr
      |intros b b' _ _; by rewrite empty_faddr|intros b _; by rewrite empty_faddr].
  - split; [rewrite Es; by vm_compute|]. intros bn Hb. rewrite Es. unfold BSIZE. lia.
  - split; [intros; by apply empty_faddr|intros; by apply empty_addr|intros p _ _; by rewrite empty_faddr].
  - done.
  - unfold fcontents, fslice. by rewrite Es.
  - intros b Hb. by apply empty_in in Hb.
Qed.
End empty.

Section ops.
Context (s : mkst) (W : contents) (fs : list (Z * list Z)) (I : image s W fs).

Lemma image_no k f : fs !! k = Some f → 0 ≤ inode_no k < max_inodes.
Proof using I. intros H%lookup_lt_Some. pose proof (im_max _ _ _ I). unfold inode_no, max_inodes in *. lia. Qed.

(** An inode rewritten in place: its blocks and their contents stay. *)
Lemma rewrite_image k tp data data' i :
  fs !! k = Some (tp, data) → blocks_of (Z.of_nat (length data')) = blocks_of (Z.of_nat (length data)) →
  (∀ b, in_file W i b → in_file W (dinode W (inode_no k)) b) →
  core W (as_inode (inode_no k) i) data' → itype i = tp → imajor i = 0 ∧ iminor i = 0 → inlink i = 1 →
  ∃ s' W', winode (inode_no k) i s = Ret (tt, s') ∧ image s' W' (<[k := (tp, data')]> fs).
Proof using I.
  intros Hk Hbl Hin C Ht Hm Hl. destruct (im_file _ _ _ I k tp data Hk) as [Htp _]. pose proof (lookup_lt_Some _ _ _ Hk) as Hlt.
  destruct (update_image s W fs I k tp data' (<[k := (tp, data')]> fs)) with (s1 := s) (W1 := W) (i := i) as (s' & E & I'); try done.
  - by rewrite list_lookup_insert_eq.
  - intros j Hj. by rewrite list_lookup_insert_ne.
  - rewrite length_insert. apply I.
  - apply I.
  - rewrite length_insert. apply I.
  - rewrite (total_insert fs k tp data) by done. rewrite (im_fb _ _ _ I). lia.
  - intros j b Hj Hne Hb. split; [done|]. intros Hb'. by apply (im_apart _ _ _ I j k b), Hin.
  - by exists s', (put_at (inode_no k) i W).
Qed.

Lemma ialloc_image tp : 1 ≤ tp ≤ 3 → (S (length fs) < Z.to_nat max_inodes)%nat →
  ∃ s' W', ialloc tp s = Ret (inode_no (length fs), s') ∧ image s' W' (fs ++ [(tp, [])]).
Proof using I.
  intros Htp Hmax. unfold ialloc. rewrite (bind_Ret get _ s s s) by done.
  rewrite (im_fi _ _ _ I). set (n := inode_no (length fs)). unfold max_inodes in Hmax.
  rewrite u32_small by (unfold n, inode_no; lia). set (s1 := s <| freeinode := n + 1 |>).
  rewrite (bind_Ret (put s1) _ s tt s1) by done.
  set (i := inode0 <| itype := xshort tp |> <| inlink := xshort 1 |> <| isize := xint 0 |>).
  destruct (update_image s W fs I (length fs) tp [] (fs ++ [(tp, [])])) with (s1 := s1) (W1 := W) (i := i) as (s' & E & I'); try done.
  - by rewrite lookup_app_r, Nat.sub_diag.
  - intros j Hj. destruct (decide (j < length fs)%nat); [by rewrite lookup_app_l|].
    rewrite !lookup_ge_None_2; [done|lia|rewrite length_app; simpl; lia].
  - rewrite length_app. unfold max_inodes. simpl. lia.
  - destruct (im_rel _ _ _ I). by split.
  - rewrite length_app. unfold s1, n, inode_no. simpl. lia.
  - rewrite total_concat. change (total [(tp, [])]) with 0. rewrite Z.add_0_r. apply (im_fb _ _ _ I).
  - by apply core_empty.
  - unfold i. simpl. apply xshort_small. lia.
  - intros j b Hj Hne Hb. split; [done|]. by apply empty_in.
  - exists s', (put_at n i W). rewrite (bind_Ret _ _ _ _ _ E). done.
Qed.

(** The blocks of another file, and the blocks before the bitmap, are not the file's. *)
Lemma image_data j b : (j < length fs)%nat → in_file W (dinode W (inode_no j)) b → data_block 2 30 mk_sb W b.
Proof using I.
  intros Hj Hb. destruct (lookup_lt_is_Some_2 fs j Hj) as [[tp data] Hf]. destruct (im_file _ _ _ I j tp data Hf) as [_ [_ _ _ C]].
  by apply (in_file_data 1 2 30 mk_sb W (dinode W (inode_no j))); [apply C|].
Qed.
Lemma image_outside k j b : (k < length fs)%nat → (j < length fs)%nat → j ≠ k →
  in_file W (dinode W (inode_no j)) b → outside mk_sb W (dinode W (inode_no k)) b.
Proof using I.
  intros Hk Hj Hne Hb. pose proof (image_data j b Hj Hb) as [H1 H2 H3 _ _]. split; [done|]. split; [done|].
  by apply (im_apart _ _ _ I j k b).
Qed.
Lemma image_outside_meta k b : (k < length fs)%nat → 0 ≤ b < 45 → outside mk_sb W (dinode W (inode_no k)) b.
Proof using I.
  intros Hk Hb. split; [rewrite mk_is_bmap; lia|]. pose proof (r_fb _ _ (im_rel _ _ _ I)) as Hf. change nmeta with 46 in Hf. split.
  - intros _. rewrite (rel_used s W (im_rel _ _ _ I)) by lia. apply Z.ltb_lt. lia.
  - intros Hin. destruct (lookup_lt_is_Some_2 fs k Hk) as [[tp data] Hf']. destruct (im_file _ _ _ I k tp data Hf') as [_ [_ _ _ C]].
    pose proof (co_blocks _ _ _ C b Hin) as H. change nmeta with 46 in H. lia.
Qed.

Lemma iappend_image k tp data p : fs !! k = Some (tp, data) →
  Z.of_nat (length data + length p) ≤ MAXFILE * BSIZE → nmeta + total (<[k := (tp, data ++ p)]> fs) ≤ FSSIZE →
  wp (iappend (inode_no k) p) (λ _ s', ∃ W', image s' W' (<[k := (tp, data ++ p)]> fs)) s.
Proof using I.
  intros Hk Hmax Hroom. set (n := inode_no k) in *. pose proof (lookup_lt_Some _ _ _ Hk) as Hlt.
  destruct (rinode_ok s W n (im_rel _ _ _ I) (image_no k _ Hk)) as (din & Er & Ed).
  destruct (im_file _ _ _ I k tp data Hk) as [Htp [F1 F2 F3 C]]. fold n in F1, F2, F3, C. rewrite <- Ed in F1, F2, F3, C.
  pose proof (co_size _ _ _ C) as Hs. change (isize din = Z.of_nat (length data)) in Hs.
  assert (Hmx : MAXFILE * BSIZE = 274432) by done.
  unfold iappend. apply wp_bind_2, wp_returns. exists din, s. split; [done|]. rewrite xint_small by lia.
  rewrite (total_insert fs k tp data) in Hroom by done. rewrite length_app, Nat2Z.inj_add, <- Hs in Hroom.
  apply wp_bind_2. eapply wp_mono; [|apply (append_loop s W n din p (im_rel _ _ _ I) (co_ok _ _ _ C) (co_holes _ _ _ C) (co_beyond _ _ _ C)); [lia|]].
  2: { rewrite (im_fb _ _ _ I). lia. }
  intros [din1 off1] s1 (-> & W1 & A). rewrite xint_small by lia.
  pose proof (app_core s W n din p (im_rel _ _ _ I) (co_ok _ _ _ C) (co_holes _ _ _ C) (co_beyond _ _ _ C) ltac:(lia)
    ltac:(rewrite (im_fb _ _ _ I); lia) s1 W1 din1 data C A) as C1.
  destruct A as [_ R1 Wr _ Hfb Hfi]. destruct (wr_inode _ _ _ _ _ _ _ _ _ _ _ Wr) as [a Ea].
  apply wp_returns. set (i := din1 <| isize := _ |>) in *.
  destruct (update_image s W fs I k tp (data ++ p) (<[k := (tp, data ++ p)]> fs)) with (s1 := s1) (W1 := W1) (i := i) as (s' & E & I'); try done.
  - by rewrite list_lookup_insert_eq.
  - intros j Hj. by rewrite list_lookup_insert_ne.
  - rewrite length_insert. apply I.
  - rewrite length_insert, Hfi. apply I.
  - rewrite (total_insert fs k tp data) by done. rewrite Hfb, (im_fb _ _ _ I), length_app, Nat2Z.inj_add, Hs. lia.
  - change (itype (as_inode n din1) = tp). rewrite Ea. exact F1.
  - change (imajor (as_inode n din1) = 0 ∧ iminor (as_inode n din1) = 0). rewrite Ea. exact F2.
  - change (inlink (as_inode n din1) = 1). rewrite Ea. exact F3.
  - intros b Hb. apply (wr_frame _ _ _ _ _ _ _ _ _ _ _ Wr). rewrite Ed. by apply image_outside_meta.
  - apply (wr_used _ _ _ _ _ _ _ _ _ _ _ Wr).
  - intros j b Hj Hne Hb. pose proof (image_outside k j b Hlt Hj Hne Hb) as Ho. fold n in Ho. rewrite <- Ed in Ho. split.
    + by apply (wr_frame _ _ _ _ _ _ _ _ _ _ _ Wr).
    + intros Hb'. by eapply (outside_not_in 1 2 30 mk_sb W (as_inode n din)).
  - exists tt, s'. split; [exact E|]. by exists (put_at n i W1).
Qed.
End ops.

(** *** The root directory is filled up to a whole block *)

Definition padding (data : list Z) : list Z :=
  replicate (Z.to_nat ((Z.of_nat (length data) / BSIZE + 1) * BSIZE) - length data) 0.

Lemma pad_length data : Z.of_nat (length (data ++ padding data)) = (Z.of_nat (length data) / BSIZE + 1) * BSIZE.
Proof. unfold padding. rewrite length_app, length_replicate. unfold BSIZE. dlia. Qed.
Lemma pad_blocks data : Z.of_nat (length data) mod BSIZE ≠ 0 →
  blocks_of (Z.of_nat (length (data ++ padding data))) = blocks_of (Z.of_nat (length data)).
Proof.
  intros Hm. rewrite pad_length. unfold blocks_of, BSIZE, NDIRECT in *. set (e := Z.of_nat (length data)) in *. assert (0 ≤ e) by (unfold e; lia).
  destruct (Z.ltb_spec (12 * 1024) ((e / 1024 + 1) * 1024)), (Z.ltb_spec (12 * 1024) e); dlia.
Qed.

Lemma core_pad W i data : core W i data → Z.of_nat (length data) mod BSIZE ≠ 0 →
  Z.of_nat (length (data ++ padding data)) ≤ MAXFILE * BSIZE →
  core W (i <| isize := Z.of_nat (length (data ++ padding data)) |>) (data ++ padding data).
Proof.
  intros [F [H1 H2] [B1 B2 B3] Hs Hd Hb] Hm Hmax. set (e := Z.of_nat (length (data ++ padding data))) in *.
  assert (He : e = (isize i / BSIZE + 1) * BSIZE) by (unfold e; rewrite pad_length; congruence). rewrite <- Hs in Hm.
  set (i' := i <| isize := e |>).
  assert (Hbn : 0 ≤ isize i / BSIZE < MAXFILE) by (unfold BSIZE in *; dlia).
  assert (Hlast : faddr W i (isize i / BSIZE) ≠ 0) by (apply H2; unfold BSIZE in *; dlia).
  split.
  - by apply (file_ok_inode 1 2 30 mk_sb W i).
  - split; [change (0 ≤ e ≤ MAXFILE * BSIZE); lia|]. intros bn Hn Hlt. change (bn * BSIZE < e) in Hlt. change (faddr W i bn ≠ 0).
    destruct (decide (bn = isize i / BSIZE)) as [->|]; [done|]. apply H2; [done|]. unfold BSIZE in *. dlia.
  - assert (isize i ≤ e) by (rewrite He; unfold BSIZE; dlia). split.
    + intros bn Hr Hle. apply B1; [done|]. change (e ≤ bn * BSIZE) in Hle. lia.
    + intros Hle. apply B2. change (e ≤ NDIRECT * BSIZE) in Hle. lia.
    + intros p Hle. apply B3. change (e ≤ p) in Hle. lia.
  - done.
  - apply list_eq. intros k. rewrite fcontents_lookup. change (isize i') with e. change (fbyte W i' (Z.of_nat k)) with (fbyte W i (Z.of_nat k)).
    destruct (decide (k < length data)%nat) as [Hk|Hk].
    + rewrite lookup_app_l by done. rewrite <- Hd, fcontents_lookup, !decide_True; [done|lia|rewrite He; unfold BSIZE in *; dlia].
    + rewrite lookup_app_r by lia. unfold padding. case_decide as Hke.
      * rewrite lookup_replicate_2 by (unfold e in Hke; rewrite length_app in Hke; unfold padding in Hke; rewrite length_replicate in Hke; lia).
        f_equal. assert (Ek : Z.of_nat k / BSIZE = isize i / BSIZE) by (unfold BSIZE in *; dlia).
        apply B3; rewrite ?Ek; [lia|done|done].
      * symmetry. apply lookup_ge_None. rewrite length_replicate. unfold e in Hke. rewrite length_app in Hke. unfold padding in Hke.
        rewrite length_replicate in Hke. lia.
  - intros b Hin. apply Hb. exact Hin.
Qed.

Lemma fix_root_image s W fs data : image s W fs → fs !! 0%nat = Some (T_DIR, data) → Z.of_nat (length data) mod BSIZE ≠ 0 →
  Z.of_nat (length (data ++ padding data)) ≤ MAXFILE * BSIZE →
  wp (fix_root ROOTINO) (λ _ s', ∃ W', image s' W' (<[0%nat := (T_DIR, data ++ padding data)]> fs)) s.
Proof.
  intros I Hk Hm Hmax. change ROOTINO with (inode_no 0).
  destruct (rinode_ok s W _ (im_rel _ _ _ I) (image_no s W fs I 0 _ Hk)) as (din & Er & Ed).
  destruct (im_file _ _ _ I 0 _ data Hk) as [Htp [F1 F2 F3 C]]. rewrite <- Ed in F1, F2, F3, C.
  pose proof (co_size _ _ _ C) as Hs. change (isize din = Z.of_nat (length data)) in Hs.
  pose proof (pad_length data) as Hp. assert (Hmx : MAXFILE * BSIZE = 274432) by done.
  unfold fix_root. apply wp_bind_2, wp_returns. exists din, s. split; [done|].
  rewrite (xint_small (isize din)) by (unfold BSIZE in *; dlia). cbv zeta. rewrite Hs, <- Hp, u32_small, xint_small by lia.
  apply wp_returns.
  destruct (rewrite_image s W fs I 0 T_DIR data (data ++ padding data) (din <| isize := Z.of_nat (length (data ++ padding data)) |>))
    as (s' & W' & E & I'); try done.
  - by apply pad_blocks.
  - intros b Hb. by rewrite <- Ed.
  - by apply (core_pad W (as_inode (inode_no 0) din)).
  - exists tt, s'. split; [exact E|]. by exists W'.
Qed.

(** ** Adding the files *)

Section files.
Context (host : list Z → option (list (list Z))).

Definition file_name (path : list Z) : list Z := skip_underscore (shortname path).
Definition file_bytes (path : list Z) : list Z := concat (default [] (host path)).
Definition file_of (path : list Z) : Z * list Z := (T_FILE, file_bytes path).
(** Entries for consecutive inodes. *)
Fixpoint dir_bytes (n : Z) (names : list (list Z)) : list Z :=
  match names with [] => [] | nm :: names => enc_dirent n nm ++ dir_bytes (n + 1) names end.

(** mkfs can add the file. *)
Record file_fits (path : list Z) : Prop := {
  ff_slash : slash ∉ shortname path;
  ff_open : is_Some (host path);
  ff_size : Z.of_nat (length (file_bytes path)) ≤ MAXFILE * BSIZE;
}.

Lemma length_dir_bytes names : ∀ n, length (dir_bytes n names) = (16 * length names)%nat.
Proof. induction names as [|nm names IH]; intros n; cbn [dir_bytes length]; [lia|]. rewrite length_app, length_enc, IH. lia. Qed.

Lemma total_mono fs k tp data x y : fs !! k = Some (tp, data) → (length x ≤ length y)%nat →
  total (<[k := (tp, x)]> fs) ≤ total (<[k := (tp, y)]> fs).
Proof.
  intros Hk Hle. rewrite !(total_insert fs k tp data) by done.
  pose proof (blocks_of_mono (Z.of_nat (length x)) (Z.of_nat (length y)) ltac:(lia)). lia.
Qed.

Lemma set_last {A} (d f g : A) rest : <[S (length rest) := g]> (d :: rest ++ [f]) = d :: rest ++ [g].
Proof.
  change (d :: <[length rest := g]> (rest ++ [f]) = d :: rest ++ [g]). by rewrite insert_app_r_alt, Nat.sub_diag.
Qed.
Lemma get_last {A} (d f : A) rest : (d :: rest ++ [f]) !! S (length rest) = Some f.
Proof. change ((rest ++ [f]) !! length rest = Some f). by rewrite lookup_app_r, Nat.sub_diag. Qed.

Lemma append_pieces pieces : ∀ s W fs k tp data, image s W fs → fs !! k = Some (tp, data) →
  Z.of_nat (length (data ++ concat pieces)) ≤ MAXFILE * BSIZE → nmeta + total (<[k := (tp, data ++ concat pieces)]> fs) ≤ FSSIZE →
  wp (for_each pieces (iappend (inode_no k))) (λ _ s', ∃ W', image s' W' (<[k := (tp, data ++ concat pieces)]> fs)) s.
Proof.
  induction pieces as [|p pieces IH]; intros s W fs k tp data I Hk Hmax Hroom; cbn [concat] in *.
  - rewrite app_nil_r in *. rewrite list_insert_id by done. by exists W.
  - pose proof (lookup_lt_Some _ _ _ Hk) as Hlt. rewrite app_assoc in *.
    pose proof (total_mono fs k tp data (data ++ p) ((data ++ p) ++ concat pieces) Hk ltac:(rewrite (length_app (data ++ p)); lia)) as Hmono.
    cbn [for_each]. apply wp_bind_2. eapply wp_mono; [|apply (iappend_image s W fs I k tp data p Hk)].
    + intros _ s1 [W1 I1].
      eapply wp_mono; [|apply (IH s1 W1 _ k tp (data ++ p) I1); [by rewrite list_lookup_insert_eq|done|by rewrite list_insert_insert_eq]].
      intros _ s2 [W2 I2]. exists W2. by rewrite list_insert_insert_eq in I2.
    + rewrite !length_app in *. lia.
    + lia.
Qed.

Lemma add_file_image s W d rest path :
  let n := inode_no (S (length rest)) in
  let d' := d ++ enc_dirent n (file_name path) in
  image s W ((T_DIR, d) :: rest) → file_fits path → (S (S (length rest)) < Z.to_nat max_inodes)%nat →
  Z.of_nat (length d') ≤ MAXFILE * BSIZE → nmeta + total ((T_DIR, d') :: rest ++ [file_of path]) ≤ FSSIZE →
  wp (add_file host ROOTINO path) (λ _ s', ∃ W', image s' W' ((T_DIR, d') :: rest ++ [file_of path])) s.
Proof.
  intros n d' I [Hsl [pieces Hp] Hsz] Hmax Hd Hroom. unfold add_file. cbv zeta.
  assert (Hns : existsb (Z.eqb slash) (shortname path) = false).
  { apply not_true_iff_false. intros (c & Hc & E)%existsb_exists. apply Z.eqb_eq in E as <-. by apply Hsl, list_elem_of_In. }
  rewrite Hns. cbn [negb assert_]. apply wp_bind_2. cbn [wp ret]. rewrite Hp.
  destruct (ialloc_image s W _ I T_FILE ltac:(done) Hmax) as (s1 & W1 & E1 & I1).
  apply wp_bind_2, wp_returns. eexists _, s1. split; [exact E1|]. cbn [length] in *. fold n in E1 |- *.
  assert (Hx : xshort n = n) by (apply xshort_small; unfold n, inode_no, max_inodes in *; lia). rewrite Hx.
  unfold file_of, file_bytes in *. rewrite Hp in *. cbn [default] in *.
  assert (Ht : total ((T_DIR, d') :: rest ++ [(T_FILE, [])]) ≤ total ((T_DIR, d') :: rest ++ [(T_FILE, concat pieces)])).
  { pose proof (total_mono ((T_DIR, d') :: rest ++ [(T_FILE, [])]) (S (length rest)) T_FILE [] [] (concat pieces)) as H.
    rewrite !set_last in H. apply H; [apply get_last|simpl; lia]. }
  apply wp_bind_2. change ROOTINO with (inode_no 0). eapply wp_mono; [|apply (iappend_image s1 W1 _ I1 0 T_DIR d); [done| |]].
  - intros _ s2 [W2 I2]. cbn in I2. fold d' in I2.
    eapply wp_mono; [|apply (append_pieces pieces s2 W2 _ (S (length rest)) T_FILE [] I2)].
    + intros _ s3 [W3 I3]. exists W3. by rewrite set_last in I3.
    + apply get_last.
    + done.
    + by rewrite set_last.
  - unfold d' in Hd. rewrite length_app in Hd. exact Hd.
  - change (nmeta + total ((T_DIR, d') :: rest ++ [(T_FILE, [])]) ≤ FSSIZE). etransitivity; [|exact Hroom].
    apply Z.add_le_mono_l. exact Ht.
Qed.

Lemma add_files_image files : ∀ s W d rest,
  let n := inode_no (S (length rest)) in
  let d' := d ++ dir_bytes n (file_name <$> files) in
  image s W ((T_DIR, d) :: rest) → Forall file_fits files → (S (length rest) + length files < Z.to_nat max_inodes)%nat →
  Z.of_nat (length d') ≤ MAXFILE * BSIZE → nmeta + total ((T_DIR, d') :: rest ++ (file_of <$> files)) ≤ FSSIZE →
  wp (for_each files (add_file host ROOTINO)) (λ _ s', ∃ W', image s' W' ((T_DIR, d') :: rest ++ (file_of <$> files))) s.
Proof.
  induction files as [|path files IH]; intros s W d rest n d' I Hf Hmax Hd Hroom.
  - unfold d'. cbn. rewrite !app_nil_r. by exists W.
  - apply list.Forall_cons in Hf as [Hp Hf]. cbn [for_each length] in *. cbn [fmap list_fmap] in *.
    set (d1 := d ++ enc_dirent n (file_name path)).
    assert (Ed : d' = d1 ++ dir_bytes (n + 1) (file_name <$> files)) by (unfold d', d1; cbn [fmap list_fmap dir_bytes]; by rewrite app_assoc).
    assert (Hd1 : Z.of_nat (length d1) ≤ Z.of_nat (length d')) by (rewrite Ed, length_app; lia).
    assert (Hr1 : total ((T_DIR, d1) :: rest ++ [file_of path]) ≤ total ((T_DIR, d') :: rest ++ file_of path :: (file_of <$> files))).
    { pose proof (blocks_of_mono (Z.of_nat (length d1)) (Z.of_nat (length d')) ltac:(lia)) as Hb. cbn -[blocks_of].
      change (blocks_of (Z.of_nat (length d1)) + total (rest ++ [file_of path]) ≤
        blocks_of (Z.of_nat (length d')) + total (rest ++ [file_of path] ++ (file_of <$> files))).
      rewrite !total_concat. pose proof (total_nonneg (file_of <$> files)). lia. }
    apply wp_bind_2. eapply wp_mono; [|apply (add_file_image s W d rest path I Hp); [lia|fold n d1; lia|fold n d1; lia]].
    intros _ s1 [W1 I1]. fold n d1 in I1. pose proof (IH s1 W1 d1 (rest ++ [file_of path])) as H. cbv zeta in H.
    replace (inode_no (S (length (rest ++ [file_of path])))) with (n + 1) in H by (rewrite length_app; unfold n, inode_no; simpl; lia).
    rewrite <- Ed, <- app_assoc in H. apply H; [done|done|rewrite length_app; simpl; lia|done|done].
Qed.
End files.
