(* ===== verification/MkfsMain.v ===== *)
(** * The whole of mkfs

    The image has a superblock, an empty log, the bitmap of the blocks in use,
    and a root directory whose names lead to the files the host gave. *)

From Stdlib Require Import ZArith Lia.
From stdpp Require Import base numbers list gmap functions strings tactics.
From S2P Require Import Prelude Bytes Mem Proc Bio BioSpec Log LogSpec LogCrash LogProps Ftypes Fs FsRules FsAlloc FsFile FsWrite FsInode FsContents FsProps PathProps DirProps NamexProps Mkfs MkfsSteps MkfsFile MkfsImage MkfsProps.

Local Open Scope Z_scope.
Local Abbreviation dinode := (NamexProps.dinode 1 mk_sb).
#[local] Opaque NamexProps.dinode.

(** ** The entries of the root directory *)

Fixpoint dir_list (n : Z) (names : list (list Z)) : list entry :=
  match names with [] => [] | nm :: names => (n, name_string DIRSIZ nm) :: dir_list (n + 1) names end.

Lemma entries_enc n nm x : 0 ≤ n < 2^16 → entries (enc_dirent n nm ++ x) = (n, name_string DIRSIZ nm) :: entries x.
Proof.
  intros Hn. rewrite (entries_app 1) by apply length_enc. rewrite entries_one by apply length_enc. by rewrite entry_enc.
Qed.
Lemma entries_dir names x : ∀ n, 0 ≤ n → n + Z.of_nat (length names) ≤ 2^16 →
  entries (dir_bytes n names ++ x) = dir_list n names ++ entries x.
Proof.
  induction names as [|nm names IH]; intros n Hn Hl; cbn [dir_bytes dir_list app length] in *; [done|].
  rewrite <- app_assoc, entries_enc by lia. by rewrite IH by lia.
Qed.
Lemma dir_list_lookup names : ∀ n k nm, names !! k = Some nm → dir_list n names !! k = Some (n + Z.of_nat k, name_string DIRSIZ nm).
Proof.
  induction names as [|x names IH]; intros n [|k] nm H; simplify_eq/=; [by rewrite Z.add_0_r|].
  change (dir_list (n + 1) names !! k = Some (n + Z.of_nat (S k), name_string DIRSIZ nm)). rewrite (IH (n + 1) k nm H). do 2 f_equal. lia.
Qed.
Lemma dir_list_names names : ∀ n, (dir_list n names).*2 = name_string DIRSIZ <$> names.
Proof. induction names as [|x names IH]; intros n; [done|]. cbn. by f_equal. Qed.
Lemma dir_list_range names : ∀ n e, e ∈ dir_list n names → n ≤ e.1 < n + Z.of_nat (length names).
Proof.
  induction names as [|x names IH]; intros n e He; cbn [dir_list length] in *; [by apply elem_of_nil in He|].
  apply elem_of_cons in He as [->|He]; [simpl; lia|]. specialize (IH _ _ He). lia.
Qed.

Lemma le_value_zeros m : le_value (replicate m 0) = 0.
Proof. induction m as [|m IH]; [done|]. cbn. rewrite IH. done. Qed.
Lemma entries_zeros m e : e ∈ entries (replicate m 0) → e.1 = 0.
Proof.
  intros (k & -> & _)%list_elem_of_fmap. cbn. unfold de_inum, getn, sub_bytes. rewrite drop_replicate, take_replicate, drop_replicate, take_replicate.
  apply le_value_zeros.
Qed.

(** A name that occurs once is found. *)
Lemma find_hit es zs nm n : ∀ k j, es !! k = Some (n, nm) → n ≠ 0 → NoDup es.*2 → find_from j nm (es ++ zs) = Some ((j + k)%nat, n).
Proof.
  induction es as [|[m x] es IH]; intros [|k] j Hk Hn Hd; simplify_eq/=.
  - rewrite (proj2 (Z.eqb_neq n 0)) by done. rewrite bool_decide_true by done. by rewrite Nat.add_0_r.
  - apply list.NoDup_cons in Hd as [Hx Hd]. rewrite (bool_decide_false (x = nm)).
    + rewrite andb_false_r, (IH k (S j)) by done. do 2 f_equal. lia.
    + intros ->. apply Hx. eapply list_elem_of_fmap_2'; [by eapply list_elem_of_lookup_2|done].
Qed.
Lemma find_in es nm : ∀ j k n, find_from j nm es = Some (k, n) → n ≠ 0 ∧ (n, nm) ∈ es.
Proof.
  induction es as [|[m x] es IH]; intros j k n H; cbn in H; [done|].
  destruct (Z.eqb_spec m 0) as [->|Hm]; cbn in H.
  - destruct (IH _ _ _ H). split; [done|by right].
  - case_bool_decide as E.
    + simplify_eq. split; [done|by left].
    + destruct (IH _ _ _ H). split; [done|by right].
Qed.

(** ** The start of main *)

Definition start_contents : contents := λ n, if decide (n = 1) then sb_block else if decide (n = 45) then bits nmeta else zero_block.

Lemma zero_loop l s : ∃ m, for_each l (λ i, wsect i zero_block) s = Ret (tt, s <| img := m |>) ∧
  ∀ n, m !! n = if decide (n ∈ l) then Some zero_block else img s !! n.
Proof.
  revert s. induction l as [|a l IH]; intros s.
  - exists (img s). split; [by destruct s|]. intros n. by rewrite decide_False by apply not_elem_of_nil.
  - cbn [for_each]. destruct (IH (s <| img ::= <[a := zero_block]> |>)) as (m & E & Hm). exists m. split.
    + unfold wsect at 1. rewrite (bind_Ret (modify _) _ s tt (s <| img ::= <[a := zero_block]> |>)) by done. exact E.
    + intros n. rewrite Hm. cbn. destruct (decide (n = a)) as [->|Hne].
      * rewrite (decide_True (P := a ∈ a :: l)) by (by left). case_decide; [done|]. by rewrite lookup_insert_eq.
      * rewrite lookup_insert_ne by done. apply decide_ext. by rewrite elem_of_cons; naive_solver.
Qed.

Lemma start_image s1 : freeblock s1 = nmeta → freeinode s1 = 1 →
  (∀ n, 0 ≤ n < FSSIZE → img s1 !! n = Some (if decide (n = 1) then sb_block else zero_block)) →
  image s1 start_contents [].
Proof.
  intros Hf Hi Hm. change nmeta with 46 in Hf. unfold FSSIZE in Hm. split; [|unfold start_contents..| | | |].
  - split; unfold start_contents.
    + by rewrite decide_False, decide_True, Hf.
    + intros n Hn Hne. unfold FSSIZE in Hn. rewrite Hm by lia. rewrite (decide_False (P := n = 45)) by done. done.
    + intros n Hn. by rewrite !decide_False by lia.
    + rewrite Hf. change nmeta with 46. unfold FSSIZE. lia.
    + intros n _. repeat case_decide; [by vm_compute|apply length_bits|done].
  - intros n Hn. repeat case_decide; done || lia.
  - done.
  - unfold max_inodes. simpl. lia.
  - done.
  - intros k k' b Hk. simpl in Hk. lia.
  - rewrite Hf. done.
Qed.

(** ** The run *)

Lemma wp_then {A B} (m : M mkst A) (k : A → M mkst B) Q s a s' : m s = Ret (a, s') → wp (k a) Q s' → wp (bind m k) Q s.
Proof. intros E Hk. unfold wp. by rewrite (bind_Ret _ _ _ _ _ E). Qed.

Section run.
Context (host : list Z → option (list (list Z))) (files : list (list Z)).
Local Abbreviation nfiles := (Z.of_nat (length files)).

Definition root_bytes : list Z := enc_dirent 1 dot ++ enc_dirent 1 dotdot ++ dir_bytes 2 (file_name <$> files).
Definition final_files : list (Z * list Z) := (T_DIR, root_bytes ++ padding root_bytes) :: (file_of host <$> files).

(** What mkfs needs: files it can read and hold, few enough of them, and a
    root directory that does not end at the end of a block. *)
Record mkfs_ok : Prop := {
  mo_files : Forall (file_fits host) files;
  mo_inodes : nfiles < NINODES - 1;
  mo_root : (nfiles + 2) mod 64 ≠ 0;
  mo_space : nmeta + blocks_of (16 * (nfiles + 2)) + total (file_of host <$> files) ≤ FSSIZE;
  mo_names : NoDup (name_string DIRSIZ <$> dot :: dotdot :: (file_name <$> files));
}.
Hypothesis H : mkfs_ok.

Lemma length_root : Z.of_nat (length root_bytes) = 16 * (nfiles + 2).
Proof. unfold root_bytes. rewrite !length_app, !length_enc, length_dir_bytes, length_fmap. lia. Qed.
Lemma root_fits : Z.of_nat (length (root_bytes ++ padding root_bytes)) ≤ MAXFILE * BSIZE ∧
  Z.of_nat (length root_bytes) mod BSIZE ≠ 0.
Proof using H.
  pose proof (mo_inodes H) as Hi. pose proof (mo_root H) as Hr. rewrite pad_length, length_root.
  change (MAXFILE * BSIZE) with 274432. unfold BSIZE, NINODES in *. dlia.
Qed.
Lemma root_space d : (length d ≤ length root_bytes)%nat → nmeta + total ((T_DIR, d) :: (file_of host <$> files)) ≤ FSSIZE ∧
  nmeta + total [(T_DIR, d)] ≤ FSSIZE ∧ Z.of_nat (length d) ≤ MAXFILE * BSIZE.
Proof using H.
  intros Hd. pose proof (mo_space H) as Hs. rewrite <- length_root in Hs.
  pose proof (blocks_of_mono (Z.of_nat (length d)) (Z.of_nat (length root_bytes)) ltac:(lia)) as Hb.
  pose proof (total_nonneg (file_of host <$> files)) as Ht. destruct root_fits as [Hf _]. rewrite length_app in Hf.
  change (total ((T_DIR, d) :: (file_of host <$> files))) with (blocks_of (Z.of_nat (length d)) + total (file_of host <$> files)).
  change (total [(T_DIR, d)]) with (blocks_of (Z.of_nat (length d)) + 0). lia.
Qed.

Lemma main_image a0 a1 : wp (main host (a0 :: a1 :: files)) (λ _ s', ∃ s W, image s W final_files ∧
  s' = s <| img ::= <[45 := bits (freeblock s)]> |>) mkst0.
Proof using H.
  unfold main. set (s1 := mkst0 <| freeblock := nmeta |>). apply (wp_then _ _ _ _ tt s1); [reflexivity|].
  destruct (zero_loop (seqZ 0 FSSIZE) s1) as (m & E2 & Hm). apply (wp_then _ _ _ _ _ _ E2).
  set (s3 := s1 <| img := <[1 := sb_block]> m |>). apply (wp_then _ _ _ _ tt s3); [reflexivity|].
  assert (I3 : image s3 start_contents []).
  { apply start_image; [done|done|]. intros n Hn. change (img s3) with (<[1 := sb_block]> m). case_decide as E; [subst; by rewrite lookup_insert_eq|].
    rewrite lookup_insert_ne, Hm by done. rewrite decide_True; [done|]. apply elem_of_seqZ. lia. }
  destruct (ialloc_image s3 _ [] I3 T_DIR ltac:(done)) as (s4 & W4 & E4 & I4); [unfold max_inodes; simpl; lia|].
  apply (wp_then _ _ _ _ _ _ E4). apply wp_bind_2. cbn [app length] in *.
  change (inode_no 0 =? ROOTINO) with true. cbn [assert_ wp ret]. change (xshort (inode_no 0)) with 1.
  set (d1 := enc_dirent 1 dot). set (d2 := d1 ++ enc_dirent 1 dotdot).
  assert (Hd2 : root_bytes = d2 ++ dir_bytes 2 (file_name <$> files)) by (unfold root_bytes, d2, d1; by rewrite app_assoc).
  assert (L2 : (length d2 ≤ length root_bytes)%nat) by (rewrite Hd2, length_app; lia).
  assert (L1 : (length d1 ≤ length root_bytes)%nat) by (unfold d2 in L2; rewrite length_app in L2; lia).
  destruct (root_space d1 L1) as (_ & S1 & M1), (root_space d2 L2) as (_ & S2 & M2), (root_space root_bytes ltac:(lia)) as (S3 & _ & M3).
  apply wp_bind_2. eapply wp_mono; [|apply (iappend_image s4 W4 _ I4 0 T_DIR [] d1); [done|exact M1|exact S1]].
  intros _ s5 [W5 I5]. cbn in I5.
  apply wp_bind_2. eapply wp_mono; [|apply (iappend_image s5 W5 _ I5 0 T_DIR d1 (enc_dirent 1 dotdot)); [done| |exact S2]].
  2: { unfold d2 in M2. rewrite length_app in M2. exact M2. }
  intros _ s6 [W6 I6]. cbn in I6. fold d2 in I6. pose proof (mo_inodes H) as Hi. unfold NINODES in Hi.
  apply wp_bind_2. eapply wp_mono; [|apply (add_files_image host files s6 W6 d2 [] I6 (mo_files H))].
  2: { unfold max_inodes. simpl. lia. }
  2: { change (inode_no (S (length []))) with 2. by rewrite <- Hd2. }
  2: { change (inode_no (S (length []))) with 2. by rewrite <- Hd2. }
  intros _ s7 [W7 I7]. change (inode_no (S (length []))) with 2 in I7. rewrite <- Hd2 in I7. cbn [app] in I7.
  destruct root_fits as [F1 F2]. apply wp_bind_2. eapply wp_mono; [|by apply (fix_root_image s7 W7 _ root_bytes I7)].
  intros _ s8 [W8 I8]. apply (wp_then _ _ _ _ s8 s8); [reflexivity|].
  pose proof (r_fb _ _ (im_rel _ _ _ I8)) as Hf. unfold FSSIZE in Hf.
  unfold balloc. apply wp_bind_2. rewrite (proj2 (Z.ltb_lt _ _)) by (unfold BSIZE; lia). cbn [assert_ wp ret].
  apply wp_returns. eexists tt, _. split; [reflexivity|]. exists s8, W8. split; [exact I8|]. done.
Qed.

(** *** What the kernel finds *)

Section found.
Context (s : mkst) (W : contents) (I : image s W final_files).
Definition in_image (n : Z) : Prop := 1 ≤ n ≤ nfiles + 1.

Lemma length_final : length final_files = S (length files).
Proof. unfold final_files. cbn [length]. by rewrite length_fmap. Qed.
Lemma in_image_no n : in_image n → ∃ k tp data, n = inode_no k ∧ final_files !! k = Some (tp, data).
Proof.
  intros Hn. unfold in_image in Hn. destruct (lookup_lt_is_Some_2 final_files (Z.to_nat (n - 1))) as [[tp data] Hf]; [rewrite length_final; lia|].
  exists (Z.to_nat (n - 1)), tp, data. split; [unfold inode_no; lia|done].
Qed.
Lemma final_dir k data : final_files !! k = Some (T_DIR, data) → k = 0%nat ∧ data = root_bytes ++ padding root_bytes.
Proof.
  destruct k as [|k]; [by intros [= <-]|]. intros E. change ((file_of host <$> files) !! k = Some (T_DIR, data)) in E.
  apply list_lookup_fmap_Some in E as (p & E & _). discriminate.
Qed.

Lemma root_at : file_at W ROOTINO T_DIR (root_bytes ++ padding root_bytes).
Proof using I. by apply (im_file _ _ _ I 0). Qed.
Definition root_list : list entry := (1, name_string DIRSIZ dot) :: (1, name_string DIRSIZ dotdot) :: dir_list 2 (file_name <$> files).
Lemma root_dir : dir W (dinode W ROOTINO) = root_list ++ entries (padding root_bytes).
Proof using I H.
  unfold dir. rewrite (co_data _ _ _ (fa_core _ _ _ _ root_at)). unfold root_bytes at 1. rewrite <- !app_assoc.
  pose proof (mo_inodes H) as Hi. unfold NINODES in Hi.
  rewrite !entries_enc by lia. rewrite entries_dir by (rewrite ?length_fmap; lia). done.
Qed.
Lemma root_list_names : root_list.*2 = name_string DIRSIZ <$> dot :: dotdot :: (file_name <$> files).
Proof. unfold root_list. cbn [fmap list_fmap]. f_equal. f_equal. apply dir_list_names. Qed.

Lemma root_finds k n nm : root_list !! k = Some (n, nm) → n ≠ 0 → binds (dir W (dinode W ROOTINO)) nm = Some n.
Proof using I H.
  intros Hk Hn. unfold binds, find_entry. rewrite root_dir, (find_hit _ _ nm n k 0 Hk Hn); [done|]. rewrite root_list_names. apply (mo_names H).
Qed.
Lemma root_finds_in nm n : binds (dir W (dinode W ROOTINO)) nm = Some n → in_image n.
Proof using I H.
  unfold binds, find_entry. rewrite root_dir. destruct (find_from _ _ _) as [[k m]|] eqn:E; [|done]. intros [= <-].
  apply find_in in E as [Hn [He|He]%elem_of_app].
  - unfold root_list, in_image in *. apply elem_of_cons in He as [[= ->]|He]; [simpl; lia|].
    apply elem_of_cons in He as [[= ->]|He]; [simpl; lia|]. apply dir_list_range in He. rewrite length_fmap in He. simpl in *. lia.
  - unfold padding in He. by apply entries_zeros in He.
Qed.

Lemma image_sound n : in_image n → sound ROOTDEV 2 30 mk_sb W in_image n.
Proof using I H.
  intros Hn. destruct (in_image_no n Hn) as (k & tp & data & -> & Hf). destruct (im_file _ _ _ I k tp data Hf) as [Htp [F1 F2 F3 C]].
  pose proof (image_no s W _ I k _ Hf) as Hr. destruct (mk_iblock _ Hr) as [_ Hb].
  assert (Hdir : itype (dinode W (inode_no k)) = T_DIR → k = 0%nat ∧ data = root_bytes ++ padding root_bytes).
  { intros E. apply final_dir. by rewrite Hf, <- F1, E. }
  change ROOTDEV with 1. split.
  - rewrite F1. lia.
  - by rewrite F3.
  - apply C.
  - apply C.
  - apply (image_outside_meta s W _ I k); [by eapply lookup_lt_Some|lia].
  - split; [unfold home; lia|]. split; [apply not_elem_of_nil|]. apply (r_len _ _ (im_rel _ _ _ I)). unfold FSSIZE. lia.
  - intros [-> ->]%Hdir. rewrite (co_size _ _ _ C), pad_length. unfold BSIZE. dlia.
  - intros name m [-> _]%Hdir. apply root_finds_in.
Qed.

Lemma image_file k path : files !! k = Some path →
  let n := Z.of_nat k + 2 in
  resolve ROOTDEV mk_sb W false ROOTINO [name_string DIRSIZ (file_name path)] = Some (n, []) ∧
  itype (dinode W n) = T_FILE ∧ inlink (dinode W n) = 1 ∧ fcontents W (dinode W n) = file_bytes host path.
Proof using I H.
  intros Hk n. destruct (im_file _ _ _ I (S k) T_FILE (file_bytes host path)) as [_ [F1 F2 F3 C]].
  { change ((file_of host <$> files) !! k = Some (file_of host path)). by rewrite list_lookup_fmap, Hk. }
  assert (En : inode_no (S k) = n) by (unfold inode_no, n; lia). rewrite En in F1, F3, C. split; [|split_and!; [done|done|apply C]].
  unfold resolve. change ROOTDEV with 1. rewrite (fa_type _ _ _ _ root_at). cbn [Z.eqb].
  rewrite (root_finds (S (S k)) n); [done| |unfold n; lia]. change (dir_list 2 (file_name <$> files) !! k = Some (n, name_string DIRSIZ (file_name path))).
  rewrite (dir_list_lookup _ 2 k (file_name path)) by (by rewrite list_lookup_fmap, Hk). do 2 f_equal. unfold n. lia.
Qed.
End found.
End run.

(** A disk [V] that is right for the files: it has the superblock that the
    kernel reads, an empty log, a bitmap with exactly the first [fb] blocks in
    use, sound inodes, and a root directory in which the name of each file leads
    to a file with the bytes that were read on the host. *)
Record good_disk (host : list Z → option (list (list Z))) (files : list (list Z)) (fb : Z) (V : contents) : Prop := {
  gi_sb : dec_superblock (V 1) = mk_sb;
  gi_log n : 2 ≤ n < 32 → V n = zero_block;
  gi_bitmap : bitmap 2 30 mk_sb V;
  gi_used b : 0 ≤ b < FSSIZE → used mk_sb V b = (b <? fb);
  gi_sound n : in_image files n → sound ROOTDEV 2 30 mk_sb V (in_image files) n;
  gi_self nm : nm ∈ [dot; dotdot] → resolve ROOTDEV mk_sb V false ROOTINO [name_string DIRSIZ nm] = Some (ROOTINO, []);
  gi_file k path : files !! k = Some path →
    let n := Z.of_nat k + 2 in
    resolve ROOTDEV mk_sb V false ROOTINO [name_string DIRSIZ (file_name path)] = Some (n, []) ∧
    itype (dinode V n) = T_FILE ∧ inlink (dinode V n) = 1 ∧ fcontents V (dinode V n) = file_bytes host path;
}.
(** [V] has the sectors of the image [m]. *)
Definition has_image (m : gmap Z (list Z)) (V : contents) : Prop := ∀ n, 0 ≤ n < FSSIZE → m !! n = Some (V n).

Lemma image_good host files s V : mkfs_ok host files → image s V (final_files host files) → good_disk host files (freeblock s) V.
Proof.
  intros H I. pose proof (im_rel _ _ _ I) as R. split.
  - rewrite (im_meta _ _ _ I) by lia. by vm_compute.
  - intros n Hn. rewrite (im_meta _ _ _ I) by lia. by rewrite decide_False by lia.
  - apply (rel_bitmap s V R).
  - apply (rel_used s V R).
  - by apply (image_sound host files H s V I).
  - intros nm Hnm. unfold resolve. change ROOTDEV with 1. rewrite (fa_type _ _ _ _ (root_at host files s V I)). cbn [Z.eqb].
    apply elem_of_cons in Hnm as [->|Hnm]; [|apply list_elem_of_singleton in Hnm as ->].
    + by rewrite (root_finds host files H s V I 0 1).
    + by rewrite (root_finds host files H s V I 1 1).
  - by apply (image_file host files H s V I).
Qed.

Lemma mkfs_good host a0 a1 files : mkfs_ok host files →
  wp (main host (a0 :: a1 :: files)) (λ _ s', (∃ V, has_image (img s') V) ∧
    ∀ V, has_image (img s') V → good_disk host files (freeblock s') V) mkst0.
Proof.
  intros H. eapply wp_mono; [|apply (main_image host files H)]. intros _ s' (s & W & I & ->).
  assert (HW : has_image (<[45 := bits (freeblock s)]> (img s)) W).
  { pose proof (im_rel _ _ _ I) as R. intros n Hn. destruct (decide (n = 45)) as [->|Hne].
    - by rewrite lookup_insert_eq, (r_bits _ _ R).
    - rewrite lookup_insert_ne by done. by apply (r_img _ _ R). }
  split; [by exists W|]. intros V HV. apply (image_good host files s V H), (image_ext s W V _ I).
  intros n Hn. specialize (HV n Hn). rewrite HW in HV by done. by injection HV.
Qed.

(** C18: mkfs turns the files it is given into an image that the kernel can use:
    the program ends without a failed assertion, and a disk with the sectors of
    the image has the superblock, the empty log, the bitmap and the inodes that
    the kernel's operations need; looking a file's name up in the root directory
    finds an inode whose contents are the bytes of the file on the host. *)
Theorem mkfs_correct host a0 a1 files : mkfs_ok host files →
  wp (main host (a0 :: a1 :: files)) (λ _ s', (∃ V, has_image (img s') V) ∧
    ∀ V, has_image (img s') V → good_disk host files (freeblock s') V) mkst0.
Proof. apply mkfs_good. Qed.

(** Two files, user/_cat and README. *)
Definition demo_cat : list Z := [117; 115; 101; 114; 47; 95; 99; 97; 116].
Definition demo_readme : list Z := [82; 69; 65; 68; 77; 69].
Definition demo_host (path : list Z) : option (list (list Z)) :=
  if bool_decide (path = demo_cat) then Some [replicate 1024 7; [1; 2; 3]]
  else if bool_decide (path = demo_readme) then Some [[120; 118; 54]] else None.

Lemma demo_mkfs_ok : mkfs_ok demo_host [demo_cat; demo_readme].
Proof.
  split.
  - apply list.Forall_cons; split; [|apply list.Forall_cons; split; [|apply list.Forall_nil; done]];
      (split; [by apply (bool_decide_unpack _); vm_compute|by vm_compute; eexists|by vm_compute]).
  - done.
  - done.
  - by vm_compute.
  - apply (bool_decide_unpack _). by vm_compute.
Qed.
Lemma mkfs_correct_witness : mkfs_ok demo_host [demo_cat; demo_readme] ∧
  wp (main demo_host [[109]; [102]; demo_cat; demo_readme])
    (λ _ s', (∃ V, has_image (img s') V) ∧ ∀ V, has_image (img s') V → good_disk demo_host [demo_cat; demo_readme] (freeblock s') V) mkst0.
Proof. split; [exact demo_mkfs_ok|]. apply (mkfs_correct demo_host [109] [102] [demo_cat; demo_readme] demo_mkfs_ok). Defined.
