(* ===== verification/BootProps.v ===== *)
(** * Booting from the image

    The kernel starts its buffer cache, inode table and file system on the disk
    that mkfs wrote, opens a file by its path and reads it. *)

From Stdlib Require Import ZArith Lia.
From stdpp Require Import base numbers list gmap functions strings tactics.
From S2P Require Import Prelude Riscv Mem Bytes Kalloc Vm Proc ProcRules Locks Bio BioList BioSpec BioProps Log LogSpec LogCrash LogProps LogDemo Ftypes Fs FsRules FsAlloc FsFile FsWrite FsInode FsContents FsProps PathProps DirProps NamexProps Mkfs MkfsSteps MkfsFile MkfsImage MkfsProps MkfsMain.

Local Open Scope Z_scope.

(** ** fsinit *)

(** The start of the file system (main and forkret), and of a first system call. *)
Definition mount : M kernel unit := blk binit ;;; iinit ;;; fsinit ROOTDEV ;;; kbegin_op.
(** Opening a path and reading. *)
Definition read_path (path : list Z) (off n : Z) : M kernel (Z * list Z) :=
  let* ip := namei path in
  ilock ip ;;;
  readi ip DBuf off n.

(** A process runs on a machine with the disk [D] and zeroed tables. *)
Record powered (me : Z) (D : gmap Z block_data) (s : kernel) : Prop := {
  pw_me : ∃ i p, cur s = Some i ∧ procs s !! i = Some p ∧ pid p = me;
  pw_log : logst s = Lst (reboot D) log0;
  pw_table : itable (files s) = replicate NINODE inode0;
}.

Lemma wp_begin_op (Q : unit → lst → Prop) s : committing (lg s) = 0 → 0 ≤ outstanding (lg s) < 2^31 - 1 →
  lh_n (lg s) + (outstanding (lg s) + 1) * MAXOPBLOCKS ≤ LOGSIZE →
  Q tt (Lst (bcache s) ((lg s) <| outstanding := outstanding (lg s) + 1 |>)) → wp Log.begin_op Q s.
Proof.
  intros Hc Ho Hs HQ. unfold Log.begin_op, begin_try. wp_step. wp_step. apply wp_getlog. rewrite Hc. cbn [Z.eqb negb].
  rewrite (proj2 (Z.ltb_ge _ _)) by done. wp_step. apply wp_updlog. wp_step. wp_step. by rewrite s32_small by lia.
Qed.

Section boot.
Context (me st sz : Z) (sb0 : superblock) (D : gmap Z block_data) (s : kernel).
Hypothesis (P : powered me D s) (Hsb : dec_superblock (disk_block D 1) = sb0) (Hgeo : geometry st sz).
Hypothesis (Hmagic : magic sb0 = FSMAGIC) (Hst : logstart sb0 = st) (Hsz : nlog sb0 = sz) (Hlog : disk_block D st = zero_block).

Lemma mypid_of s' (Q : Z → kernel → Prop) : cur s' = cur s → procs s' = procs s → Q me s' → wp mypid Q s'.
Proof using P.
  intros E1 E2 HQ. destruct (pw_me _ _ _ P) as (i & p & H1 & H2 & H3). unfold mypid. wp_step. eapply wp_myproc; [by rewrite E1|].
  wp_step. eapply wp_getp; [by rewrite E2|]. wp_step. by rewrite H3.
Qed.

Lemma iinit_zero s' : itable (files s') = replicate NINODE inode0 → wp iinit (λ _ s2, s2 = s') s'.
Proof.
  intros Ht. unfold iinit. assert (Hs : ∀ k, k ∈ seq 0 NINODE → (k < NINODE)%nat) by (intros k Hk%elem_of_seq; lia).
  revert Hs. generalize (seq 0 NINODE). intros ks. induction ks as [|k ks IH]; intros Hks; [done|]. cbn [for_each]. wp_step.
  assert (Hk : inode_at s' (Z.of_nat k + 1) inode0).
  { split; [lia|]. rewrite Ht. apply lookup_replicate_2. specialize (Hks k ltac:(by left)). lia. }
  eapply wp_updi; [exact Hk|]. change (inode0 <| ilk := Sleeplock.initsleeplock |>) with inode0.
  rewrite with_inode_same by exact Hk. apply IH. intros j Hj. apply Hks. by right.
Qed.

(** Only the cache, the log and the superblock have changed. *)
Definition since (s' : kernel) : Prop := cur s' = cur s ∧ procs s' = procs s ∧ itable (files s') = itable (files s).

Lemma readsb_spec s1 l : cache 1 me (disk_block D) [] [] l (bcache (logst s1)) → lg (logst s1) = log0 → since s1 →
  wp (readsb 1) (λ _ s', since s' ∧ sb (files s') = sb0 ∧ lg (logst s') = log0 ∧ disk_same (bcache (logst s1)) (bcache (logst s')) ∧
    ∃ l', cache 1 me (disk_block D) [] [] l' (bcache (logst s'))) s1.
Proof using P Hsb.
  intros C Hl (E1 & E2 & E3). unfold readsb, kbread. wp_step. wp_step. apply mypid_of; [done|done|]. apply wp_blk.
  eapply wp_mono; [|eapply bread_spec; [exact C|apply not_elem_of_nil|right; unfold NBUF; simpl; lia]]. intros b b1 (C1 & H1 & D1 & _).
  wp_step. eapply (bp_data_spec 1 me); [exact H1|]. wp_step. apply wp_modify. rewrite Hsb. unfold kbrelse. wp_step. apply mypid_of; [done|done|].
  apply wp_blk. eapply wp_mono; [|eapply brelse_spec; [exact C1|exact H1|done|]].
  - intros _ b2 (l' & C2 & D2 & _). split; [done|]. split; [done|]. split; [exact Hl|]. split; [|by exists l'].
    destruct D1, D2. cbn in *. split; congruence.
  - right. cbn. destruct D1 as [-> _]. by rewrite (c_clean _ _ _ _ _ _ _ C) by apply not_elem_of_nil.
Qed.

Lemma mount_spec : wp mount (λ _ s', ∃ V,
  opened 1 me st sz V [] [] s' ∧ sb (files s') = sb0 ∧ itable (files s') = replicate NINODE inode0 ∧
  ∀ n, V n = disk_block D n) s.
Proof using All.
  pose proof (pw_log _ _ _ P) as Hl. pose proof (pw_table _ _ _ P) as Ht.
  unfold mount. wp_step. apply wp_blk. rewrite Hl. cbn [bcache lg]. eapply wp_mono; [|by apply (binit_spec 1 me)]. intros _ b [C D1].
  set (s1 := with_log (Lst b log0) s). wp_step. eapply wp_mono; [|by apply iinit_zero]. intros _ s1' ->.
  wp_step. unfold fsinit. change ROOTDEV with 1. wp_step. eapply wp_mono; [|by apply (readsb_spec s1 (reverse (seq 0 NBUF)))].
  intros _ s2 ((E1 & E2 & E3) & Esb & El & D2 & l & C2). wp_step. apply wp_getsb. rewrite Esb, Hmagic, Z.eqb_refl. cbn [negb].
  wp_step. apply mypid_of; [done|done|]. rewrite Hst, Hsz. apply wp_on_log.
  assert (Hd : dec_head (disk_block D st) = []) by (rewrite Hlog; by vm_compute).
  assert (Hh : good_header st sz (disk_block D)).
  { destruct Hgeo as (G1 & G2 & G3). split; [rewrite Hd|by rewrite Hlog; vm_compute|rewrite Hlog; by vm_compute].
    split; [constructor|apply NoDup_nil_2|simpl; lia|simpl; lia]. }
  eapply wp_mono; [|eapply (initlog_spec 1 me st sz Hgeo (disk_block D) l); [exact C2|by rewrite El|exact Hh]].
  intros _ l3 (W3 & G3 & O3 & K3 & V & ll & C3). rewrite El in O3, K3. cbn in O3, K3.
  assert (HV : ∀ n, V n = disk_block D n).
  { intros n. rewrite <- (c_clean _ _ _ _ _ _ _ C3) by apply not_elem_of_nil. destruct W3 as [W3 _]. unfold on_disk in W3. rewrite W3, Hd.
    change (recovery_writes st (disk_block D) []) with [(st, enc_head (disk_block D st) [])].
    change (vapply [?w] ?E) with (<[w.1 := w.2]> E). cbn [fst snd]. destruct (decide (st = n)) as [<-|Hne].
    - rewrite fn_lookup_insert, Hlog. by vm_compute.
    - rewrite fn_lookup_insert_ne by done. by rewrite (c_clean _ _ _ _ _ _ _ C2) by apply not_elem_of_nil. }
  unfold kbegin_op. apply wp_on_log. change (logst (with_log l3 s2)) with l3. apply wp_begin_op; [done|lia|rewrite O3, (g_n _ _ _ _ _ G3); by vm_compute|].
  exists V. destruct (pw_me _ _ _ P) as (i & p & P1 & P2 & P3). split; [|split; [exact Esb|split; [change (itable (files s2) = replicate NINODE inode0); congruence|exact HV]]].
  split.
  - exists i, p. cbn. by rewrite E1, E2.
  - destruct G3. by split.
  - split; [constructor|apply NoDup_nil_2|simpl; lia|simpl; destruct Hgeo; lia].
  - by exists ll.
  - cbn. rewrite O3. by vm_compute.
Qed.
End boot.

(** ** The path of a file in the root directory *)

Lemma name_take n nm : 0 ∉ nm → name_string n nm = take n nm.
Proof.
  revert nm. induction n as [|n IH]; intros [|c nm] H; cbn; try done. apply not_elem_of_cons in H as [Hc H].
  rewrite (proj2 (Z.eqb_neq c 0)) by done. by rewrite IH.
Qed.
Lemma pieces_none nm : slash ∉ nm → pieces nm = [nm].
Proof.
  induction nm as [|c nm IH]; intros H; cbn; [done|]. apply not_elem_of_cons in H as [Hc H].
  rewrite (proj2 (Z.eqb_neq c slash)) by done. by rewrite IH.
Qed.
Lemma components_root nm : slash ∉ nm → nm ≠ [] → components (slash :: nm) = [nm].
Proof.
  intros H Hn. unfold components. cbn [pieces]. rewrite Z.eqb_refl, pieces_none by done.
  rewrite filter_cons_False by (by intros []). rewrite filter_cons_True by done. done.
Qed.
Lemma file_name_slash path : slash ∉ shortname path → slash ∉ file_name path.
Proof.
  unfold file_name. destruct (shortname path) as [|c nm]; [done|]. cbn. intros [H1 H2]%not_elem_of_cons.
  destruct (c =? underscore); [done|]. by apply not_elem_of_cons.
Qed.

Lemma zero_table_ok d me V : table_ok d me mk_sb V None (replicate NINODE inode0).
Proof.
  assert (E : ∀ j x, replicate NINODE inode0 !! j = Some x → x = inode0) by (by intros j x [-> _]%lookup_replicate_1).
  split.
  - split; [done| | |].
    + intros j k x y dev n Hx _ [Hr _]. by rewrite (E j x Hx) in Hr.
    + intros j x Hx. by rewrite (E j x Hx).
    + intros j x Hx. by rewrite (E j x Hx).
  - intros j x Hx. rewrite (E j x Hx). split; [done|]. intros Hlt. by destruct (Z.lt_irrefl 0 Hlt).
Qed.
Lemma zero_refs d m : refs d m (replicate NINODE inode0) = 0.
Proof.
  unfold refs. generalize NINODE. intros k. induction k as [|k IH]; [done|]. cbn [replicate tsum]. rewrite IH. unfold ref_count. by case_decide.
Qed.

(** ** From the host's file to the kernel's read *)

Section read.
Context (host : list Z → option (list (list Z))) (paths : list (list Z)) (fb me : Z) (V : contents) (s : kernel).
Hypothesis (G : good_disk host paths fb V) (O : opened 1 me 2 30 V [] [] s) (Esb : sb (files s) = mk_sb).
Hypothesis Et : itable (files s) = replicate NINODE inode0.

Lemma mounted_tree : tree_state ROOTDEV me 2 30 mk_sb V [] None s.
Proof using O Esb Et. split; [exact O|exact Esb|]. rewrite Et. apply zero_table_ok. Qed.

Lemma mounted_namei k path : paths !! k = Some path → file_fits host path → file_name path ≠ [] → 0 ∉ file_name path →
  wp (namei (slash :: file_name path)) (λ ip s', tree_state ROOTDEV me 2 30 mk_sb V [] None s' ∧
    points ROOTDEV s' ip (Z.of_nat k + 2)) s.
Proof using All.
  intros Hk Hf Hne H0. pose proof (lookup_lt_Some _ _ _ Hk) as Hlt. pose proof (file_name_slash path (ff_slash _ _ Hf)) as Hsl.
  destruct (gi_file _ _ _ _ G k path Hk) as [Hr _]. unfold namei. wp_step.
  eapply wp_mono; [|apply (namex_correct me 2 30 mk_sb V [] (in_image paths) s false (slash :: file_name path) name0 ROOTINO)].
  - intros [ip nm] s' (S' & _ & HR). wp_step. split; [exact S'|]. rewrite components_root in HR by done. cbn [fmap list_fmap] in HR.
    rewrite <- name_take, Hr in HR by done. apply HR.
  - apply mk_layout.
  - by vm_compute.
  - apply G.
  - simpl. lia.
  - apply G.
  - unfold in_image. change ROOTINO with 1. lia.
  - done.
  - apply mounted_tree.
  - rewrite Et. by vm_compute.
  - intros m. rewrite Et, zero_refs. lia.
  - constructor; [done|]. apply list.Forall_forall. intros c Hc ->. done.
  - done.
Qed.

Lemma mounted_read k path off n : paths !! k = Some path → file_fits host path → file_name path ≠ [] → 0 ∉ file_name path →
  0 ≤ off → 0 ≤ n → off + n < 2^32 →
  wp (read_path (slash :: file_name path) off n) (λ '(r, bs) _,
    bs = sub_bytes (file_bytes host path) (Z.to_nat off) (Z.to_nat n) ∧ r = Z.of_nat (length bs)) s.
Proof using All.
  intros Hk Hf Hne H0 Hoff Hn Hsum. pose proof (lookup_lt_Some _ _ _ Hk) as Hlt. unfold read_path. wp_step.
  eapply wp_mono; [|by apply (mounted_namei k path)]. intros ip s1 (S1 & j & x & -> & Hx & Hr).
  destruct (gi_file _ _ _ _ G k path Hk) as (_ & Ht & _ & Hc).
  assert (Hs : sound ROOTDEV 2 30 mk_sb V (in_image paths) (Z.of_nat k + 2)) by (apply (gi_sound _ _ _ _ G); unfold in_image; lia).
  wp_step. eapply wp_mono; [|apply (ilock_ok ROOTDEV me 2 30 mk_sb V [] _ s1 j x _ Hs S1 Hx Hr); simpl; lia].
  intros _ s2 (i & S2 & _ & E2 & R2 & _ & L2).
  assert (Hi : itable (files s2) !! j = Some i) by (rewrite E2; apply list_lookup_insert_eq; by eapply lookup_lt_Some).
  pose proof (locked_ready ROOTDEV me 2 30 mk_sb V [] mk_layout ltac:(by vm_compute) (gi_bitmap _ _ _ _ G) _ s2 j i _ Hs S2 Hi R2 L2) as FR.
  eapply wp_mono; [|apply (readi_ready ROOTDEV me 2 30 V [] [] s2 (iptr j) i off n FR); [simpl; lia|lia|lia]].
  intros [r bs] s3 (_ & _ & Er & Eb). split; [|done]. rewrite Eb, decide_True by done. f_equal. rewrite <- Hc.
  destruct (load_fields _ _ L2) as (_ & _ & F3 & F4). unfold fcontents, fslice. rewrite F3. apply list_fmap_ext. intros q z _.
  unfold fbyte. by rewrite (faddr_inode V (NamexProps.dinode ROOTDEV mk_sb V (Z.of_nat k + 2)) i).
Qed.
End read.

(** C3: from a file of the host to a read in the kernel: on any machine that
    boots from the image mkfs made, starting the file system and opening the
    file in the root directory by its name gives back exactly the bytes that
    the host had, whatever range is read. *)
Theorem mkfs_boot_read host a0 a1 paths me k path off n :
  mkfs_ok host paths → paths !! k = Some path → file_name path ≠ [] → 0 ∉ file_name path →
  0 ≤ off → 0 ≤ n → off + n < 2^32 →
  wp (main host (a0 :: a1 :: paths)) (λ _ m, ∀ s, powered me (img m) s →
    wp (mount ;;; read_path (slash :: file_name path) off n) (λ '(r, bs) _,
      bs = sub_bytes (file_bytes host path) (Z.to_nat off) (Z.to_nat n) ∧ r = Z.of_nat (length bs)) s) mkst0.
Proof.
  intros H Hk Hne H0 Hoff Hn Hsum. eapply wp_mono; [|by apply mkfs_good]. intros _ m [[W HW] HG] s P.
  assert (Hdisk : has_image (img m) (disk_block (img m))) by (intros b Hb; unfold disk_block; by rewrite HW).
  pose proof (HG _ Hdisk) as G0. wp_step.
  eapply wp_mono; [|apply (mount_spec me 2 30 mk_sb (img m) s P (gi_sb _ _ _ _ G0))]; try done.
  - intros _ s1 (V & O & Esb & Et & HV). apply (mounted_read host paths (freeblock m) me V s1) with (k := k); try done.
    + apply HG. intros b Hb. rewrite HV. by apply Hdisk.
    + pose proof (mo_files _ _ H) as HF. rewrite list.Forall_lookup in HF. by eapply HF.
  - by apply (gi_log _ _ _ _ G0).
Qed.

(** A machine with the disk [D]. *)
Definition demo_machine (D : gmap Z block_data) : kernel :=
  Sys (KSt ∅ 0 ∅) [proc0 <| pid := 1 |> <| state := RUNNING |>] (Some 0%nat) [] None 2 0
    (Fsys (Lst (reboot D) log0) mk_sb (replicate NINODE inode0) (replicate NFILE file0) ∅ (Console (replicate 128 0) 0 0 0)
       (Uart (replicate 32 0) 0 0 true [] []) 0).
Lemma demo_powered D : powered 1 D (demo_machine D).
Proof. split; [by eexists _, _|done|done]. Qed.

(** The second block of /cat. *)
Lemma mkfs_boot_read_witness :
  wp (main demo_host [[109]; [102]; demo_cat; demo_readme]) (λ _ m, powered 1 (img m) (demo_machine (img m)) ∧
    wp (mount ;;; read_path [47; 99; 97; 116] 1024 10) (λ '(r, bs) _, bs = [1; 2; 3]) (demo_machine (img m))) mkst0.
Proof.
  eapply wp_mono; [|apply (mkfs_boot_read demo_host [109] [102] [demo_cat; demo_readme] 1 0 demo_cat 1024 10 demo_mkfs_ok eq_refl)];
    [|done|by apply (bool_decide_unpack _); vm_compute|lia|lia|lia].
  intros u m HB. split; [apply demo_powered|]. eapply wp_mono; [|apply (HB _ (demo_powered (img m)))].
  intros [r bs] s' [-> _]. by vm_compute.
Defined.

(** ** The size of the log *)

Section short.
Context (me : Z) (D : gmap Z block_data) (f : block_data → block_data).
Hypothesis Hlog : disk_block D 2 = zero_block.
(** Blocks that 29 updates change. *)
Definition short_blocks : list Z := seqZ nmeta 29.

Lemma short_boot : wp (boot_log me 1 (logstart mk_sb) (nlog mk_sb)) (λ _ s, logging 1 2 30 [] (lg s) ∧ outstanding (lg s) = 0 ∧
  committing (lg s) = 0 ∧ ∃ V l, cache 1 me V [] [] l (bcache s)) (Lst (reboot D) log0).
Proof using Hlog.
  assert (Hd : dec_head (disk_block D 2) = []) by (rewrite Hlog; by vm_compute).
  assert (Hh : good_header 2 30 (disk_block D)).
  { split; [rewrite Hd|by rewrite Hlog; vm_compute|rewrite Hlog; by vm_compute]. split; [constructor|apply NoDup_nil_2|simpl; lia|simpl; lia]. }
  change (logstart mk_sb) with 2. change (nlog mk_sb) with 30.
  eapply wp_mono; [|by apply (boot_log_spec 1 me 2 30 D)]. intros _ s (_ & G & O & K & V & l & C). split_and!; try done. by exists V, l.
Qed.
End short.

(** C40: the log that mkfs lays out is one block too small for begin_op: nlog is
    LOGSIZE, one block of which is the header.  After the boot begin_op admits
    three system calls, which may log ten blocks each, but the call that logs
    the 30th block stops the kernel. *)
Theorem mkfs_log_short me D f : disk_block D 2 = zero_block →
  wp (boot_log me 1 (logstart mk_sb) (nlog mk_sb) ;;;
      Log.begin_op ;;; Log.begin_op ;;; Log.begin_op ;;;
      for_each short_blocks (λ n, LogDemo.update_block me 1 n f))
    (λ _ s, ∀ b, log_write b s = Panic "too big a transaction") (Lst (reboot D) log0).
Proof.
  intros Hlog. wp_step. eapply wp_mono; [|by apply short_boot]. intros _ s (G & O & K & V & l & C).
  pose proof (g_n _ _ _ _ _ G) as Hn. simpl in Hn.
  do 3 (wp_step; apply wp_begin_op; cbn [lg bcache committing outstanding lh_n set_field]; rewrite ?O, ?Hn; [exact K|lia|by vm_compute|]).
  match goal with |- wp _ _ ?s => assert (T : txn 1 me 2 30 V [] s) end.
  { split; [destruct G; by split| |by exists l|simpl; lia]. split; [constructor|apply NoDup_nil_2|simpl; lia|simpl; lia]. }
  eapply wp_mono; [|apply (update_blocks_spec 1 me 2 30 V [] _ short_blocks f ltac:(done) T)].
  - intros _ s' (V' & [G' _ _ _] & _) b. unfold log_write. rewrite (bind_Ret getlog _ s' (lg s') s' eq_refl).
    rewrite (g_n _ _ _ _ _ G'), (g_size _ _ _ _ _ G'). reflexivity.
  - apply list.Forall_forall. intros n Hn'%elem_of_seqZ. change nmeta with 46 in Hn'. unfold home. lia.
  - apply NoDup_seqZ.
  - simpl. lia.
  - simpl. lia.
Qed.

Lemma mkfs_log_short_witness : disk_block ∅ 2 = zero_block ∧
  wp (boot_log 1 1 (logstart mk_sb) (nlog mk_sb) ;;; Log.begin_op ;;; Log.begin_op ;;; Log.begin_op ;;;
      for_each short_blocks (λ n, LogDemo.update_block 1 1 n (λ x, x)))
    (λ _ s, log_write 0 s = Panic "too big a transaction") (Lst (reboot ∅) log0).
Proof.
  split; [reflexivity|]. eapply wp_mono; [|apply (mkfs_log_short 1 ∅ (λ x, x)); reflexivity]. intros u s H. apply H.
Defined.
