(* ===== verification/Start.v ===== *)
(** * Start-up: registers, start.c, plic.c and main.c

    A hart has its control and status registers; devices and the scratch area
    of the timer are words at addresses.  [sstatus], [sie] and [sip] are the
    supervisor's views of the machine registers, as the privileged architecture
    defines them.  [main] on several harts is a step relation: hart 0
    initialises the kernel while the others wait for [started]. *)

From Stdlib Require Import ZArith Lia.
From stdpp Require Import base numbers list gmap relations strings tactics.
From S2P Require Import Prelude Riscv.

Local Open Scope Z_scope.

(** ** Registers (kernel/riscv.h) *)

Record hart := Hart {
  mhartid : Z; mstatus : Z; mepc : Z; mie : Z; mip : Z; mideleg : Z; medeleg : Z; mtvec : Z; mscratch : Z;
  pmpcfg0 : Z; pmpaddr0 : Z; satp : Z; stvec : Z; mcounteren : Z; tp : Z;
}.
#[global] Instance eta_hart : Eta hart := λ h,
  Hart (mhartid h) (mstatus h) (mepc h) (mie h) (mip h) (mideleg h) (medeleg h) (mtvec h) (mscratch h)
    (pmpcfg0 h) (pmpaddr0 h) (satp h) (stvec h) (mcounteren h) (tp h).

(** One hart and the words it can read and write. *)
Record mach := Mach { cpu : hart; words : gmap Z Z }.
#[global] Instance eta_mach : Eta mach := λ s, Mach (cpu s) (words s).

Definition csrr (r : hart → Z) : M mach Z := let* s := get in ret (r (cpu s)).
Definition csrw (f : hart → hart) : M mach unit := modify (λ s, s <| cpu ::= f |>).
Definition ld (a : Z) : M mach Z := let* s := get in ret (default 0 (words s !! a)).
Definition sd (a v : Z) : M mach unit := modify (λ s, s <| words ::= <[a := u64 v]> |>).
Definition sw (a v : Z) : M mach unit := modify (λ s, s <| words ::= <[a := u32 v]> |>).

Definition MSTATUS_MPP_MASK : Z := Z.shiftl 3 11.
Definition MSTATUS_MPP_S : Z := Z.shiftl 1 11.
Definition MSTATUS_MIE : Z := Z.shiftl 1 3.
Definition SSTATUS_SIE : Z := Z.shiftl 1 1.
Definition SIE_SEIE : Z := Z.shiftl 1 9.
Definition SIE_STIE : Z := Z.shiftl 1 5.
Definition SIE_SSIE : Z := Z.shiftl 1 1.
Definition MIE_MTIE : Z := Z.shiftl 1 7.

(** The bits of [mstatus] that [sstatus] shows, and the interrupts that a hart
    can delegate: those of the supervisor. *)
Definition sstatus_bits : Z := 0x80000003000DE762.
Definition delegable : Z := Z.lor SIE_SEIE (Z.lor SIE_STIE SIE_SSIE).
(** A register in which only the bits of [mask] are written. *)
Definition merge (mask old new : Z) : Z := Z.lor (Z.ldiff old mask) (Z.land new mask).

Definition r_mhartid : M mach Z := csrr mhartid.
Definition r_mstatus : M mach Z := csrr mstatus.
Definition w_mstatus (x : Z) : M mach unit := csrw (λ h, h <| mstatus := u64 x |>).
Definition w_mepc (x : Z) : M mach unit := csrw (λ h, h <| mepc := u64 x |>).
Definition r_sstatus : M mach Z := csrr (λ h, Z.land (mstatus h) sstatus_bits).
Definition w_sstatus (x : Z) : M mach unit := csrw (λ h, h <| mstatus ::= λ m, merge sstatus_bits m x |>).
Definition r_sip : M mach Z := csrr (λ h, Z.land (mip h) (mideleg h)).
(** Of the pending bits software can write the one for software interrupts. *)
Definition w_sip (x : Z) : M mach unit := csrw (λ h, h <| mip ::= λ m, merge (Z.land (mideleg h) SIE_SSIE) m x |>).
Definition r_sie : M mach Z := csrr (λ h, Z.land (mie h) (mideleg h)).
Definition w_sie (x : Z) : M mach unit := csrw (λ h, h <| mie ::= λ m, merge (mideleg h) m x |>).
Definition r_mie : M mach Z := csrr mie.
Definition w_mie (x : Z) : M mach unit := csrw (λ h, h <| mie := u64 x |>).
Definition w_medeleg (x : Z) : M mach unit := csrw (λ h, h <| medeleg := u64 x |>).
Definition w_mideleg (x : Z) : M mach unit := csrw (λ h, h <| mideleg := Z.land x delegable |>).
Definition w_stvec (x : Z) : M mach unit := csrw (λ h, h <| stvec := u64 x |>).
Definition w_mtvec (x : Z) : M mach unit := csrw (λ h, h <| mtvec := u64 x |>).
Definition w_pmpcfg0 (x : Z) : M mach unit := csrw (λ h, h <| pmpcfg0 := u64 x |>).
Definition w_pmpaddr0 (x : Z) : M mach unit := csrw (λ h, h <| pmpaddr0 := u64 x |>).
Definition w_satp (x : Z) : M mach unit := csrw (λ h, h <| satp := u64 x |>).
Definition r_satp : M mach Z := csrr satp.
Definition w_mscratch (x : Z) : M mach unit := csrw (λ h, h <| mscratch := u64 x |>).
Definition r_tp : M mach Z := csrr tp.
Definition w_tp (x : Z) : M mach unit := csrw (λ h, h <| tp := u64 x |>).

Definition intr_on : M mach unit := let* x := r_sstatus in w_sstatus (Z.lor x SSTATUS_SIE).
Definition intr_off : M mach unit := let* x := r_sstatus in w_sstatus (Z.land x (u64 (Z.lnot SSTATUS_SIE))).
Definition intr_get : M mach Z := let* x := r_sstatus in ret (if has x SSTATUS_SIE then 1 else 0).

(** ** Machine mode (kernel/start.c, timervec of kernel/kernelvec.S) *)

Definition NCPU : Z := 8.
Definition CLINT : Z := 0x2000000.
Definition CLINT_MTIMECMP (hartid : Z) : Z := CLINT + 0x4000 + 8 * hartid.
Definition CLINT_MTIME : Z := CLINT + 0xBFF8.
Definition interval : Z := 1000000.

Section start.
(** Addresses from the linker. *)
Context (main_addr timervec_addr timer_scratch : Z).

(** [&timer_scratch[id][k]] *)
Definition scratch_word (id k : Z) : Z := timer_scratch + 40 * id + 8 * k.

Definition timerinit : M mach unit :=
  let* id := r_mhartid in
  let* now := ld CLINT_MTIME in
  sd (CLINT_MTIMECMP id) (now + interval) ;;;
  sd (scratch_word id 3) (CLINT_MTIMECMP id) ;;;
  sd (scratch_word id 4) interval ;;;
  w_mscratch (scratch_word id 0) ;;;
  w_mtvec timervec_addr ;;;
  let* m := r_mstatus in
  w_mstatus (Z.lor m MSTATUS_MIE) ;;;
  let* e := r_mie in
  w_mie (Z.lor e MIE_MTIE).

(** The mode that mret enters (0 user, 1 supervisor, 3 machine) and where. *)
Definition mret : M mach (Z * Z) :=
  let* m := r_mstatus in
  let* pc := csrr mepc in
  ret (Z.land (Z.shiftr m 11) 3, pc).

Definition start : M mach (Z * Z) :=
  let* x := r_mstatus in
  let x := Z.land x (u64 (Z.lnot MSTATUS_MPP_MASK)) in
  let x := Z.lor x MSTATUS_MPP_S in
  w_mstatus x ;;;
  w_mepc main_addr ;;;
  w_satp 0 ;;;
  w_medeleg 0xffff ;;;
  w_mideleg 0xffff ;;;
  let* e := r_sie in
  w_sie (Z.lor (Z.lor (Z.lor e SIE_SEIE) SIE_STIE) SIE_SSIE) ;;;
  w_pmpaddr0 0x3fffffffffffff ;;;
  w_pmpcfg0 0xf ;;;
  timerinit ;;;
  let* id := r_mhartid in
  w_tp id ;;;
  mret.

(** The registers of the interrupted code that timervec uses. *)
Record tregs := Tregs { ta0 : Z; ta1 : Z; ta2 : Z; ta3 : Z }.

(** timervec: csrrw swaps a0 and mscratch, a1 to a3 are saved behind it. *)
Definition timervec (r : tregs) : M mach tregs :=
  let* base := csrr mscratch in
  w_mscratch (ta0 r) ;;;
  sd base (ta1 r) ;;; sd (base + 8) (ta2 r) ;;; sd (base + 16) (ta3 r) ;;;
  let* a1 := ld (base + 24) in
  let* a2 := ld (base + 32) in
  let* a3 := ld a1 in
  sd a1 (u64 (a3 + a2)) ;;;
  w_sip 2 ;;;
  let* a3 := ld (base + 16) in
  let* a2 := ld (base + 8) in
  let* a1 := ld base in
  let* a0 := csrr mscratch in
  w_mscratch base ;;;
  ret (Tregs a0 a1 a2 a3).
End start.

(** ** The interrupt controller (kernel/plic.c) *)

Definition PLIC : Z := 0x0c000000.
Definition PLIC_SENABLE (hart : Z) : Z := PLIC + 0x2080 + hart * 0x100.
Definition PLIC_SPRIORITY (hart : Z) : Z := PLIC + 0x201000 + hart * 0x2000.
Definition PLIC_SCLAIM (hart : Z) : Z := PLIC + 0x201004 + hart * 0x2000.

Definition cpuid : M mach Z := let* x := r_tp in ret (s32 x).
Definition plicinit : M mach unit :=
  sw (PLIC + UART0_IRQ * 4) 1 ;;;
  sw (PLIC + VIRTIO0_IRQ * 4) 1.
Definition plicinithart : M mach unit :=
  let* hart := cpuid in
  sw (PLIC_SENABLE hart) (Z.lor (Z.shiftl 1 UART0_IRQ) (Z.shiftl 1 VIRTIO0_IRQ)) ;;;
  sw (PLIC_SPRIORITY hart) 0.
Definition plic_claim : M mach Z :=
  let* hart := cpuid in
  let* irq := ld (PLIC_SCLAIM hart) in
  ret (s32 irq).
Definition plic_complete (irq : Z) : M mach unit :=
  let* hart := cpuid in
  sw (PLIC_SCLAIM hart) irq.

(** kvminithart of vm.c and trapinithart of trap.c; flushing the TLB has no
    effect on the model. *)
Definition kvminithart (kernel_pagetable : Z) : M mach unit := w_satp (MAKE_SATP kernel_pagetable).
Definition trapinithart (kernelvec : Z) : M mach unit := w_stvec kernelvec.

(** ** Starting on several harts (kernel/main.c) *)

(** The calls of main. *)
Inductive call :=
  | Consoleinit | Printfinit | Print_booting | Kinit | Kvminit | Kvminithart | Procinit | Trapinit | Trapinithart
  | Plicinit | Plicinithart | Binit | Iinit | Fileinit | Virtio_disk_init | Userinit
  | Set_started | Await_started | Synchronize | Print_hart | Scheduler.
#[global] Instance call_eq_dec : EqDecision call.
Proof. solve_decision. Defined.

Definition boot_calls : list call :=
  [Consoleinit; Printfinit; Print_booting; Kinit; Kvminit; Kvminithart; Procinit; Trapinit; Trapinithart;
   Plicinit; Plicinithart; Binit; Iinit; Fileinit; Virtio_disk_init; Userinit].
Definition main_calls (cpuid : nat) : list call :=
  match cpuid with
  | O => boot_calls ++ [Synchronize; Set_started; Scheduler]
  | S _ => [Await_started; Synchronize; Print_hart; Kvminithart; Trapinithart; Plicinithart; Scheduler]
  end.

(** [started], what each hart has left to do, and the calls so far, latest first. *)
Record boot := Boot { started : bool; todo : list (list call); trace : list (nat * call) }.
Definition boot0 (ncpu : nat) : boot := Boot false (main_calls <$> seq 0 ncpu) [].

(** One hart makes its next call; a hart at [while(started == 0)] goes round
    until [started] is set, which is no step. *)
Inductive boot_step : boot → boot → Prop :=
  | step_await h rest s : todo s !! h = Some (Await_started :: rest) → started s = true →
      boot_step s (Boot true (<[h := rest]> (todo s)) ((h, Await_started) :: trace s))
  | step_set h rest s : todo s !! h = Some (Set_started :: rest) →
      boot_step s (Boot true (<[h := rest]> (todo s)) ((h, Set_started) :: trace s))
  | step_call h c rest s : todo s !! h = Some (c :: rest) → c ≠ Await_started → c ≠ Set_started →
      boot_step s (Boot (started s) (<[h := rest]> (todo s)) ((h, c) :: trace s)).

(** ** Facts about bits *)

Lemma merge_bit mask old new n : 0 ≤ n →
  Z.testbit (merge mask old new) n = if Z.testbit mask n then Z.testbit new n else Z.testbit old n.
Proof.
  intros Hn. unfold merge. rewrite Z.lor_spec, Z.ldiff_spec, Z.land_spec.
  destruct (Z.testbit mask n), (Z.testbit old n), (Z.testbit new n); done.
Qed.
Lemma u64_bit x n : 0 ≤ n < 64 → Z.testbit (u64 x) n = Z.testbit x n.
Proof. intros Hn. unfold u64. apply Z.mod_pow2_bits_low. lia. Qed.

(** ** The timer *)

Section timer.
Context (main_addr timervec_addr timer_scratch : Z).
Hypothesis (Hmain : 0 ≤ main_addr < 2^64) (Hvec : 0 ≤ timervec_addr < 2^64).
(** The scratch area is in RAM, away from the devices. *)
Hypothesis Hscratch : KERNBASE ≤ timer_scratch ∧ timer_scratch + 40 * NCPU ≤ PHYSTOP.
Local Abbreviation word := (scratch_word timer_scratch).

(** The words that hart [id] uses for its timer. *)
Definition timer_words (id : Z) : list Z := CLINT_MTIMECMP id :: (word id <$> [0; 1; 2; 3; 4]).

(** The next interrupt of hart [id] comes at [next]. *)
Record timer_ready (id next : Z) (s : mach) : Prop := {
  tr_scratch : mscratch (cpu s) = word id 0;
  tr_vec : mtvec (cpu s) = timervec_addr;
  tr_cmp : words s !! word id 3 = Some (CLINT_MTIMECMP id);
  tr_int : words s !! word id 4 = Some interval;
  tr_next : words s !! CLINT_MTIMECMP id = Some next;
  tr_on : Z.testbit (mie (cpu s)) 7 = true;
  tr_mode : Z.testbit (mideleg (cpu s)) 7 = false;
  tr_soft : Z.testbit (mideleg (cpu s)) 1 = true ∧ Z.testbit (mie (cpu s)) 1 = true;
}.

Definition in64 (r : tregs) : Prop :=
  0 ≤ ta0 r < 2^64 ∧ 0 ≤ ta1 r < 2^64 ∧ 0 ≤ ta2 r < 2^64 ∧ 0 ≤ ta3 r < 2^64.

(** The timers of two harts share nothing. *)
Lemma timer_words_apart id id' a : 0 ≤ id < NCPU → 0 ≤ id' < NCPU → id ≠ id' → a ∈ timer_words id → a ∉ timer_words id'.
Proof using Hscratch.
  unfold timer_words. cbn [fmap list_fmap]. rewrite !elem_of_cons, !elem_of_nil.
  unfold scratch_word, CLINT_MTIMECMP, CLINT, PHYSTOP, KERNBASE, NCPU in *. lia.
Qed.

Lemma wp_ld a v s (Q : Z → mach → Prop) : words s !! a = Some v → Q v s → wp (ld a) Q s.
Proof. intros E HQ. unfold wp, ld, bind, get, ret. by rewrite E. Qed.
Lemma wp_sd a v s (Q : unit → mach → Prop) : Q tt (s <| words ::= <[a := u64 v]> |>) → wp (sd a v) Q s.
Proof. done. Qed.
Lemma wp_csrr r s (Q : Z → mach → Prop) : Q (r (cpu s)) s → wp (csrr r) Q s.
Proof. done. Qed.
Lemma wp_csrw f s (Q : unit → mach → Prop) : Q tt (s <| cpu ::= f |>) → wp (csrw f) Q s.
Proof. done. Qed.

(** Different words have different addresses. *)
Lemma word_ne id j k : j ≠ k → word id j ≠ word id k.
Proof. unfold scratch_word. lia. Qed.
Lemma word_cmp id id' k : 0 ≤ id < NCPU → 0 ≤ id' < NCPU → 0 ≤ k < 5 → word id k ≠ CLINT_MTIMECMP id' ∧ word id k ≠ CLINT_MTIME.
Proof using Hscratch. unfold scratch_word, CLINT_MTIMECMP, CLINT_MTIME, CLINT, PHYSTOP, KERNBASE, NCPU in *. lia. Qed.
Lemma word_range id k : 0 ≤ id < NCPU → 0 ≤ k < 5 → 0 ≤ word id k < 2^64.
Proof using Hscratch. unfold scratch_word, PHYSTOP, KERNBASE, NCPU in *. lia. Qed.

Lemma timervec_ok id next s r : 0 ≤ id < NCPU → timer_ready id next s → in64 r → 0 ≤ next + interval < 2^64 →
  wp (timervec r) (λ r' s', r' = r ∧ timer_ready id (next + interval) s' ∧ Z.testbit (mip (cpu s')) 1 = true ∧
    (∀ a, a ∉ timer_words id → words s' !! a = words s !! a)) s.
Proof using All.
  intros Hid [T1 T2 T3 T4 T5 T6 T7 T8] (R0 & R1 & R2 & R3) Hn.
  assert (Ha : word id 0 + 8 = word id 1 ∧ word id 0 + 16 = word id 2 ∧ word id 0 + 24 = word id 3 ∧ word id 0 + 32 = word id 4)
    by (unfold scratch_word; lia). destruct Ha as (A1 & A2 & A3 & A4).
  assert (Hc : ∀ k, 0 ≤ k < 5 → word id k ≠ CLINT_MTIMECMP id) by (intros k Hk; by apply word_cmp).
  pose proof (word_ne id) as Hw. unfold timervec. wp_step. apply wp_csrr. rewrite T1, A1, A2, A3, A4.
  wp_step. apply wp_csrw. do 3 (wp_step; apply wp_sd). rewrite !u64_small by done.
  set (w := <[word id 2 := ta3 r]> (<[word id 1 := ta2 r]> (<[word id 0 := ta1 r]> (words s)))).
  assert (W3 : w !! word id 3 = Some (CLINT_MTIMECMP id)) by (unfold w; by rewrite !lookup_insert_ne by (apply Hw; lia)).
  assert (W4 : w !! word id 4 = Some interval) by (unfold w; by rewrite !lookup_insert_ne by (apply Hw; lia)).
  assert (Wn : w !! CLINT_MTIMECMP id = Some next) by (unfold w; by rewrite !lookup_insert_ne by (apply Hc; lia)).
  wp_step. eapply wp_ld; [exact W3|]. wp_step. eapply wp_ld; [exact W4|]. wp_step. eapply wp_ld; [exact Wn|]. wp_step. apply wp_sd.
  rewrite !(u64_small (next + interval)) by done. wp_step. apply wp_csrw.
  set (w' := <[CLINT_MTIMECMP id := next + interval]> w).
  assert (W' : ∀ k, 0 ≤ k < 5 → w' !! word id k = w !! word id k).
  { intros k Hk. apply lookup_insert_ne. pose proof (Hc k Hk). congruence. }
  wp_step. apply (wp_ld _ (ta3 r)).
  { change (w' !! word id 2 = Some (ta3 r)). rewrite W' by lia. apply lookup_insert_eq. }
  wp_step. apply (wp_ld _ (ta2 r)).
  { change (w' !! word id 1 = Some (ta2 r)). rewrite W' by lia. unfold w. rewrite lookup_insert_ne by (apply Hw; lia). apply lookup_insert_eq. }
  wp_step. apply (wp_ld _ (ta1 r)).
  { change (w' !! word id 0 = Some (ta1 r)). rewrite W' by lia. unfold w. rewrite !lookup_insert_ne by (apply Hw; lia). apply lookup_insert_eq. }
  wp_step. apply wp_csrr. wp_step. apply wp_csrw. wp_step. cbn [mscratch cpu]. rewrite (u64_small (word id 0)) by (apply word_range; lia).
  split; [by destruct r|]. split; [|split].
  - split; try done.
    + change (w' !! word id 3 = Some (CLINT_MTIMECMP id)). by rewrite W'.
    + change (w' !! word id 4 = Some interval). by rewrite W'.
    + apply lookup_insert_eq.
  - destruct T8 as [T8 _]. change (Z.testbit (merge (Z.land (mideleg (cpu s)) SIE_SSIE) (mip (cpu s)) 2) 1 = true).
    rewrite merge_bit by lia. rewrite Z.land_spec, T8. done.
  - intros a Ha. change (w' !! a = words s !! a). unfold timer_words in Ha. cbn [fmap list_fmap] in Ha.
    rewrite !not_elem_of_cons in Ha. destruct Ha as (H1 & H2 & H3 & H4 & _). unfold w', w. by rewrite !lookup_insert_ne by congruence.
Qed.

(** *** From reset *)

Record started_hart (id : Z) (r : Z * Z) (s' : mach) : Prop := {
  sh_mode : r = (1, main_addr);
  sh_satp : satp (cpu s') = 0;
  sh_tp : tp (cpu s') = id;
  sh_deleg : mideleg (cpu s') = delegable ∧ medeleg (cpu s') = 0xffff;
  sh_sie : Z.land (mie (cpu s')) delegable = delegable;
  sh_pmp : pmpaddr0 (cpu s') = 0x3fffffffffffff ∧ pmpcfg0 (cpu s') = 0xf;
}.

Lemma start_mode x : Z.land (Z.shiftr (u64 (Z.lor (u64 (Z.lor (Z.land x (u64 (Z.lnot MSTATUS_MPP_MASK))) MSTATUS_MPP_S)) MSTATUS_MIE)) 11) 3 = 1.
Proof.
  apply Z.bits_inj'. intros n Hn. rewrite Z.land_spec, Z.shiftr_spec by done.
  destruct (decide (n < 2)) as [H|H].
  - rewrite u64_bit, Z.lor_spec, u64_bit, Z.lor_spec, Z.land_spec by lia.
    assert (n = 0 ∨ n = 1) as [->| ->] by lia; destruct (Z.testbit x _); by vm_compute.
  - change 3 with (Z.ones 2). rewrite Z.ones_spec_high, andb_false_r by lia. symmetry. apply Z.bits_above_log2; simpl; lia.
Qed.

Lemma start_sie a b :
  Z.land (u64 (Z.lor (merge delegable a (Z.lor (Z.lor (Z.lor b SIE_SEIE) SIE_STIE) SIE_SSIE)) MIE_MTIE)) delegable = delegable.
Proof.
  apply Z.bits_inj'. intros n Hn. rewrite Z.land_spec. destruct (Z.testbit delegable n) eqn:E; [|apply andb_false_r].
  assert (Hlt : n < 64) by (destruct (Z.lt_ge_cases n 64); [done|]; rewrite Z.bits_above_log2 in E; [done|done|]; vm_compute (Z.log2 delegable); lia).
  rewrite u64_bit, Z.lor_spec, merge_bit, E, !Z.lor_spec by lia. unfold delegable in E. rewrite !Z.lor_spec in E.
  destruct (Z.testbit SIE_SEIE n), (Z.testbit SIE_STIE n), (Z.testbit SIE_SSIE n); rewrite ?orb_true_r; done.
Qed.

Lemma timerinit_ok id now s (Q : unit → mach → Prop) :
  0 ≤ id < NCPU → mhartid (cpu s) = id → words s !! CLINT_MTIME = Some now → 0 ≤ now + interval < 2^64 →
  Z.testbit (mideleg (cpu s)) 7 = false → Z.testbit (mideleg (cpu s)) 1 = true ∧ Z.testbit (mie (cpu s)) 1 = true →
  (∀ s', timer_ready id (now + interval) s' → (∀ a, a ∉ timer_words id → words s' !! a = words s !! a) →
    cpu s' = (cpu s) <| mscratch := word id 0 |> <| mtvec := timervec_addr |>
      <| mstatus := u64 (Z.lor (mstatus (cpu s)) MSTATUS_MIE) |> <| mie := u64 (Z.lor (mie (cpu s)) MIE_MTIE) |> → Q tt s') →
  wp (timerinit timervec_addr timer_scratch) Q s.
Proof using All.
  intros Hid E Hnow Hn T7 T1 HQ. pose proof (word_ne id) as Hw.
  assert (Hc : ∀ k, 0 ≤ k < 5 → word id k ≠ CLINT_MTIMECMP id) by (intros k Hk; by apply word_cmp).
  unfold timerinit. wp_step. apply wp_csrr. rewrite E. wp_step. eapply wp_ld; [exact Hnow|].
  do 3 (wp_step; apply wp_sd). do 2 (wp_step; apply wp_csrw). wp_step. apply wp_csrr. wp_step. apply wp_csrw. wp_step. apply wp_csrr.
  apply wp_csrw. assert (Hcmp : 0 ≤ CLINT_MTIMECMP id < 2^64) by (unfold CLINT_MTIMECMP, CLINT, NCPU in *; lia).
  rewrite (u64_small (now + interval)), (u64_small (CLINT_MTIMECMP id)) by done. change (u64 interval) with interval.
  set (w := <[word id 4 := interval]> (<[word id 3 := CLINT_MTIMECMP id]> (<[CLINT_MTIMECMP id := now + interval]> (words s)))).
  apply HQ.
  - split; try done.
    + cbn. apply u64_small, word_range; lia.
    + cbn. by apply u64_small.
    + change (w !! word id 3 = Some (CLINT_MTIMECMP id)). unfold w. rewrite lookup_insert_ne by (apply Hw; lia). apply lookup_insert_eq.
    + change (w !! word id 4 = Some interval). apply lookup_insert_eq.
    + change (w !! CLINT_MTIMECMP id = Some (now + interval)). unfold w. rewrite !lookup_insert_ne by (apply Hc; lia). apply lookup_insert_eq.
    + change (Z.testbit (u64 (Z.lor (mie (cpu s)) MIE_MTIE)) 7 = true). rewrite u64_bit, Z.lor_spec by lia. apply orb_true_r.
    + split; [apply T1|]. change (Z.testbit (u64 (Z.lor (mie (cpu s)) MIE_MTIE)) 1 = true). rewrite u64_bit, Z.lor_spec by lia. by rewrite (proj2 T1).
  - intros a Ha. change (w !! a = words s !! a). unfold timer_words in Ha. cbn [fmap list_fmap] in Ha.
    rewrite !not_elem_of_cons in Ha. destruct Ha as (H1 & _ & _ & _ & H4 & H5 & _). unfold w. by rewrite !lookup_insert_ne by congruence.
  - cbn. rewrite (u64_small (word id 0)), (u64_small timervec_addr) by (done || apply word_range; lia). done.
Qed.

Lemma start_spec id now s : 0 ≤ id < NCPU → mhartid (cpu s) = id → words s !! CLINT_MTIME = Some now → 0 ≤ now + interval < 2^64 →
  wp (start main_addr timervec_addr timer_scratch) (λ r s', started_hart id r s' ∧ timer_ready id (now + interval) s' ∧
    ∀ a, a ∉ timer_words id → words s' !! a = words s !! a) s.
Proof using All.
  intros Hid E Hnow Hn. unfold start. wp_step. apply wp_csrr. cbv zeta. do 5 (wp_step; apply wp_csrw). wp_step. apply wp_csrr.
  do 3 (wp_step; apply wp_csrw). wp_step. eapply (timerinit_ok id now); try done.
  - split; [done|]. match goal with |- Z.testbit (mie (cpu ?m)) 1 = true => set (s1 := m) end.
    change (Z.testbit (merge delegable (mie (cpu s)) (Z.lor (Z.lor (Z.lor (Z.land (mie (cpu s)) delegable) SIE_SEIE) SIE_STIE) SIE_SSIE)) 1 = true).
    rewrite merge_bit, !Z.lor_spec by lia. apply orb_true_r.
  - intros s1 R Hf Ec. wp_step. apply wp_csrr. wp_step. apply wp_csrw. unfold mret. wp_step. apply wp_csrr. wp_step. apply wp_csrr. wp_step.
    assert (Eid : u64 (mhartid (cpu s1)) = id).
    { rewrite Ec. cbn. rewrite E. apply u64_small. unfold NCPU in Hid. lia. }
    split; [|split; [|exact Hf]].
    + split; cbn; rewrite ?Eid, ?Ec; cbn; try done.
      * by rewrite start_mode, u64_small.
      * apply start_sie.
    + destruct R as [R1 R2 R3 R4 R5 R6 R7 R8]. by split.
Qed.

Fixpoint ticks (rs : list tregs) : M mach (list tregs) :=
  match rs with
  | [] => ret []
  | r :: rs => let* r' := timervec r in let* rs' := ticks rs in ret (r' :: rs')
  end.

Lemma ticks_ok id rs : 0 ≤ id < NCPU → Forall in64 rs → ∀ next s, timer_ready id next s → 0 ≤ next →
  next + Z.of_nat (length rs) * interval < 2^64 →
  wp (ticks rs) (λ rs' s', rs' = rs ∧ timer_ready id (next + Z.of_nat (length rs) * interval) s' ∧
    (rs ≠ [] ∨ Z.testbit (mip (cpu s)) 1 = true → Z.testbit (mip (cpu s')) 1 = true) ∧ ∀ a, a ∉ timer_words id → words s' !! a = words s !! a) s.
Proof using All.
  intros Hid Hrs. induction Hrs as [|r rs Hr _ IH]; intros next s R H0 Hn; cbn [ticks].
  - wp_step. cbn [length]. rewrite Z.add_0_r. split_and!; try done. by intros [|].
  - cbn [length] in *. assert (Hi : interval = 1000000) by done.
    wp_step. eapply wp_mono; [|apply (timervec_ok id next s r Hid R Hr); lia]. intros r1 s1 (-> & R1 & P1 & F1).
    wp_step. eapply wp_mono; [|apply (IH (next + interval) s1 R1); lia]. intros rs2 s2 (-> & R2 & P2 & F2). wp_step.
    split; [done|]. split; [by replace (next + Z.of_nat (S (length rs)) * interval) with (next + interval + Z.of_nat (length rs) * interval) by lia|].
    split; [|intros a Ha; by rewrite F2, F1]. intros _. apply P2. by right.
Qed.

(** start and any number of timer interrupts after it. *)
Lemma start_ticks id now s rs :
  0 ≤ id < NCPU → mhartid (cpu s) = id → words s !! CLINT_MTIME = Some now → 0 ≤ now →
  now + (1 + Z.of_nat (length rs)) * interval < 2^64 → Forall in64 rs →
  wp (let* r := start main_addr timervec_addr timer_scratch in let* rs' := ticks rs in ret (r, rs')) (λ '(r, rs') s',
    r = (1, main_addr) ∧ rs' = rs ∧ timer_ready id (now + (1 + Z.of_nat (length rs)) * interval) s' ∧
    (rs ≠ [] → Z.testbit (mip (cpu s')) 1 = true) ∧ ∀ a, a ∉ timer_words id → words s' !! a = words s !! a) s.
Proof using All.
  intros Hid E Hnow H0 Hn Hrs. assert (Hi : interval = 1000000) by done.
  wp_step. eapply wp_mono; [|apply (start_spec id now s Hid E Hnow); lia]. intros r s1 ([-> _ _ _ _ _] & R1 & F1).
  wp_step. eapply wp_mono; [|apply (ticks_ok id rs Hid Hrs _ s1 R1); lia]. intros rs' s2 (-> & R2 & P2 & F2). wp_step.
  split; [done|]. split; [done|]. split; [|split].
  - by replace (now + (1 + Z.of_nat (length rs)) * interval) with (now + interval + Z.of_nat (length rs) * interval) by lia.
  - intros Hne. apply P2. by left.
  - intros a Ha. by rewrite F2, F1.
Qed.
End timer.

(** on every hart start enters the kernel's main in supervisor mode and sets
    the timer up so that interrupts come exactly [interval] cycles apart: after
    any number of them the compare register holds the start time plus that many
    intervals and one, the interrupted registers are as they were, a software
    interrupt is pending for the kernel, and no word of another hart or device
    has changed. *)
Theorem timer_periodic main_addr timervec_addr timer_scratch id now s rs :
  0 ≤ main_addr < 2^64 → 0 ≤ timervec_addr < 2^64 → KERNBASE ≤ timer_scratch ∧ timer_scratch + 40 * NCPU ≤ PHYSTOP →
  0 ≤ id < NCPU → mhartid (cpu s) = id → words s !! CLINT_MTIME = Some now → 0 ≤ now →
  now + (1 + Z.of_nat (length rs)) * interval < 2^64 → Forall in64 rs →
  wp (let* r := start main_addr timervec_addr timer_scratch in let* rs' := ticks rs in ret (r, rs')) (λ '(r, rs') s',
    r = (1, main_addr) ∧ rs' = rs ∧
    timer_ready timervec_addr timer_scratch id (now + (1 + Z.of_nat (length rs)) * interval) s' ∧
    (rs ≠ [] → Z.testbit (mip (cpu s')) 1 = true) ∧
    ∀ a, a ∉ timer_words timer_scratch id → words s' !! a = words s !! a) s.
Proof. intros. by apply start_ticks. Qed.

(** ** Nothing runs on another hart before the kernel is ready *)

(** The calls of hart [h] in a trace, latest first. *)
Definition calls_of (h : nat) (tr : list (nat * call)) : list call := snd <$> filter (λ x, x.1 = h) tr.

Lemma calls_of_cons h h' c tr : calls_of h ((h', c) :: tr) = if decide (h' = h) then c :: calls_of h tr else calls_of h tr.
Proof. unfold calls_of. rewrite filter_cons. cbn. by case_decide. Qed.
Lemma calls_of_elem h c tr : c ∈ calls_of h tr ↔ (h, c) ∈ tr.
Proof.
  unfold calls_of. rewrite list_elem_of_fmap. split.
  - intros ([h' c'] & -> & [Hh Hin]%list_elem_of_filter). simpl in *. by subst.
  - intros Hin. exists (h, c). split; [done|]. by apply list_elem_of_filter.
Qed.

Definition after_boot (tr : list (nat * call)) : Prop :=
  ∀ l1 h c l2, tr = l1 ++ (h, c) :: l2 → h ≠ 0%nat → ∀ b, b ∈ boot_calls → (0%nat, b) ∈ l2.

Record boot_inv (ncpu : nat) (s : boot) : Prop := {
  bi_len : length (todo s) = ncpu;
  bi_order h rest : todo s !! h = Some rest → reverse (calls_of h (trace s)) ++ rest = main_calls h;
  bi_started : started s = true → (0%nat, Set_started) ∈ trace s;
  bi_barrier : after_boot (trace s);
}.

Lemma boot_done ncpu s b : boot_inv ncpu s → (0 < ncpu)%nat → (0%nat, Set_started) ∈ trace s → b ∈ boot_calls → (0%nat, b) ∈ trace s.
Proof.
  intros [L Or St B] Hn Hs Hb. destruct (lookup_lt_is_Some_2 (todo s) 0) as [rest Hr]; [lia|].
  apply Or in Hr. apply calls_of_elem in Hs. apply calls_of_elem.
  set (past := calls_of 0 (trace s)) in *. apply elem_of_reverse in Hs. apply elem_of_reverse.
  apply list_elem_of_split in Hs as (p1 & p2 & Ep). rewrite Ep in Hr |- *. cbn in Hr.
  assert (p1 = boot_calls ++ [Synchronize]) as ->; [|rewrite !elem_of_app; tauto].
  clear -Hr. rewrite <- app_assoc in Hr.
  do 17 (destruct p1 as [|c p1]; [discriminate Hr|injection Hr as -> Hr]). destruct p1 as [|c p1]; [done|injection Hr as -> Hr].
  destruct p1 as [|c p1]; [discriminate Hr|injection Hr as -> Hr]. by destruct p1.
Qed.

Lemma boot_order_step s h c rest : (∀ h rest, todo s !! h = Some rest → reverse (calls_of h (trace s)) ++ rest = main_calls h) →
  todo s !! h = Some (c :: rest) → ∀ h' rest', <[h := rest]> (todo s) !! h' = Some rest' →
  reverse (calls_of h' ((h, c) :: trace s)) ++ rest' = main_calls h'.
Proof.
  intros O Hh h' rest' H'. rewrite calls_of_cons. destruct (decide (h = h')) as [<-|Hne].
  - rewrite list_lookup_insert_eq in H' by (by eapply lookup_lt_Some). injection H' as <-. rewrite reverse_cons, <- app_assoc. by apply O.
  - rewrite list_lookup_insert_ne in H' by done. by apply O.
Qed.

(** A call of another hart: it has left the loop, so hart 0 is done. *)
Lemma boot_barrier_step ncpu s h c rest : boot_inv ncpu s → todo s !! h = Some (c :: rest) →
  (c = Await_started → started s = true) → after_boot ((h, c) :: trace s).
Proof.
  intros I Hh Hc l1 h' c' l2 E Hne b Hb. pose proof I as [L Or St B]. pose proof (lookup_lt_Some _ _ _ Hh) as Hlt.
  destruct l1 as [|x l1]; [|injection E as _ E; by eapply B].
  injection E as <- <- <-. destruct (decide (c = Await_started)) as [->|Hca].
  - eapply boot_done; [exact I|lia|by apply St, Hc|done].
  - pose proof (Or h _ Hh) as E. destruct h as [|h]; [done|]. cbn [main_calls] in E.
    assert (Ha : Await_started ∈ calls_of (S h) (trace s)).
    { apply elem_of_reverse. destruct (reverse _) as [|x p]; [by injection E|]. injection E as -> _. by left. }
    apply calls_of_elem, list_elem_of_split in Ha as (p1 & p2 & Ep). rewrite Ep, elem_of_app, elem_of_cons. right. right.
    by eapply (B p1).
Qed.

Lemma boot_inv_step ncpu s s' : boot_inv ncpu s → boot_step s s' → boot_inv ncpu s'.
Proof.
  intros I Hs. pose proof I as [L Or St B]. destruct Hs as [h rest s Hh Hst|h rest s Hh|h c rest s Hh H1 H2]; split; cbn.
  all: try by rewrite length_insert.
  all: try by eapply boot_order_step.
  all: try by (eapply boot_barrier_step; [exact I|exact Hh|]).
  - intros _. right. by apply St.
  - intros _. destruct h as [|h]; [by left|]. exfalso. pose proof (Or _ _ Hh) as E. cbn [main_calls] in E.
    assert (In : Set_started ∈ [Await_started; Synchronize; Print_hart; Kvminithart; Trapinithart; Plicinithart; Scheduler])
      by (rewrite <- E; rewrite elem_of_app; right; by left).
    repeat (apply elem_of_cons in In as [?|In]; [done|]). by apply elem_of_nil in In.
  - intros Hst. right. by apply St.
Qed.

(** C19: in every interleaving of the harts in main, another hart turns on
    paging, installs its trap vector and enters the scheduler only after hart 0
    has made every initialising call, from the console to the first process;
    and each hart makes its calls in the order of the program. *)
Theorem main_barrier ncpu s : (0 < ncpu)%nat → rtc boot_step (boot0 ncpu) s →
  after_boot (trace s) ∧
  ∀ h, (h < ncpu)%nat → ∃ rest, reverse (calls_of h (trace s)) ++ rest = main_calls h.
Proof.
  intros Hn Hs. assert (I : boot_inv ncpu s).
  { assert (I0 : boot_inv ncpu (boot0 ncpu)).
    { split; cbn; [by rewrite length_fmap, length_seq| |done|by intros [] ? ? ? [=]].
      intros h rest. rewrite list_lookup_fmap. intros (k & Hk & ->)%fmap_Some. apply lookup_seq in Hk as [-> _]. done. }
    revert I0. induction Hs as [|s1 s2 s3 H12 _ IH]; [done|]. intros I0. by eapply IH, boot_inv_step. }
  split; [apply I|]. intros h Hh. destruct (lookup_lt_is_Some_2 (todo s) h) as [rest Hr]; [by rewrite (bi_len _ _ I)|].
  exists rest. by apply (bi_order _ _ I).
Qed.

(** *** Instances *)

(** The next step of hart [h], if it has one. *)
Definition boot_next (h : nat) (s : boot) : option boot :=
  match todo s !! h with
  | Some (c :: rest) =>
      let after b := Boot b (<[h := rest]> (todo s)) ((h, c) :: trace s) in
      if decide (c = Await_started) then (if started s then Some (after true) else None)
      else Some (after (if decide (c = Set_started) then true else started s))
  | _ => None
  end.
Lemma boot_next_step h s s' : boot_next h s = Some s' → boot_step s s'.
Proof.
  unfold boot_next. destruct (todo s !! h) as [[|c rest]|] eqn:E; try done. case_decide as H1.
  - destruct (started s) eqn:Es; [|done]. intros [= <-]. subst c. by apply step_await.
  - intros [= <-]. case_decide as H2; [subst c; by apply step_set|by apply step_call].
Qed.
Fixpoint boot_run (hs : list nat) (s : boot) : option boot :=
  match hs with [] => Some s | h :: hs => match boot_next h s with Some s' => boot_run hs s' | None => None end end.
Lemma boot_run_steps hs : ∀ s s', boot_run hs s = Some s' → rtc boot_step s s'.
Proof.
  induction hs as [|h hs IH]; intros s s' E; cbn in E; [by injection E as ->|].
  destruct (boot_next h s) as [s1|] eqn:E1; [|done]. eapply rtc_l; [by eapply boot_next_step|by apply IH].
Qed.

(** Two harts: hart 1 waits while hart 0 boots, and passes the loop then. *)
Lemma main_barrier_witness : boot_next 1 (boot0 2) = None ∧ ∃ s, boot_run (replicate 18 0%nat ++ [1; 1; 0]%nat) (boot0 2) = Some s ∧
  (1%nat, Synchronize) ∈ trace s ∧ after_boot (trace s).
Proof.
  split; [by vm_compute|]. destruct (boot_run (replicate 18 0%nat ++ [1; 1; 0]%nat) (boot0 2)) as [s|] eqn:E; [|by vm_compute in E].
  exists s. split; [done|]. split; [vm_compute in E; injection E as <-; right; by left|].
  apply (main_barrier 2 s ltac:(lia) (boot_run_steps _ _ _ E)).
Defined.

Definition demo_hart : hart := Hart 1 0 0 0 0 0 0 0 0 0 0 0 0 0 0.
Lemma timer_periodic_witness :
  wp (let* r := start 0x80001000 0x80002000 0x80010000 in let* rs := ticks [Tregs 1 2 3 4] in ret (r, rs)) (λ '(r, rs) s,
    r = (1, 0x80001000) ∧ rs = [Tregs 1 2 3 4] ∧ words s !! CLINT_MTIMECMP 1 = Some 2000005)
    (Mach demo_hart {[ CLINT_MTIME := 5 ]}).
Proof.
  eapply wp_mono; [|apply (timer_periodic 0x80001000 0x80002000 0x80010000 1 5 (Mach demo_hart {[ CLINT_MTIME := 5 ]}) [Tregs 1 2 3 4]);
    [lia|lia|by vm_compute|by vm_compute|reflexivity|reflexivity|lia|by vm_compute|by repeat constructor]].
  intros [r rs] s (-> & -> & R & _). split; [done|]. split; [done|]. apply R.
Defined.
