(* ===== verification/Ulib.v ===== *)
(** * The user library and small user programs (user/ulib.c, user/wc.c,
      user/cat.c, user/echo.c)

    The string routines work on a byte memory, as those of the kernel; a loop
    that runs to the NUL has a bound, and [None] means that it was too small.
    Input arrives in the pieces that [read] returns. *)

From Stdlib Require Import ZArith Lia.
From stdpp Require Import base numbers list gmap strings tactics.
From S2P Require Import Prelude Mem.

Local Open Scope Z_scope.

(** ** ulib.c *)

Fixpoint strcpy (fuel : nat) (m : memory) (s t : Z) : option memory :=
  match fuel with
  | O => None
  | S fuel =>
      let c := load8 m t in
      let m := store8 m s c in
      if c =? 0 then Some m else strcpy fuel m (u64 (s + 1)) (u64 (t + 1))
  end.

Fixpoint strcmp (fuel : nat) (m : memory) (p q : Z) : option Z :=
  match fuel with
  | O => None
  | S fuel =>
      if negb (load8 m p =? 0) && (load8 m p =? load8 m q)
      then strcmp fuel m (u64 (p + 1)) (u64 (q + 1))
      else Some (load8 m p - load8 m q)
  end.

(** The address found, or 0. *)
Fixpoint strchr (fuel : nat) (m : memory) (s c : Z) : option Z :=
  match fuel with
  | O => None
  | S fuel =>
      if load8 m s =? 0 then Some 0
      else if load8 m s =? c then Some s
      else strchr fuel m (u64 (s + 1)) c
  end.

Definition memmove (m : memory) (vdst vsrc n : Z) : memory :=
  if vdst <? vsrc then move_up (Z.to_nat n) m vdst vsrc
  else move_down (Z.to_nat n) m (u64 (vdst + n)) (u64 (vsrc + n)).

Definition memcpy (m : memory) (dst src n : Z) : memory := memmove m dst src n.

(** [gets]: the bytes still to come on standard input, one [read] per byte. *)
Fixpoint gets_loop (n : nat) (m : memory) (buf i : Z) (input : list Z) : memory * Z * list Z :=
  match n with
  | O => (m, i, input)
  | S n =>
      match input with
      | [] => (m, i, [])
      | c :: input =>
          let m := store8 m (u64 (buf + i)) c in
          if (c =? 10) || (c =? 13) then (m, i + 1, input) else gets_loop n m buf (i + 1) input
      end
  end.
Definition gets (m : memory) (buf max : Z) (input : list Z) : memory * list Z :=
  let '(m, i, input) := gets_loop (Z.to_nat (max - 1)) m buf 0 input in
  (store8 m (u64 (buf + i)) 0, input).

(** ** wc.c *)

Record counts := Counts { wl : Z; ww : Z; wc_ : Z; inword : bool }.

Definition wc_space (c : Z) : bool := (c =? 32) || (c =? 13) || (c =? 9) || (c =? 10) || (c =? 11).
(** The body of the inner loop; the counters are [int]s. *)
Definition wc_byte (s : counts) (c : Z) : counts :=
  let s := Counts (wl s) (ww s) (s32 (wc_ s + 1)) (inword s) in
  let s := if c =? 10 then Counts (s32 (wl s + 1)) (ww s) (wc_ s) (inword s) else s in
  if wc_space c then Counts (wl s) (ww s) (wc_ s) false
  else if inword s then s
  else Counts (wl s) (s32 (ww s + 1)) (wc_ s) true.
(** [wc] on the pieces that [read] returns. *)
Fixpoint wc (s : counts) (input : list (list Z)) : counts :=
  match input with
  | [] => s
  | piece :: input => if decide (piece = []) then s else wc (foldl wc_byte s piece) input
  end.

(** ** cat.c and echo.c *)

(** What is written, and whether [cat] got to the end; [write_ok] says whether
    a [write] takes all of its bytes. *)
Fixpoint cat (write_ok : list Z → bool) (input : list (list Z)) : list (list Z) * bool :=
  match input with
  | [] => ([], true)
  | piece :: input =>
      if decide (piece = []) then ([], true)
      else if negb (write_ok piece) then ([], false)
      else let '(out, ok) := cat write_ok input in (piece :: out, ok)
  end.

Fixpoint echo (argv : list (list Z)) : list (list Z) :=
  match argv with
  | [] => []
  | [a] => [a; [10]]
  | a :: argv => a :: [32] :: echo argv
  end.

(** ** Theorems *)

Lemma user_memmove_correct m dst src n a :
  mem_bytes m → 0 ≤ n → 0 ≤ dst → 0 ≤ src → dst + n < 2^64 → src + n < 2^64 →
  load8 (memmove m dst src n) a =
    if (dst <=? a) && (a <? dst + n) then load8 m (src + (a - dst)) else load8 m a.
Proof.
  intros Hm Hn Hd Hs Hdn Hsn. unfold memmove. rewrite !(u64_small (_ + _)) by lia.
  destruct (Z.ltb_spec dst src).
  - rewrite load8_move_up; [by rewrite Z2Nat.id by lia|done|lia..].
  - rewrite load8_move_down by (done || lia). rewrite Z2Nat.id by lia. zcases; try done; f_equal; lia.
Qed.

(** Lexicographic order of strings, the NUL below every byte. *)
Fixpoint str_compare (l k : list Z) : Z :=
  match l, k with
  | [], [] => 0
  | [], d :: _ => - d
  | c :: _, [] => c
  | c :: l, d :: k => if c =? d then str_compare l k else c - d
  end.

Lemma strcmp_correct n : ∀ m p q,
  mem_bytes m → 0 ≤ p → 0 ≤ q → p + Z.of_nat n < 2^64 → q + Z.of_nat n < 2^64 →
  (length (cstr n m p) < n)%nat →
  strcmp n m p q = Some (str_compare (cstr n m p) (cstr n m q)).
Proof.
  induction n as [|n IH]; intros m p q Hm Hp Hq Hpn Hqn Hl; [simpl in Hl; lia|]. cbn [strcmp cstr] in *.
  destruct (Z.eqb_spec (load8 m p) 0) as [E|E]; simpl.
  - rewrite E. destruct (Z.eqb_spec (load8 m q) 0) as [E2|E2]; simpl; [by rewrite E2|]. f_equal.
  - simpl in Hl. rewrite !u64_small by lia.
    destruct (Z.eqb_spec (load8 m p) (load8 m q)) as [E2|E2]; simpl.
    + rewrite <- E2. test_false (load8 m p =? 0). simpl. rewrite Z.eqb_refl. apply IH; (done || lia).
    + destruct (Z.eqb_spec (load8 m q) 0) as [E3|E3]; simpl; [f_equal; lia|]. by test_false (load8 m p =? load8 m q).
Qed.

(** *** wc *)

Fixpoint count_words (after_space : bool) (l : list Z) : nat :=
  match l with
  | [] => 0
  | c :: l =>
      if wc_space c then count_words true l
      else ((if after_space then 1 else 0) + count_words false l)%nat
  end.

Lemma wc_bytes l : ∀ s,
  0 ≤ wl s → 0 ≤ ww s → 0 ≤ wc_ s →
  wl s + Z.of_nat (length l) < 2^31 → ww s + Z.of_nat (length l) < 2^31 → wc_ s + Z.of_nat (length l) < 2^31 →
  wl (foldl wc_byte s l) = wl s + Z.of_nat (length (filter (λ c, c = 10) l)) ∧
  ww (foldl wc_byte s l) = ww s + Z.of_nat (count_words (negb (inword s)) l) ∧
  wc_ (foldl wc_byte s l) = wc_ s + Z.of_nat (length l).
Proof.
  induction l as [|c l IH]; intros s H1 H2 H3 B1 B2 B3; cbn [foldl length count_words] in *.
  { rewrite filter_nil. simpl. lia. }
  set (s1 := wc_byte s c).
  assert (Hs : wl s1 = wl s + (if c =? 10 then 1 else 0) ∧ wc_ s1 = wc_ s + 1 ∧
    (if wc_space c then ww s1 = ww s ∧ inword s1 = false
     else inword s1 = true ∧ ww s1 = ww s + if inword s then 0 else 1)).
  { unfold s1, wc_byte. destruct s as [a b d e]; cbn in *.
    destruct (c =? 10), (wc_space c), e; cbn; rewrite ?s32_small by lia; lia || (split_and!; lia || done). }
  destruct Hs as (E1 & E2 & E3). rewrite filter_cons.
  destruct (IH s1) as (I1 & I2 & I3);
    [destruct (c =? 10); lia|destruct (wc_space c), (inword s); lia|lia|destruct (c =? 10); lia|destruct (wc_space c), (inword s); lia|lia|].
  rewrite I1, I2, I3, E1, E2. split_and!.
  - destruct (Z.eqb_spec c 10) as [->|]; [rewrite decide_True by done|rewrite decide_False by done]; simpl; lia.
  - destruct (wc_space c), (inword s); destruct E3 as [Ea Eb]; rewrite ?Ea, ?Eb; cbn [negb]; lia.
  - lia.
Qed.

(** [wc] counts the newlines, words and bytes of its input, however it is cut
    into pieces, as long as the counters do not overflow. *)
Lemma wc_correct input :
  Forall (λ p, p ≠ []) input → Z.of_nat (length (mjoin input)) < 2^31 →
  let s := wc (Counts 0 0 0 false) input in
  wl s = Z.of_nat (length (filter (λ c, c = 10) (mjoin input))) ∧
  ww s = Z.of_nat (count_words true (mjoin input)) ∧ wc_ s = Z.of_nat (length (mjoin input)).
Proof.
  intros Hne Hlen. assert (E : ∀ s, wc s input = foldl wc_byte s (mjoin input)).
  { induction Hne as [|p input Hp _ IH]; intros s; [done|]. cbn [wc]. rewrite decide_False by done.
    change (mjoin (p :: input)) with (p ++ mjoin input) in *. rewrite foldl_app. apply IH.
    rewrite length_app in Hlen. lia. }
  cbv zeta. rewrite E. destruct (wc_bytes (mjoin input) (Counts 0 0 0 false)) as (H1 & H2 & H3); cbn [wl ww wc_ inword] in *; try lia.
  rewrite H1, H2, H3. split_and!; (done || lia).
Qed.

(** [cat] copies its input when every write succeeds. *)
Lemma cat_copies input : Forall (λ p, p ≠ []) input → cat (λ _, true) input = (input, true).
Proof. induction 1 as [|p input Hp _ IH]; cbn [cat]; [done|]. rewrite decide_False by done. simpl. by rewrite IH. Qed.
