(* ===== verification/Printf.v ===== *)
(** * Formatted output (kernel/printf.c and user/printf.c)

    The output of a call is the list of the bytes it hands to [consputc] or
    [write].  [None] is what C leaves undefined: a conversion without a
    fitting argument, or a digit stored outside the 16-byte buffer. *)

From Stdlib Require Import ZArith Lia.
From stdpp Require Import base numbers list strings tactics.
From S2P Require Import Prelude.

Local Open Scope Z_scope.

(** ** Numbers *)

(** The digits are stored from the least significant one; they are printed in
    the opposite order, so the buffer is kept with its last byte first. *)
Section number.
Context (digits : list Z).

Definition put_digit (c : Z) (buf : list Z) : option (list Z) :=
  if (length buf <? 16)%nat then Some (c :: buf) else None.

(** [do buf[i++] = digits[x % base]; while((x /= base) != 0)]: 32 rounds
    are enough for a 32-bit number. *)
Fixpoint digit_loop (fuel : nat) (x base : Z) (buf : list Z) : option (list Z) :=
  match fuel with
  | O => None
  | S fuel =>
      d ← digits !! Z.to_nat (x mod base);
      buf ← put_digit d buf;
      if x / base =? 0 then Some buf else digit_loop fuel (x / base) base buf
  end.

Definition printint (xx base : Z) (sgn : bool) : option (list Z) :=
  let neg := sgn && (xx <? 0) in
  let x := if neg then u32 (- xx) else u32 xx in
  buf ← digit_loop 32 x base [];
  if neg then put_digit 45 buf else Some buf.

Fixpoint ptr_loop (n : nat) (x : Z) : option (list Z) :=
  match n with
  | O => Some []
  | S n =>
      d ← digits !! Z.to_nat (Z.shiftr x 60);
      l ← ptr_loop n (u64 (Z.shiftl x 4));
      Some (d :: l)
  end.

Definition printptr (x : Z) : option (list Z) :=
  l ← ptr_loop 16 x; Some (48 :: 120 :: l).
End number.

(** ** Formats *)

(** An argument as [va_arg] finds it: an [int], a [uint64], a [char *]. *)
Inductive arg : Type :=
  | AInt (x : Z)
  | ALong (x : Z)
  | AStr (s : option (list Z)).

Definition null_string : list Z := [40; 110; 117; 108; 108; 41].

Definition str_bytes (s : option (list Z)) : list Z := default null_string s.

(** An integer argument read with [va_arg(ap, int)]. *)
Definition int_arg (args : list arg) : option (Z * list arg) :=
  match args with AInt x :: args => Some (x, args) | _ => None end.
Definition long_arg (args : list arg) : option (Z * list arg) :=
  match args with ALong x :: args => Some (x, args) | _ => None end.
Definition str_arg (args : list arg) : option (list Z * list arg) :=
  match args with AStr s :: args => Some (str_bytes s, args) | _ => None end.

Definition out_then (out : list Z) (rest : option (list Z)) : option (list Z) :=
  l ← rest; Some (out ++ l).

Definition user_digits : list Z := [48; 49; 50; 51; 52; 53; 54; 55; 56; 57; 65; 66; 67; 68; 69; 70].

(** What [vprintf] does with the byte [c] after a percent sign. *)
Definition user_conversion (c : Z) (args : list arg) : option (list Z * list arg) :=
  if c =? 100 then '(x, args) ← int_arg args; l ← printint user_digits x 10 true; Some (l, args)
  else if c =? 108 then '(x, args) ← long_arg args; l ← printint user_digits (s32 x) 10 false; Some (l, args)
  else if c =? 120 then '(x, args) ← int_arg args; l ← printint user_digits x 16 false; Some (l, args)
  else if c =? 112 then '(x, args) ← long_arg args; l ← printptr user_digits x; Some (l, args)
  else if c =? 115 then str_arg args
  else if c =? 99 then '(x, args) ← int_arg args; Some ([u8 x], args)
  else if c =? 37 then Some ([c], args)
  else Some ([37; c], args).

(** The loop over the format; [state] is [state == '%']. *)
Fixpoint vprintf (fmt : list Z) (state : bool) (args : list arg) : option (list Z) :=
  match fmt with
  | [] => Some []
  | c :: fmt =>
      if negb state then
        if c =? 37 then vprintf fmt true args
        else out_then [c] (vprintf fmt false args)
      else
        '(out, args) ← user_conversion c args;
        out_then out (vprintf fmt false args)
  end.

Definition kernel_digits : list Z := [48; 49; 50; 51; 52; 53; 54; 55; 56; 57; 97; 98; 99; 100; 101; 102].

Definition kernel_conversion (c : Z) (args : list arg) : option (list Z * list arg) :=
  if c =? 100 then '(x, args) ← int_arg args; l ← printint kernel_digits x 10 true; Some (l, args)
  else if c =? 120 then '(x, args) ← int_arg args; l ← printint kernel_digits x 16 true; Some (l, args)
  else if c =? 112 then '(x, args) ← long_arg args; l ← printptr kernel_digits x; Some (l, args)
  else if c =? 115 then str_arg args
  else if c =? 37 then Some ([37], args)
  else Some ([37; c], args).

Fixpoint printf (fmt : list Z) (args : list arg) : option (list Z) :=
  match fmt with
  | [] => Some []
  | c :: fmt =>
      if negb (c =? 37) then out_then [c] (printf fmt args)
      else
        match fmt with
        | [] => Some []
        | c :: fmt => '(out, args) ← kernel_conversion c args; out_then out (printf fmt args)
        end
  end.

(** ** atoi (user/ulib.c) *)

Fixpoint atoi_from (n : Z) (s : list Z) : Z :=
  match s with
  | c :: s => if (48 <=? c) && (c <=? 57) then atoi_from (s32 (s32 (s32 (n * 10) + c) - 48)) s else n
  | [] => n
  end.
Definition atoi (s : list Z) : Z := atoi_from 0 s.

(** ** The number a digit string denotes *)

Fixpoint digit_index (digits : list Z) (c : Z) : Z :=
  match digits with
  | [] => 0
  | d :: ds => if d =? c then 0 else 1 + digit_index ds c
  end.
Definition value (digits : list Z) (base : Z) (l : list Z) : Z :=
  foldl (λ n c, n * base + digit_index digits c) 0 l.

(** ** Numbers are printed right *)

Lemma digit_index_lookup ds i c : NoDup ds → ds !! i = Some c → digit_index ds c = Z.of_nat i.
Proof.
  intros H. revert i. induction H as [|d ds Hd _ IH]; intros i Hi; [done|]. simpl.
  destruct i as [|i]; simpl in Hi.
  - injection Hi as ->. by rewrite Z.eqb_refl.
  - destruct (Z.eqb_spec d c) as [->|]; [by apply list_elem_of_lookup_2 in Hi|]. rewrite (IH i Hi). lia.
Qed.

Lemma value_snoc ds base l c : value ds base (l ++ [c]) = value ds base l * base + digit_index ds c.
Proof. unfold value. by rewrite foldl_app. Qed.

Section numbers.
Context (digits : list Z).
Hypothesis table : NoDup digits ∧ length digits = 16%nat.

Lemma digit_lookup i : 0 ≤ i < 16 → ∃ c, digits !! Z.to_nat i = Some c ∧ digit_index digits c = i.
Proof.
  intros Hi. destruct table as [Hn Hlen]. destruct (lookup_lt_is_Some_2 digits (Z.to_nat i)) as [c Hc]; [lia|].
  exists c. split; [done|]. rewrite (digit_index_lookup _ _ _ Hn Hc). lia.
Qed.

(** A digit string of [x] without leading zeros. *)
Definition numeral (base x : Z) (l : list Z) : Prop :=
  value digits base l = x ∧ l ≠ [] ∧ (∀ c l', l = c :: l' → l' ≠ [] → digit_index digits c ≠ 0) ∧
  Forall (λ c, ∃ i, 0 ≤ i < base ∧ digits !! Z.to_nat i = Some c) l.

Lemma digit_step fuel x base buf : 2 ≤ base ≤ 16 → (length buf < 16)%nat → ∃ d,
  digit_loop digits (S fuel) x base buf =
    (if x / base =? 0 then Some (d :: buf) else digit_loop digits fuel (x / base) base (d :: buf)) ∧
  digit_index digits d = x mod base ∧ ∃ i, 0 ≤ i < base ∧ digits !! Z.to_nat i = Some d.
Proof.
  intros Hb Hl. pose proof (Z.mod_pos_bound x base ltac:(lia)).
  destruct (digit_lookup (x mod base)) as (d & Hd & Hi); [lia|]. exists d. cbn [digit_loop]. rewrite Hd. simpl.
  unfold put_digit. rewrite (proj2 (Nat.ltb_lt (length buf) 16)) by lia. split_and!; [done|done|].
  by exists (x mod base).
Qed.

Lemma numeral_digit base x d : 0 < base → x / base = 0 → digit_index digits d = x mod base →
  (∃ i, 0 ≤ i < base ∧ digits !! Z.to_nat i = Some d) → numeral base x [d].
Proof.
  intros Hb Hx Hd Hi. unfold numeral. split_and!; [|done| |by constructor].
  - unfold value. simpl. rewrite Hd. pose proof (Z.div_mod x base). lia.
  - intros c l' [= <- <-]. done.
Qed.

Lemma numeral_snoc base x l d : 0 < base → x / base ≠ 0 → numeral base (x / base) l →
  digit_index digits d = x mod base →
  (∃ i, 0 ≤ i < base ∧ digits !! Z.to_nat i = Some d) → numeral base x (l ++ [d]).
Proof.
  intros Hb Hx (Hv & Hne & Hz & Hf) Hd Hi. unfold numeral. split_and!.
  - rewrite value_snoc, Hv, Hd. pose proof (Z.div_mod x base). lia.
  - by destruct l.
  - destruct l as [|c0 l]; [done|]. intros c l' [= <- <-] _. destruct l as [|c1 l]; [|by eapply Hz].
    unfold value in Hv. simpl in Hv. lia.
  - apply Forall_app. split; [done|by constructor].
Qed.

Lemma digit_loop_spec base k : 2 ≤ base ≤ 16 → ∀ fuel x buf,
  0 ≤ x < base ^ (Z.of_nat k + 1) → (k < fuel)%nat → (length buf + k < 16)%nat →
  ∃ l, digit_loop digits fuel x base buf = Some (l ++ buf) ∧ numeral base x l ∧ (length l ≤ S k)%nat.
Proof.
  intros Hb. induction k as [|k IH]; intros fuel x buf Hx Hf Hl; (destruct fuel as [|fuel]; [lia|]);
    destruct (digit_step fuel x base buf Hb ltac:(lia)) as (d & -> & Hd & Hi);
    destruct (Z.eqb_spec (x / base) 0) as [E|E].
  - exists [d]. split; [done|]. split; [apply numeral_digit; (done || lia)|simpl; lia].
  - exfalso. apply E. apply Z.div_small. change (Z.of_nat 0 + 1) with 1 in Hx. rewrite Z.pow_1_r in Hx. lia.
  - exists [d]. split; [done|]. split; [apply numeral_digit; (done || lia)|simpl; lia].
  - destruct (IH fuel (x / base) (d :: buf)) as (l & -> & Hn & Hlen); [|lia|simpl; lia|].
    { split; [apply Z.div_pos; lia|]. apply Z.div_lt_upper_bound; [lia|].
      rewrite <- Z.pow_succ_r by lia. replace (Z.succ (Z.of_nat k + 1)) with (Z.of_nat (S k) + 1) by lia. lia. }
    exists (l ++ [d]). rewrite <- app_assoc. split; [done|].
    split; [apply numeral_snoc; (done || lia)|]. rewrite length_app. simpl. lia.
Qed.

(** The number printed for an [int]: its value, or its bits when unsigned. *)
Lemma printint_spec xx base sgn : base = 10 ∨ base = 16 → - 2^31 ≤ xx < 2^31 →
  ∃ l, printint digits xx base sgn = Some (if sgn && (xx <? 0) then 45 :: l else l) ∧
       numeral base (if sgn then Z.abs xx else u32 xx) l.
Proof.
  intros Hb Hx. unfold printint.
  set (x := if sgn && (xx <? 0) then u32 (- xx) else u32 xx).
  assert (Ex : x = if sgn then Z.abs xx else u32 xx).
  { unfold x. destruct sgn; [|done]. simpl. destruct (Z.ltb_spec xx 0); rewrite u32_small; lia. }
  assert (Hr : 0 ≤ x < base ^ (Z.of_nat 9 + 1)).
  { assert (0 ≤ x < 2^32) by (unfold x; destruct (sgn && (xx <? 0)); apply u32_range).
    split; [lia|]. destruct Hb; subst base; simpl; lia. }
  destruct (digit_loop_spec base 9 ltac:(lia) 32 x [] Hr ltac:(lia) ltac:(simpl; lia)) as (l & -> & Hn & Hlen).
  rewrite app_nil_r. exists l. rewrite <- Ex. split; [|done]. simpl. destruct (sgn && (xx <? 0)); [|done].
  unfold put_digit. by rewrite (proj2 (Nat.ltb_lt (length l) 16)) by lia.
Qed.

Lemma value_app ds base l c : value ds base (c :: l) = digit_index ds c * base ^ Z.of_nat (length l) + value ds base l.
Proof.
  induction l as [|x l IH] using rev_ind.
  - unfold value. simpl. lia.
  - rewrite app_comm_cons, !value_snoc, IH, length_app, Nat2Z.inj_add, Z.pow_add_r by lia. simpl (length [x]). lia.
Qed.

(** [n] rounds print the top [n] hexadecimal digits. *)
Lemma ptr_loop_spec n : (n ≤ 16)%nat → ∀ x, 0 ≤ x < 2^64 →
  ∃ l, ptr_loop digits n x = Some l ∧ length l = n ∧ value digits 16 l = x / 16 ^ (16 - Z.of_nat n).
Proof.
  induction n as [|n IH]; intros Hn x Hx; cbn [ptr_loop].
  { exists []. split_and!; [done|done|]. symmetry. apply Z.div_small. simpl. lia. }
  rewrite Z.shiftr_div_pow2, Z.shiftl_mul_pow2 by lia.
  assert (Hd : 0 ≤ x / 2^60 < 16) by (split; [apply Z.div_pos|apply Z.div_lt_upper_bound]; lia).
  destruct (digit_lookup _ Hd) as (d & -> & Ed). simpl.
  assert (Eu : u64 (x * 2^4) = 16 * (x mod 2^60)).
  { unfold u64. replace (2^64) with (2^60 * 2^4) by done. rewrite Zmult_mod_distr_r. lia. }
  destruct (IH ltac:(lia) (u64 (x * 2^4)) (u64_range _)) as (l & Hl & Hlen & Hv).
  replace (Z.pow_pos 2 4) with (2^4) by done. rewrite Hl. simpl. eexists. split; [done|]. split; [simpl; lia|].
  rewrite value_app, Ed, Hv, Hlen, Eu.
  set (P := 16 ^ (16 - Z.of_nat (S n))).
  assert (0 < P) by (apply Z.pow_pos_nonneg; lia).
  replace (16 ^ (16 - Z.of_nat n)) with (16 * P)
    by (unfold P; rewrite <- Z.pow_succ_r by lia; f_equal; lia).
  rewrite Z.div_mul_cancel_l by lia.
  assert (E60 : 2^60 = 16 ^ Z.of_nat n * P).
  { unfold P. rewrite <- Z.pow_add_r by lia. replace (Z.of_nat n + (16 - Z.of_nat (S n))) with 15 by lia. done. }
  rewrite <- Z.div_add_l by lia. f_equal. rewrite (Z.div_mod x (2^60)) at 3 by lia. rewrite E60 at 3. lia.
Qed.
End numbers.

(** ** Reading a number back *)

Lemma user_table : NoDup user_digits ∧ length user_digits = 16%nat.
Proof. split; [|done]. by apply (bool_decide_unpack _). Qed.
Lemma kernel_table : NoDup kernel_digits ∧ length kernel_digits = 16%nat.
Proof. split; [|done]. by apply (bool_decide_unpack _). Qed.

Lemma decimal_char c : (∃ i, 0 ≤ i < 10 ∧ user_digits !! Z.to_nat i = Some c) →
  48 ≤ c ≤ 57 ∧ digit_index user_digits c = c - 48.
Proof.
  intros (i & Hi & H).
  assert (i = 0 ∨ i = 1 ∨ i = 2 ∨ i = 3 ∨ i = 4 ∨ i = 5 ∨ i = 6 ∨ i = 7 ∨ i = 8 ∨ i = 9) as Hc by lia.
  by destruct_or! Hc; subst i; injection H as <-.
Qed.

(** The sum before [- '0'] may pass the largest [int]; it wraps and comes back. *)
Lemma s32_sub a b : s32 (s32 a - b) = s32 (a - b).
Proof.
  unfold s32. replace ((a + 2^31) mod 2^32 - 2^31 - b + 2^31) with ((a + 2^31) mod 2^32 - b) by lia.
  rewrite Zminus_mod_idemp_l. do 2 f_equal. lia.
Qed.

(** [atoi] on decimal digits, as long as the number fits in an [int]. *)
Lemma atoi_from_value l : ∀ n, 0 ≤ n →
  Forall (λ c, ∃ i, 0 ≤ i < 10 ∧ user_digits !! Z.to_nat i = Some c) l →
  foldl (λ n c, n * 10 + digit_index user_digits c) n l < 2^31 →
  atoi_from n l = foldl (λ n c, n * 10 + digit_index user_digits c) n l.
Proof.
  assert (Hmono : ∀ l n, 0 ≤ n → Forall (λ c, ∃ i, 0 ≤ i < 10 ∧ user_digits !! Z.to_nat i = Some c) l →
    n ≤ foldl (λ n c, n * 10 + digit_index user_digits c) n l).
  { induction l0 as [|c l0 IH]; intros n Hn Hf; cbn [foldl]; [lia|]. inversion Hf as [|?? Hc Hf']; subst.
    destruct (decimal_char c Hc) as [Hr E]. specialize (IH (n * 10 + digit_index user_digits c) ltac:(lia) Hf'). lia. }
  induction l as [|c l IH]; intros n Hn Hf Hlt; cbn [foldl atoi_from] in *; [done|]. inversion Hf as [|?? Hc Hf']; subst.
  destruct (decimal_char c Hc) as [Hr E].
  pose proof (Hmono l (n * 10 + digit_index user_digits c) ltac:(lia) Hf').
  rewrite (proj2 (Z.leb_le 48 c)), (proj2 (Z.leb_le c 57)) by lia. cbn [andb].
  replace (s32 (s32 (s32 (n * 10) + c) - 48)) with (n * 10 + digit_index user_digits c); [apply IH; [lia|done|done]|].
  rewrite (s32_small (n * 10)), s32_sub, s32_small by lia. lia.
Qed.

(** ** Formats *)

(** A format as the pieces it is read as. *)
Inductive piece : Type :=
  | Lit (c : Z)
  | Conv (c : Z).
Definition piece_ok (p : piece) : Prop := match p with Lit c => c ≠ 37 | Conv _ => True end.
Definition fmt_of (ps : list piece) : list Z :=
  mjoin ((λ p, match p with Lit c => [c] | Conv c => [37; c] end) <$> ps).

Fixpoint render (conversion : Z → list arg → option (list Z * list arg)) (ps : list piece) (args : list arg) : option (list Z) :=
  match ps with
  | [] => Some []
  | Lit c :: ps => out_then [c] (render conversion ps args)
  | Conv c :: ps => '(out, args) ← conversion c args; out_then out (render conversion ps args)
  end.

Lemma vprintf_render ps : ∀ args, Forall piece_ok ps →
  vprintf (fmt_of ps) false args = render user_conversion ps args.
Proof.
  induction ps as [|[c|c] ps IH]; intros args Hps; [done| |]; inversion Hps as [|?? Hc Hps']; subst.
  - simpl in Hc |- *. rewrite (proj2 (Z.eqb_neq c 37) Hc). f_equal. by apply IH.
  - simpl. destruct (user_conversion c args) as [[out args']|]; [|done]. simpl. f_equal. by apply IH.
Qed.

Lemma printf_render ps : ∀ args, Forall piece_ok ps →
  printf (fmt_of ps) args = render kernel_conversion ps args.
Proof.
  induction ps as [|[c|c] ps IH]; intros args Hps; [done| |]; inversion Hps as [|?? Hc Hps']; subst.
  - simpl in Hc |- *. rewrite (proj2 (Z.eqb_neq c 37) Hc). simpl. f_equal. by apply IH.
  - simpl. destruct (kernel_conversion c args) as [[out args']|]; [|done]. simpl. f_equal. by apply IH.
Qed.

(** C35: what the user's [printf] prints for a number reads back as that
    number: [%d] of an [int] that is not negative gives it back with [atoi],
    a negative one prints a minus sign and the digits of its absolute value,
    the smallest [int] included; [%x] prints its 32 bits and [%p] the 64 bits
    of a pointer; no number has a leading zero ([%p] apart) or overruns the
    16-byte buffer. *)
Theorem printf_number x y :
  - 2^31 ≤ x < 2^31 → 0 ≤ y < 2^64 →
  ∃ d h p,
    vprintf [37; 100] false [AInt x] = Some (if x <? 0 then 45 :: d else d) ∧
    numeral user_digits 10 (Z.abs x) d ∧ (x ≠ - 2^31 → atoi d = Z.abs x) ∧
    vprintf [37; 120] false [AInt x] = Some h ∧ numeral user_digits 16 (u32 x) h ∧
    vprintf [37; 112] false [ALong y] = Some (48 :: 120 :: p) ∧
    length p = 16%nat ∧ value user_digits 16 p = y.
Proof.
  intros Hx Hy.
  destruct (printint_spec user_digits user_table x 10 true ltac:(lia) Hx) as (d & Ed & Hd).
  destruct (printint_spec user_digits user_table x 16 false ltac:(lia) Hx) as (h & Eh & Hh).
  destruct (ptr_loop_spec user_digits user_table 16 ltac:(lia) y Hy) as (p & Ep & Hlen & Hp).
  exists d, h, p. cbn [vprintf negb Z.eqb Pos.eqb]. unfold user_conversion, printptr.
  cbn [Z.eqb Pos.eqb int_arg long_arg mbind option_bind]. rewrite Ed, Eh, Ep.
  cbn [mbind option_bind out_then andb]. unfold out_then. cbn [mbind option_bind]. rewrite !app_nil_r.
  replace (16 - Z.of_nat 16) with 0 in Hp by lia. rewrite Z.pow_0_r, Z.div_1_r in Hp.
  split_and!; try done. intros Hne. destruct Hd as (Hv & _ & _ & Hf). unfold value in Hv.
  rewrite <- Hv. apply atoi_from_value; [lia|done|]. rewrite Hv. lia.
Qed.

Lemma printf_number_witness :
  vprintf [37; 100] false [AInt (-120)] = Some [45; 49; 50; 48] ∧
  ∃ d h p,
    vprintf [37; 100] false [AInt (-120)] = Some (if -120 <? 0 then 45 :: d else d) ∧
    numeral user_digits 10 (Z.abs (-120)) d ∧ (-120 ≠ - 2^31 → atoi d = Z.abs (-120)) ∧
    vprintf [37; 120] false [AInt (-120)] = Some h ∧ numeral user_digits 16 (u32 (-120)) h ∧
    vprintf [37; 112] false [ALong 255] = Some (48 :: 120 :: p) ∧
    length p = 16%nat ∧ value user_digits 16 p = 255.
Proof. split; [reflexivity|]. apply (printf_number (-120) 255); lia. Defined.

(** The format loops of the kernel and of the user library read a format as
    the same pieces; they differ in the conversions they know. *)
Lemma formats_agree ps args : Forall piece_ok ps →
  vprintf (fmt_of ps) false args = render user_conversion ps args ∧
  printf (fmt_of ps) args = render kernel_conversion ps args.
Proof. intros H. split; [by apply vprintf_render|by apply printf_render]. Qed.

(** [%l] hands a [uint64] to an [int] parameter: only its low half is printed. *)
Lemma printf_long_truncates x : user_conversion 108 [ALong (2^32 + x)] = user_conversion 108 [ALong x].
Proof.
  unfold user_conversion. cbn [Z.eqb Pos.eqb long_arg mbind option_bind]. replace (s32 (2^32 + x)) with (s32 x); [done|].
  unfold s32. f_equal. replace (2^32 + x + 2^31) with (x + 2^31 + 1 * 2^32) by lia. by rewrite Z_mod_plus_full.
Qed.
