(* ===== verification/Grep.v ===== *)
(** * grep (user/grep.c)

    The matcher and the loop over the input.  A C string is the list of its
    bytes before the NUL.  Standard input arrives in pieces, as [read] returns
    them; the output is the list of the arguments of [write]. *)

From Stdlib Require Import ZArith Lia.
From stdpp Require Import base numbers list strings tactics.
From S2P Require Import Prelude.

Local Open Scope Z_scope.

(** ** The code *)

Definition caret : Z := 94.
Definition dollar : Z := 36.
Definition dot : Z := 46.
Definition star : Z := 42.
Definition newline : Z := 10.

(** [matchstar(c, re, text)]; [here] is [matchhere(re, _)]. *)
Fixpoint matchstar (here : list Z → bool) (c : Z) (text : list Z) : bool :=
  if here text then true
  else
    match text with
    | [] => false
    | t :: text => if (t =? c) || (c =? dot) then matchstar here c text else false
    end.

(** A literal or [.] at the head of the text. *)
Definition match_one (here : list Z → bool) (c : Z) (text : list Z) : bool :=
  match text with
  | [] => false
  | t :: text => if (c =? dot) || (c =? t) then here text else false
  end.

Fixpoint matchhere (re text : list Z) {struct re} : bool :=
  match re with
  | [] => true
  | c :: re1 =>
      match re1 with
      | [] => if c =? dollar then bool_decide (text = []) else match_one (matchhere re1) c text
      | s :: re2 =>
          if s =? star then matchstar (matchhere re2) c text
          else match_one (matchhere re1) c text
      end
  end.

(** The [do] loop of [match]. *)
Fixpoint match_from (re text : list Z) : bool :=
  if matchhere re text then true
  else match text with [] => false | _ :: text => match_from re text end.
Definition match_ (re text : list Z) : bool :=
  match re with
  | c :: re1 => if c =? caret then matchhere re1 text else match_from re text
  | [] => match_from re text
  end.

(** [strchr(p, '\n')] on the bytes [p] of the buffer up to its NUL: the line
    before the newline and what follows it. *)
Fixpoint split_line (p : list Z) : option (list Z * list Z) :=
  match p with
  | [] => None
  | c :: p =>
      if c =? newline then Some ([], p)
      else if c =? 0 then None
      else match split_line p with
           | Some (line, rest) => Some (c :: line, rest)
           | None => None
           end
  end.

(** The inner loop: the writes, and the bytes left in the buffer. *)
Fixpoint grep_lines (fuel : nat) (pattern buf : list Z) : list (list Z) * list Z :=
  match fuel with
  | O => ([], buf)
  | S fuel =>
      match split_line buf with
      | None => ([], buf)
      | Some (line, rest) =>
          let '(out, kept) := grep_lines fuel pattern rest in
          (if match_ pattern line then (line ++ [newline]) :: out else out, kept)
      end
  end.

Definition BUFSIZE : nat := 1024.

(** [read] of at most [n] bytes from the pieces that are still to come. *)
Definition read_piece (n : nat) (input : list (list Z)) : list Z * list (list Z) :=
  match input with
  | [] => ([], [])
  | piece :: input =>
      if (length piece <=? n)%nat then (piece, input)
      else (take n piece, drop n piece :: input)
  end.

(** The outer loop with the bytes [buf] kept from before. *)
Fixpoint grep (fuel : nat) (pattern buf : list Z) (input : list (list Z)) : option (list (list Z)) :=
  match fuel with
  | O => None
  | S fuel =>
      match read_piece (BUFSIZE - length buf - 1) input with
      | ([], _) => Some []
      | (bs, input) =>
          let '(out, kept) := grep_lines BUFSIZE pattern (buf ++ bs) in
          match grep fuel pattern kept input with
          | Some out' => Some (out ++ out')
          | None => None
          end
      end
  end.

(** ** What a pattern means *)

Definition in_class (c x : Z) : Prop := c = dot ∨ c = x.

(** [matches_here re t]: some prefix of [t] matches [re]. *)
Inductive matches_here : list Z → list Z → Prop :=
  | here_nil t : matches_here [] t
  | here_star c re t1 t2 :
      Forall (in_class c) t1 → matches_here re t2 → matches_here (c :: star :: re) (t1 ++ t2)
  | here_end : matches_here [dollar] []
  | here_one c re x t :
      head re ≠ Some star → ¬ (c = dollar ∧ re = []) →
      in_class c x → matches_here re t → matches_here (c :: re) (x :: t).
(** [^] anchors at the start, otherwise the match may start anywhere. *)
Definition matches (re t : list Z) : Prop :=
  if decide (head re = Some caret) then matches_here (tail re) t
  else ∃ t1 t2, t = t1 ++ t2 ∧ matches_here re t2.

Lemma class_test c x : (x =? c) || (c =? dot) = true ↔ in_class c x.
Proof. rewrite orb_true_iff, !Z.eqb_eq. unfold in_class. split; intros [|]; auto. Qed.

Lemma matchstar_spec here (P : list Z → Prop) c text :
  (∀ t, here t = true ↔ P t) →
  matchstar here c text = true ↔ ∃ t1 t2, text = t1 ++ t2 ∧ Forall (in_class c) t1 ∧ P t2.
Proof.
  intros Hh. induction text as [|t text IH]; cbn [matchstar].
  - destruct (here []) eqn:E.
    + split; [|done]. intros _. exists [], []. by rewrite <- Hh.
    + split; [done|]. intros (t1 & t2 & E0 & _ & H). symmetry in E0. apply app_eq_nil in E0 as [-> ->].
      rewrite <- Hh in H. congruence.
  - destruct (here (t :: text)) eqn:E.
    { split; [|done]. intros _. exists [], (t :: text). by rewrite <- Hh. }
    destruct ((t =? c) || (c =? dot)) eqn:Ec.
    + rewrite IH. apply class_test in Ec. split.
      * intros (t1 & t2 & -> & H1 & H2). exists (t :: t1), t2. split; [done|]. split; [by constructor|done].
      * intros ([|x t1] & t2 & E0 & H1 & H2); simpl in E0.
        { subst t2. rewrite <- Hh in H2. congruence. }
        injection E0 as -> ->. inversion H1; subst. by exists t1, t2.
    + split; [done|]. intros ([|x t1] & t2 & E0 & H1 & H2); simpl in E0.
      * subst t2. rewrite <- Hh in H2. congruence.
      * injection E0 as -> ->. inversion H1; subst. rewrite <- class_test in *. congruence.
Qed.

Lemma match_one_spec here (P : list Z → Prop) c text :
  (∀ t, here t = true ↔ P t) →
  match_one here c text = true ↔ ∃ x t, text = x :: t ∧ in_class c x ∧ P t.
Proof.
  intros Hh. destruct text as [|t text]; simpl; [split; [done|by intros (?&?&?&_)]|].
  destruct ((c =? dot) || (c =? t)) eqn:E.
  - rewrite Hh. apply orb_true_iff in E as [E%Z.eqb_eq|E%Z.eqb_eq].
    + split; [intros H; exists t, text; split; [done|]; split; [by left|done]|by intros (?&?&[= <- <-]&_&?)].
    + split; [intros H; exists t, text; split; [done|]; split; [by right|done]|by intros (?&?&[= <- <-]&_&?)].
  - split; [done|]. intros (x & t' & [= <- <-] & [->| ->] & _); by rewrite Z.eqb_refl, ?orb_true_r in E.
Qed.

(** The matcher decides the relation; the induction is on a bound of the
    length of the pattern, since [c*] consumes two bytes of it. *)
Lemma matchhere_spec n : ∀ re t, (length re < n)%nat → matchhere re t = true ↔ matches_here re t.
Proof.
  induction n as [|n IH]; intros re t Hn; [lia|].
  destruct re as [|c [|s re]]; [split; [intros _; constructor|done]| |].
  - cbn [matchhere]. destruct (Z.eqb_spec c dollar) as [->|Hc].
    + rewrite bool_decide_eq_true. split; [intros ->; constructor|].
      intros H. inversion H; subst; [done|tauto].
    + rewrite (match_one_spec _ (matches_here [])) by (intros u; apply (IH [] u); simpl in *; lia). split.
      * intros (x & t' & -> & Hx & H). apply here_one; [done|by intros [? _]|done|done].
      * intros H. inversion H; subst; [done|eauto].
  - simpl in Hn. cbn [matchhere]. destruct (Z.eqb_spec s star) as [->|Hs].
    + rewrite (matchstar_spec _ (matches_here re)) by (intros; apply IH; lia). split.
      * intros (t1 & t2 & -> & H1 & H2). by apply here_star.
      * intros H. inversion H; subst; [eauto|done].
    + change (match_one (matchhere (s :: re)) c t = true ↔ matches_here (c :: s :: re) t).
      rewrite (match_one_spec _ (matches_here (s :: re))) by (intros; apply IH; simpl; lia). split.
      * intros (x & t' & -> & Hx & H). apply here_one; [simpl; congruence|by intros [_ ?]|done|done].
      * intros H. inversion H; subst; [done|eauto].
Qed.

Lemma match_from_spec re t :
  match_from re t = true ↔ ∃ t1 t2, t = t1 ++ t2 ∧ matches_here re t2.
Proof.
  assert (Hh : ∀ u, matchhere re u = true ↔ matches_here re u) by (intros; eapply matchhere_spec; eauto).
  induction t as [|x t IH]; cbn [match_from]; destruct (matchhere _ _) eqn:E;
    try (split; [intros _; eexists [], _; split; [done|]; by apply Hh|done]).
  - split; [done|]. intros (t1 & t2 & E0 & H). symmetry in E0. apply app_eq_nil in E0 as [-> ->].
    apply Hh in H. congruence.
  - rewrite IH. split.
    + intros (t1 & t2 & -> & H). by exists (x :: t1), t2.
    + intros ([|y t1] & t2 & E0 & H); simpl in E0; [subst; apply Hh in H; congruence|].
      injection E0 as -> ->. eauto.
Qed.

(** [match(re, text)] decides the language of patterns that the comment of
    grep.c names: literals, [.], [*] after a single byte, [^] at the start and
    [$] at the end. *)
Lemma match_spec re t : match_ re t = true ↔ matches re t.
Proof.
  assert (Hh : ∀ re u, matchhere re u = true ↔ matches_here re u) by (intros; eapply matchhere_spec; eauto).
  unfold match_, matches. destruct re as [|c re]; simpl.
  - apply match_from_spec.
  - destruct (Z.eqb_spec c caret) as [->|Hc]; [by rewrite decide_True|].
    rewrite decide_False by congruence. apply match_from_spec.
Qed.

#[export] Instance matches_dec re t : Decision (matches re t).
Proof. destruct (match_ re t) eqn:E; [left|right; intros H%match_spec]; [by apply match_spec|congruence]. Defined.

(** ** The loop over the input *)

Definition terminated (line : list Z) : list Z := line ++ [newline].
Definition unlines (ls : list (list Z)) : list Z := mjoin (terminated <$> ls).
Definition no_newline (l : list Z) : Prop := Forall (λ c, c ≠ newline) l.
(** A line that fits in the buffer with its newline and the NUL behind it. *)
Definition grep_line (l : list Z) : Prop :=
  Forall (λ c, c ≠ newline ∧ c ≠ 0) l ∧ (length l + 2 ≤ BUFSIZE)%nat.

Lemma line_no_newline l : grep_line l → no_newline l.
Proof. intros [H _]. eapply Forall_impl; [|exact H]. by intros ? [? _]. Qed.

Lemma split_line_none b : no_newline b → split_line b = None.
Proof.
  induction 1 as [|c b Hc _ IH]; simpl; [done|].
  rewrite (proj2 (Z.eqb_neq c newline)), IH by done. by destruct (c =? 0).
Qed.

Lemma split_line_first l b : grep_line l → split_line (l ++ newline :: b) = Some (l, b).
Proof.
  intros [H _]. induction H as [|c l [Hc Hz] _ IH]; simpl; [done|].
  by rewrite (proj2 (Z.eqb_neq c newline)), (proj2 (Z.eqb_neq c 0)), IH by done.
Qed.

Lemma no_newline_prefix l b c : no_newline l → l = b ++ c → no_newline b.
Proof. intros H ->. by apply Forall_app in H as [? _]. Qed.

(** The inner loop on the first bytes [b] of the text: it deals with the lines
    that are complete in [b] and keeps the rest. *)
Lemma grep_lines_spec pattern rest tl : ∀ ls fuel b,
  b ++ rest = unlines ls ++ tl → Forall grep_line ls → no_newline tl → (length b ≤ fuel)%nat →
  ∃ ls1 ls2 kept, ls = ls1 ++ ls2 ∧
    grep_lines fuel pattern b = (terminated <$> filter (matches pattern) ls1, kept) ∧
    kept ++ rest = unlines ls2 ++ tl ∧ no_newline kept ∧ (length kept ≤ length b)%nat.
Proof.
  assert (Hstop : ∀ ls fuel b, b ++ rest = unlines ls ++ tl → no_newline b →
    ∃ ls1 ls2 kept, ls = ls1 ++ ls2 ∧
      grep_lines fuel pattern b = (terminated <$> filter (matches pattern) ls1, kept) ∧
      kept ++ rest = unlines ls2 ++ tl ∧ no_newline kept ∧ (length kept ≤ length b)%nat).
  { intros ls fuel b E Hb. exists [], ls, b. split; [done|]. split; [|done].
    destruct fuel; simpl; [done|]. by rewrite split_line_none. }
  induction ls as [|l ls IH]; intros fuel b E Hls Htl Hf.
  { apply Hstop; [done|]. eapply no_newline_prefix; [exact Htl|by symmetry]. }
  inversion Hls as [|?? Hl Hls']; subst.
  assert (E' : b ++ rest = l ++ (newline :: unlines ls ++ tl)).
  { rewrite E. unfold unlines, terminated. simpl. by rewrite <- !app_assoc. }
  apply app_eq_app in E' as (k & [(-> & Ek)|(El & _)]); cycle 1.
  { apply Hstop; [done|]. eapply no_newline_prefix; [by apply line_no_newline|exact El]. }
  destruct k as [|x k].
  { apply Hstop; [done|]. rewrite app_nil_r. by apply line_no_newline. }
  injection Ek as <- Ek. rewrite length_app in Hf. simpl in Hf. destruct fuel as [|fuel]; [lia|].
  destruct (IH fuel k (eq_sym Ek) Hls' Htl ltac:(lia)) as (ls1 & ls2 & kept & -> & Hg & H).
  exists (l :: ls1), ls2, kept. split; [done|]. split; [|destruct H as (?&?&?); split_and!; [done|done|rewrite length_app; simpl; lia]].
  cbn [grep_lines]. rewrite split_line_first, Hg by done. rewrite filter_cons. f_equal.
  destruct (decide (matches pattern l)) as [Hm|Hm].
  - by rewrite (proj2 (match_spec _ _) Hm).
  - destruct (match_ pattern l) eqn:Em; [by apply match_spec in Em|done].
Qed.

Lemma read_piece_spec n input : Forall (λ p, p ≠ []) input → ∃ bs input',
  read_piece n input = (bs, input') ∧ bs ++ mjoin input' = mjoin input ∧
  Forall (λ p, p ≠ []) input' ∧ (length bs ≤ n)%nat ∧ (bs = [] → n = 0%nat ∨ input = []).
Proof.
  intros H. destruct input as [|piece input]; simpl; [exists [], []; simpl; split_and!; auto with lia|].
  inversion H as [|?? Hp Hi]; subst.
  destruct (Nat.leb_spec (length piece) n).
  - exists piece, input. split_and!; [done|done|done|lia|done].
  - exists (take n piece), (drop n piece :: input). simpl. split_and!.
    + done.
    + by rewrite app_assoc, take_drop.
    + constructor; [|done]. intros E. apply (f_equal length) in E. rewrite length_drop in E. simpl in E. lia.
    + rewrite length_take. lia.
    + intros E. apply (f_equal length) in E. rewrite length_take in E. simpl in E. left. lia.
Qed.

(** The outer loop, with the bytes [buf] kept so far. *)
Lemma grep_spec pattern tl : no_newline tl → ∀ fuel ls buf input,
  Forall (λ p, p ≠ []) input → buf ++ mjoin input = unlines ls ++ tl → Forall grep_line ls →
  no_newline buf → (length buf < BUFSIZE)%nat → (length (mjoin input) < fuel)%nat →
  grep fuel pattern buf input = Some (terminated <$> filter (matches pattern) ls).
Proof.
  intros Htl. induction fuel as [|fuel IH]; intros ls buf input Hi E Hls Hb Hm Hf; [lia|].
  cbn [grep]. destruct (read_piece_spec (BUFSIZE - length buf - 1) input Hi)
    as (bs & input' & -> & Ei & Hi' & Hbs & Hstop).
  destruct bs as [|x bs].
  { enough (ls = []) as -> by done. destruct ls as [|l ls]; [done|exfalso].
    inversion Hls as [|?? Hl _]; subst. destruct Hl as [Hl Hlen].
    assert (E' : buf ++ mjoin input = l ++ (newline :: unlines ls ++ tl)).
    { rewrite E. unfold unlines, terminated. simpl. by rewrite <- !app_assoc. }
    apply app_eq_app in E' as (k & [(-> & Ek)|(El & Ek)]).
    - destruct k as [|y k].
      + destruct (Hstop eq_refl) as [H0| ->]; [rewrite app_nil_r in *; unfold BUFSIZE in *; lia|done].
      + injection Ek as <- Ek. apply Forall_app in Hb as [_ Hb]. by inversion Hb.
    - destruct (Hstop eq_refl) as [H0| ->]; [subst; rewrite length_app in Hlen; lia|].
      simpl in Ek. destruct k; done. }
  rewrite <- Ei, app_assoc in E. cbn [length app] in *.
  destruct (grep_lines_spec pattern _ tl ls BUFSIZE (buf ++ x :: bs) E Hls Htl) as (ls1 & ls2 & kept & -> & -> & Ek & Hk & Hkl).
  { rewrite length_app. simpl. lia. }
  apply Forall_app in Hls as [_ Hls2].
  rewrite (IH ls2 kept input' Hi' Ek Hls2 Hk).
  - by rewrite (list.filter_app _), fmap_app.
  - rewrite length_app in Hkl. simpl in Hkl. unfold BUFSIZE in *. lia.
  - rewrite <- Ei in Hf. simpl in Hf. rewrite length_app in Hf. lia.
Qed.

(** Once the bytes kept fill the buffer, [read] is asked for 0 bytes and the
    loop ends, whatever is still to come. *)
Lemma grep_full fuel pattern buf input :
  (length buf + 1 = BUFSIZE)%nat → grep (S fuel) pattern buf input = Some [].
Proof.
  intros H. cbn [grep]. replace (BUFSIZE - length buf - 1)%nat with 0%nat by lia.
  destruct input as [|[|x p] input]; done.
Qed.

(** C32: grep prints exactly the terminated lines of its input that match the
    pattern, in order, however [read] cuts the input into pieces, and it ends:
    one read per byte and one for the end is enough fuel.  The lines must have
    no NUL and fit in the buffer; a last line without newline is not printed. *)
Theorem grep_correct pattern input ls tl :
  Forall (λ p, p ≠ []) input → mjoin input = unlines ls ++ tl →
  Forall grep_line ls → no_newline tl →
  grep (S (length (mjoin input))) pattern [] input =
    Some (terminated <$> filter (matches pattern) ls).
Proof. intros Hi E Hls Htl. apply (grep_spec pattern tl); auto; [by constructor|simpl; unfold BUFSIZE; lia]. Qed.

Module GrepDemo.
(** The pattern [^a.*c$] on the lines [abbc], [xabc] and [ac] and a last piece
    [ac] with no newline, in pieces that cut the lines. *)
Definition pattern : list Z := [94; 97; 46; 42; 99; 36].
Definition pieces : list (list Z) := [[97; 98]; [98; 99; 10; 120; 97]; [98; 99; 10; 97; 99; 10; 97]; [99]].
Definition lines : list (list Z) := [[97; 98; 98; 99]; [120; 97; 98; 99]; [97; 99]].
End GrepDemo.

Lemma grep_correct_witness :
  grep 100 GrepDemo.pattern [] GrepDemo.pieces = Some [[97; 98; 98; 99; 10]; [97; 99; 10]] ∧
  grep (S (length (mjoin GrepDemo.pieces))) GrepDemo.pattern [] GrepDemo.pieces =
    Some (terminated <$> filter (matches GrepDemo.pattern) GrepDemo.lines).
Proof.
  split; [reflexivity|]. apply (grep_correct _ _ _ [97; 99]).
  - repeat constructor; discriminate.
  - reflexivity.
  - repeat constructor; (discriminate || (unfold BUFSIZE; simpl; lia)).
  - repeat constructor; discriminate.
Defined.

(** A first line of 1023 bytes or more: nothing of the input is printed. *)
Lemma grep_long_line pattern l input :
  Forall (λ c, c ≠ newline) l → (length l + 1 = BUFSIZE)%nat →
  grep 2 pattern [] (l :: input) = Some [].
Proof.
  intros Hl Hn. remember 1%nat as f eqn:Ef. cbn [grep]. unfold read_piece. simpl (length []).
  destruct (Nat.leb_spec (length l) (BUFSIZE - 0 - 1)); [|lia].
  destruct l as [|x l]; [done|]. rewrite app_nil_l.
  replace (grep_lines BUFSIZE pattern (x :: l)) with (@nil (list Z), x :: l).
  - subst f. by rewrite (grep_full 0) by done.
  - unfold BUFSIZE. cbn [grep_lines]. by rewrite split_line_none.
Qed.
