(* ===== verification/Uprogs.v ===== *)
(** * Small user programs (user/ls.c, init.c, rm.c, mkdir.c, ln.c, kill.c,
    setpriority.c, and main of cat.c, wc.c and grep.c)

    [ls], [cat], [wc] and [grep] only read, so they are functions of what the
    files are: of the pieces that read returns, where read does not fail;
    the programs that change something run against the class [Usys] of the
    system calls they make.  A program is its output and its exit status. *)

From Stdlib Require Import ZArith Lia Ascii String.
From stdpp Require Import base numbers list gmap strings tactics.
From S2P Require Import Prelude Bytes Mem Ftypes Fs PathProps DirProps Printf Ulib Grep.

Local Open Scope Z_scope.

(** The bytes of a string of the program; the line feed is written apart. *)
Definition chars (s : string) : list Z := (λ c, Z.of_N (N_of_ascii c)) <$> list_ascii_of_string s.
Definition line (s : string) : list Z := chars s ++ [10].

(** ** ls.c *)

Record ustat := UStat { st_dev : Z; st_ino : Z; st_type : Z; st_nlink : Z; st_size : Z }.

(** [for(p=path+strlen(path); p >= path && *p != '/'; p--)], on the reversed path. *)
Fixpoint to_slash (rpath : list Z) : list Z :=
  match rpath with c :: r => if c =? slash then [] else c :: to_slash r | [] => [] end.
Definition fmtname (path : list Z) : list Z :=
  let p := reverse (to_slash (reverse path)) in
  if (DIRSIZ <=? length p)%nat then p else p ++ replicate (DIRSIZ - length p) 32.

(** A call of printf or fprintf: the descriptor and the bytes. *)
Definition output := list (Z * list Z).
Definition print (fd : Z) (fmt : list Z) (args : list arg) : option output :=
  bs ← vprintf fmt false args; Some [(fd, bs)].

Section ls.
(** What open finds: what fstat answers on the descriptor, and the bytes that
    reading it gives. *)
Context (opens : list Z → option (option ustat * list Z)).

(** stat of ulib.c *)
Definition stat (n : list Z) : option ustat :=
  match opens n with Some (st, _) => st | None => None end.

Definition ls_entry (path de : list Z) : option output :=
  if de_inum de =? 0 then Some []
  else
    let buf := path ++ [slash] ++ name_string DIRSIZ (de_name de) in
    match stat buf with
    | None => print 1 (line "ls: cannot stat %s") [AStr (Some buf)]
    | Some st => print 1 (line "%s %d %d %d") [AStr (Some (fmtname buf)); AInt (st_type st); AInt (s32 (st_ino st)); AInt (s32 (st_size st))]
    end.
(** [while(read(fd, &de, sizeof(de)) == sizeof(de))] *)
Fixpoint ls_entries (fuel : nat) (path x : list Z) : option output :=
  match fuel with
  | O => Some []
  | S fuel =>
      if (length x <? 16)%nat then Some []
      else
        o1 ← ls_entry path (take 16 x);
        o2 ← ls_entries fuel path (drop 16 x);
        Some (o1 ++ o2)
  end.

Definition ls (path : list Z) : option output :=
  match opens path with
  | None => print 2 (line "ls: cannot open %s") [AStr (Some path)]
  | Some (None, _) => print 2 (line "ls: cannot stat %s") [AStr (Some path)]
  | Some (Some st, x) =>
      if (st_type st =? T_DEVICE) || (st_type st =? T_FILE) then
        print 1 (line "%s %d %d %l") [AStr (Some (fmtname path)); AInt (st_type st); AInt (s32 (st_ino st)); ALong (st_size st)]
      else if st_type st =? T_DIR then
        if (512 <? length path + 1 + DIRSIZ + 1)%nat then print 1 (line "ls: path too long") []
        else ls_entries (length x) path x
      else Some []
  end.

Fixpoint ls_all (paths : list (list Z)) : option output :=
  match paths with
  | [] => Some []
  | p :: paths => o1 ← ls p; o2 ← ls_all paths; Some (o1 ++ o2)
  end.
Definition ls_main (argv : list (list Z)) : option output :=
  match argv with
  | _ :: paths => if (length argv <? 2)%nat then ls (chars ".") else ls_all paths
  | [] => ls (chars ".")
  end.
End ls.

(** ** main of cat.c, wc.c and grep.c *)

Section filters.
(** The pieces that read returns of an open file, and of descriptor 0. *)
Context (pieces_of : list Z → option (list (list Z))) (stdin : list (list Z)).

(** [for(i = ...; i < argc; i++)] of the three programs: the output and the
    exit status; [run] handles one open file and answers whether to go on. *)
Fixpoint open_each (fd : Z) (cannot : list Z) (run : list Z → list (list Z) → option (output * bool))
    (files : list (list Z)) : option (output * Z) :=
  match files with
  | [] => Some ([], 0)
  | x :: files =>
      match pieces_of x with
      | None => o ← print fd cannot [AStr (Some x)]; Some (o, 1)
      | Some input =>
          '(o1, go) ← run x input;
          if negb go then Some (o1, 1)
          else '(o2, status) ← open_each fd cannot run files; Some (o1 ++ o2, status)
      end
  end.

(** Each write of cat goes to descriptor 1. *)
Definition cat_file (write_ok : list Z → bool) (name : list Z) (input : list (list Z)) : option (output * bool) :=
  let '(out, ok) := cat write_ok input in
  if ok then Some (pair 1 <$> out, true)
  else o ← print 2 (line "cat: write error") []; Some ((pair 1 <$> out) ++ o, false).
Definition cat_main (write_ok : list Z → bool) (argv : list (list Z)) : option (output * Z) :=
  if (length argv <=? 1)%nat then
    '(o, ok) ← cat_file write_ok [] stdin; Some (o, if ok : bool then 0 else 1)
  else open_each 2 (line "cat: cannot open %s") (cat_file write_ok) (drop 1 argv).

Definition wc_file (name : list Z) (input : list (list Z)) : option (output * bool) :=
  let s := wc (Counts 0 0 0 false) input in
  o ← print 1 (line "%d %d %d %s") [AInt (wl s); AInt (ww s); AInt (wc_ s); AStr (Some name)];
  Some (o, true).
Definition wc_main (argv : list (list Z)) : option (output * Z) :=
  if (length argv <=? 1)%nat then '(o, _) ← wc_file [] stdin; Some (o, 0)
  else open_each 1 (line "wc: cannot open %s") wc_file (drop 1 argv).

Definition grep_file (pattern : list Z) (name : list Z) (input : list (list Z)) : option (output * bool) :=
  match grep (S (length (mjoin input))) pattern [] input with
  | Some out => Some (pair 1 <$> out, true)
  | None => None
  end.
Definition grep_main (argv : list (list Z)) : option (output * Z) :=
  match argv with
  | _ :: pattern :: files =>
      if (length argv <=? 2)%nat then '(o, _) ← grep_file pattern [] stdin; Some (o, 0)
      else open_each 1 (line "grep: cannot open %s") (grep_file pattern) files
  | _ => o ← print 2 (line "usage: grep pattern [file ...]") []; Some (o, 1)
  end.
End filters.

(** ** init.c *)

(** The system call init is at; [IExec] is the child. *)
Inductive init_state :=
  | IOpen | IMknod | IReopen | IStdout | IStderr
  | IFork | IExec | IWait (pid : Z) | IExit (status : Z).
(** What init does with the answer of the call. *)
Definition init_step (s : init_state) (answer : Z) : init_state :=
  match s with
  | IOpen => if answer <? 0 then IMknod else IStdout
  | IMknod => IReopen
  | IReopen => IStdout
  | IStdout => IStderr
  | IStderr => IFork
  | IFork => if answer <? 0 then IExit 1 else if answer =? 0 then IExec else IWait answer
  | IExec => IExit 1
  | IWait pid => if answer =? pid then IFork else if answer <? 0 then IExit 1 else IWait pid
  | IExit status => IExit status
  end.
(** What it prints between that call and the next. *)
Definition init_says (s : init_state) (answer : Z) : list Z :=
  match s, init_step s answer with
  | (IStderr | IWait _), IFork => line "init: starting sh"
  | IFork, IExit _ => line "init: fork failed"
  | IExec, IExit _ => line "init: exec sh failed"
  | IWait _, IExit _ => line "init: wait returned an error"
  | _, _ => []
  end.
Definition init_run (answers : list Z) : init_state := foldl init_step IOpen answers.

(** ** Programs that call the kernel for each argument *)

Class Usys (W : Type) := {
  u_write : Z → list Z → M W Z;
  u_unlink : list Z → M W Z;
  u_mkdir : list Z → M W Z;
  u_link : list Z → list Z → M W Z;
  u_kill : Z → M W Z;
  u_set_priority : Z → Z → M W Z;
}.

Section programs.
Context {W : Type} `{!Usys W}.

(** putc of printf.c: one write per byte. *)
Definition say (fd : Z) (fmt : list Z) (args : list arg) : M W unit :=
  match vprintf fmt false args with
  | Some bs => for_each bs (λ c, u_write fd [c] ;;; ret tt)
  | None => fault "printf"
  end.

(** Apply [f] to the files until it fails. *)
Fixpoint each_file (f : list Z → M W Z) (msg : list Z) (files : list (list Z)) : M W unit :=
  match files with
  | [] => ret tt
  | x :: files =>
      let* r := f x in
      if r <? 0 then say 2 msg [AStr (Some x)] else each_file f msg files
  end.

Definition rm_main (argv : list (list Z)) : M W Z :=
  if (length argv <? 2)%nat then say 2 (line "Usage: rm files...") [] ;;; ret 1
  else each_file u_unlink (line "rm: %s failed to delete") (drop 1 argv) ;;; ret 0.
Definition mkdir_main (argv : list (list Z)) : M W Z :=
  if (length argv <? 2)%nat then say 2 (line "Usage: mkdir files...") [] ;;; ret 1
  else each_file u_mkdir (line "mkdir: %s failed to create") (drop 1 argv) ;;; ret 0.
Definition ln_main (argv : list (list Z)) : M W Z :=
  match argv with
  | [_; old; new] =>
      let* r := u_link old new in
      (if r <? 0 then say 2 (line "link %s %s: failed") [AStr (Some old); AStr (Some new)] else ret tt) ;;;
      ret 0
  | _ => say 2 (line "Usage: ln old new") [] ;;; ret 1
  end.
Definition kill_main (argv : list (list Z)) : M W Z :=
  if (length argv <? 2)%nat then say 2 (line "usage: kill pid...") [] ;;; ret 1
  else for_each (drop 1 argv) (λ a, u_kill (atoi a) ;;; ret tt) ;;; ret 0.
Definition setpriority_main (argv : list (list Z)) : M W Z :=
  match argv with
  | [_; a; b] =>
      let priority := atoi a in
      let pid := atoi b in
      let* oldpriority := u_set_priority priority pid in
      if oldpriority =? -1 then ret 1
      else
        say 1 (line "Priority updated from %d to %d for the process %d") [AInt oldpriority; AInt priority; AInt pid] ;;;
        ret 0
  | _ => say 2 (line "Format -> setpriority priority pid") [] ;;; ret 1
  end.
End programs.

(** ** What ls prints *)

Definition pad (nm : list Z) : list Z := nm ++ replicate (DIRSIZ - length nm) 32.
Definition decimal (x : Z) : list Z := default [] (printint user_digits x 10 true).

Lemma to_slash_stop l r : slash ∉ l → to_slash (l ++ slash :: r) = l.
Proof.
  induction l as [|c l IH]; intros H; cbn; [done|]. apply not_elem_of_cons in H as [Hc H].
  rewrite (proj2 (Z.eqb_neq c slash)) by done. by rewrite IH.
Qed.
Lemma fmtname_entry d nm : slash ∉ nm → fmtname (d ++ [slash] ++ nm) = pad nm.
Proof.
  intros H. unfold fmtname, pad. rewrite !reverse_app, <- app_assoc. change (reverse [slash] ++ reverse d) with (slash :: reverse d).
  rewrite to_slash_stop by (by rewrite elem_of_reverse). rewrite reverse_involutive. destruct (Nat.leb_spec DIRSIZ (length nm)); [|done].
  replace (DIRSIZ - length nm)%nat with 0%nat by lia. by rewrite app_nil_r.
Qed.
Lemma decimal_some x : - 2^31 ≤ x < 2^31 → printint user_digits x 10 true = Some (decimal x).
Proof.
  intros Hx. destruct (printint_spec user_digits user_table x 10 true ltac:(by left) Hx) as (l & E & _). unfold decimal. by rewrite E.
Qed.

Lemma print_line nm a b c : - 2^31 ≤ a < 2^31 → - 2^31 ≤ b < 2^31 → - 2^31 ≤ c < 2^31 →
  print 1 (line "%s %d %d %d") [AStr (Some nm); AInt a; AInt b; AInt c] =
    Some [(1, nm ++ 32 :: decimal a ++ 32 :: decimal b ++ 32 :: decimal c ++ [10])].
Proof.
  intros Ha Hb Hc. unfold print. change (line "%s %d %d %d") with [37; 115; 32; 37; 100; 32; 37; 100; 32; 37; 100; 10].
  cbn [vprintf negb Z.eqb Pos.eqb user_conversion str_arg int_arg str_bytes default mbind option_bind].
  repeat (rewrite decimal_some by done; cbn [mbind option_bind int_arg]). cbn [out_then mbind option_bind].
  cbn [app id]. by rewrite <- ?app_assoc.
Qed.
Lemma print_failed buf : print 1 (line "ls: cannot stat %s") [AStr (Some buf)] = Some [(1, chars "ls: cannot stat " ++ buf ++ [10])].
Proof. reflexivity. Qed.

Section lists.
Context (opens : list Z → option (option ustat * list Z)) (path : list Z).
(** The line for an entry of the directory. *)
Definition ls_line (e : entry) : Z * list Z :=
  (1, match stat opens (path ++ [slash] ++ e.2) with
      | None => chars "ls: cannot stat " ++ (path ++ [slash] ++ e.2) ++ [10]
      | Some s => pad e.2 ++ 32 :: decimal (st_type s) ++ 32 :: decimal (s32 (st_ino s)) ++ 32 :: decimal (s32 (st_size s)) ++ [10]
      end).
(** Types are shorts. *)
Hypothesis Htype : ∀ p s y, opens p = Some (Some s, y) → - 2^15 ≤ st_type s < 2^15.

Lemma ls_entry_line x : let e := (de_inum x, name_string DIRSIZ (de_name x)) in slash ∉ e.2 →
  ls_entry opens path x = Some (if decide (e.1 = 0) then [] else [ls_line e]).
Proof using Htype.
  intros e Hs. unfold ls_entry. case_decide as E0; simpl in E0; [by rewrite E0|].
  rewrite (proj2 (Z.eqb_neq _ 0)) by done. unfold ls_line. change (e.2) with (name_string DIRSIZ (de_name x)) in *.
  unfold stat. destruct (opens _) as [[[s|] y]|] eqn:Eo; [|apply print_failed..].
  pose proof (Htype _ _ _ Eo). rewrite print_line; [|lia|apply s32_range..]. by rewrite fmtname_entry.
Qed.

Lemma ls_entries_lines fuel : ∀ x, (length x ≤ fuel)%nat → (length x mod 16 = 0)%nat → (∀ e, e ∈ entries x → slash ∉ e.2) →
  ls_entries opens fuel path x = Some (ls_line <$> filter (λ e, e.1 ≠ 0) (entries x)).
Proof using Htype.
  induction fuel as [|fuel IH]; intros x Hl Hm Hs; cbn [ls_entries].
  - destruct x; [done|simpl in Hl; lia].
  - destruct (Nat.ltb_spec (length x) 16) as [H16|H16].
    { rewrite Nat.mod_small in Hm by lia. by destruct x. }
    assert (Ht : length (take 16 x) = 16%nat) by (rewrite length_take; lia).
    assert (Hx : x = take 16 x ++ drop 16 x) by (by rewrite take_drop).
    assert (He : entries x = (de_inum (take 16 x), name_string DIRSIZ (de_name (take 16 x))) :: entries (drop 16 x)).
    { rewrite Hx at 1. by rewrite (entries_app 1), entries_one. }
    rewrite He in Hs |- *. rewrite ls_entry_line by (apply Hs; by left). rewrite IH.
    + cbn [mbind option_bind]. rewrite filter_cons. cbn [fst]. case_decide as E.
      * by rewrite decide_False by tauto.
      * by rewrite decide_True by done.
    + rewrite length_drop. lia.
    + rewrite length_drop. replace (length x) with ((length x - 16) + 1 * 16)%nat in Hm by lia. by rewrite Nat.Div0.mod_add in Hm.
    + intros e Hin. apply Hs. by right.
Qed.

(** [ls] of a directory prints one line for each entry in use, in the order of
    the directory: the name padded to [DIRSIZ], the type, the inode number and
    the size of what the name leads to. *)
Theorem ls_dir_correct st x : opens path = Some (Some st, x) → st_type st = T_DIR → (length path + 16 ≤ 512)%nat →
  (length x mod 16 = 0)%nat → (∀ e, e ∈ entries x → slash ∉ e.2) →
  ls opens path = Some (ls_line <$> filter (λ e, e.1 ≠ 0) (entries x)).
Proof using Htype.
  intros Eo Ht Hp Hm Hs. unfold ls. rewrite Eo, Ht. cbn [orb]. change ((T_DIR =? T_DEVICE) || (T_DIR =? T_FILE)) with false.
  cbv iota. rewrite Z.eqb_refl. rewrite (proj2 (Nat.ltb_ge _ _)) by (unfold DIRSIZ; lia). by apply ls_entries_lines.
Qed.
End lists.

(** ** The loops over the arguments *)

Section loops.
Context (pieces_of : list Z → option (list (list Z))).

(** The loop stops at the first file it cannot open, with status 1; the files
    before it are handled in order. *)
Lemma open_each_spec fd cannot run (f : list Z → list (list Z) → output) files :
  (∀ x input, x ∈ files → pieces_of x = Some input → run x input = Some (f x input, true)) →
  ∃ good rest, files = good ++ rest ∧ Forall (λ x, is_Some (pieces_of x)) good ∧
    let out := mjoin ((λ x, f x (default [] (pieces_of x))) <$> good) in
    match rest with
    | [] => open_each pieces_of fd cannot run files = Some (out, 0)
    | x :: _ => pieces_of x = None ∧
        open_each pieces_of fd cannot run files = (o ← print fd cannot [AStr (Some x)]; Some (out ++ o, 1))
    end.
Proof.
  induction files as [|x files IH]; intros Hr.
  { exists [], []. split_and!; [done|constructor|done]. }
  cbn [open_each]. destruct (pieces_of x) as [input|] eqn:E.
  - destruct IH as (good & rest & -> & Hg & H); [intros y i Hy; apply Hr; set_solver|].
    exists (x :: good), rest. split_and!; [done|constructor; [by rewrite E|done]|].
    rewrite (Hr x input ltac:(set_solver) E). cbn [mbind option_bind negb fmap list_fmap]. rewrite E. cbn [default mjoin list_join id].
    destruct rest as [|y rest]; [by rewrite H|]. destruct H as [Hy H]. split; [done|]. rewrite H.
    destruct (print fd cannot _); cbn [mbind option_bind]; [by rewrite app_assoc|done].
  - exists [], (x :: files). split; [done|]. split; [constructor|]. split; [done|]. by destruct (print fd cannot _).
Qed.

Lemma open_each_all fd cannot run (f : list Z → list (list Z)) files :
  (∀ x, x ∈ files → ∃ input, pieces_of x = Some input ∧ run x input = Some (pair 1 <$> f x, true)) →
  open_each pieces_of fd cannot run files = Some (pair 1 <$> mjoin (f <$> files), 0).
Proof.
  intros Hf. destruct (open_each_spec fd cannot run (λ x _, pair 1 <$> f x) files) as (good & rest & E & Hg & H).
  { intros x input Hx Ei. destruct (Hf x Hx) as (i & Ei' & Hi). by simplify_eq. }
  destruct rest as [|y rest].
  - rewrite app_nil_r in E. subst good. rewrite H. do 2 f_equal. clear. induction files as [|x files IH]; [done|].
    cbn. by rewrite fmap_app; f_equal.
  - destruct H as [Hy _]. destruct (Hf y) as (i & Ei & _); [rewrite E; set_solver|]. congruence.
Qed.

(** When every file can be opened and every write takes its bytes, [cat]
    copies the files to its output one after the other. *)
Theorem cat_main_copies stdin prog files : files ≠ [] →
  (∀ x, x ∈ files → ∃ input, pieces_of x = Some input ∧ Forall (λ p, p ≠ []) input) →
  cat_main pieces_of stdin (λ _, true) (prog :: files) =
    Some (pair 1 <$> mjoin ((λ x, default [] (pieces_of x)) <$> files), 0).
Proof.
  intros Hn Hf. unfold cat_main. rewrite (proj2 (Nat.leb_gt _ _)) by (destruct files; [done|simpl; lia]). cbn [drop].
  apply open_each_all. intros x Hx. destruct (Hf x Hx) as (i & Ei & Hi). exists i. split; [done|].
  unfold cat_file. by rewrite cat_copies, Ei.
Qed.

(** [grep] over files of short terminated lines prints the lines that match,
    of each file in turn. *)
Theorem grep_main_prints stdin prog pattern files (ls : list Z → list (list Z)) : files ≠ [] →
  (∀ x, x ∈ files → ∃ input, pieces_of x = Some input ∧ Forall (λ p, p ≠ []) input ∧
    mjoin input = unlines (ls x) ∧ Forall grep_line (ls x)) →
  grep_main pieces_of stdin (prog :: pattern :: files) =
    Some (pair 1 <$> mjoin ((λ x, terminated <$> filter (matches pattern) (ls x)) <$> files), 0).
Proof.
  intros Hn Hf. unfold grep_main. rewrite (proj2 (Nat.leb_gt _ _)) by (destruct files; [done|simpl; lia]).
  apply open_each_all. intros x Hx. destruct (Hf x Hx) as (i & Ei & Hi & El & Hl). exists i. split; [done|].
  unfold grep_file. rewrite (grep_spec pattern [] ltac:(constructor) _ (ls x)); [done|done| |done|constructor|..].
  - by rewrite app_nil_l, app_nil_r.
  - unfold BUFSIZE. simpl. lia.
  - lia.
Qed.
End loops.

(** ** init keeps a shell running *)

(** The shells that were started, and that ended. *)
Fixpoint shells (s : init_state) (answers : list Z) : nat * nat :=
  match answers with
  | [] => (0, 0)%nat
  | a :: answers =>
      let '(n, m) := shells (init_step s a) answers in
      match s with
      | IFork => if a <? 0 then (n, m) else (S n, m)
      | IWait pid => if a =? pid then (n, S m) else (n, m)
      | _ => (n, m)
      end
  end.

Lemma shells_state answers : ∀ s, Forall (λ a, 0 < a) answers → s = IFork ∨ (∃ pid, s = IWait pid) →
  let '(n, m) := shells s answers in
  match s, foldl init_step s answers with
  | IFork, IFork => n = m
  | IFork, IWait _ => n = S m
  | IWait _, IFork => S n = m
  | IWait _, IWait _ => n = m
  | _, _ => False
  end.
Proof.
  induction answers as [|a answers IH]; intros s Ha Hs; cbn [shells foldl].
  { by destruct Hs as [-> | [pid ->]]. }
  apply list.Forall_cons in Ha as [H0 Ha]. pose proof (IH (init_step s a) Ha) as H. clear IH.
  destruct (shells (init_step s a) answers) as [n m]. destruct Hs as [-> | [pid ->]]; cbn [init_step] in *.
  - rewrite (proj2 (Z.ltb_ge a 0)) in * by lia. rewrite (proj2 (Z.eqb_neq a 0)) in * by lia.
    specialize (H ltac:(right; by eexists)). destruct (foldl _ _ _); lia.
  - destruct (Z.eqb_spec a pid); [specialize (H ltac:(by left)) |
      rewrite (proj2 (Z.ltb_ge a 0)) in * by lia; specialize (H ltac:(right; by eexists))];
      destruct (foldl _ _ _); lia.
Qed.

(** However open, mknod and dup answer, init comes to its first fork. *)
Theorem init_starts a b c d e : ∃ pre, pre `prefix_of` [a; b; c; d; e] ∧ init_run pre = IFork.
Proof.
  destruct (Z.ltb_spec a 0) as [Ha|Ha].
  - exists [a; b; c; d; e]. split; [done|]. cbn. by rewrite (proj2 (Z.ltb_lt a 0)).
  - exists [a; b; c]. split; [by exists [d; e]|]. cbn. by rewrite (proj2 (Z.ltb_ge a 0)).
Qed.

(** From there, as long as fork and wait succeed, init does not end, and a
    shell runs whenever it waits: it starts one more exactly when the last one
    has ended, whatever orphans it reaps in between. *)
Theorem init_keeps_shell pre answers : init_run pre = IFork → Forall (λ a, 0 < a) answers →
  let '(n, m) := shells IFork answers in
  match init_run (pre ++ answers) with
  | IFork => n = m
  | IWait _ => n = S m
  | _ => False
  end.
Proof.
  intros Hp Ha. unfold init_run in *. rewrite foldl_app, Hp.
  apply (shells_state answers IFork Ha). by left.
Qed.

(** ** rm and mkdir *)

Section each.
Context {W : Type} `{!Usys W}.

(** [f] succeeds on each of the files in turn. *)
Inductive handled (f : list Z → M W Z) : list (list Z) → W → W → Prop :=
  | handled_nil w : handled f [] w w
  | handled_cons x files r w w1 w2 : f x w = Ret (r, w1) → 0 ≤ r → handled f files w1 w2 → handled f (x :: files) w w2.

(** rm and mkdir handle the files in order and stop at the first that fails,
    which they name: the files before it are done, those after it are not
    touched. *)
Theorem each_file_stops (f : list Z → M W Z) msg files : (∀ x w, ∃ r w', f x w = Ret (r, w')) → ∀ w,
  ∃ good rest w1, files = good ++ rest ∧ handled f good w w1 ∧
    match rest with
    | [] => each_file f msg files w = Ret (tt, w1)
    | x :: _ => ∃ r w2, f x w1 = Ret (r, w2) ∧ r < 0 ∧ each_file f msg files w = say 2 msg [AStr (Some x)] w2
    end.
Proof.
  intros Hf. induction files as [|x files IH]; intros w.
  { exists [], [], w. split_and!; [done|constructor|done]. }
  destruct (Hf x w) as (r & w' & E). destruct (Z.ltb_spec r 0) as [Hr|Hr].
  - exists [], (x :: files), w. split_and!; [done|constructor|]. exists r, w'. split_and!; [done..|].
    cbn [each_file]. unfold bind. rewrite E. by rewrite (proj2 (Z.ltb_lt r 0)).
  - destruct (IH w') as (good & rest & w1 & -> & H1 & H2). exists (x :: good), rest, w1. split_and!; [done|by econstructor|].
    assert (Es : each_file f msg (x :: good ++ rest) w = each_file f msg (good ++ rest) w').
    { cbn [each_file]. unfold bind. rewrite E. by rewrite (proj2 (Z.ltb_ge r 0)). }
    by destruct rest; rewrite Es.
Qed.
End each.
