(* ===== verification/Shell.v ===== *)
(** * The shell (user/sh.c)

    The recursive-descent parser, [nulterminate] and [runcmd].  A command line
    is the list of its bytes before the NUL; a [char *] into it is an index,
    and [*ps] is the state of the parser.  The characters are ASCII codes. *)

From Stdlib Require Import ZArith Lia.
From stdpp Require Import base numbers list gmap strings tactics.
From S2P Require Import Prelude Ftypes.

Local Open Scope Z_scope.

(** ** Commands

    [W] is the type of a word: a pair of indices (a pointer and its end) as the
    parser builds it, or the string itself. *)

Definition MAXARGS : nat := 10.

Inductive cmd (W : Type) : Type :=
  | EXEC (argv : list W)
  | REDIR (sub : cmd W) (file : W) (mode fd : Z)
  | PIPE (lhs rhs : cmd W)
  | LIST (lhs rhs : cmd W)
  | BACK (sub : cmd W).
Arguments EXEC {W}.
Arguments REDIR {W}.
Arguments PIPE {W}.
Arguments LIST {W}.
Arguments BACK {W}.

Fixpoint cmd_map {V W} (f : V → W) (c : cmd V) : cmd W :=
  match c with
  | EXEC argv => EXEC (f <$> argv)
  | REDIR c file mode fd => REDIR (cmd_map f c) (f file) mode fd
  | PIPE l r => PIPE (cmd_map f l) (cmd_map f r)
  | LIST l r => LIST (cmd_map f l) (cmd_map f r)
  | BACK c => BACK (cmd_map f c)
  end.

Definition span_word : Type := nat * nat.

(** ** Tokens *)

Definition whitespace : list Z := [32; 9; 13; 10; 11].
Definition symbols : list Z := [60; 124; 62; 38; 59; 40; 41].

(** [strchr(s, c) != 0]; the NUL is not found since the loop stops at it. *)
Definition strchr (s : list Z) (c : Z) : bool := existsb (Z.eqb c) s.

Definition is_space (c : Z) : bool := strchr whitespace c.
Definition is_word (c : Z) : bool := negb (strchr whitespace c) && negb (strchr symbols c).

(** How far [while(s < es && f( *s)) s++] goes. *)
Fixpoint span (f : Z → bool) (l : list Z) : nat :=
  match l with
  | [] => 0
  | c :: l => if f c then S (span f l) else 0
  end.

Section parser.
Context (line : list Z).

Definition at_ (p : nat) : Z := default 0 (line !! p).
Definition skip (p : nat) : nat := (p + span is_space (drop p line))%nat.

(** The [switch] of [gettoken] at the first byte of a token. *)
Definition token_at (s : nat) : Z * nat :=
  let c := at_ s in
  if c =? 0 then (0, s)
  else if strchr [124; 40; 41; 59; 38; 60] c then (c, S s)
  else if c =? 62 then
    if at_ (S s) =? 62 then (43, S (S s)) else (62, S s)
  else (97, (s + span is_word (drop s line))%nat).

Definition gettoken : M nat (Z * span_word) :=
  let* s := get in
  let q := skip s in
  let '(tok, eq) := token_at q in
  put (skip eq) ;;;
  ret (tok, (q, eq)).

Definition peek (toks : list Z) : M nat bool :=
  let* s := get in
  put (skip s) ;;;
  ret (negb (at_ (skip s) =? 0) && strchr toks (at_ (skip s))).

(** ** The parser *)

Definition redir_node (tok : Z) (c : cmd span_word) (file : span_word) : cmd span_word :=
  if tok =? 60 then REDIR c file O_RDONLY 0
  else if tok =? 62 then REDIR c file (Z.lor (Z.lor O_WRONLY O_CREATE) O_TRUNC) 1
  else if tok =? 43 then REDIR c file (Z.lor O_WRONLY O_CREATE) 1
  else c.

Fixpoint parseredirs (fuel : nat) (c : cmd span_word) : M nat (cmd span_word) :=
  match fuel with
  | O => λ _, NoFuel
  | S fuel =>
      let* more := peek [60; 62] in
      if more then
        let* (tok, _) := gettoken in
        let* (tok1, file) := gettoken in
        if negb (tok1 =? 97) then panic "missing file for redirection"
        else parseredirs fuel (redir_node tok c file)
      else ret c
  end.

(** [cmd->argv[argc] = q; cmd->eargv[argc] = eq], where [cmd] points to the
    EXEC node inside the tree [ret], under the redirections read so far. *)
Fixpoint add_arg (c : cmd span_word) (w : span_word) : cmd span_word :=
  match c with
  | EXEC argv => EXEC (argv ++ [w])
  | REDIR c file mode fd => REDIR (add_arg c w) file mode fd
  | c => c
  end.

(** The argument loop of [parseexec]. *)
Fixpoint parse_args (fuel rfuel argc : nat) (c : cmd span_word) : M nat (cmd span_word) :=
  match fuel with
  | O => λ _, NoFuel
  | S fuel =>
      let* stop := peek [124; 41; 38; 59] in
      if stop then ret c
      else
        let* (tok, w) := gettoken in
        if tok =? 0 then ret c
        else if negb (tok =? 97) then panic "syntax"
        else
          let c := add_arg c w in
          if (MAXARGS <=? S argc)%nat then panic "too many args"
          else
            let* c := parseredirs rfuel c in
            parse_args fuel rfuel (S argc) c
  end.

(** The [&] loop of [parseline]. *)
Fixpoint parse_backs (fuel : nat) (c : cmd span_word) : M nat (cmd span_word) :=
  match fuel with
  | O => λ _, NoFuel
  | S fuel =>
      let* more := peek [38] in
      if more then gettoken ;;; parse_backs fuel (BACK c) else ret c
  end.

(** A loop makes at most one round per byte of the line and one for its end. *)
Definition loop_fuel : nat := S (length line).

Fixpoint parseline (fuel : nat) : M nat (cmd span_word) :=
  match fuel with
  | O => λ _, NoFuel
  | S fuel =>
      let* c := parsepipe fuel in
      let* c := parse_backs loop_fuel c in
      let* more := peek [59] in
      if more then
        gettoken ;;;
        let* r := parseline fuel in
        ret (LIST c r)
      else ret c
  end
with parsepipe (fuel : nat) : M nat (cmd span_word) :=
  match fuel with
  | O => λ _, NoFuel
  | S fuel =>
      let* c := parseexec fuel in
      let* more := peek [124] in
      if more then
        gettoken ;;;
        let* r := parsepipe fuel in
        ret (PIPE c r)
      else ret c
  end
with parseexec (fuel : nat) : M nat (cmd span_word) :=
  match fuel with
  | O => λ _, NoFuel
  | S fuel =>
      let* block := peek [40] in
      if block then parseblock fuel
      else
        let* c := parseredirs loop_fuel (EXEC []) in
        parse_args MAXARGS loop_fuel 0 c
  end
with parseblock (fuel : nat) : M nat (cmd span_word) :=
  match fuel with
  | O => λ _, NoFuel
  | S fuel =>
      let* more := peek [40] in
      if negb more then panic "parseblock"
      else
        gettoken ;;;
        let* c := parseline fuel in
        let* more := peek [41] in
        if negb more then panic "syntax - missing )"
        else
          gettoken ;;;
          parseredirs loop_fuel c
  end.

(** Writes to the line, with its NUL; [None] is a write outside it. *)
Definition put_nul (p : nat) (buf : list Z) : option (list Z) :=
  if (p <? length buf)%nat then Some (<[p := 0]> buf) else None.

Fixpoint nulterminate_args (argv : list span_word) (buf : list Z) : option (list Z) :=
  match argv with
  | [] => Some buf
  | (_, eq) :: argv => b ← put_nul eq buf; nulterminate_args argv b
  end.

Fixpoint nulterminate (c : cmd span_word) (buf : list Z) : option (list Z) :=
  match c with
  | EXEC argv => nulterminate_args argv buf
  | REDIR c (_, efile) _ _ => b ← nulterminate c buf; put_nul efile b
  | PIPE l r | LIST l r => b ← nulterminate l buf; nulterminate r b
  | BACK c => nulterminate c buf
  end.

(** Four calls deep for each byte of the line, and for its end. *)
Definition parse_fuel : nat := (4 * S (length line))%nat.

(** The tree and the line as [parsecmd] leaves them. *)
Definition parsecmd : outcome (cmd span_word * list Z) :=
  let m :=
    let* c := parseline parse_fuel in
    peek [] ;;;
    let* s := get in
    if negb (s =? length line)%nat then panic "syntax" else ret c in
  match m 0%nat with
  | Ret (c, _) =>
      match nulterminate c (line ++ [0]) with
      | Some buf => Ret (c, buf)
      | None => Fault "nulterminate"
      end
  | Panic msg => Panic msg
  | Fault msg => Fault msg
  | NoFuel => NoFuel
  | Block => Block
  end.
End parser.

(** The C string at index [p] of a buffer. *)
Definition cstring (buf : list Z) (p : nat) : list Z :=
  take (span (λ c, negb (c =? 0)) (drop p buf)) (drop p buf).
(** The command as [runcmd] sees it: every pointer is the string it points to. *)
Definition command (r : cmd span_word * list Z) : cmd (list Z) :=
  cmd_map (λ w, cstring r.2 w.1) r.1.

(** ** Running a command

    [runcmd] as the tree of the system calls a process makes, by the results
    it gets from the kernel.  [Exec] goes on only when the call fails. *)

Inductive prog : Type :=
  | Exit (status : Z)
  | Exec (argv : list (list Z)) (failed : prog)
  | Close (fd : Z) (k : prog)
  | Open (file : list Z) (mode : Z) (k : Z → prog)
  | Dup (fd : Z) (k : Z → prog)
  | Pipe (k : option (Z * Z) → prog)
  | Fork (k : Z → prog)
  | Wait (k : prog)
  | Chdir (path : list Z) (k : Z → prog)
  | Print (k : prog).

Definition sh_panic : prog := Print (Exit 1).
Definition fork1 (k : Z → prog) : prog := Fork (λ pid, if pid =? -1 then sh_panic else k pid).

Fixpoint runcmd (c : cmd (list Z)) : prog :=
  match c with
  | EXEC argv =>
      match argv with
      | [] => Exit 1
      | _ :: _ => Exec argv (Print (Exit 0))
      end
  | REDIR c file mode fd =>
      Close fd (Open file mode (λ r, if r <? 0 then Print (Exit 1) else runcmd c))
  | LIST l r =>
      fork1 (λ pid, if pid =? 0 then runcmd l else Wait (runcmd r))
  | PIPE l r =>
      Pipe (λ p,
        match p with
        | None => sh_panic
        | Some (p0, p1) =>
            fork1 (λ pid,
              if pid =? 0 then Close 1 (Dup p1 (λ _, Close p0 (Close p1 (runcmd l))))
              else fork1 (λ pid,
                if pid =? 0 then Close 0 (Dup p0 (λ _, Close p0 (Close p1 (runcmd r))))
                else Close p0 (Close p1 (Wait (Wait (Exit 0))))))
        end)
  | BACK c =>
      fork1 (λ pid, if pid =? 0 then runcmd c else Exit 0)
  end.

(** One round of the loop of [main] on the line [buf]; [k] is the next round. *)
Definition main_line (buf : list Z) (k : prog) : prog :=
  match buf with
  | 99 :: 100 :: 32 :: path =>
      Chdir (take (length path - 1) path) (λ r, if r <? 0 then Print k else k)
  | _ =>
      fork1 (λ pid,
        if pid =? 0 then
          match parsecmd buf with
          | Ret r => runcmd (command r)
          | _ => sh_panic
          end
        else Wait k)
  end.
