(* ===== verification/ShellParse.v ===== *)
(** * The shell's parser is total and its words are well formed

    Rules for computations that may panic, the tokenizer, and one pass over the
    parser that shows at once that the fuel suffices, that the position stays
    in the line and that every node of the tree is well formed. *)

From Stdlib Require Import ZArith Lia.
From stdpp Require Import base numbers list gmap strings tactics.
From S2P Require Import Prelude Ftypes Shell.

Local Open Scope Z_scope.

(** ** Computations that may panic *)

Definition safe {S A} (m : M S A) (Q : A → S → Prop) (s : S) : Prop :=
  match m s with
  | Ret (a, s') => Q a s'
  | Panic _ => True
  | _ => False
  end.

Lemma safe_bind {S A B} (m : M S A) (f : A → M S B) Q s :
  safe m (λ a s', safe (f a) Q s') s → safe (bind m f) Q s.
Proof. unfold safe, bind. by destruct (m s) as [[a s']| | | |]. Qed.

Lemma safe_mono {S A} (m : M S A) (P Q : A → S → Prop) s :
  safe m P s → (∀ a s', P a s' → Q a s') → safe m Q s.
Proof. unfold safe. intros H HPQ. destruct (m s) as [[a s']| | | |]; auto. Qed.

Lemma safe_panic {S A} msg (Q : A → S → Prop) s : safe (panic msg) Q s.
Proof. done. Qed.

(** After a call with specification [H], with its result and state named. *)
Tactic Notation "safe_call" uconstr(H) := apply safe_bind; eapply safe_mono; [eapply H|cbv beta].

(** ** Well-formed commands *)

Definition redir_kind (mode fd : Z) : Prop :=
  (mode = O_RDONLY ∧ fd = 0) ∨
  (mode = Z.lor (Z.lor O_WRONLY O_CREATE) O_TRUNC ∧ fd = 1) ∨
  (mode = Z.lor O_WRONLY O_CREATE ∧ fd = 1).

(** The argument vector leaves room for the null pointer at its end. *)
Fixpoint cmd_ok {W} (P : W → Prop) (c : cmd W) : Prop :=
  match c with
  | EXEC argv => Forall P argv ∧ (length argv < MAXARGS)%nat
  | REDIR c file mode fd => cmd_ok P c ∧ P file ∧ redir_kind mode fd
  | PIPE l r | LIST l r => cmd_ok P l ∧ cmd_ok P r
  | BACK c => cmd_ok P c
  end.

(** The number of arguments of an EXEC node under redirections. *)
Fixpoint argc_of {W} (c : cmd W) : option nat :=
  match c with
  | EXEC argv => Some (length argv)
  | REDIR c _ _ _ => argc_of c
  | _ => None
  end.

Lemma add_arg_ok P c w n :
  cmd_ok P c → argc_of c = Some n → P w → (S n < MAXARGS)%nat →
  cmd_ok P (add_arg c w) ∧ argc_of (add_arg c w) = Some (S n).
Proof.
  intros Hc Hn Hw Hlt. induction c as [argv|c IH f m d| | |]; simpl in *; try done.
  - injection Hn as <-. rewrite length_app, Nat.add_comm. simpl. split_and!; [|lia|done].
    apply Forall_app. split; [apply Hc|by constructor].
  - destruct Hc as (Hc & Hf). destruct (IH Hc Hn). tauto.
Qed.

Lemma redir_node_ok P tok c file :
  cmd_ok P c → P file → cmd_ok P (redir_node tok c file) ∧ argc_of (redir_node tok c file) = argc_of c.
Proof. intros Hc Hf. unfold redir_node, redir_kind. repeat case_match; simpl; unfold redir_kind; tauto. Qed.

(** ** Tokens *)

Lemma span_le f l : (span f l ≤ length l)%nat.
Proof. induction l as [|c l IH]; simpl; [lia|]. destruct (f c); simpl; lia. Qed.

Lemma span_forall f l : Forall (λ c, f c = true) (take (span f l) l).
Proof. induction l as [|c l IH]; simpl; [done|]. destruct (f c) eqn:E; simpl; by constructor. Qed.

Lemma span_end f l c : l !! span f l = Some c → f c = false.
Proof. induction l as [|x l IH]; simpl; [done|]. destruct (f x) eqn:E; [done|]. simpl. congruence. Qed.

Section parser_ok.
Context (line : list Z).
Local Abbreviation es := (length line).

(** A word: maximal, not empty, inside the line. *)
Definition word_at (w : span_word) : Prop :=
  (w.1 < w.2 ≤ es)%nat ∧
  (∀ i, (w.1 ≤ i < w.2)%nat → is_word (at_ line i) = true) ∧
  ((w.2 < es)%nat → is_word (at_ line w.2) = false).

Lemma at_drop p i : at_ line (p + i) = default 0 (drop p line !! i).
Proof. unfold at_. by rewrite lookup_drop. Qed.

Lemma at_in p : at_ line p ≠ 0 → (p < es)%nat.
Proof.
  unfold at_. destruct (line !! p) eqn:E; [|done]. intros _. by apply lookup_lt_Some in E.
Qed.

Lemma span_range f p : (p ≤ es)%nat → (p ≤ p + span f (drop p line) ≤ es)%nat.
Proof. intros H. pose proof (span_le f (drop p line)) as Hs. rewrite length_drop in Hs. lia. Qed.

Lemma span_stop f p : (p + span f (drop p line) < es)%nat → f (at_ line (p + span f (drop p line))) = false.
Proof.
  intros H. rewrite at_drop. destruct (drop p line !! span f (drop p line)) eqn:E; simpl.
  - by eapply span_end.
  - apply lookup_ge_None in E. rewrite length_drop in E. lia.
Qed.

Lemma span_inside f p i : (p ≤ i < p + span f (drop p line))%nat → f (at_ line i) = true.
Proof.
  intros H. replace i with (p + (i - p))%nat by lia. rewrite at_drop.
  pose proof (span_forall f (drop p line)) as Hf. rewrite Forall_lookup in Hf.
  destruct (drop p line !! (i - p)%nat) as [c|] eqn:E.
  - simpl. apply (Hf (i - p)%nat). rewrite lookup_take_lt; [done|lia].
  - apply lookup_ge_None in E. pose proof (span_le f (drop p line)). lia.
Qed.

Lemma skip_range p : (p ≤ es)%nat → (p ≤ skip line p ≤ es)%nat.
Proof. apply span_range. Qed.

Lemma skip_not_space p : is_space (at_ line (skip line p)) = false.
Proof.
  destruct (decide (skip line p < es)%nat); [by apply span_stop|].
  unfold at_. by rewrite lookup_ge_None_2 by lia.
Qed.

Lemma token_at_spec s :
  (s ≤ es)%nat → is_space (at_ line s) = false →
  let '(tok, eq) := token_at line s in
  (s ≤ eq ≤ es)%nat ∧ (at_ line s ≠ 0 → (s < eq)%nat) ∧ (tok = 97 → word_at (s, eq)) ∧
  (tok = 0 → at_ line s = 0).
Proof.
  intros Hs Hsp. unfold token_at. destruct (Z.eqb_spec (at_ line s) 0) as [E0|H0]; [naive_solver lia|].
  pose proof (at_in _ H0).
  destruct (strchr [124; 40; 41; 59; 38; 60] (at_ line s)) eqn:Es.
  { split_and!; try lia; intros E; rewrite E in Es; done. }
  destruct (Z.eqb_spec (at_ line s) 62) as [E62|H62].
  { destruct (Z.eqb_spec (at_ line (S s)) 62) as [E|]; [|split_and!; lia].
    assert (at_ line (S s) ≠ 0) as ?%at_in by lia. split_and!; lia. }
  assert (Hw : is_word (at_ line s) = true).
  { unfold is_word, is_space in *. rewrite Hsp. simpl. cbn [strchr existsb symbols] in *.
    rewrite !orb_false_iff in Es. rewrite negb_true_iff, !orb_false_iff, !Z.eqb_neq in *. tauto. }
  pose proof (span_range is_word s Hs) as Hr.
  assert (0 < span is_word (drop s line))%nat as Hpos.
  { destruct (span is_word (drop s line)) eqn:E; [|lia]. exfalso.
    pose proof (span_stop is_word s) as Hx. rewrite E, Nat.add_0_r in Hx. rewrite Hx in Hw; [done|lia]. }
  split_and!; try lia. intros _. split_and!; cbn [fst snd]; try lia.
  - apply span_inside.
  - apply span_stop.
Qed.

Lemma gettoken_spec s (Q : Z * span_word → nat → Prop) :
  (s ≤ es)%nat →
  (∀ tok w s', (s ≤ s' ≤ es)%nat → (at_ line (skip line s) ≠ 0 → (s < s')%nat) →
     (tok = 97 → word_at w) → (tok = 0 → at_ line (skip line s) = 0) → Q (tok, w) s') →
  safe (gettoken line) Q s.
Proof.
  intros Hs HQ. unfold gettoken, safe, bind, get, put, ret. cbv beta iota.
  pose proof (skip_range s Hs) as Hr.
  pose proof (token_at_spec (skip line s) ltac:(lia) (skip_not_space s)) as Ht.
  destruct (token_at line (skip line s)) as [tok eq]. destruct Ht as (H1 & H2 & H3 & H4).
  pose proof (skip_range eq ltac:(lia)). apply HQ; [lia|intros ?%H2; lia|done|done].
Qed.

Lemma peek_spec s toks (Q : bool → nat → Prop) :
  (s ≤ es)%nat →
  (∀ b, (b = true → at_ line (skip line s) ≠ 0) → Q b (skip line s)) →
  safe (peek line toks) Q s.
Proof.
  intros Hs HQ. unfold peek, safe, bind, get, put, ret. cbv beta iota. apply HQ.
  intros [H%negb_true_iff _]%andb_true_iff. by apply Z.eqb_neq in H.
Qed.

Lemma skip_skip p : (p ≤ es)%nat → skip line (skip line p) = skip line p.
Proof.
  intros Hp. unfold skip at 1. destruct (drop (skip line p) line) as [|c l] eqn:E; [simpl; lia|].
  pose proof (skip_not_space p) as H. rewrite <- (Nat.add_0_r (skip line p)), at_drop, E in H.
  simpl in *. rewrite H. lia.
Qed.

(** [peek], then the token it announced: the position grows. *)
Lemma peek_token {A} s toks (k1 : Z * span_word → M nat A) (k2 : M nat A) Q :
  (s ≤ es)%nat →
  (∀ tok w s', (s < s' ≤ es)%nat → safe (k1 (tok, w)) Q s') →
  (∀ s', (s ≤ s' ≤ es)%nat → safe k2 Q s') →
  safe (let* b := peek line toks in if b then bind (gettoken line) k1 else k2) Q s.
Proof.
  intros Hs H1 H2. apply safe_bind, peek_spec; [done|]. intros b Hb. pose proof (skip_range s Hs).
  destruct b; [|apply H2; lia]. apply safe_bind, gettoken_spec; [lia|].
  intros tok w s' Hr Hlt _ _. apply H1. rewrite skip_skip in Hlt by done. specialize (Hlt (Hb eq_refl)). lia.
Qed.

Lemma peek_or_panic {A} s toks msg (k : Z * span_word → M nat A) Q :
  (s ≤ es)%nat → (∀ tok w s', (s < s' ≤ es)%nat → safe (k (tok, w)) Q s') →
  safe (let* b := peek line toks in if negb b then panic msg else bind (gettoken line) k) Q s.
Proof.
  intros Hs H. pose proof (peek_token s toks k (panic msg) Q Hs H (λ _ _, I)) as Hp.
  unfold safe, bind in *. destruct (peek line toks s) as [[[] s']| | | |]; done.
Qed.

(** ** The parser *)

Definition parsed (s : nat) (c : cmd span_word) (s' : nat) : Prop :=
  (s ≤ s' ≤ es)%nat ∧ cmd_ok word_at c.

Lemma parseredirs_safe fuel : ∀ s c,
  (s ≤ es)%nat → (es - s < fuel)%nat → cmd_ok word_at c →
  safe (parseredirs line fuel c) (λ c' s', parsed s c' s' ∧ argc_of c' = argc_of c) s.
Proof.
  induction fuel as [|fuel IH]; intros s c Hs Hf Hc; [lia|]. cbn [parseredirs].
  apply peek_token; [done| |].
  - intros tok w s1 H1. apply safe_bind, gettoken_spec; [lia|].
    intros tok1 file s2 H2 _ Hw _. destruct (Z.eqb_spec tok1 97) as [E|]; simpl; [|apply safe_panic].
    destruct (redir_node_ok word_at tok c file Hc (Hw E)) as [Hc' Hn].
    eapply safe_mono; [apply IH; [lia|lia|done]|]. unfold parsed. intros c1 s3 ((? & ?) & ->). split_and!; [lia|lia|done|done].
  - intros s1 H1. unfold safe, parsed; simpl. split_and!; [lia|lia|done|done].
Qed.

Lemma parse_args_safe fuel rfuel : ∀ argc s c,
  (s ≤ es)%nat → (es < rfuel)%nat → (MAXARGS ≤ argc + fuel)%nat → (argc < MAXARGS)%nat →
  cmd_ok word_at c → argc_of c = Some argc →
  safe (parse_args line fuel rfuel argc c) (parsed s) s.
Proof.
  induction fuel as [|fuel IH]; intros argc s c Hs Hr Hf Ha Hc Hn; [lia|]. cbn [parse_args].
  pose proof (skip_range s Hs) as Hk. apply safe_bind, peek_spec; [done|]. intros [] _.
  { unfold safe, parsed; simpl. split; [lia|done]. }
  apply safe_bind, gettoken_spec; [lia|]. intros tok w s1 H1 _ Hw _.
  destruct (Z.eqb_spec tok 0); [unfold safe, parsed; simpl; split; [lia|done]|].
  destruct (Z.eqb_spec tok 97) as [E|]; cbn [negb]; [|apply safe_panic].
  destruct (Nat.leb_spec MAXARGS (S argc)); [apply safe_panic|].
  destruct (add_arg_ok word_at c w argc) as [Hc' Hn']; [done|done|by apply Hw|lia|].
  apply safe_bind. eapply safe_mono; [apply parseredirs_safe; [lia|lia|exact Hc']|].
  intros c2 s2 ([H2 Hc2] & Hn2). eapply safe_mono; [apply IH; try (done || lia); congruence|].
  unfold parsed. intros c3 s3 [? ?]. split; [lia|done].
Qed.

Lemma parse_backs_safe fuel : ∀ s c,
  (s ≤ es)%nat → (es - s < fuel)%nat → cmd_ok word_at c →
  safe (parse_backs line fuel c) (parsed s) s.
Proof.
  induction fuel as [|fuel IH]; intros s c Hs Hf Hc; [lia|]. cbn [parse_backs].
  apply peek_token; [done| |].
  - intros tok w s1 H1. eapply safe_mono; [apply (IH s1); [lia|lia|done]|].
    unfold parsed. intros c3 s3 [? ?]. split; [lia|done].
  - intros s1 H1. unfold safe, parsed; simpl. split; [lia|done].
Qed.

(** Four more calls can be open for each byte that is left. *)
Definition enough (s rank fuel : nat) : Prop := (4 * (es - s) + rank ≤ fuel)%nat.

Lemma parser_safe fuel : ∀ s, (s ≤ es)%nat →
  (enough s 4 fuel → safe (parseline line fuel) (parsed s) s) ∧
  (enough s 3 fuel → safe (parsepipe line fuel) (parsed s) s) ∧
  (enough s 2 fuel → safe (parseexec line fuel) (parsed s) s) ∧
  (enough s 1 fuel → safe (parseblock line fuel) (parsed s) s).
Proof.
  unfold enough. induction fuel as [|fuel IH]; intros s Hs; [split_and!; lia|].
  split_and!; intros Hf.
  - cbn [parseline]. apply safe_bind. eapply safe_mono; [apply IH; lia|]. intros c s1 [H1 Hc].
    apply safe_bind. eapply safe_mono; [apply parse_backs_safe; unfold loop_fuel; [lia|lia|done]|].
    intros c2 s2 [H2 Hc2]. apply peek_token; [lia| |].
    + intros tok w s3 H3. apply safe_bind. eapply safe_mono; [apply (IH s3); lia|].
      intros r s4 [H4 Hr]. unfold safe, parsed; simpl. split_and!; [lia|lia|done|done].
    + intros s3 H3. unfold safe, parsed; simpl. split; [lia|done].
  - cbn [parsepipe]. apply safe_bind. eapply safe_mono; [apply IH; lia|]. intros c s1 [H1 Hc].
    apply peek_token; [lia| |].
    + intros tok w s3 H3. apply safe_bind. eapply safe_mono; [apply (IH s3); lia|].
      intros r s4 [H4 Hr]. unfold safe, parsed; simpl. split_and!; [lia|lia|done|done].
    + intros s3 H3. unfold safe, parsed; simpl. split; [lia|done].
  - cbn [parseexec]. pose proof (skip_range s Hs) as Hk. apply safe_bind, peek_spec; [done|]. intros [] _.
    + eapply safe_mono; [apply IH; lia|]. unfold parsed. intros c s1 [? ?]. split; [lia|done].
    + apply safe_bind. eapply safe_mono.
      { apply parseredirs_safe; unfold loop_fuel; [lia|lia|]. split; [done|unfold MAXARGS; simpl; lia]. }
      intros c s1 ([H1 Hc] & Hn). eapply safe_mono; [apply parse_args_safe; unfold loop_fuel, MAXARGS; first [done|lia|by rewrite Hn]|].
      unfold parsed. intros c2 s2 [? ?]. split; [lia|done].
  - cbn [parseblock]. apply peek_or_panic; [done|]. intros tok w s1 H1.
    apply safe_bind. eapply safe_mono; [apply IH; lia|]. intros c s2 [H2 Hc].
    apply peek_or_panic; [lia|]. intros tok2 w2 s3 H3.
    eapply safe_mono; [apply parseredirs_safe; unfold loop_fuel; [lia|lia|done]|].
    unfold parsed. intros c4 s4 ([? ?] & _). split; [lia|done].
Qed.
End parser_ok.

(** ** Cutting the words out of the line *)

Fixpoint words {W} (c : cmd W) : list W :=
  match c with
  | EXEC argv => argv
  | REDIR c file _ _ => words c ++ [file]
  | PIPE l r | LIST l r => words l ++ words r
  | BACK c => words c
  end.

Lemma cmd_ok_words {W} (P : W → Prop) c : cmd_ok P c → Forall P (words c).
Proof.
  induction c; simpl; rewrite ?Forall_app; try tauto. intros (? & ? & _). split; [tauto|by constructor].
Qed.

Lemma cmd_map_ok {V W} (P : V → Prop) (Q : W → Prop) (f : V → W) c :
  cmd_ok P c → (∀ v, P v → Q (f v)) → cmd_ok Q (cmd_map f c).
Proof.
  intros H Hf. induction c; simpl in *; [|by intuition auto..].
  rewrite length_fmap, Forall_fmap. split; [|tauto]. eapply Forall_impl; [|apply H]. auto.
Qed.

Lemma cmd_map_ext {V W} (f g : V → W) c :
  Forall (λ v, f v = g v) (words c) → cmd_map f c = cmd_map g c.
Proof.
  induction c as [argv|c IH file mode fd|l IHl r IHr|l IHl r IHr|c IH]; simpl; rewrite ?Forall_app.
  - rewrite Forall_lookup. intros H. f_equal. by apply list_fmap_ext.
  - intros [H1 H2]. inversion H2; subst. f_equal; auto.
  - intros [??]. f_equal; auto.
  - intros [??]. f_equal; auto.
  - intros. f_equal; auto.
Qed.

Lemma span_exact f l n c :
  (∀ i x, (i < n)%nat → l !! i = Some x → f x = true) → l !! n = Some c → f c = false → span f l = n.
Proof.
  revert n. induction l as [|x l IH]; intros n Hf Hn Hc; [done|]. simpl. destruct n as [|n]; simpl in Hn.
  - injection Hn as ->. by rewrite Hc.
  - rewrite (Hf 0%nat x) by (done || lia). f_equal. apply IH; [|done|done].
    intros i y Hi Hy. apply (Hf (S i) y); [lia|done].
Qed.

(** The string between two pointers. *)
Definition slice (line : list Z) (w : span_word) : list Z := take (w.2 - w.1) (drop w.1 line).

Section cut.
Context (line : list Z).
Local Abbreviation es := (length line).

(** The line with NULs at the positions [ends]. *)
Definition nulled (ends : list nat) (buf : list Z) : Prop :=
  length buf = S es ∧
  ∀ i, (i ≤ es)%nat → buf !! i = Some (if decide (i ∈ ends) then 0 else at_ line i).

Lemma nulled_start : nulled [] (line ++ [0]).
Proof.
  split; [rewrite length_app; simpl; lia|]. intros i Hi. rewrite decide_False by apply not_elem_of_nil.
  unfold at_. destruct (decide (i < es)%nat) as [H|H].
  - rewrite lookup_app_l by done. by destruct (lookup_lt_is_Some_2 line i H) as [x ->].
  - replace i with es by lia. rewrite lookup_app_r, Nat.sub_diag by lia. by rewrite (lookup_ge_None_2 line) by lia.
Qed.

Lemma put_nul_spec ends buf e :
  nulled ends buf → (e ≤ es)%nat → ∃ buf', put_nul e buf = Some buf' ∧ nulled (ends ++ [e]) buf'.
Proof.
  intros [Hlen Hb] He. unfold put_nul. rewrite (proj2 (Nat.ltb_lt e (length buf))) by lia.
  eexists. split; [done|]. split; [by rewrite length_insert|]. intros i Hi.
  destruct (decide (i = e)) as [->|Hne].
  - rewrite list_lookup_insert_eq by lia. rewrite decide_True; [done|set_solver].
  - rewrite list_lookup_insert_ne by done. rewrite Hb by done. f_equal. apply decide_ext. set_solver.
Qed.

Lemma nulterminate_spec c : ∀ ends buf,
  Forall (word_at line) (words c) → nulled ends buf →
  ∃ buf', nulterminate c buf = Some buf' ∧ nulled (ends ++ (words c).*2) buf'.
Proof.
  assert (Hw : ∀ w, word_at line w → (w.2 ≤ es)%nat) by (intros w [H _]; lia).
  induction c as [argv|c IH [q e] mode fd|l IHl r IHr|l IHl r IHr|c IH]; intros ends buf HW Hb; simpl in *.
  - revert ends buf Hb. induction HW as [|[q e] argv H1 _ IH]; intros ends buf Hb; simpl.
    { exists buf. by rewrite app_nil_r. }
    destruct (put_nul_spec ends buf e Hb (Hw _ H1)) as (b1 & -> & Hb1). simpl.
    destruct (IH _ _ Hb1) as (b2 & E & Hb2). exists b2. rewrite <- app_assoc in Hb2. done.
  - apply Forall_app in HW as [HW1 HW2]. inversion HW2 as [|?? Hf _]; subst.
    destruct (IH _ _ HW1 Hb) as (b1 & -> & Hb1). simpl.
    destruct (put_nul_spec _ _ e Hb1 (Hw _ Hf)) as (b2 & E & Hb2). exists b2. split; [done|].
    by rewrite fmap_app, app_assoc.
  - apply Forall_app in HW as [HW1 HW2]. destruct (IHl _ _ HW1 Hb) as (b1 & -> & Hb1). simpl.
    destruct (IHr _ _ HW2 Hb1) as (b2 & E & Hb2). exists b2. by rewrite fmap_app, app_assoc.
  - apply Forall_app in HW as [HW1 HW2]. destruct (IHl _ _ HW1 Hb) as (b1 & -> & Hb1). simpl.
    destruct (IHr _ _ HW2 Hb1) as (b2 & E & Hb2). exists b2. by rewrite fmap_app, app_assoc.
  - apply (IH _ _ HW Hb).
Qed.

Hypothesis no_nul : Forall (λ c, c ≠ 0) line.

Lemma at_nonzero i : (i < es)%nat → at_ line i ≠ 0.
Proof.
  intros H. unfold at_. destruct (lookup_lt_is_Some_2 line i H) as [x E]. rewrite E. simpl.
  rewrite Forall_lookup in no_nul. eauto.
Qed.

(** The end of a word is never inside another one. *)
Lemma end_outside w v i : word_at line w → word_at line v → (w.1 ≤ i < w.2)%nat → i ≠ v.2.
Proof.
  intros (Hr & Hw & _) (Hv & _ & He) Hi ->. specialize (Hw v.2 Hi).
  rewrite He in Hw; [done|lia].
Qed.

Lemma cut_word c buf w :
  Forall (word_at line) (words c) → nulled ((words c).*2) buf → w ∈ words c →
  cstring buf w.1 = slice line w.
Proof.
  intros HW [Hlen Hb] Hin. rewrite list.Forall_forall in HW. pose proof (HW w Hin) as Hw.
  pose proof Hw as (Hr & Hc & _).
  assert (Hi : ∀ i, (w.1 ≤ i < w.2)%nat → buf !! i = Some (at_ line i)).
  { intros i Hi. rewrite Hb by lia. rewrite decide_False; [done|].
    intros (v & E & Hv)%list_elem_of_fmap. by apply (end_outside w v i Hw (HW v Hv)). }
  unfold cstring, slice. rewrite (span_exact _ _ (w.2 - w.1) 0).
  - apply list_eq. intros j. destruct (decide (j < w.2 - w.1)%nat).
    + rewrite !lookup_take_lt, !lookup_drop by lia. rewrite Hi by lia. unfold at_.
      by destruct (lookup_lt_is_Some_2 line (w.1 + j) ltac:(lia)) as [x ->].
    + by rewrite !lookup_take_ge by lia.
  - intros i x Hl. rewrite lookup_drop, Hi by lia. intros [= <-].
    apply negb_true_iff, Z.eqb_neq, at_nonzero. lia.
  - rewrite lookup_drop. replace (w.1 + (w.2 - w.1))%nat with w.2 by lia. rewrite Hb by lia.
    rewrite decide_True; [done|]. by apply list_elem_of_fmap_2.
  - done.
Qed.
End cut.

(** ** The result *)

(** What can stand as a word of a command line. *)
Definition shell_word (w : list Z) : Prop := w ≠ [] ∧ Forall (λ c, is_word c = true ∧ c ≠ 0) w.

Lemma slice_word line w : Forall (λ c, c ≠ 0) line → word_at line w → shell_word (slice line w).
Proof.
  intros Hz (Hr & Hw & _). unfold slice. split.
  - intros E. apply (f_equal length) in E. rewrite length_take, length_drop in E. simpl in E. lia.
  - rewrite Forall_lookup. intros i x. rewrite lookup_take_Some, lookup_drop. intros [E Hi]. split.
    + specialize (Hw (w.1 + i)%nat ltac:(lia)). unfold at_ in Hw. by rewrite E in Hw.
    + rewrite Forall_lookup in Hz. eauto.
Qed.

(** The parser run of [parsecmd], before [nulterminate]. *)
Lemma parsecmd_cases line :
  match parsecmd line with
  | Ret (c, buf) =>
      ∃ s', parseline line (parse_fuel line) 0%nat = Ret (c, s') ∧ cmd_ok (word_at line) c ∧
      skip line s' = length line ∧ nulterminate c (line ++ [0]) = Some buf ∧
      nulled line ((words c).*2) buf
  | Panic _ => True
  | _ => False
  end.
Proof.
  unfold parsecmd. cbv zeta. destruct (parser_safe line (parse_fuel line) 0 ltac:(lia)) as [H _].
  unfold enough, safe in H. unfold bind at 1.
  destruct (parseline line (parse_fuel line) 0%nat) as [[c s]| | | |]; try (done || (apply H; unfold parse_fuel; lia)).
  destruct H as [Hs Hc]; [unfold parse_fuel; lia|].
  unfold peek, bind, get, put, ret. cbv beta iota.
  destruct (Nat.eqb_spec (skip line s) (length line)) as [E|]; [|done]. cbn [negb].
  destruct (nulterminate_spec line c [] (line ++ [0])) as (buf & Hbuf & Hn);
    [by apply cmd_ok_words|apply nulled_start|].
  rewrite Hbuf. by exists s.
Qed.

(** Every pointer of the tree is the C string of its word. *)
Lemma command_slices line c buf :
  Forall (λ c, c ≠ 0) line → cmd_ok (word_at line) c → nulled line ((words c).*2) buf →
  command (c, buf) = cmd_map (slice line) c.
Proof.
  intros Hz Hc Hn. unfold command. simpl. apply cmd_map_ext, list.Forall_forall. intros w Hin.
  apply (cut_word line Hz c); [by apply cmd_ok_words|done|done].
Qed.

(** C30: [parsecmd] ends on every command line, by returning or by one of its
    panics; it never writes outside the line.  A tree it returns is well formed:
    every word is a maximal run of word characters inside the line, an argument
    vector keeps room for its null pointer, a redirection has one of the three
    modes; and after [nulterminate] every pointer of the tree is the C string
    of exactly its word, although all the words live in one buffer. *)
Theorem parsecmd_well_formed line :
  Forall (λ c, c ≠ 0) line →
  match parsecmd line with
  | Ret r => cmd_ok (word_at line) r.1 ∧ command r = cmd_map (slice line) r.1 ∧
             cmd_ok shell_word (command r)
  | Panic _ => True
  | _ => False
  end.
Proof.
  intros Hz. pose proof (parsecmd_cases line) as H. destruct (parsecmd line) as [[c buf]| | | |]; try done.
  destruct H as (s' & _ & Hc & _ & _ & Hn). rewrite (command_slices line) by done.
  split; [done|]. split; [done|]. eapply cmd_map_ok; [exact Hc|]. intros w. by apply slice_word.
Qed.
