(* ===== verification/ShellPrint.v ===== *)
(** * Printing commands and parsing them back

    A printer with the fewest parentheses the grammar of sh.c allows, and the
    proof that the parser inverts it: precedence ([|] over [&] over [;]),
    associativity, redirections and blocks are those of the printer. *)

From Stdlib Require Import ZArith Lia.
From stdpp Require Import base numbers list gmap strings tactics.
From S2P Require Import Prelude Ftypes Shell ShellParse.

Local Open Scope Z_scope.

(** ** The printer *)

Definition redir : Type := list Z * Z * Z.

Definition show_word (w : list Z) : list Z := w ++ [32].
Definition show_op (mode fd : Z) : list Z :=
  if mode =? O_RDONLY then [60] else if mode =? Z.lor O_WRONLY O_CREATE then [62; 62] else [62].
Definition show_redir (r : redir) : list Z :=
  let '(file, mode, fd) := r in show_op mode fd ++ show_word file.
Definition paren (b : bool) (l : list Z) : list Z := if b then 40 :: l ++ [41] else l.

(** The level is that of the place: 0 a line, 1 before an ampersand, 2 a
    pipeline, 3 an element of one. *)
Fixpoint show (lvl : nat) (c : cmd (list Z)) : list Z :=
  match c with
  | EXEC argv => mjoin (show_word <$> argv)
  | REDIR c file mode fd => show 3 c ++ show_redir (file, mode, fd)
  | PIPE l r => paren (3 <=? lvl)%nat (show 3 l ++ 124 :: show 2 r)
  | BACK c => paren (2 <=? lvl)%nat (show 1 c ++ [38])
  | LIST l r => paren (1 <=? lvl)%nat (show 1 l ++ 59 :: show 0 r)
  end.

Definition wrap (c : cmd (list Z)) (rs : list redir) : cmd (list Z) :=
  foldl (λ c '(file, mode, fd), REDIR c file mode fd) c rs.
Definition redir_ok (r : redir) : Prop :=
  let '(file, mode, fd) := r in shell_word file ∧ redir_kind mode fd.

(** ** Partial correctness: what is returned when the fuel suffices *)

Definition runs {S A} (m : M S A) (Q : A → S → Prop) (s : S) : Prop :=
  match m s with
  | Ret (a, s') => Q a s'
  | NoFuel => True
  | _ => False
  end.

Lemma runs_bind {S A B} (m : M S A) (f : A → M S B) Q s :
  runs m (λ a s', runs (f a) Q s') s → runs (bind m f) Q s.
Proof. unfold runs, bind. by destruct (m s) as [[a s']| | | |]. Qed.

Lemma runs_assoc {S A B C} (m : M S A) (f : A → M S B) (g : B → M S C) Q s :
  runs (bind (bind m f) g) Q s → runs (bind m (λ a, bind (f a) g)) Q s.
Proof. unfold runs, bind. by destruct (m s) as [[a s']| | | |]. Qed.

Lemma runs_mono {S A} (m : M S A) (P Q : A → S → Prop) s :
  runs m P s → (∀ a s', P a s' → Q a s') → runs m Q s.
Proof. unfold runs. intros H HPQ. destruct (m s) as [[a s']| | | |]; auto. Qed.

Lemma runs_step {S A B} (m : M S A) (f : A → M S B) Q s a s' :
  m s = Ret (a, s') → runs (f a) Q s' → runs (bind m f) Q s.
Proof. unfold runs, bind. by intros ->. Qed.

(** ** Text at a position *)

(** The text does not start with a space. *)
Definition tight (l : list Z) : Prop :=
  match l with [] => True | c :: _ => is_space c = false ∧ c ≠ 0 end.
Definition starts_in (cs : list Z) (l : list Z) : Prop :=
  match l with [] => True | c :: _ => c ∈ cs end.

Lemma starts_weaken cs ds l : starts_in cs l → cs ⊆ ds → starts_in ds l.
Proof. destruct l; simpl; [done|]. auto. Qed.

Section text.
Context (line : list Z).

Definition text (p : nat) (l : list Z) : Prop := drop p line = l.

Lemma text_app p l1 l2 : text p (l1 ++ l2) → text (p + length l1) l2.
Proof. unfold text. intros H. rewrite <- drop_drop, H. by rewrite drop_app_length. Qed.

Lemma text_cons p c l : text p (c :: l) → text (S p) l.
Proof. intros H. rewrite <- Nat.add_1_r. by apply (text_app p [c]). Qed.

Lemma text_at p c l : text p (c :: l) → at_ line p = c.
Proof. unfold text. intros H. rewrite <- (Nat.add_0_r p), at_drop, H. done. Qed.

Lemma text_end p : text p [] → at_ line p = 0.
Proof. unfold text. intros H. rewrite <- (Nat.add_0_r p), at_drop, H. done. Qed.

Lemma skip_tight p l : text p l → tight l → skip line p = p.
Proof.
  unfold text, skip. intros -> Hl. destruct l as [|c l]; simpl; [lia|]. destruct Hl as [-> _]. lia.
Qed.

Lemma peek_text p l toks : text p l → tight l →
  peek line toks p = Ret (match l with [] => false | c :: _ => strchr toks c end, p).
Proof.
  intros Ht Hl. unfold peek, bind, get, put, ret. cbv beta iota. rewrite (skip_tight p l Ht Hl).
  destruct l as [|c l].
  - by rewrite (text_end p Ht).
  - rewrite (text_at p c l Ht). destruct Hl as [_ Hc]. by rewrite (proj2 (Z.eqb_neq c 0) Hc).
Qed.

(** A symbol of one byte. *)
Lemma gettoken_symbol p c l :
  strchr [124; 40; 41; 59; 38; 60] c = true → text p (c :: l) → tight l →
  gettoken line p = Ret ((c, (p, S p)), S p).
Proof.
  intros Hc Ht Hl.
  assert (tight (c :: l)) as Hcl.
  { simpl in *. rewrite !orb_true_iff, !Z.eqb_eq in Hc.
    destruct Hc as [->|[->|[->|[->|[->|[->|?]]]]]]; done. }
  unfold gettoken, bind, get, put, ret. cbv beta iota. rewrite (skip_tight p _ Ht Hcl).
  unfold token_at. rewrite (text_at p c l Ht). destruct Hcl as [_ H0].
  rewrite (proj2 (Z.eqb_neq c 0) H0), Hc. by rewrite (skip_tight (S p) l (text_cons _ _ _ Ht) Hl).
Qed.

Lemma gettoken_great p l : text p (62 :: l) → tight l → head l ≠ Some 62 →
  gettoken line p = Ret ((62, (p, S p)), S p).
Proof.
  intros Ht Hl Hh. unfold gettoken, bind, get, put, ret. cbv beta iota.
  rewrite (skip_tight p _ Ht) by done. unfold token_at. rewrite (text_at p _ l Ht).
  assert ((at_ line (S p) =? 62) = false) as E.
  { apply Z.eqb_neq. apply text_cons in Ht. destruct l as [|d l]; [by rewrite (text_end _ Ht)|].
    rewrite (text_at _ _ _ Ht). simpl in Hh. congruence. }
  cbn -[skip at_]. rewrite E. by rewrite (skip_tight (S p) l (text_cons _ _ _ Ht) Hl).
Qed.

Lemma gettoken_append p l : text p (62 :: 62 :: l) → tight l →
  gettoken line p = Ret ((43, (p, S (S p))), S (S p)).
Proof.
  intros Ht Hl. unfold gettoken, bind, get, put, ret. cbv beta iota.
  rewrite (skip_tight p _ Ht) by done. unfold token_at. rewrite (text_at p _ _ Ht).
  pose proof (text_cons _ _ _ Ht) as Ht2. rewrite (text_at _ _ _ Ht2). cbn -[skip at_].
  by rewrite (skip_tight (S (S p)) l (text_cons _ _ _ Ht2) Hl).
Qed.

Lemma span_word_space w l : Forall (λ c, is_word c = true ∧ c ≠ 0) w →
  span is_word (w ++ 32 :: l) = length w.
Proof. induction 1 as [|c w [Hc _] _ IH]; simpl; [done|]. by rewrite Hc, IH. Qed.

Lemma word_char c : is_word c = true → c ≠ 0 →
  is_space c = false ∧ strchr [124; 40; 41; 59; 38; 60] c = false ∧ (c =? 62) = false ∧ (c =? 0) = false.
Proof.
  unfold is_word, is_space. rewrite andb_true_iff, !negb_true_iff. intros [-> Hs] H0.
  split; [done|]. cbn [strchr existsb symbols] in *. rewrite !orb_false_iff, !Z.eqb_neq in *. tauto.
Qed.

Lemma gettoken_word p w l : shell_word w → text p (show_word w ++ l) → tight l →
  ∃ v, gettoken line p = Ret ((97, v), (p + length (show_word w))%nat) ∧ slice line v = w.
Proof.
  intros [Hne Hw] Ht Hl. unfold show_word in *. rewrite <- app_assoc in Ht. simpl in Ht.
  destruct w as [|c w]; [done|]. inversion Hw as [|?? [Hc H0] _]; subst.
  destruct (word_char c Hc H0) as (Hsp & Hsy & H62 & Hz).
  exists (p, (p + length (c :: w))%nat). split.
  - unfold gettoken, bind, get, put, ret. cbv beta iota. rewrite (skip_tight p _ Ht) by done.
    unfold token_at. rewrite (text_at p c _ Ht), Hz, Hsy, H62. unfold text in Ht. rewrite Ht.
    rewrite (span_word_space (c :: w) l Hw). do 2 f_equal.
    apply text_app in Ht. unfold skip. rewrite Ht. simpl. apply text_cons in Ht.
    pose proof (skip_tight _ l Ht Hl) as E. unfold skip in E. rewrite Ht in E.
    rewrite length_app. simpl. lia.
  - unfold slice. cbn [fst snd]. unfold text in Ht. rewrite Ht.
    replace (p + length (c :: w) - p)%nat with (length (c :: w)) by lia. by rewrite take_app_length.
Qed.

(** ** Where printed text starts *)

Lemma tight_symbol c l : strchr symbols c = true → tight (c :: l).
Proof.
  unfold strchr, symbols. simpl. rewrite !orb_true_iff, !Z.eqb_eq.
  intros [->|[->|[->|[->|[->|[->|[->|?]]]]]]]; done.
Qed.

Lemma tight_word w l : shell_word w → tight (show_word w ++ l).
Proof.
  intros [Hne Hw]. destruct w as [|c w]; [done|]. inversion Hw as [|?? [Hc H0] _]; subst.
  simpl. split; [|done]. by apply word_char.
Qed.

Lemma tight_redirs rs l : tight l → tight (mjoin (show_redir <$> rs) ++ l).
Proof.
  intros Hl. destruct rs as [|[[f m] d] rs]; [done|]. simpl. unfold show_op. repeat case_match; done.
Qed.

Lemma tight_paren b t l : tight (t ++ l) → tight (paren b t ++ l).
Proof. by destruct b. Qed.

Lemma tight_show c : ∀ lvl l, cmd_ok shell_word c → tight l → tight (show lvl c ++ l).
Proof.
  induction c as [argv|c IH f m d|x IHx y IHy|x IHx y IHy|c IH]; intros lvl l Hc Hl; simpl in *.
  - destruct Hc as [Hc _]. destruct Hc as [|w argv Hw _]; [done|]. simpl. rewrite <- app_assoc. by apply tight_word.
  - rewrite <- app_assoc. apply IH; [tauto|]. unfold show_op. repeat case_match; done.
  - apply tight_paren. rewrite <- app_assoc. apply IHx; [tauto|done].
  - apply tight_paren. rewrite <- app_assoc. apply IHx; [tauto|done].
  - apply tight_paren. rewrite <- app_assoc. apply IH; [tauto|done].
Qed.

Lemma tight_starts cs l : starts_in cs l → cs ⊆ symbols → tight l.
Proof.
  destruct l as [|c l]; [done|]. simpl. intros Hc Hcs. apply Hcs in Hc.
  unfold symbols in Hc. by set_unfold; destruct_or!; subst.
Qed.

(** ** Parsing what was printed *)

(** The tree read is [c] and the position is at [rest]. *)
Definition reads (c : cmd (list Z)) (rest : list Z) (c' : cmd span_word) (p' : nat) : Prop :=
  cmd_map (slice line) c' = c ∧ text p' rest.

Lemma show_op_token p m d file l : redir_kind m d → shell_word file →
  text p (show_op m d ++ show_word file ++ l) →
  ∃ tok w, gettoken line p = Ret ((tok, w), (p + length (show_op m d))%nat) ∧
    ∀ c v, redir_node tok c v = REDIR c v m d.
Proof.
  intros Hk Hf Ht. pose proof (tight_word file l Hf) as Hl.
  destruct Hk as [[-> ->]|[[-> ->]|[-> ->]]].
  - change (show_op O_RDONLY 0) with [60] in *. cbn [app length] in *. exists 60, (p, S p). rewrite Nat.add_1_r. split; [by apply (gettoken_symbol _ _ (show_word file ++ l))|done].
  - change (show_op _ 1) with [62] in *. cbn [app length] in *. exists 62, (p, S p). rewrite Nat.add_1_r. split; [|done]. apply (gettoken_great _ (show_word file ++ l)); [done|done|].
    destruct Hf as [Hne Hw]. destruct file as [|c file]; [done|]. inversion Hw as [|?? [Hc H0] _]; subst.
    simpl. intros [= ->]. done.
  - change (show_op _ 1) with [62; 62] in *. cbn [app length] in *. exists 43, (p, S (S p)). replace (p + 2)%nat with (S (S p)) by lia. split; [by apply (gettoken_append _ (show_word file ++ l))|done].
Qed.

Lemma parseredirs_show rs : ∀ fuel p c' rest,
  Forall redir_ok rs → text p (mjoin (show_redir <$> rs) ++ rest) → tight rest →
  (∀ c l, rest = c :: l → strchr [60; 62] c = false) →
  runs (parseredirs line fuel c') (λ c2 p2, (rs = [] → c2 = c') ∧ reads (wrap (cmd_map (slice line) c') rs) rest c2 p2) p.
Proof.
  induction rs as [|[[file m] d] rs IH]; intros fuel p c' rest Hrs Ht Hr Hs; (destruct fuel as [|fuel]; [done|]); cbn [parseredirs].
  - eapply runs_step; [by apply (peek_text _ rest)|]. simpl in Ht.
    destruct rest as [|c l]; [done|]. by rewrite (Hs c l).
  - inversion Hrs as [|?? Hr0 Hrs']; subst. destruct Hr0 as [Hf Hk].
    assert (Htl : tight (mjoin (show_redir <$> rs) ++ rest)) by by apply tight_redirs.
    change (text p (((show_op m d ++ show_word file) ++ mjoin (show_redir <$> rs)) ++ rest)) in Ht.
    rewrite <- !app_assoc in Ht.
    destruct (show_op_token p m d file _ Hk Hf Ht) as (tok & w & Hg & Hn).
    assert (∃ c l, show_op m d ++ show_word file ++ mjoin (show_redir <$> rs) ++ rest = c :: l ∧
      strchr [60; 62] c = true ∧ tight (c :: l)) as (c & l & El & Hc & Hcl).
    { unfold show_op. repeat case_match; eexists _, _; split_and!; done. }
    eapply runs_step; [rewrite El in Ht; by apply (peek_text p (c :: l))|]. cbv iota. rewrite Hc.
    eapply runs_step; [exact Hg|]. cbv beta iota.
    apply text_app in Ht. destruct (gettoken_word _ file _ Hf Ht Htl) as (v & Hg2 & Hv).
    eapply runs_step; [exact Hg2|]. cbn [negb Z.eqb Pos.eqb]. rewrite Hn. apply text_app in Ht.
    eapply runs_mono; [by apply (IH fuel _ (REDIR c' v m d) rest)|].
    intros c2 p2 [_ H]. split; [done|]. simpl in H. by rewrite Hv in H.
Qed.

Definition stops : list Z := [124; 41; 38; 59].

Lemma stops_no_redir cs rest : starts_in cs rest → cs ⊆ stops →
  tight rest ∧ (∀ c l, rest = c :: l → strchr [60; 62] c = false ∧ strchr stops c = true).
Proof.
  intros Hs Hcs. split.
  - eapply tight_starts; [exact Hs|]. etrans; [exact Hcs|]. intros x. unfold stops, symbols. rewrite !elem_of_cons. tauto.
  - intros c l ->. simpl in Hs. apply Hcs in Hs. unfold stops in Hs. by set_unfold; destruct_or!; subst.
Qed.

Lemma parse_args_stop fuel rfuel argc c' p rest :
  text p rest → starts_in stops rest →
  runs (parse_args line fuel rfuel argc c') (λ c2 p2, c2 = c' ∧ text p2 rest) p.
Proof.
  intros Ht Hs. destruct (stops_no_redir stops rest Hs ltac:(done)) as [Hr Hc].
  destruct fuel as [|fuel]; [done|]. cbn [parse_args].
  eapply runs_step; [by apply (peek_text p rest)|]. destruct rest as [|c l].
  - eapply runs_step.
    { unfold gettoken, bind, get, put, ret. cbv beta iota. rewrite (skip_tight p [] Ht) by done.
      unfold token_at. rewrite (text_end p Ht). simpl. rewrite (skip_tight p [] Ht) by done. reflexivity. }
    done.
  - destruct (Hc c l eq_refl) as [_ E]. unfold stops in E. by rewrite E.
Qed.

Lemma cons_app_text {A} (a : list A) l1 l2 l3 : (a ++ l1) ++ l2 ++ l3 = a ++ (l1 ++ l2 ++ l3).
Proof. by rewrite <- app_assoc. Qed.

Lemma parse_args_show args : ∀ fuel rfuel p ws rs rest,
  Forall shell_word args → args ≠ [] → (length ws + length args < MAXARGS)%nat → Forall redir_ok rs →
  text p (mjoin (show_word <$> args) ++ mjoin (show_redir <$> rs) ++ rest) → starts_in stops rest →
  runs (parse_args line fuel rfuel (length ws) (EXEC ws))
       (reads (wrap (EXEC ((slice line <$> ws) ++ args)) rs) rest) p.
Proof.
  induction args as [|w args IH]; intros fuel rfuel p ws rs rest Ha Hne Hn Hrs Ht Hs; [done|].
  inversion Ha as [|?? Hw Ha']; subst. destruct fuel as [|fuel]; [done|]. cbn [parse_args].
  destruct (stops_no_redir stops rest Hs ltac:(done)) as [Hr Hc].
  assert (Htl : tight (mjoin (show_word <$> args) ++ mjoin (show_redir <$> rs) ++ rest)).
  { destruct Ha' as [|x args Hx _]; simpl; [by apply tight_redirs|]. rewrite <- app_assoc. by apply tight_word. }
  change (text p ((show_word w ++ mjoin (show_word <$> args)) ++ mjoin (show_redir <$> rs) ++ rest)) in Ht.
  rewrite cons_app_text in Ht.
  assert (∃ c l, show_word w ++ mjoin (show_word <$> args) ++ mjoin (show_redir <$> rs) ++ rest = c :: l ∧
    strchr [124; 41; 38; 59] c = false ∧ tight (c :: l)) as (c & l & El & Hcs & Hcl).
  { pose proof (tight_word w (mjoin (show_word <$> args) ++ mjoin (show_redir <$> rs) ++ rest) Hw) as Htw.
    destruct Hw as [Hwn Hwf]. destruct w as [|c w]; [done|]. inversion Hwf as [|?? [Hc1 Hc0] _]; subst.
    eexists _, _. split; [reflexivity|]. split; [|exact Htw].
    destruct (word_char c Hc1 Hc0) as (_ & Hsy & _). simpl in *. rewrite !orb_false_iff in *. tauto. }
  eapply runs_step; [rewrite El in Ht; by apply (peek_text p (c :: l))|]. cbv iota. rewrite Hcs.
  destruct (gettoken_word p w _ Hw Ht Htl) as (v & Hg & Hv).
  eapply runs_step; [exact Hg|]. cbv beta iota. cbn [negb Z.eqb Pos.eqb add_arg].
  destruct (Nat.leb_spec MAXARGS (S (length ws))); [simpl in Hn; lia|]. apply text_app in Ht.
  assert (El' : slice line <$> (ws ++ [v]) = (slice line <$> ws) ++ [w]) by (rewrite fmap_app; simpl; by rewrite Hv).
  apply runs_bind. destruct args as [|x args].
  - simpl in Ht. eapply runs_mono; [apply (parseredirs_show rs); [done|done|done|]|].
    { intros c0 l0 E0. by apply (Hc c0 l0). }
    intros c2 p2 (_ & E2 & Ht2). eapply runs_mono; [by apply parse_args_stop|].
    intros c3 p3 [-> Ht3]. split; [|done]. by rewrite E2; cbn [cmd_map]; rewrite El'.
  - eapply runs_mono; [apply (parseredirs_show [] _ _ _ (mjoin (show_word <$> x :: args) ++ mjoin (show_redir <$> rs) ++ rest)); [done|done|done|]|].
    { intros c0 l0 E0. inversion Ha' as [|?? [Hxn Hxf] _]; subst. destruct x as [|c1 x]; [done|].
      inversion Hxf as [|?? [Hc1 Hc0] _]; subst. injection E0 as <- _.
      destruct (word_char c1 Hc1 Hc0) as (_ & Hsy & H62 & _). simpl in *. rewrite !orb_false_iff in *. tauto. }
    intros c2 p2 (-> & _ & Ht2); [|done].
    replace (S (length ws)) with (length (ws ++ [v])) by (rewrite length_app; simpl; lia).
    eapply runs_mono; [apply IH; try done; rewrite length_app; simpl in *; lia|].
    intros c3 p3. by rewrite El', <- app_assoc.
Qed.

(** ** The levels of the grammar *)

Definition exec_level (c : cmd (list Z)) : Prop := ∀ fuel p rs rest,
  Forall redir_ok rs → text p (show 3 c ++ mjoin (show_redir <$> rs) ++ rest) → starts_in stops rest →
  runs (parseexec line fuel) (reads (wrap c rs) rest) p.
Definition pipe_level (c : cmd (list Z)) : Prop := ∀ fuel p rest,
  text p (show 2 c ++ rest) → starts_in [41; 38; 59] rest →
  runs (parsepipe line fuel) (reads c rest) p.
(** A pipeline and its ampersands; more of them may follow. *)
Definition back_level (c : cmd (list Z)) : Prop := ∀ fuel lfuel p rest Q,
  text p (show 1 c ++ rest) → starts_in [41; 38; 59] rest →
  (∀ lfuel c' p', reads c rest c' p' → runs (parse_backs line lfuel c') Q p') →
  runs (let* c := parsepipe line fuel in parse_backs line lfuel c) Q p.
Definition line_level (c : cmd (list Z)) : Prop := ∀ fuel p rest,
  text p (show 0 c ++ rest) → starts_in [41] rest →
  runs (parseline line fuel) (reads c rest) p.

(** [peek] for a symbol that is there, and the token. *)
Lemma symbol_step {A} p c l (k : Z * span_word → M nat A) (k2 : M nat A) Q :
  strchr [124; 40; 41; 59; 38; 60] c = true → text p (c :: l) → tight l →
  (∀ w, runs (k (c, w)) Q (S p)) →
  runs (let* b := peek line [c] in if b then bind (gettoken line) k else k2) Q p.
Proof.
  intros Hc Ht Hl Hk. assert (Hs : tight (c :: l)).
  { apply tight_symbol. simpl in *. rewrite !orb_true_iff in *. tauto. }
  eapply runs_step; [by apply (peek_text p (c :: l))|]. cbn [strchr existsb]. rewrite Z.eqb_refl. simpl.
  eapply runs_step; [by apply (gettoken_symbol p c l)|]. apply Hk.
Qed.

Lemma no_symbol_step {A} p c cs rest (k k2 : M nat A) Q :
  text p rest → starts_in cs rest → cs ⊆ stops → c ∉ cs →
  runs k2 Q p → runs (let* b := peek line [c] in if b then k else k2) Q p.
Proof.
  intros Ht Hs Hcs Hc Hk. destruct (stops_no_redir cs rest Hs Hcs) as [Hr _].
  eapply runs_step; [by apply (peek_text p rest)|]. destruct rest as [|x l]; [done|].
  simpl in Hs |- *. destruct (Z.eqb_spec x c) as [->|]; done.
Qed.

Lemma pipe_of_exec c : show 2 c = show 3 c → exec_level c → pipe_level c.
Proof.
  intros E H fuel p rest Ht Hs. destruct fuel as [|fuel]; [done|]. cbn [parsepipe]. rewrite E in Ht.
  apply runs_bind. eapply runs_mono; [apply (H fuel p [] rest); [done|done|]|].
  { eapply starts_weaken; [exact Hs|]. intros x. unfold stops. rewrite !elem_of_cons. tauto. }
  intros c' p' [Ec Ht']. eapply no_symbol_step; [done|done| |by rewrite !elem_of_cons; intros [|[|[|?%elem_of_nil]]]|by split].
  intros x. unfold stops. rewrite !elem_of_cons. tauto.
Qed.

Lemma back_of_pipe c : show 1 c = show 2 c → pipe_level c → back_level c.
Proof.
  intros E H fuel lfuel p rest Q Ht Hs HQ. rewrite E in Ht. apply runs_bind.
  eapply runs_mono; [by apply (H fuel p rest)|]. intros c' p' Hr. by apply HQ.
Qed.

Lemma line_of_back c : show 0 c = show 1 c → back_level c → line_level c.
Proof.
  intros E H fuel p rest Ht Hs. destruct fuel as [|fuel]; [done|]. cbn [parseline]. rewrite E in Ht.
  apply runs_assoc, runs_bind. eapply H; [done| |].
  { eapply starts_weaken; [exact Hs|]. intros x. rewrite !elem_of_cons. tauto. }
  intros lfuel c' p' [Ec Ht']. destruct lfuel as [|lfuel]; [done|]. cbn [parse_backs].
  assert ([41] ⊆ stops) by (intros x; unfold stops; rewrite !elem_of_cons; tauto).
  eapply no_symbol_step; [done|done|done|by rewrite !elem_of_cons; intros [|?%elem_of_nil]|].
  eapply no_symbol_step; [done|done|done|by rewrite !elem_of_cons; intros [|?%elem_of_nil]|]. done.
Qed.

Lemma exec_of_line c : cmd_ok shell_word c → show 3 c = paren true (show 0 c) → line_level c → exec_level c.
Proof.
  intros Hc E H fuel p rs rest Hrs Ht Hs. rewrite E in Ht. cbn [paren app] in Ht. rewrite <- app_assoc in Ht.
  destruct (stops_no_redir stops rest Hs ltac:(done)) as [Hr Hrest].
  pose proof (tight_show c 0 (41 :: mjoin (show_redir <$> rs) ++ rest) Hc ltac:(done)) as Htl.
  destruct fuel as [|fuel]; [done|]. cbn [parseexec].
  eapply runs_step; [by apply (peek_text p _ _ Ht)|]. cbn [strchr existsb Z.eqb Pos.eqb orb].
  destruct fuel as [|fuel]; [done|]. cbn [parseblock].
  eapply runs_step; [by apply (peek_text p _ _ Ht)|]. cbn [strchr existsb Z.eqb Pos.eqb orb negb].
  eapply runs_step; [by apply (gettoken_symbol p 40 _ eq_refl Ht)|]. apply text_cons in Ht.
  apply runs_bind. eapply runs_mono; [apply (H fuel _ (41 :: mjoin (show_redir <$> rs) ++ rest)); [done|by left]|].
  intros c' p' [Ec Ht']. pose proof (tight_redirs rs rest Hr) as Htr.
  eapply runs_step; [by apply (peek_text p' _ _ Ht')|]. cbn [strchr existsb Z.eqb Pos.eqb orb negb].
  eapply runs_step; [by apply (gettoken_symbol p' 41 _ eq_refl Ht')|]. apply text_cons in Ht'.
  eapply runs_mono; [apply (parseredirs_show rs); [done|done|done|]|].
  { intros c0 l0 E0. by apply (Hrest c0 l0). }
  intros c2 p2 [_ Hr2]. by rewrite Ec in Hr2.
Qed.

(** *** The base cases *)

Lemma exec_args argv : cmd_ok shell_word (EXEC argv) → exec_level (EXEC argv).
Proof.
  intros [Ha Hn] fuel p rs rest Hrs Ht Hs. destruct fuel as [|fuel]; [done|]. cbn [parseexec].
  destruct (stops_no_redir stops rest Hs ltac:(done)) as [Hr Hrest]. simpl in Ht.
  assert (Hhead : ∀ l, text p l → tight l → (∀ c l', l = c :: l' → strchr [40] c = false) →
    runs (let* c := parseredirs line (loop_fuel line) (EXEC []) in parse_args line MAXARGS (loop_fuel line) 0 c)
         (reads (wrap (EXEC argv) rs) rest) p →
    runs (let* block := peek line [40] in
          if block then parseblock line fuel
          else let* c := parseredirs line (loop_fuel line) (EXEC []) in parse_args line MAXARGS (loop_fuel line) 0 c)
         (reads (wrap (EXEC argv) rs) rest) p).
  { intros l Hl Htl Hc Hk. eapply runs_step; [by apply (peek_text p l)|].
    destruct l as [|c l]; [done|]. by rewrite (Hc c l). }
  destruct argv as [|w argv].
  - eapply Hhead; [exact Ht|by apply tight_redirs| |].
    { intros c l. destruct rs as [|[[f m] d] rs]; simpl; [|unfold show_op; repeat case_match; by intros [= <- _]].
      intros E. destruct (Hrest c l E) as [_ Hc]. unfold strchr. simpl.
      destruct (Z.eqb_spec c 40) as [->|]; done. }
    apply runs_bind. eapply runs_mono; [apply (parseredirs_show rs _ p _ rest); [done|done|done|]|].
    { intros c0 l0 E0. by apply (Hrest c0 l0). }
    intros c2 p2 (_ & Ec & Ht2). eapply runs_mono; [by apply parse_args_stop|]. by intros c3 p3 [-> Ht3].
  - inversion Ha as [|?? Hw Ha']; subst.
    assert (Hword : ∃ c l, mjoin (show_word <$> w :: argv) ++ mjoin (show_redir <$> rs) ++ rest = c :: l ∧
      strchr [40] c = false ∧ strchr [60; 62] c = false ∧ tight (c :: l)).
    { pose proof (tight_word w (mjoin (show_word <$> argv)) Hw) as Htw.
      destruct Hw as [Hwn Hwf]. destruct w as [|c w]; [done|]. inversion Hwf as [|?? [Hc1 Hc0] _]; subst.
      eexists _, _. split; [reflexivity|]. split_and!; [| |exact Htw];
        destruct (word_char c Hc1 Hc0) as (_ & Hsy & H62 & _); simpl in *; rewrite !orb_false_iff in *; tauto. }
    destruct Hword as (c & l & El & H40 & Hred & Hcl).
    assert (Ht2 : text p (c :: l)) by (rewrite <- El; exact Ht).
    eapply Hhead; [exact Ht2|done|by intros c0 l0 [= <- <-]|].
    apply runs_bind. eapply runs_mono; [apply (parseredirs_show [] _ p _ (c :: l)); [done|done|done|by intros c0 l0 [= <- <-]]|].
    intros c2 p2 (-> & _ & Ht3); [|done]. rewrite <- El in Ht3.
    apply (parse_args_show (w :: argv) MAXARGS _ p2 []); done.
Qed.

Lemma exec_redir c f m d : redir_ok (f, m, d) → exec_level c → exec_level (REDIR c f m d).
Proof.
  intros Hr H fuel p rs rest Hrs Ht Hs. apply (H fuel p ((f, m, d) :: rs) rest); [by constructor| |done].
  revert Ht. cbn [show]. rewrite <- app_assoc. intros Ht. cbn [fmap list_fmap mjoin list_join].
  by rewrite <- app_assoc.
Qed.

Lemma pipe_pipe l r : cmd_ok shell_word r → exec_level l → pipe_level r → pipe_level (PIPE l r).
Proof.
  intros Hr Hl Hp fuel p rest Ht Hs. destruct fuel as [|fuel]; [done|]. cbn [parsepipe].
  assert (Ht2 : text p (show 3 l ++ 124 :: show 2 r ++ rest)).
  { revert Ht. cbn [show Nat.leb paren]. by rewrite <- app_assoc. }
  apply runs_bind. eapply runs_mono; [apply (Hl fuel p [] (124 :: show 2 r ++ rest)); [done|done|by left]|].
  intros c' p' [Ec Ht']. eapply symbol_step; [done|exact Ht'| |].
  { apply tight_show; [done|]. eapply tight_starts; [exact Hs|].
    intros x. unfold symbols. rewrite !elem_of_cons. tauto. }
  intros w. apply text_cons in Ht'. apply runs_bind. eapply runs_mono; [by apply (Hp fuel _ rest)|].
  intros r' p2 [Er Ht2']. unfold runs, reads; simpl. split; [|done]. simpl in Ec. by rewrite Ec, Er.
Qed.

Lemma back_back c : back_level c → back_level (BACK c).
Proof.
  intros H fuel lfuel p rest Q Ht Hs HQ.
  assert (Hr : tight rest).
  { eapply tight_starts; [exact Hs|]. intros x. unfold symbols. rewrite !elem_of_cons. tauto. }
  apply (H fuel lfuel p (38 :: rest)).
  - revert Ht. cbn [show Nat.leb paren]. by rewrite <- app_assoc.
  - right. by left.
  - intros [|lf] c' p' [Ec Ht']; [done|]. cbn [parse_backs]. eapply symbol_step; [done|exact Ht'|done|].
    intros w. apply HQ. apply text_cons in Ht'. split; [simpl; by rewrite Ec|done].
Qed.

Lemma line_list l r : cmd_ok shell_word r → back_level l → line_level r → line_level (LIST l r).
Proof.
  intros Hr Hl Hp fuel p rest Ht Hs. destruct fuel as [|fuel]; [done|]. cbn [parseline].
  assert (Ht2 : text p (show 1 l ++ 59 :: show 0 r ++ rest)).
  { revert Ht. cbn [show Nat.leb paren]. by rewrite <- app_assoc. }
  apply runs_assoc, runs_bind. eapply Hl; [exact Ht2|by right; right; left|].
  intros [|lf] c' p' [Ec Ht']; [done|]. cbn [parse_backs].
  assert (Htl : tight (show 0 r ++ rest)).
  { apply tight_show; [done|]. eapply tight_starts; [exact Hs|].
    intros x. unfold symbols. rewrite !elem_of_cons. tauto. }
  eapply (no_symbol_step p' 38 [59]); [exact Ht'|by left| |by rewrite elem_of_cons; intros [|?%elem_of_nil]|].
  { intros x. unfold stops. rewrite !elem_of_cons. tauto. }
  eapply symbol_step; [done|exact Ht'|done|]. intros w. apply text_cons in Ht'.
  apply runs_bind. eapply runs_mono; [by apply (Hp fuel _ rest)|].
  intros r' p2 [Er Ht2']. unfold runs, reads; simpl. split; [|done]. by rewrite Ec, Er.
Qed.

Lemma levels c : cmd_ok shell_word c → exec_level c ∧ pipe_level c ∧ back_level c ∧ line_level c.
Proof.
  assert (up : ∀ c, show 0 c = show 1 c → back_level c → back_level c ∧ line_level c).
  { intros c0 E H. split; [done|]. by apply line_of_back. }
  induction c as [argv|c IH f m d|l IHl r IHr|l IHl r IHr|c IH]; intros Hc.
  - pose proof (exec_args argv Hc) as HE. split; [done|].
    pose proof (pipe_of_exec (EXEC argv) eq_refl HE) as HP. split; [done|]. apply up; [done|]. by apply back_of_pipe.
  - destruct Hc as (Hc & Hf). destruct (IH Hc) as [IHe _]. pose proof (exec_redir c f m d Hf IHe) as HE.
    split; [done|]. pose proof (pipe_of_exec (REDIR c f m d) eq_refl HE) as HP. split; [done|].
    apply up; [done|]. by apply back_of_pipe.
  - destruct Hc as [Hcl Hcr]. destruct (IHl Hcl) as [He _]. destruct (IHr Hcr) as (_ & Hp & _).
    pose proof (pipe_pipe l r Hcr He Hp) as HP. pose proof (back_of_pipe (PIPE l r) eq_refl HP) as HB.
    pose proof (line_of_back (PIPE l r) eq_refl HB). split_and!; try done. by apply exec_of_line.
  - destruct Hc as [Hcl Hcr]. destruct (IHl Hcl) as (_ & _ & Hb & _). destruct (IHr Hcr) as (_ & _ & _ & Hl).
    pose proof (line_list l r Hcr Hb Hl) as HL.
    pose proof (exec_of_line (LIST l r) (conj Hcl Hcr) eq_refl HL) as HE.
    pose proof (pipe_of_exec (LIST l r) eq_refl HE) as HP. split_and!; try done. by apply back_of_pipe.
  - destruct (IH Hc) as (_ & _ & Hb & _). pose proof (back_back c Hb) as HB.
    pose proof (line_of_back (BACK c) eq_refl HB) as HL.
    pose proof (exec_of_line (BACK c) Hc eq_refl HL) as HE. split_and!; try done. by apply pipe_of_exec.
Qed.
End text.

(** ** The round trip *)

Lemma show_no_nul c : ∀ lvl, cmd_ok shell_word c → Forall (λ x, x ≠ 0) (show lvl c).
Proof.
  assert (Hw : ∀ w, shell_word w → Forall (λ x, x ≠ 0) (show_word w)).
  { intros w [_ H]. apply Forall_app. split; [|by repeat constructor].
    eapply Forall_impl; [|exact H]. by intros ? []. }
  assert (Hp : ∀ b l, Forall (λ x, x ≠ 0) l → Forall (λ x, x ≠ 0) (paren b l)).
  { intros [] l H; [|done]. constructor; [done|]. apply Forall_app. split; [done|by repeat constructor]. }
  induction c as [argv|c IH f m d|l IHl r IHr|l IHl r IHr|c IH]; intros lvl Hc; simpl.
  - destruct Hc as [Hc _]. induction Hc; simpl; [done|]. apply Forall_app. auto.
  - destruct Hc as (Hc & Hf & _). rewrite !Forall_app. split_and!; auto.
    unfold show_op. repeat case_match; by repeat constructor.
  - destruct Hc. apply Hp, Forall_app. split; auto.
  - destruct Hc. apply Hp, Forall_app. split; auto.
  - apply Hp, Forall_app. split; auto.
Qed.

(** C29: every well-formed command, printed with parentheses only where the
    grammar needs them, is parsed back to itself: the parser accepts the line,
    and the tree with the strings its pointers denote is the command printed.
    So [|] binds tighter than [&], which binds tighter than [;], pipelines and
    lists associate to the right, and redirections keep their order. *)
Theorem parse_show c :
  cmd_ok shell_word c → ∃ r, parsecmd (show 0 c) = Ret r ∧ command r = c.
Proof.
  intros Hc. set (line := show 0 c). destruct (levels line c Hc) as (_ & _ & _ & HL).
  specialize (HL (parse_fuel line) 0%nat []).
  assert (Ht : text line 0 (show 0 c ++ [])) by (unfold text; by rewrite app_nil_r).
  specialize (HL Ht I). pose proof (parsecmd_cases line) as Hcases.
  destruct (parser_safe line (parse_fuel line) 0 ltac:(lia)) as [Hsafe _].
  unfold enough, safe in Hsafe. unfold runs in HL.
  destruct (parseline line (parse_fuel line) 0%nat) as [[c' p']| | | |] eqn:Ep; try done;
    [|by exfalso; apply Hsafe; unfold parse_fuel; lia].
  destruct HL as [Ec Hend]. destruct Hsafe as [Hp' Hok]; [unfold parse_fuel; lia|].
  assert (p' = length line) as ->.
  { unfold text in Hend. apply (f_equal length) in Hend. rewrite length_drop in Hend. simpl in Hend. lia. }
  destruct (parsecmd line) as [[c2 buf]|msg| | |] eqn:Er; try done.
  - destruct Hcases as (s' & [= <- <-] & _ & _ & _ & Hn). exists (c', buf). split; [done|].
    rewrite (command_slices line); [done|by apply show_no_nul|done|done].
  - exfalso. revert Er. unfold parsecmd, bind at 1. rewrite Ep. unfold peek, bind, get, put, ret. cbv beta iota.
    rewrite (skip_tight line _ [] Hend I), Nat.eqb_refl. cbn [negb].
    destruct (nulterminate_spec line c' [] (line ++ [0])) as (buf & -> & _);
      [by apply cmd_ok_words|apply nulled_start|done].
Qed.

(** ** Witnesses *)

Module ShellDemo.
Definition ls : list Z := [108; 115].
Definition wc : list Z := [119; 99].
Definition out : list Z := [111].
(** [(ls ; wc) > o | wc < ls & ; ls] *)
Definition demo : cmd (list Z) :=
  LIST (BACK (PIPE (REDIR (LIST (EXEC [ls]) (EXEC [wc])) out (Z.lor (Z.lor O_WRONLY O_CREATE) O_TRUNC) 1)
                   (REDIR (EXEC [wc]) ls O_RDONLY 0)))
       (EXEC [ls]).
Lemma word_ls : shell_word ls.
Proof. split; [done|]. by repeat constructor. Qed.
Lemma word_wc : shell_word wc.
Proof. split; [done|]. by repeat constructor. Qed.
Lemma word_out : shell_word out.
Proof. split; [done|]. by repeat constructor. Qed.
Lemma demo_ok : cmd_ok shell_word demo.
Proof.
  pose proof word_ls. pose proof word_wc. pose proof word_out. unfold demo. simpl.
  assert (Forall shell_word [ls]) by by constructor. assert (Forall shell_word [wc]) by by constructor.
  unfold redir_kind, MAXARGS. split_and!; try (done || lia); pick || tauto.
Qed.
End ShellDemo.
Import ShellDemo.

Lemma parse_show_witness :
  cmd_ok shell_word demo ∧ ∃ r, parsecmd (show 0 demo) = Ret r ∧ command r = demo.
Proof. split; [exact demo_ok|]. apply (parse_show demo). exact demo_ok. Defined.

Lemma parsecmd_well_formed_witness :
  (if parsecmd (show 0 demo) is Ret r then command r = demo else False) ∧
  match parsecmd (show 0 demo) with
  | Ret r => cmd_ok (word_at (show 0 demo)) r.1 ∧ command r = cmd_map (slice (show 0 demo)) r.1 ∧
             cmd_ok shell_word (command r)
  | Panic _ => True
  | _ => False
  end.
Proof.
  split; [vm_compute; reflexivity|]. apply (parsecmd_well_formed (show 0 demo)).
  repeat (constructor; [discriminate|]). constructor.
Defined.
