(* ===== verification/ShellRun.v ===== *)
(** * The descriptors of the programs a command starts

    The system calls of [runcmd] on tables of open files as the kernel keeps
    them (fdalloc of sysfile.c takes the lowest free entry), and what a
    command line is meant to start. *)

From Stdlib Require Import ZArith Lia.
From stdpp Require Import base numbers list gmap strings tactics.
From S2P Require Import Prelude Ftypes Shell ShellParse.

Local Open Scope Z_scope.

(** ** Processes *)

(** What a descriptor refers to: something the shell was started with, a file
    opened by a redirection, or an end of the [n]-th pipe. *)
Inductive fobj : Type :=
  | Inherited (n : nat)
  | Opened (file : list Z) (mode : Z)
  | ReadEnd (n : nat)
  | WriteEnd (n : nat).

Abbreviation fdtable := (list (option fobj)).

Definition is_free (o : option fobj) : bool := match o with None => true | Some _ => false end.
(** The lowest free entry. *)
Fixpoint lowest (t : fdtable) : option nat :=
  match t with
  | [] => None
  | o :: t => if is_free o then Some 0%nat else S <$> lowest t
  end.

(** What a process does that others can see: the program it becomes, a wait
    and its exit, with the descriptors it has open then. *)
Inductive event : Type :=
  | EExec (argv : list (list Z)) (t : fdtable)
  | EWait (t : fdtable)
  | EExit (status : Z) (t : fdtable).

Section run.
(** Which files can be opened; fork and pipe find the resources they need. *)
Context (openable : list Z → Z → bool).

(** The events of a process and of those it starts, the child of a fork
    first; [n] pipes were made before. *)
Fixpoint run (p : prog) (t : fdtable) (n : nat) : list event * nat :=
  match p with
  | Exit status => ([EExit status t], n)
  | Exec argv _ => ([EExec argv t], n)
  | Close fd k => run k (<[Z.to_nat fd := None]> t) n
  | Open file mode k =>
      match (if openable file mode then lowest t else None) with
      | Some fd => run (k (Z.of_nat fd)) (<[fd := Some (Opened file mode)]> t) n
      | None => run (k (-1)) t n
      end
  | Dup fd k =>
      match lowest t, t !! Z.to_nat fd with
      | Some fd2, Some (Some o) => run (k (Z.of_nat fd2)) (<[fd2 := Some o]> t) n
      | _, _ => run (k (-1)) t n
      end
  | Pipe k =>
      match lowest t with
      | None => run (k None) t n
      | Some fd0 =>
          let t0 := <[fd0 := Some (ReadEnd n)]> t in
          match lowest t0 with
          | None => run (k None) t n
          | Some fd1 => run (k (Some (Z.of_nat fd0, Z.of_nat fd1))) (<[fd1 := Some (WriteEnd n)]> t0) (S n)
          end
      end
  | Fork k =>
      let '(e1, n1) := run (k 0) t n in
      let '(e2, n2) := run (k 1) t n1 in
      (e1 ++ e2, n2)
  | Wait k => let '(e, n') := run k t n in (EWait t :: e, n')
  | Chdir _ k => run (k 0) t n
  | Print k => run k t n
  end.

(** ** What the command means *)

Fixpoint intended (c : cmd (list Z)) (t : fdtable) (n : nat) : list event * nat :=
  match c with
  | EXEC [] => ([EExit 1 t], n)
  | EXEC argv => ([EExec argv t], n)
  | REDIR c file mode fd =>
      if openable file mode then intended c (<[Z.to_nat fd := Some (Opened file mode)]> t) n
      else ([EExit 1 (<[Z.to_nat fd := None]> t)], n)
  | LIST l r =>
      let '(e1, n1) := intended l t n in
      let '(e2, n2) := intended r t n1 in
      (e1 ++ EWait t :: e2, n2)
  | PIPE l r =>
      let '(e1, n1) := intended l (<[1%nat := Some (WriteEnd n)]> t) (S n) in
      let '(e2, n2) := intended r (<[0%nat := Some (ReadEnd n)]> t) n1 in
      (e1 ++ e2 ++ [EWait t; EWait t; EExit 0 t], n2)
  | BACK c =>
      let '(e, n1) := intended c t n in
      (e ++ [EExit 0 t], n1)
  end.

(** ** Tables *)

(** Standard input and output are open and two entries are free. *)
Definition plumbed (t : fdtable) : Prop :=
  (∃ o, t !! 0%nat = Some (Some o)) ∧ (∃ o, t !! 1%nat = Some (Some o)) ∧
  ∃ i j, i ≠ j ∧ t !! i = Some None ∧ t !! j = Some None.

Lemma lowest_spec t i : lowest t = Some i ↔ t !! i = Some None ∧ ∀ j, (j < i)%nat → t !! j ≠ Some None.
Proof.
  revert i. induction t as [|[o|] t IH]; intros i; simpl.
  - split; [done|]. by intros [? _].
  - split.
    + intros (k & Hk & ->)%fmap_Some. apply IH in Hk as [H1 H2]. split; [done|].
      intros [|j] Hj; [done|]. apply H2. lia.
    + destruct i as [|i]; [by intros [? _]|]. intros [H1 H2]. simpl in H1.
      rewrite (proj2 (IH i)); [done|]. split; [done|]. intros j Hj. apply (H2 (S j)). lia.
  - split.
    + intros [= <-]. split; [done|]. intros j. lia.
    + intros [H1 H2]. destruct i as [|i]; [done|]. exfalso. by apply (H2 0%nat); [lia|].
Qed.

Lemma lowest_exists t i : t !! i = Some None → ∃ k, lowest t = Some k ∧ (k ≤ i)%nat.
Proof.
  revert i. induction t as [|[o|] t IH]; intros [|i]; simpl; try done.
  - intros H. destruct (IH i H) as (k & -> & Hk). exists (S k). split; [done|lia].
  - intros _. by exists 0%nat.
  - intros _. exists 0%nat. split; [done|lia].
Qed.

Lemma insert_plumbed t k o : plumbed t → (k < 2)%nat → plumbed (<[k := Some o]> t).
Proof.
  intros ([o0 H0] & [o1 H1] & i & j & Hij & Hi & Hj) Hk.
  pose proof (lookup_lt_Some _ _ _ H0). pose proof (lookup_lt_Some _ _ _ H1).
  assert (∀ x, t !! x = Some None → x ≠ k) as Hx.
  { intros x E ->. destruct k as [|[|k]]; [congruence|congruence|lia]. }
  split_and!.
  - destruct (decide (k = 0%nat)) as [->|]; eexists; [by apply list_lookup_insert_eq|by rewrite list_lookup_insert_ne].
  - destruct (decide (k = 1%nat)) as [->|]; eexists; [by apply list_lookup_insert_eq|by rewrite list_lookup_insert_ne].
  - exists i, j. rewrite !list_lookup_insert_ne by (apply not_eq_sym; auto). done.
Qed.

(** After [close(k)] the lowest free entry is [k], for [k] 0 or 1. *)
Lemma lowest_closed t k :
  (k < 2)%nat → (∃ o, t !! 0%nat = Some (Some o)) → (∃ o, t !! 1%nat = Some (Some o)) →
  lowest (<[k := None]> t) = Some k.
Proof.
  intros Hk [o0 H0] [o1 H1]. apply lowest_spec.
  pose proof (lookup_lt_Some _ _ _ H0). pose proof (lookup_lt_Some _ _ _ H1).
  split; [by rewrite list_lookup_insert_eq by lia|]. intros j Hj. rewrite list_lookup_insert_ne by lia.
  replace j with 0%nat by lia. congruence.
Qed.

Lemma pipe_slots t n : plumbed t → ∃ a b,
  lowest t = Some a ∧ lowest (<[a := Some (ReadEnd n)]> t) = Some b ∧ a ≠ b ∧
  (2 ≤ a)%nat ∧ (2 ≤ b)%nat ∧ t !! a = Some None ∧ t !! b = Some None.
Proof.
  intros ([o0 H0] & [o1 H1] & i & j & Hij & Hi & Hj).
  destruct (lowest_exists t i Hi) as (a & Ha & _). pose proof (proj1 (lowest_spec t a) Ha) as [Hta Hmin].
  assert (∃ c, (<[a := Some (ReadEnd n)]> t : fdtable) !! c = Some None) as [c Hc].
  { destruct (decide (a = i)) as [->|]; [exists j|exists i]; by rewrite list_lookup_insert_ne. }
  destruct (lowest_exists _ c Hc) as (b & Hb & _). pose proof (proj1 (lowest_spec _ b) Hb) as [Htb _].
  assert (a ≠ b). { intros <-. rewrite list_lookup_insert_eq in Htb; [done|]. by apply lookup_lt_Some in Hta. }
  rewrite list_lookup_insert_ne in Htb by done. exists a, b.
  assert (∀ x, t !! x = Some None → (2 ≤ x)%nat).
  { intros [|[|x]] E; [congruence|congruence|lia]. }
  split_and!; auto.
Qed.

(** The child moves an end of the pipe to [k] and closes both ends. *)
Lemma pipe_child (t : fdtable) a b k (r w x : fobj) :
  t !! a = Some None → t !! b = Some None → a ≠ b → (k < 2)%nat → (2 ≤ a)%nat → (2 ≤ b)%nat →
  <[b := None]> (<[a := None]> (<[k := Some x]> (<[k := None]> (<[b := Some w]> (<[a := Some r]> t))))) =
  <[k := Some x]> t.
Proof.
  intros Ha Hb Hab Hk Ha2 Hb2. rewrite list_insert_insert_eq.
  rewrite (list_insert_insert_ne _ a k), (list_insert_insert_ne _ b k) by lia. f_equal.
  rewrite (list_insert_insert_ne _ a b) by done. rewrite !list_insert_insert_eq.
  rewrite (list_insert_id t a) by done. by apply list_insert_id.
Qed.

(** The parent only closes them. *)
Lemma pipe_parent (t : fdtable) a b (r w : fobj) :
  t !! a = Some None → t !! b = Some None → a ≠ b →
  <[b := None]> (<[a := None]> (<[b := Some w]> (<[a := Some r]> t))) = t.
Proof.
  intros Ha Hb Hab. rewrite (list_insert_insert_ne _ a b) by done. rewrite !list_insert_insert_eq.
  rewrite (list_insert_id t a) by done. by apply list_insert_id.
Qed.

Lemma run_fork1 k t n :
  run (fork1 k) t n = let '(e1, n1) := run (k 0) t n in let '(e2, n2) := run (k 1) t n1 in (e1 ++ e2, n2).
Proof. done. Qed.

(** [close(k); dup(e); close(p0); close(p1)] in a child of the pipeline. *)
Lemma run_child t a b k e (r w x : fobj) p n :
  plumbed t → t !! a = Some None → t !! b = Some None → a ≠ b → (k < 2)%nat → (2 ≤ a)%nat → (2 ≤ b)%nat →
  (<[b := Some w]> (<[a := Some r]> t) : fdtable) !! e = Some (Some x) → (2 ≤ e)%nat →
  run (Close (Z.of_nat k) (Dup (Z.of_nat e) (λ _, Close (Z.of_nat a) (Close (Z.of_nat b) p))))
      (<[b := Some w]> (<[a := Some r]> t)) n = run p (<[k := Some x]> t) n.
Proof.
  intros (H0 & H1 & _) Ha Hb Hab Hk Ha2 Hb2 He He2. cbn [run]. rewrite !Nat2Z.id.
  rewrite lowest_closed; [|done|by rewrite !list_lookup_insert_ne by lia..].
  rewrite list_lookup_insert_ne, He by lia. by rewrite pipe_child.
Qed.

Lemma run_runcmd c : ∀ t n, cmd_ok shell_word c → plumbed t → run (runcmd c) t n = intended c t n.
Proof.
  induction c as [argv|c IH f m d|l IHl r IHr|l IHl r IHr|c IH]; intros t n Hc Ht.
  - by destruct argv.
  - destruct Hc as (Hc & _ & Hk). cbn [runcmd run intended].
    assert (Z.to_nat d < 2)%nat by (destruct Hk as [[_ ->]|[[_ ->]|[_ ->]]]; simpl; lia).
    destruct (openable f m); [|done]. destruct Ht as (H0 & H1 & Hfree).
    rewrite lowest_closed by done. rewrite list_insert_insert_eq.
    destruct (Z.ltb_spec (Z.of_nat (Z.to_nat d)) 0); [lia|]. apply IH; [done|]. by apply insert_plumbed.
  - destruct Hc as [Hl Hr]. cbn [runcmd run intended].
    destruct (pipe_slots t n Ht) as (a & b & -> & -> & Hab & Ha2 & Hb2 & Ha & Hb).
    rewrite run_fork1. cbn [Z.eqb].
    rewrite (run_child t a b 1 b _ _ (WriteEnd n)); try (done || lia).
    2: { apply list_lookup_insert_eq. rewrite length_insert. by eapply lookup_lt_Some. }
    rewrite IHl by (done || (apply insert_plumbed; [done|lia])).
    destruct (intended l _ _) as [e1 n1]. rewrite run_fork1. cbn [Z.eqb].
    rewrite (run_child t a b 0 a _ _ (ReadEnd n)); try (done || lia).
    2: { rewrite list_lookup_insert_ne by done. apply list_lookup_insert_eq. by eapply lookup_lt_Some. }
    rewrite IHr by (done || (apply insert_plumbed; [done|lia])).
    destruct (intended r _ _) as [e2 n2]. cbn [run]. rewrite !Nat2Z.id, pipe_parent by done. done.
  - destruct Hc as [Hl Hr]. cbn [runcmd intended]. rewrite run_fork1. cbn [Z.eqb run].
    rewrite IHl by done. destruct (intended l t n) as [e1 n1]. rewrite IHr by done.
    by destruct (intended r t n1) as [e2 n2].
  - cbn [runcmd intended]. rewrite run_fork1. cbn [Z.eqb run]. rewrite IH by done. by destruct (intended c t n).
Qed.
End run.

(** C31: a line the parser accepts, run by the shell: the programs it starts,
    in order, each with exactly the descriptors that the line asks for.  In a
    pipeline the left side has the write end as its standard output and the
    right side the read end as its input; no process, the waiting shell
    included, keeps another end of a pipe open, so a reader sees the end of
    its input; a file that cannot be opened ends that command with status 1. *)
Theorem runcmd_plumbing openable line r t n :
  Forall (λ c, c ≠ 0) line → parsecmd line = Ret r → plumbed t →
  run openable (runcmd (command r)) t n = intended openable (command r) t n.
Proof.
  intros Hz Hr Ht. apply run_runcmd; [|done]. pose proof (parsecmd_cases line) as H. rewrite Hr in H.
  destruct r as [c buf]. destruct H as (_ & _ & Hc & _ & _ & Hn). rewrite (command_slices line) by done.
  eapply cmd_map_ok; [exact Hc|]. intros w. by apply slice_word.
Qed.

(** [ls | wc > o] with the console on 0, 1 and 2. *)
Module RunDemo.
Definition line : list Z := [108; 115; 32; 124; 32; 119; 99; 32; 62; 32; 111; 10].
Definition console : fdtable := [Some (Inherited 0); Some (Inherited 1); Some (Inherited 2)] ++ replicate 13 None.
Definition tree : cmd span_word :=
  PIPE (EXEC [(0, 2)%nat]) (REDIR (EXEC [(5, 7)%nat]) (10, 11)%nat 1537 1).
Definition cut : list Z := [108; 115; 0; 124; 32; 119; 99; 0; 62; 32; 111; 0; 0].
End RunDemo.

Lemma runcmd_plumbing_witness :
  run (λ _ _, true) (runcmd (command (RunDemo.tree, RunDemo.cut))) RunDemo.console 0 =
    intended (λ _ _, true) (command (RunDemo.tree, RunDemo.cut)) RunDemo.console 0.
Proof.
  apply (runcmd_plumbing (λ _ _, true) RunDemo.line).
  - repeat (constructor; [discriminate|]). constructor.
  - vm_compute. reflexivity.
  - split; [by eexists|]. split; [by eexists|]. by exists 3%nat, 4%nat.
Defined.
