(* ===== verification/Umalloc.v ===== *)
(** * The user's allocator (user/umalloc.c)

    Kernighan and Ritchie's allocator.  Addresses are counted in units of a
    [Header] (16 bytes); [hdr] holds the header words of the blocks, [freep]
    is 0 before the first call.  A store above the break [ubrk] is a page
    fault.  [sbrk] is the system call of the kernel: its argument is an [int]
    number of bytes; it extends the heap as long as [limit] allows, or fails. *)

From Stdlib Require Import ZArith Lia.
From stdpp Require Import base numbers list gmap strings tactics.
From S2P Require Import Prelude.

Local Open Scope Z_scope.

Record header := Header { hptr : Z; hsize : Z }.

Record uheap := UHeap {
  hdr : gmap Z header;
  freep : Z;
  ubrk : Z;
}.
#[global] Instance eta_uheap : Eta uheap := λ s, UHeap (hdr s) (freep s) (ubrk s).

Definition geth (p : Z) : M uheap header := λ s,
  match hdr s !! p with Some h => Ret (h, s) | None => Fault "header" end.
Definition seth (p : Z) (h : header) : M uheap unit := λ s,
  if p <? ubrk s then Ret (tt, s <| hdr ::= <[p := h]> |>) else Fault "page fault".
Definition set_ptr (p q : Z) : M uheap unit := let* h := geth p in seth p (Header q (hsize h)).
Definition set_size (p n : Z) : M uheap unit := let* h := geth p in seth p (Header (hptr h) n).

Section umalloc.
(** [&base], and the end of the memory that [sbrk] can get. *)
Context (base limit : Z).

(** The loop of [free]: the block of the list after which [bp] belongs. *)
Fixpoint free_find (fuel : nat) (bp p : Z) : M uheap Z :=
  match fuel with
  | O => λ _, NoFuel
  | S fuel =>
      let* h := geth p in
      if (p <? bp) && (bp <? hptr h) then ret p
      else if (hptr h <=? p) && ((p <? bp) || (bp <? hptr h)) then ret p
      else free_find fuel bp (hptr h)
  end.

(** [free] of the block whose header is at [bp]; [fuel] bounds the walk. *)
Definition free (fuel : nat) (bp : Z) : M uheap unit :=
  let* s := get in
  let* p := free_find fuel bp (freep s) in
  let* hb := geth bp in
  let* hp := geth p in
  (if bp + hsize hb =? hptr hp then
     let* hn := geth (hptr hp) in
     seth bp (Header (hptr hn) (u32 (hsize hb + hsize hn)))
   else set_ptr bp (hptr hp)) ;;;
  let* hp := geth p in
  (if p + hsize hp =? bp then
     let* hb := geth bp in
     seth p (Header (hptr hb) (u32 (hsize hp + hsize hb)))
   else set_ptr p bp) ;;;
  modify (λ s, s <| freep := p |>).

(** [sbrk] of [n] bytes, a multiple of 16 (sys_sbrk and growproc): a negative
    [n] below the whole size leaves the break where it is. *)
Definition sbrk (n : Z) : M uheap (option Z) :=
  let* s := get in
  let new := ubrk s + n / 16 in
  if 0 <? n then
    if new <=? limit then put (s <| ubrk := new |>) ;;; ret (Some (ubrk s)) else ret None
  else
    put (s <| ubrk := if new <? 0 then ubrk s else new |>) ;;; ret (Some (ubrk s)).

Definition morecore (fuel : nat) (nu : Z) : M uheap Z :=
  let nu := if nu <? 4096 then 4096 else nu in
  let* p := sbrk (s32 (nu * 16)) in
  match p with
  | None => ret 0
  | Some p =>
      seth p (Header 0 nu) ;;;
      free fuel p ;;;
      let* s := get in
      ret (freep s)
  end.

(** The loop of [malloc]; the result is [p + 1], or 0. *)
Fixpoint malloc_loop (fuel ffuel : nat) (nunits prevp p : Z) : M uheap Z :=
  match fuel with
  | O => λ _, NoFuel
  | S fuel =>
      let* h := geth p in
      if nunits <=? hsize h then
        let* r :=
          (if hsize h =? nunits then set_ptr prevp (hptr h) ;;; ret p
           else
             set_size p (u32 (hsize h - nunits)) ;;;
             let q := p + u32 (hsize h - nunits) in
             let* s := get in
             seth q (Header (default 0 (hptr <$> hdr s !! q)) nunits) ;;;
             ret q) in
        modify (λ s, s <| freep := prevp |>) ;;;
        ret (r + 1)
      else
        let* s := get in
        if p =? freep s then
          let* p := morecore ffuel nunits in
          if p =? 0 then ret 0
          else
            let* h := geth p in
            malloc_loop fuel ffuel nunits p (hptr h)
        else malloc_loop fuel ffuel nunits p (hptr h)
  end.

Definition units (nbytes : Z) : Z := u32 ((nbytes + 15) / 16 + 1).

Definition malloc (fuel ffuel : nat) (nbytes : Z) : M uheap Z :=
  let nunits := units nbytes in
  let* s := get in
  (if freep s =? 0 then
     seth base (Header base 0) ;;; modify (λ s, s <| freep := base |>)
   else ret tt) ;;;
  let* s := get in
  let prevp := freep s in
  let* h := geth prevp in
  malloc_loop fuel ffuel nunits prevp (hptr h).
End umalloc.
