(* ===== verification/UmallocFree.v ===== *)
(** * The free list of the user's allocator, and free

    The free list is a circular list of blocks in the order of their
    addresses, starting at [base]; blocks never overlap, and adjacent free
    blocks are joined.  [free] puts a block back into it. *)

From Stdlib Require Import ZArith Lia.
From stdpp Require Import base numbers list gmap strings tactics.
From S2P Require Import Prelude Umalloc.

Local Open Scope Z_scope.

(** ** The free list *)

(** A block: its first unit (the header) and its size. *)
Abbreviation blk := (Z * Z)%type.

(** The blocks [ns] are linked from [a] to [b]. *)
Fixpoint lseg (h : gmap Z header) (a : Z) (ns : list blk) (b : Z) : Prop :=
  match ns with
  | [] => a = b
  | (x, s) :: ns => a = x ∧ ∃ n, h !! x = Some (Header n s) ∧ lseg h n ns b
  end.

(** Ascending, with gaps between neighbours. *)
Fixpoint ordered (lo : Z) (ns : list blk) (hi : Z) : Prop :=
  match ns with
  | [] => lo ≤ hi
  | (a, s) :: ns => lo < a ∧ 0 ≤ s ∧ ordered (a + s) ns hi
  end.

Definition apart (b c : blk) : Prop := b.1 + b.2 ≤ c.1 ∨ c.1 + c.2 ≤ b.1.

Definition first_addr (ns : list blk) (b : Z) : Z := match ns with [] => b | (x, _) :: _ => x end.

Lemma lseg_first h a ns b : lseg h a ns b → a = first_addr ns b.
Proof. destruct ns as [|[x s] ns]; [done|]. by intros [-> _]. Qed.

Lemma lseg_app h a ns ms b : lseg h a (ns ++ ms) b ↔ lseg h a ns (first_addr ms b) ∧ lseg h (first_addr ms b) ms b.
Proof.
  revert a. induction ns as [|[x s] ns IH]; intros a; cbn [app lseg].
  - split; [|by intros [-> ?]]. intros H. pose proof (lseg_first _ _ _ _ H) as ->. done.
  - split.
    + intros (-> & n & Hx & [H1 H2]%IH). eauto.
    + intros ((-> & n & Hx & H1) & H2). split; [done|]. exists n. split; [done|]. by apply IH.
Qed.

Lemma lseg_frame h a ns b x v : x ∉ ns.*1 → lseg h a ns b → lseg (<[x := v]> h) a ns b.
Proof.
  revert a. induction ns as [|[y s] ns IH]; intros a Hx; [done|]. cbn in Hx.
  apply not_elem_of_cons in Hx as [Hne Hx]. intros (-> & n & Hy & H). split; [done|]. exists n.
  rewrite lookup_insert_ne by done. auto.
Qed.

Lemma ordered_mono lo lo' ns hi hi' : ordered lo ns hi → lo' ≤ lo → hi ≤ hi' → ordered lo' ns hi'.
Proof.
  revert lo lo'. induction ns as [|[a s] ns IH]; intros lo lo' H Hlo Hhi; simpl in *; [lia|].
  destruct H as (H1 & H2 & H3). split_and!; [lia|done|]. apply (IH (a + s)); [done|lia|done].
Qed.

Lemma ordered_app lo ns ms hi : ordered lo (ns ++ ms) hi ↔ ∃ m, ordered lo ns m ∧ ordered m ms hi.
Proof.
  revert lo. induction ns as [|[a s] ns IH]; intros lo; cbn [app ordered].
  - split; [intros H; by exists lo|]. intros (m & Hm & H). by eapply ordered_mono.
  - split.
    + intros (H1 & H2 & (m & H3 & H4)%IH). exists m. done.
    + intros (m & (H1 & H2 & H3) & H4). split_and!; [done|done|]. apply IH. eauto.
Qed.

Lemma ordered_bounds lo ns hi a s : ordered lo ns hi → (a, s) ∈ ns → lo < a ∧ 0 ≤ s ∧ a + s ≤ hi.
Proof.
  revert lo. induction ns as [|[x k] ns IH]; intros lo H Hin; [by apply elem_of_nil in Hin|].
  destruct H as (H1 & H2 & H3).
  assert (x + k ≤ hi).
  { clear -H3. revert H3. generalize (x + k). induction ns as [|[y l] ns IH]; intros z H; simpl in H; [done|].
    destruct H as (? & ? & H). apply IH in H. lia. }
  apply elem_of_cons in Hin as [[= -> ->]|Hin]; [lia|]. destruct (IH _ H3 Hin). lia.
Qed.

Lemma ordered_addr lo ns hi x : ordered lo ns hi → x ∈ ns.*1 → lo < x ≤ hi.
Proof.
  intros H ([a s] & -> & Hin)%list_elem_of_fmap. destruct (ordered_bounds _ _ _ _ _ H Hin). simpl. lia.
Qed.

(** Around a block in the middle. *)
Lemma ordered_around lo ns a s ms hi : ordered lo (ns ++ (a, s) :: ms) hi →
  (∀ x, x ∈ ns.*1 → x < a) ∧ (∀ x, x ∈ ms.*1 → a + s < x) ∧ lo < a ∧ 0 ≤ s ∧ a + s ≤ hi ∧
  (∀ b k, (b, k) ∈ ns → b + k < a).
Proof.
  intros (m & H1 & (H2 & H3 & H4))%ordered_app.
  assert (Hlo : lo ≤ m).
  { clear -H1. revert lo H1. induction ns as [|[y l] ns IH]; intros lo H; simpl in H; [done|]. destruct H as (?&?&H). apply IH in H. lia. }
  assert (Hhi : a + s ≤ hi).
  { clear -H4. revert H4. generalize (a + s). induction ms as [|[y l] ms IH]; intros z H; simpl in H; [done|]. destruct H as (?&?&H). apply IH in H. lia. }
  split_and!; try lia.
  - intros x Hx. pose proof (ordered_addr _ _ _ _ H1 Hx). lia.
  - intros x Hx. by pose proof (ordered_addr _ _ _ _ H4 Hx) as [? _].
  - intros b k Hb. pose proof (ordered_bounds _ _ _ _ _ H1 Hb). lia.
Qed.

(** ** The invariant *)

Section heap.
Context (base limit : Z).

(** [ns] are the free blocks, [al] the allocated ones. *)
Record heap_ok (s : uheap) (ns al : list blk) : Prop := {
  ho_list : lseg (hdr s) base ((base, 0) :: ns) base;
  ho_order : ordered (base - 1) ((base, 0) :: ns) (ubrk s);
  ho_pos : ∀ c, c ∈ ns → 0 < c.2;
  ho_freep : freep s ∈ ((base, 0) :: ns).*1;
  ho_alloc : ∀ b n, (b, n) ∈ al → base < b ∧ 0 < n ∧ b + n ≤ ubrk s ∧ ∃ q, hdr s !! b = Some (Header q n);
  ho_apart : ∀ b c, b ∈ al → c ∈ ns → apart b c;
  ho_al : ForallOrdPairs apart al;
  ho_limit : 0 < base < ubrk s ∧ ubrk s ≤ limit ∧ limit < 2^32;
}.

(** *** Where a block belongs *)

Lemma split_at lo ns hi bp n : ordered lo ns hi → ns ≠ [] → first_addr ns 0 < bp → 0 < n →
  (∀ c, c ∈ ns → c.1 + c.2 ≤ bp ∨ bp + n ≤ c.1) → (∀ c, c ∈ tail ns → 0 < c.2) →
  ∃ pre p sp post, ns = pre ++ (p, sp) :: post ∧ p < bp ∧ p + sp ≤ bp ∧
    (∀ y, y ∈ post.*1 → bp + n ≤ y).
Proof.
  revert lo. induction ns as [|[x k] ns IH]; intros lo Ho Hne Hx Hn Hap Hpos; [done|]. destruct Ho as (H1 & H2 & H3). simpl in Hx.
  assert (Hxk : x + k ≤ bp) by (destruct (Hap (x, k) ltac:(by left)); simpl in *; lia).
  destruct ns as [|[y l] ns].
  { exists [], x, k, []. split_and!; try done. by intros ? ?%elem_of_nil. }
  destruct (Z.lt_ge_cases y bp) as [Hy|Hy].
  - destruct (IH (x + k) H3 ltac:(done) Hy Hn) as (pre & p & sp & post & E & H).
    { intros c Hc. apply Hap. by right. }
    { intros c Hc. apply Hpos. by right. }
    exists ((x, k) :: pre), p, sp, post. rewrite E. done.
  - exists [], x, k, ((y, l) :: ns). split_and!; try done.
    assert (Hyn : bp + n ≤ y).
    { specialize (Hpos (y, l) ltac:(by left)). destruct (Hap (y, l) ltac:(right; by left)); simpl in *; lia. }
    destruct H3 as (_ & Hl & H3). intros z [->|Hz]%elem_of_cons; [done|].
    pose proof (ordered_addr _ _ _ _ H3 Hz). lia.
Qed.

Lemma geth_ok s p h : hdr s !! p = Some h → geth p s = Ret (h, s).
Proof. unfold geth. by intros ->. Qed.
Lemma seth_ok s p h : p < ubrk s → seth p h s = Ret (tt, s <| hdr ::= <[p := h]> |>).
Proof. intros H. unfold seth. by test_true (p <? ubrk s). Qed.

Lemma free_find_fwd s bp p sp post : ∀ mid x lo hi fuel,
  lseg (hdr s) x (mid ++ (p, sp) :: post) base → ordered lo (mid ++ (p, sp) :: post) hi →
  base ≤ p < bp → (∀ y, y ∈ post.*1 → bp < y) → (length mid < fuel)%nat →
  free_find fuel bp x s = Ret (p, s).
Proof.
  induction mid as [|[z k] mid IH]; intros x lo hi fuel Hl Ho Hp Hpost Hf; (destruct fuel as [|fuel]; [simpl in Hf; lia|]);
    cbn [free_find app lseg ordered] in *; destruct Hl as (-> & n & Hx & Hl); rewrite (bind_Ret _ _ _ _ _ (geth_ok _ _ _ Hx)); cbn [hptr].
  - apply lseg_first in Hl. subst n. test_true (p <? bp). destruct post as [|[y l] post]; cbn [first_addr].
    + test_false (bp <? base). test_true (base <=? p). done.
    + assert (bp < y) by (apply Hpost; by left). by test_true (bp <? y).
  - pose proof (lseg_first _ _ _ _ Hl) as En. destruct Ho as (Ho1 & Ho2 & Ho3).
    assert (Hn : z < n ≤ p).
    { subst n. destruct mid as [|[y l] mid]; cbn [app first_addr] in *.
      - destruct Ho3 as (? & _). lia.
      - destruct (ordered_around (z + k) ((y, l) :: mid) p sp post hi Ho3) as (H1 & _).
        specialize (H1 y ltac:(by left)). destruct Ho3 as (? & _). lia. }
    test_true (z <? bp). test_false (bp <? n). test_false (n <=? z). cbn [andb].
    apply (IH n (z + k) hi); try done. simpl in Hf. lia.
Qed.

Lemma free_find_wrap s bp : ∀ tl x lo hi fuel, tl ≠ [] →
  lseg (hdr s) x tl base → ordered lo tl hi → base < bp → base ≤ lo → (∀ y, y ∈ tl.*1 → bp < y) →
  free_find (length tl + fuel) bp x s = free_find fuel bp base s.
Proof.
  induction tl as [|[z k] tl IH]; intros x lo hi fuel Hne Hl Ho Hb Hlo Hy; [done|].
  cbn [length Nat.add free_find lseg ordered] in *. destruct Hl as (-> & n & Hx & Hl). destruct Ho as (Ho1 & Ho2 & Ho3).
  rewrite (bind_Ret _ _ _ _ _ (geth_ok _ _ _ Hx)). cbn [hptr].
  assert (bp < z) by (apply Hy; by left). test_false (z <? bp). cbn [andb orb].
  pose proof (lseg_first _ _ _ _ Hl) as En. destruct tl as [|[y l] tl]; cbn [first_addr] in En; subst n.
  - test_true (base <=? z). test_false (bp <? base). done.
  - destruct Ho3 as (Hzy & Ho3). test_false (y <=? z). cbn [andb].
    apply (IH y (z + k) hi fuel); [done|done|exact (conj Hzy Ho3)|done|lia|]. intros w Hw. apply Hy. by right.
Qed.

Lemma lseg_suffix h a l1 x k l2 b : lseg h a (l1 ++ (x, k) :: l2) b → lseg h x ((x, k) :: l2) b.
Proof. intros [_ H]%lseg_app. exact H. Qed.

Lemma free_find_spec s bp pre p sp post hi x fuel :
  let all := pre ++ (p, sp) :: post in
  lseg (hdr s) base all base → ordered (base - 1) all hi → base ≤ p < bp → (∀ y, y ∈ post.*1 → bp < y) →
  x ∈ all.*1 → (2 * length all ≤ fuel)%nat →
  free_find fuel bp x s = Ret (p, s).
Proof.
  intros all Hl Ho Hp Hpost Hx Hf. unfold all in *. rewrite length_app in Hf. simpl in Hf.
  assert (Hbase : base < bp) by lia.
  assert (Hstart : ∀ f, (length pre < f)%nat → free_find f bp base s = Ret (p, s)).
  { intros f Hlt. by apply (free_find_fwd s bp p sp post pre base (base - 1) hi). }
  rewrite fmap_app, elem_of_app in Hx. cbn in Hx. rewrite elem_of_cons in Hx. destruct Hx as [Hx|[->|Hx]].
  - apply list_elem_of_fmap in Hx as ([x' k] & -> & (l1 & l2 & ->)%list_elem_of_split).
    rewrite <- app_assoc in Hl, Ho. cbn [app] in Hl, Ho. apply lseg_suffix in Hl.
    apply ordered_app in Ho as (m & _ & Ho). rewrite length_app in Hf. simpl in Hf.
    apply (free_find_fwd s bp p sp post ((x', k) :: l2) x' m hi); try done. simpl. lia.
  - apply lseg_suffix in Hl. apply ordered_app in Ho as (m & _ & Ho).
    apply (free_find_fwd s bp p sp post [] p m hi); try done. simpl. lia.
  - apply list_elem_of_fmap in Hx as ([x' k] & -> & (q1 & q2 & ->)%list_elem_of_split).
    change (pre ++ (p, sp) :: q1 ++ (x', k) :: q2) with (pre ++ ((p, sp) :: q1) ++ (x', k) :: q2) in Hl, Ho.
    rewrite app_assoc in Hl, Ho. apply lseg_suffix in Hl. apply ordered_app in Ho as (m & Ho1 & Ho2).
    destruct (ordered_around _ pre p sp q1 m Ho1) as (_ & _ & _ & _ & Hm & _).
    rewrite length_app in Hf. simpl in Hf. cbn [fst].
    replace fuel with (length ((x', k) :: q2) + (fuel - length ((x', k) :: q2)))%nat by (simpl; lia).
    rewrite (free_find_wrap s bp ((x', k) :: q2) x' m hi); [apply Hstart; simpl; lia|done|done|done|done| |].
    + pose proof (ordered_bounds _ _ _ p sp Ho1 ltac:(apply elem_of_app; right; by left)). lia.
    + intros y Hy. apply Hpost. rewrite fmap_app. apply elem_of_app. by right.
Qed.

(** *** Joining and linking *)

Definition covers (ns : list blk) (u : Z) : Prop := ∃ a k, (a, k) ∈ ns ∧ a ≤ u < a + k.

Lemma covers_app ns ms u : covers (ns ++ ms) u ↔ covers ns u ∨ covers ms u.
Proof.
  unfold covers. split.
  - intros (a & k & [H|H]%elem_of_app & Hu); [left|right]; eauto.
  - intros [(a & k & H & Hu)|(a & k & H & Hu)]; exists a, k; (split; [|done]); apply elem_of_app; [by left|by right].
Qed.
Lemma covers_cons a k ns u : covers ((a, k) :: ns) u ↔ a ≤ u < a + k ∨ covers ns u.
Proof.
  unfold covers. split.
  - intros (b & l & [[= -> ->]|H]%elem_of_cons & Hu); [by left|right; eauto].
  - intros [Hu|(b & l & H & Hu)]; [exists a, k; split; [by left|done]|exists b, l; split; [by right|done]].
Qed.

(** The first half of [free]: [bp] takes over its right neighbour or points to it. *)
Lemma join_right s bp n qb pre p sp post hi :
  hdr s !! bp = Some (Header qb n) → lseg (hdr s) base (pre ++ (p, sp) :: post) base →
  ordered (base - 1) (pre ++ (p, sp) :: post) hi → base ≤ p < bp → p + sp ≤ bp → 0 < n → bp + n ≤ hi → hi < 2^32 → 0 < base →
  hi ≤ ubrk s → (∀ y, y ∈ post.*1 → bp + n ≤ y) →
  ∃ np k rest nr, hdr s !! p = Some (Header np sp) ∧
    (if bp + n =? np then
       let* hn := geth np in
       seth bp (Header (hptr hn) (u32 (n + hsize hn)))
     else set_ptr bp np) s = Ret (tt, s <| hdr ::= <[bp := Header nr k]> |>) ∧
    lseg (hdr s) nr rest base ∧ (∃ m, ordered m rest hi ∧ bp + k ≤ m) ∧ n ≤ k ∧ bp + k ≤ hi ∧
    (∀ c, c ∈ rest → c ∈ post) ∧ (length rest ≤ length post)%nat ∧
    ∀ u, covers ((bp, k) :: rest) u ↔ covers ((bp, n) :: post) u.
Proof.
  intros Hb Hl Ho Hp Hsp Hn Hhi H32 Hbase Hbrk Hpost. apply lseg_suffix in Hl. destruct Hl as (_ & np & Hnp & Hl).
  pose proof (lseg_first _ _ _ _ Hl) as Enp.
  destruct (ordered_app (base - 1) pre ((p, sp) :: post) hi) as [(m & _ & (Hm1 & Hm2 & Hm3)) _]; [done|].
  exists np. destruct (Z.eqb_spec (bp + n) np) as [E|E].
  - destruct post as [|[y sy] post]; cbn [first_addr] in Enp; [lia|]. subst np.
    destruct Hl as (_ & ny & Hy & Hl). destruct Hm3 as (Hy1 & Hy2 & Hy3).
    rewrite (bind_Ret _ _ _ _ _ (geth_ok _ _ _ Hy)). cbn [hsize hptr].
    assert (y + sy ≤ hi) by (apply (ordered_around (p + sp) [] y sy post hi); by split).
    exists (n + sy), post, ny. rewrite u32_small by lia. split; [done|]. split; [by apply seth_ok; lia|]. split_and!; try done; try lia.
    + exists (y + sy). split; [done|lia].
    + intros c Hc. by right.
    + simpl. lia.
    + intros u. rewrite !covers_cons. split; intros [?|?]; [|by right; right|left; lia|destruct H0; [left; lia|by right]].
      destruct (Z.lt_ge_cases u (bp + n)); [left; lia|right; left; lia].
  - exists n, post, np. unfold set_ptr. rewrite (bind_Ret _ _ _ _ _ (geth_ok _ _ _ Hb)). cbn [hsize hptr]. split; [done|].
    split; [by apply seth_ok; lia|]. split_and!; try done; try lia. destruct post as [|[y sy] post]; simpl in *.
    + by exists (bp + n).
    + exists (y - 1). subst np. assert (bp + n ≤ y) by (apply Hpost; by left). destruct Hm3 as (? & ? & ?). split; [|lia]. split_and!; [lia|done|done].
Qed.

(** The second half: [p] takes over [bp] or points to it. *)
Lemma join_left s bp n pre p sp np k rest nr hi m :
  hdr s !! p = Some (Header np sp) → lseg (hdr s) base pre p → lseg (hdr s) nr rest base →
  ordered (base - 1) (pre ++ [(p, sp)]) bp → ordered m rest hi → bp + k ≤ m → 0 < n ≤ k → bp + k ≤ hi →
  p < bp → p + sp ≤ bp → 0 < base → hi < 2^32 → hi ≤ ubrk s →
  let s1 := s <| hdr ::= <[bp := Header nr k]> |> in
  ∃ mid v, hdr s1 !! p = Some (Header np sp) ∧
    (if p + sp =? bp then
       let* hb := geth bp in
       seth p (Header (hptr hb) (u32 (sp + hsize hb)))
     else set_ptr p bp) s1 = Ret (tt, s1 <| hdr ::= <[p := v]> |>) ∧
    lseg (<[p := v]> (hdr s1)) base (pre ++ mid ++ rest) base ∧
    ordered (base - 1) (pre ++ mid ++ rest) hi ∧
    (mid = [(p, sp + k)] ∧ p + sp = bp ∨ mid = [(p, sp); (bp, k)]).
Proof.
  intros Hp Hpre Hrest Ho Hor Hm Hn Hhi Hlt Hsp Hb H32 Hbrk s1.
  destruct (ordered_around _ _ _ _ _ _ Ho) as (A1 & _ & A3 & A4 & A5 & _).
  assert (Hp1 : hdr s1 !! p = Some (Header np sp)) by (cbn; by rewrite lookup_insert_ne by lia).
  assert (Hb1 : hdr s1 !! bp = Some (Header nr k)) by (cbn; apply lookup_insert_eq).
  assert (Npre : ∀ x, bp ≤ x ∨ x = p → x ∉ pre.*1) by (intros x Hx Hin; specialize (A1 x Hin); lia).
  assert (Nrest : ∀ x, x ≤ bp → x ∉ rest.*1).
  { intros x Hx Hin. pose proof (ordered_addr _ _ _ _ Hor Hin). lia. }
  assert (Lpre : ∀ v, lseg (<[p := v]> (hdr s1)) base pre p).
  { intros v. apply lseg_frame; [apply Npre; by right|]. cbn. apply lseg_frame; [apply Npre; left; lia|done]. }
  assert (Lrest : ∀ v, lseg (<[p := v]> (hdr s1)) nr rest base).
  { intros v. apply lseg_frame; [apply Nrest; lia|]. cbn. apply lseg_frame; [apply Nrest; lia|done]. }
  apply ordered_app in Ho as (m0 & Ho1 & (Ho2 & Ho3 & Ho4)).
  destruct (Z.eqb_spec (p + sp) bp) as [E|E].
  - exists [(p, sp + k)], (Header nr (sp + k)). rewrite (bind_Ret _ _ _ _ _ (geth_ok _ _ _ Hb1)). cbn [hsize hptr].
    rewrite u32_small by lia. split; [done|]. split; [apply seth_ok; cbn; lia|]. split_and!; [| |by left].
    + apply lseg_app. split; [apply Lpre|]. cbn [app first_addr lseg]. split; [done|]. exists nr.
      rewrite lookup_insert_eq. split; [done|]. apply Lrest.
    + apply ordered_app. exists m0. split; [done|]. cbn [app ordered]. split_and!; [lia|lia|].
      eapply ordered_mono; [exact Hor|lia|lia].
  - exists [(p, sp); (bp, k)], (Header bp sp). unfold set_ptr. rewrite (bind_Ret _ _ _ _ _ (geth_ok _ _ _ Hp1)). cbn [hsize hptr].
    split; [done|]. split; [apply seth_ok; cbn; lia|]. split_and!; [| |by right].
    + apply lseg_app. split; [apply Lpre|]. cbn [app first_addr lseg]. split; [done|]. exists bp.
      rewrite lookup_insert_eq. split; [done|]. split; [done|]. exists nr. rewrite lookup_insert_ne by lia. split; [done|]. apply Lrest.
    + apply ordered_app. exists m0. split; [done|]. cbn [app ordered]. split_and!; [lia|lia|lia|lia|].
      eapply ordered_mono; [exact Hor|lia|lia].
Qed.

(** *** Allocated blocks *)

Lemma apart_sym b c : apart b c → apart c b.
Proof. unfold apart. tauto. Qed.

Lemma pairs_middle l1 x l2 : ForallOrdPairs apart (l1 ++ x :: l2) →
  ForallOrdPairs apart (l1 ++ l2) ∧ ∀ c, c ∈ l1 ++ l2 → apart x c.
Proof.
  induction l1 as [|y l1 IH]; cbn [app]; intros H; inversion H as [|?? Hy Hp]; subst.
  - split; [done|]. by apply list.Forall_forall.
  - destruct (IH Hp) as [H1 H2]. rewrite list.Forall_forall in Hy. split.
    + constructor; [|done]. apply list.Forall_forall. intros c Hc. apply Hy. set_solver.
    + intros c [->|Hc]%elem_of_cons; [|by apply H2]. apply apart_sym, Hy. set_solver.
Qed.

(** The effect of [free]: the block joins the free units, nothing else moves. *)
Record freed_ok (s s' : uheap) (ns ns' al : list blk) (bp n : Z) : Prop := {
  fo_heap : heap_ok s' ns' al;
  fo_units : ∀ u, covers ns' u ↔ covers ns u ∨ bp ≤ u < bp + n;
  fo_brk : ubrk s' = ubrk s;
  fo_length : (length ns' ≤ S (length ns))%nat;
}.

Lemma apart_units b c : 0 < b.2 → 0 < c.2 →
  (∀ u, b.1 ≤ u < b.1 + b.2 → c.1 ≤ u < c.1 + c.2 → False) → apart b c.
Proof.
  intros Hb Hc H. unfold apart. destruct (Z.le_gt_cases (b.1 + b.2) c.1); [by left|].
  destruct (Z.le_gt_cases (c.1 + c.2) b.1); [by right|]. exfalso. apply (H (Z.max b.1 c.1)); lia.
Qed.

Lemma apart_not_covered b ns u : (∀ c, c ∈ ns → apart b c) → b.1 ≤ u < b.1 + b.2 → ¬ covers ns u.
Proof. intros H Hu (a & k & Hc & Ha). destruct (H _ Hc); simpl in *; lia. Qed.

Lemma apart_uncovered (b : blk) (ns : list blk) : 0 < b.2 → (∀ c, c ∈ ns → 0 < c.2) →
  (∀ u, b.1 ≤ u < b.1 + b.2 → ¬ covers ns u) → ∀ c, c ∈ ns → apart b c.
Proof.
  intros Hb Hns H c Hc. apply apart_units; [done|by apply Hns|]. intros u Hu Hcu. apply (H u Hu).
  exists c.1, c.2. by destruct c.
Qed.

(** Without [base], which has size 0. *)
Lemma drop_base ns u : covers ((base, 0) :: ns) u ↔ covers ns u.
Proof. rewrite covers_cons. split; [intros [?|?]; [lia|done]|by right]. Qed.

(** The list after [free] starts with [base] again, and its blocks are not empty. *)
Lemma freed_list ns pre p sp post bp k rest mid :
  (base, 0) :: ns = pre ++ (p, sp) :: post → (∀ c, c ∈ ns → 0 < c.2) → base < bp → 0 < k → 0 ≤ sp →
  (∀ c, c ∈ rest → c ∈ post) → (length rest ≤ length post)%nat →
  (mid = [(p, sp + k)] ∧ p + sp = bp ∨ mid = [(p, sp); (bp, k)]) →
  ∃ ns', pre ++ mid ++ rest = (base, 0) :: ns' ∧ (∀ c, c ∈ ns' → 0 < c.2) ∧ (length ns' ≤ S (length ns))%nat ∧
    p ∈ (pre ++ mid ++ rest).*1.
Proof.
  intros E Hpos Hb Hk Hsp Hrest Hlen Hmid. destruct pre as [|[z l] pre]; simplify_eq/=.
  - destruct Hmid as [[-> ?]| ->]; [lia|]. eexists. split; [reflexivity|]. split_and!; [|simpl; lia|by left].
    intros c [->|Hc]%elem_of_cons; [simpl; lia|]. by apply Hpos, Hrest.
  - assert (Hp : ∀ c, c ∈ mid → 0 < c.2).
    { specialize (Hpos (p, sp) ltac:(set_solver)). simpl in Hpos.
      destruct Hmid as [[-> ?]| ->]; intros c Hc; set_unfold; destruct_or?; subst; simpl; lia. }
    eexists. split; [reflexivity|]. split_and!.
    + intros c Hc. rewrite !elem_of_app in Hc. destruct Hc as [Hc|[Hc|Hc]]; [|by apply Hp|];
        apply Hpos, elem_of_app; [by left|right; right; by apply Hrest].
    + rewrite !length_app. destruct Hmid as [[-> ?]| ->]; simpl; lia.
    + right. rewrite !fmap_app, !elem_of_app. right. left. destruct Hmid as [[-> ?]| ->]; by left.
Qed.

Lemma free_spec s ns al1 bp n al2 fuel :
  heap_ok s ns (al1 ++ (bp, n) :: al2) → (2 * S (length ns) ≤ fuel)%nat →
  wp (free fuel bp) (λ _ s', ∃ ns', freed_ok s s' ns ns' (al1 ++ al2) bp n) s.
Proof.
  intros [Hl Ho Hpos Hfp Hal Hap Hpairs ((Hb0 & Hb1) & Hlim & H32)] Hf.
  destruct (Hal bp n ltac:(set_solver)) as (Hbb & Hn & Hbn & q & Hq).
  destruct (pairs_middle _ _ _ Hpairs) as [Hpairs' Hx].
  destruct (split_at (base - 1) ((base, 0) :: ns) (ubrk s) bp n) as (pre & p & sp & post & E & Hp1 & Hp2 & Hpost); try done.
  { intros c [->|Hc]%elem_of_cons; [simpl; lia|].
    destruct (Hap (bp, n) c ltac:(set_solver) Hc) as [?|?]; simpl in *; lia. }
  rewrite E in Hl, Ho, Hfp. destruct (ordered_around _ pre p sp post _ Ho) as (A1 & _ & A3 & A4 & _ & _).
  assert (Hfind : free_find fuel bp (freep s) s = Ret (p, s)).
  { eapply free_find_spec; [exact Hl|exact Ho|lia| |exact Hfp|rewrite <- E; simpl; lia].
    intros y Hy. specialize (Hpost y Hy). lia. }
  destruct (join_right s bp n q pre p sp post (ubrk s)) as (np & k & rest & nr & Hnp & Hright & Lrest & (m & Orest & Hm) & Hk & Hkb & Rin & Rlen & Rcov);
    try done; try lia.
  destruct (join_left s bp n pre p sp np k rest nr (ubrk s) m) as (mid & v & Hp' & Hleft & Lall & Oall & Hmid); try done; try lia.
  { apply lseg_app in Hl as [Hl _]. done. }
  { apply ordered_app in Ho as (m0 & Ho1 & (? & ? & _)). apply ordered_app. exists m0. split; [done|]. simpl. lia. }
  destruct (freed_list ns pre p sp post bp k rest mid) as (ns' & E' & Hpos' & Hlen & Hpin); try done; try lia.
  apply wp_returns. eexists tt, _. split.
  { unfold free. rewrite (bind_Ret get _ s s s) by done. rewrite (bind_Ret _ _ _ _ _ Hfind).
    rewrite (bind_Ret _ _ _ _ _ (geth_ok _ _ _ Hq)), (bind_Ret _ _ _ _ _ (geth_ok _ _ _ Hnp)). cbn [hsize hptr].
    rewrite (bind_Ret _ _ _ _ _ Hright), (bind_Ret _ _ _ _ _ (geth_ok _ _ _ Hp')). cbn [hsize hptr].
    rewrite (bind_Ret _ _ _ _ _ Hleft). reflexivity. }
  assert (Hcov : ∀ u, covers ns' u ↔ covers ns u ∨ bp ≤ u < bp + n).
  { intros u. rewrite <- (drop_base ns' u), <- (drop_base ns u), E, <- E', !covers_app, covers_cons. specialize (Rcov u).
    rewrite !covers_cons in Rcov. assert (covers mid u ↔ p ≤ u < p + sp ∨ bp ≤ u < bp + k).
    { destruct Hmid as [[-> ?]| ->]; rewrite ?covers_cons.
      - split; [intros [?|(? & ? & []%elem_of_nil & _)]; lia|intros; left; lia].
      - split; [intros [?|[?|(? & ? & []%elem_of_nil & _)]]; lia|tauto]. }
    tauto. }
  assert (Hfree : p = base ∨ (p, sp) ∈ ns).
  { destruct pre as [|[z l] pre]; simplify_eq/=; [by left|right]. apply elem_of_app. right. by left. }
  exists ns'. split; [|done|done|done]. split; try done.
  - cbn [hdr freep ubrk]. by rewrite <- E'.
  - cbn [hdr freep ubrk]. by rewrite <- E'.
  - cbn [hdr freep ubrk]. by rewrite <- E'.
  - intros b l Hb. destruct (Hal b l ltac:(set_solver)) as (B1 & B2 & B3 & qb & B4). split_and!; try done.
    exists qb. cbn. rewrite !lookup_insert_ne; [done| |].
    + intros <-. destruct (Hx (bp, l) Hb); simpl in *; lia.
    + intros <-. destruct Hfree as [->|Hin]; [lia|]. pose proof (Hpos _ Hin). destruct (Hap (p, l) (p, sp) ltac:(set_solver) Hin); simpl in *; lia.
  - intros [b l] c Hb. destruct (Hal b l ltac:(set_solver)) as (B1 & B2 & B3 & _). apply apart_uncovered; [done|done|].
    intros u Hu [Hc|Hc]%Hcov.
    + revert Hc. apply (apart_not_covered (b, l)); [|done]. intros c' Hc'. apply Hap; [set_solver|done].
    + destruct (Hx (b, l) Hb); simpl in *; lia.
Qed.
End heap.
