(* ===== verification/UmallocProps.v ===== *)
(** * The user's allocator keeps its blocks apart

    [malloc] takes a block from the free list or from new memory; a block it
    returns overlaps no other, and [free] undoes it. *)

From Stdlib Require Import ZArith Lia.
From stdpp Require Import base numbers list gmap strings tactics.
From S2P Require Import Prelude Umalloc UmallocFree.

Local Open Scope Z_scope.

Section heap.
Context (base limit : Z).
Local Abbreviation heap_ok := (heap_ok base limit).

(** ** malloc *)

(** The part of [malloc_loop] that takes the block [p] of size [k] after [prevp]. *)
Definition take_block (nunits prevp p np k : Z) : M uheap Z :=
  let* r :=
    (if k =? nunits then set_ptr prevp np ;;; ret p
     else
       set_size p (u32 (k - nunits)) ;;;
       let q := p + u32 (k - nunits) in
       let* s := get in
       seth q (Header (default 0 (hptr <$> hdr s !! q)) nunits) ;;;
       ret q) in
  modify (λ s, s <| freep := prevp |>) ;;;
  ret (r + 1).

(** The effect of a successful [malloc]. *)
Record taken_ok (s s' : uheap) (ns ns' al : list blk) (r n : Z) : Prop := {
  to_heap : heap_ok s' ns' ((r, n) :: al);
  to_units : ∀ u, covers ns u ↔ covers ns' u ∨ r ≤ u < r + n;
  to_brk : ubrk s' = ubrk s;
  to_length : (length ns' ≤ length ns)%nat;
}.

(** The block before [p] in the circular list. *)
Lemma predecessor s ns al z kz p k np : heap_ok s ns al → z ∈ ((base, 0) :: ns).*1 → hdr s !! z = Some (Header p kz) →
  hdr s !! p = Some (Header np k) → p ≠ base →
  ∃ l1 l2, (base, 0) :: ns = l1 ++ (z, kz) :: (p, k) :: l2 ∧ lseg (hdr s) base l1 z ∧ lseg (hdr s) np l2 base.
Proof.
  intros [Hl _ _ _ _ _ _ _] Hz Ez Ep Hp. apply list_elem_of_fmap in Hz as ([z' kz'] & -> & (l1 & l2 & E)%list_elem_of_split).
  rewrite E in Hl. apply lseg_app in Hl as [Hl1 (_ & n & Hn & Hl2)]. cbn [fst] in *. simplify_eq.
  pose proof (lseg_first _ _ _ _ Hl2) as F. destruct l2 as [|[y l] l2]; cbn [first_addr] in F; [done|]. subst y.
  destruct Hl2 as (_ & n' & Hn' & Hl2). simplify_eq. by exists l1, l2.
Qed.

Lemma taken_intro s s' ns al ns' r n qn :
  heap_ok s ns al → lseg (hdr s') base ((base, 0) :: ns') base → ordered (base - 1) ((base, 0) :: ns') (ubrk s) →
  ubrk s' = ubrk s → (∀ c, c ∈ ns' → 0 < c.2) → freep s' ∈ ((base, 0) :: ns').*1 →
  hdr s' !! r = Some (Header qn n) → 0 < n → (∀ u, covers ns u ↔ covers ns' u ∨ r ≤ u < r + n) →
  (∀ u, r ≤ u < r + n → ¬ covers ns' u) →
  (∀ x, hdr s' !! x = hdr s !! x ∨ x = base ∨ covers ns x) → (length ns' ≤ length ns)%nat →
  taken_ok s s' ns ns' al r n.
Proof.
  intros [Hl Ho Hpos Hfp Hal Hap Hpairs Hlim] Hl' Ho' Hbrk Hpos' Hfp' Hr Hn Hcov Hnot Hsame Hlen. split; try done.
  assert (Hin : ∀ u, covers ns u → base < u < ubrk s).
  { intros u (a & k & Hc & Hu). destruct Ho as (_ & _ & Ho). pose proof (ordered_bounds _ _ _ _ _ Ho Hc). lia. }
  assert (Hown : ∀ b, b ∈ al → ∀ u, b.1 ≤ u < b.1 + b.2 → ¬ covers ns u).
  { intros b Hb u. apply apart_not_covered. intros c Hc. by apply Hap. }
  split; try done; rewrite ?Hbrk; try done.
  - intros b l [[= -> ->]|Hb]%elem_of_cons.
    + pose proof (Hin r ltac:(apply Hcov; lia)). pose proof (Hin (r + n - 1) ltac:(apply Hcov; lia)). split_and!; [lia|done|lia|eauto].
    + destruct (Hal b l Hb) as (B1 & B2 & B3 & qb & B4). split_and!; try done. exists qb.
      destruct (Hsame b) as [->|[->|Hc]]; [done|lia|]. exfalso. apply (Hown _ Hb b); simpl; [lia|done].
  - intros b c [->|Hb]%elem_of_cons; apply apart_uncovered; try done.
    + destruct b as [b l]. by destruct (Hal b l Hb) as (_ & ? & _).
    + intros u Hu Hc. apply (Hown b Hb u Hu), Hcov. by left.
  - constructor; [|done]. apply list.Forall_forall. intros b Hb. apply apart_sym, apart_units; [|done|].
    + destruct b as [b l]. by destruct (Hal b l Hb) as (_ & ? & _).
    + intros u Hu Hru. apply (Hown b Hb u Hu), Hcov. by right.
Qed.

Lemma behind_base ns l1 z kz m : (base, 0) :: ns = l1 ++ (z, kz) :: m →
  ∃ l, ns = l ++ m ∧ ∀ m', l1 ++ (z, kz) :: m' = (base, 0) :: (l ++ m').
Proof.
  destruct l1 as [|b l1]; intros E; simplify_eq/=.
  - by exists [].
  - exists (l1 ++ [(z, kz)]). rewrite <- app_assoc. split; [done|]. intros m'. by rewrite <- app_assoc.
Qed.

Lemma set_ptr_ok s p q h : hdr s !! p = Some h → p < ubrk s →
  set_ptr p q s = Ret (tt, s <| hdr ::= <[p := Header q (hsize h)]> |>).
Proof. intros Hp Hb. unfold set_ptr. by rewrite (bind_Ret _ _ _ _ _ (geth_ok _ _ _ Hp)), seth_ok. Qed.
Lemma set_size_ok s p n h : hdr s !! p = Some h → p < ubrk s →
  set_size p n s = Ret (tt, s <| hdr ::= <[p := Header (hptr h) n]> |>).
Proof. intros Hp Hb. unfold set_size. by rewrite (bind_Ret _ _ _ _ _ (geth_ok _ _ _ Hp)), seth_ok. Qed.

Lemma not_covered_ordered lo l1 a k l2 hi u : ordered lo (l1 ++ (a, k) :: l2) hi → a ≤ u ≤ a + k →
  ¬ covers l1 u ∧ ¬ covers l2 u.
Proof.
  intros Ho Hu. destruct (ordered_around _ _ _ _ _ _ Ho) as (_ & A2 & _ & _ & _ & A6). split.
  - intros (b & l & Hb & ?). specialize (A6 b l Hb). lia.
  - intros (b & l & Hb & ?). specialize (A2 b ltac:(apply list_elem_of_fmap; by exists (b, l))). lia.
Qed.

Section take.
Context (s : uheap) (ns al : list blk) (z kz p k np : Z).
Context (H : heap_ok s ns al) (Hz : z ∈ ((base, 0) :: ns).*1) (Ez : hdr s !! z = Some (Header p kz)).
Context (Ep : hdr s !! p = Some (Header np k)) (Hk : 0 < k) (Hp : p ≠ base).

Lemma take_exact :
  wp (take_block k z p np k) (λ r s', ∃ ns', taken_ok s s' ns ns' al (r - 1) k) s.
Proof.
  destruct (predecessor s ns al z kz p k np H Hz Ez Ep Hp) as (l1 & l2 & E & Hl1 & Hl2).
  destruct (behind_base _ _ _ _ _ E) as (l & -> & El).
  pose proof (ho_order _ _ _ _ _ H) as Ho. rewrite E in Ho. 
  destruct (ordered_around _ l1 z kz _ _ Ho) as (A1 & A2 & A3 & A4 & _).
  assert (Hzp : z + kz < p) by (apply A2; by left).
  pose proof Ho as Ho2. rewrite (cons_middle (z, kz) l1), app_assoc in Ho2.
  pose proof Ho2 as (m & _ & (_ & _ & Ol2))%ordered_app.
  destruct (ordered_around _ _ p k l2 _ Ho2) as (_ & B2 & _ & _ & B5 & _).
  assert (Nu : ∀ u, p ≤ u < p + k → ¬ covers l u ∧ ¬ covers l2 u).
  { intros u Hu. pose proof (ho_order _ _ _ _ _ H) as (_ & _ & O). eapply not_covered_ordered; [exact O|lia]. }
  apply wp_returns. eexists _, _. split.
  { unfold take_block. test_true (k =? k). rewrite (bind_Ret _ _ s p (s <| hdr ::= <[z := Header np kz]> |>)); [reflexivity|].
    rewrite (bind_Ret _ _ _ _ _ (set_ptr_ok _ _ np _ Ez ltac:(lia))). reflexivity. }
  exists (l ++ l2). replace (p + 1 - 1) with p by lia. apply (taken_intro _ _ _ _ _ _ _ np); try done.
  - rewrite <- (El l2). apply lseg_app. cbn. cbn [first_addr]. split; [apply lseg_frame; [|done]|].
    + intros Hin. specialize (A1 z Hin). lia.
    + split; [done|]. exists np. rewrite lookup_insert_eq. split; [done|]. apply lseg_frame; [|done].
      intros Hin. specialize (B2 z Hin). lia.
  - rewrite <- (El l2). apply ordered_app in Ho as (m' & O1 & (O2 & O3 & _)). apply ordered_app. exists m'. split; [done|].
    cbn [ordered]. split_and!; [lia|done|]. eapply ordered_mono; [exact Ol2|lia|lia].
  - intros c Hc. apply (ho_pos _ _ _ _ _ H). set_solver.
  - rewrite <- (El l2), fmap_app, elem_of_app. right. by left.
  - cbn. rewrite lookup_insert_ne by lia. done.
  - intros u. rewrite !covers_app, covers_cons. tauto.
  - intros u Hu. rewrite covers_app. specialize (Nu u Hu). tauto.
  - intros x. cbn. destruct (decide (z = x)) as [<-|Hx]; [right|left; by rewrite lookup_insert_ne].
    assert (Hin : (z, kz) ∈ (base, 0) :: l ++ (p, k) :: l2) by (rewrite E; apply elem_of_app; right; by left).
    apply elem_of_cons in Hin as [[= -> _]|Hin]; [by left|right]. exists z, kz. split; [done|].
    pose proof (ho_pos _ _ _ _ _ H _ Hin). simpl in *. lia.
  - rewrite !length_app. simpl. lia.
Qed.

Lemma take_split n : 0 < n < k →
  wp (take_block n z p np k) (λ r s', ∃ ns', taken_ok s s' ns ns' al (r - 1) n) s.
Proof.
  intros Hn. destruct (predecessor s ns al z kz p k np H Hz Ez Ep Hp) as (l1 & l2 & E & Hl1 & Hl2).
  destruct (behind_base _ _ _ _ _ E) as (l & -> & El).
  pose proof (ho_order _ _ _ _ _ H) as (_ & _ & Ho).
  destruct (ordered_around _ l p k l2 _ Ho) as (A1 & A2 & A3 & A4 & A5 & A6).
  pose proof (ho_limit _ _ _ _ _ H) as ((? & ?) & ? & ?). set (q := p + (k - n)).
  assert (Nl : ∀ x, p ≤ x < p + k → x ∉ l.*1 ∧ x ∉ l2.*1).
  { intros x Hx. split; intros Hi; [specialize (A1 x Hi)|specialize (A2 x Hi)]; lia. }
  assert (Hqb : q < ubrk s) by (unfold q; lia).
  destruct (Nl p ltac:(lia)) as [Np1 Np2]. destruct (Nl q ltac:(unfold q; lia)) as [Nq1 Nq2].
  apply wp_returns. eexists _, _. split.
  { unfold take_block. test_false (k =? n). rewrite u32_small by lia. fold q.
    rewrite (bind_Ret _ _ s q (s <| hdr ::= <[p := Header np (k - n)]> |> <| hdr ::= <[q := Header (default 0 (hptr <$> hdr s !! q)) n]> |>)); [reflexivity|].
    rewrite (bind_Ret _ _ _ _ _ (set_size_ok _ _ (k - n) _ Ep ltac:(lia))). cbn [hptr].
    rewrite (bind_Ret get _ _ _ _ eq_refl).
    etransitivity; [eapply bind_Ret, seth_ok; exact Hqb|]. cbn. rewrite lookup_insert_ne by (unfold q; lia). reflexivity. }
  exists (l ++ (p, k - n) :: l2). replace (q + 1 - 1) with q by lia.
  apply (taken_intro _ _ _ _ _ _ _ (default 0 (hptr <$> hdr s !! q))); try done.
  - pose proof (ho_list _ _ _ _ _ H) as HL. rewrite app_comm_cons in HL |- *. apply lseg_app in HL as [HL1 _].
    apply lseg_app. split.
    + apply lseg_frame; [|apply lseg_frame; [|done]]; cbn; apply not_elem_of_cons; (split; [unfold q; lia|done]).
    + cbn [first_addr lseg]. split; [done|]. exists np. cbn. rewrite lookup_insert_ne by (unfold q; lia). rewrite lookup_insert_eq.
      split; [done|]. apply lseg_frame; [done|by apply lseg_frame].
  - cbn [ordered]. split_and!; [lia|done|]. apply ordered_app in Ho as (m' & O1 & (O2 & O3 & O4)). apply ordered_app. exists m'. split; [done|].
    cbn [ordered]. split_and!; [lia|lia|]. eapply ordered_mono; [exact O4|lia|lia].
  - intros c. rewrite elem_of_app, elem_of_cons. intros [Hc|[->|Hc]]; [|simpl; lia|]; apply (ho_pos _ _ _ _ _ H); set_solver.
  - cbn. rewrite fmap_app. cbn in Hz. by rewrite fmap_app in Hz.
  - cbn. by rewrite lookup_insert_eq.
  - lia.
  - intros u. rewrite !covers_app, !covers_cons. unfold q. assert (p ≤ u < p + k ↔ p ≤ u < p + (k - n) ∨ p + (k - n) ≤ u < p + (k - n) + n) by lia. tauto.
  - intros u Hu. rewrite covers_app, covers_cons. destruct (not_covered_ordered _ _ _ _ _ _ u Ho) as [? ?]; [unfold q in Hu; lia|].
    intros [?|[?|?]]; [done|unfold q in Hu; lia|done].
  - intros x. cbn. destruct (decide (q = x)) as [<-|Hq].
    { right. right. apply covers_app. right. apply covers_cons. left. unfold q. lia. }
    destruct (decide (p = x)) as [<-|Hx]; [|left; by rewrite !lookup_insert_ne].
    right. right. apply covers_app. right. apply covers_cons. left. lia.
  - rewrite !length_app. simpl. lia.
Qed.
End take.
Lemma take_spec s ns al z kz p k np n : heap_ok s ns al → z ∈ ((base, 0) :: ns).*1 → hdr s !! z = Some (Header p kz) →
  hdr s !! p = Some (Header np k) → 0 < n ≤ k →
  wp (take_block n z p np k) (λ r s', ∃ ns', taken_ok s s' ns ns' al (r - 1) n) s.
Proof.
  intros H Hz Ez Ep Hn. assert (p ≠ base).
  { intros ->. destruct (ho_list _ _ _ _ _ H) as (_ & m & Hm & _). simplify_eq. lia. }
  destruct (Z.eq_dec n k) as [->|]; [apply (take_exact s ns al z kz p k np); done || lia|].
  apply (take_split s ns al z kz p k np); done || lia.
Qed.

(** *** The walk of malloc around the list *)

Lemma rotate h a l1 l2 : lseg h a (l1 ++ l2) a → lseg h (first_addr l2 a) (l2 ++ l1) (first_addr l2 a).
Proof.
  intros [H1 H2]%lseg_app. apply lseg_app. rewrite <- (lseg_first _ _ _ _ H1). done.
Qed.

Section walk.
Context (s : uheap) (ns al : list blk) (n f sf : Z) (ffuel : nat).
Context (H : heap_ok s ns al) (Hn : 0 < n) (Hf : freep s = f).

Lemma loop_found : ∀ L prevp p y fuel,
  lseg (hdr s) p (L ++ [(f, sf)]) y → f ∉ L.*1 → (∀ x, x ∈ (L ++ [(f, sf)]).*1 → x ∈ ((base, 0) :: ns).*1) →
  prevp ∈ ((base, 0) :: ns).*1 → (∃ kz, hdr s !! prevp = Some (Header p kz)) →
  (∃ c, c ∈ L ++ [(f, sf)] ∧ n ≤ c.2) → (length L < fuel)%nat →
  wp (malloc_loop limit fuel ffuel n prevp p) (λ r s', ∃ ns', taken_ok s s' ns ns' al (r - 1) n) s.
Proof.
  induction L as [|[x k] L IH]; intros prevp p y fuel Hl Hfr Hin Hpv (kz & Ekz) (c & Hc & Hnc) Hlt;
    (destruct fuel as [|fuel]; [simpl in Hlt; lia|]); cbn [app] in *; destruct Hl as (-> & np & Ep & Hl);
    cbn [malloc_loop]; apply wp_bind_2; (apply wp_returns; eexists _, _; split; [by apply geth_ok|]); cbn [hsize hptr].
  - apply list_elem_of_singleton in Hc as ->. cbn [snd] in Hnc. test_true (n <=? sf).
    apply (take_spec s ns al prevp kz f sf np n); done || lia.
  - destruct (Z.leb_spec n k) as [Hk|Hk].
    + apply (take_spec s ns al prevp kz x k np n); done || lia.
    + apply wp_bind_2, wp_get. cbn in Hfr. rewrite not_elem_of_cons in Hfr. destruct Hfr as [Hfx Hfr]. rewrite Hf. test_false (x =? f).
      apply (IH x np y fuel); try done.
      * intros w Hw. apply Hin. cbn. by right.
      * apply Hin. cbn. by left.
      * eauto.
      * exists c. split; [|done]. apply elem_of_cons in Hc as [->|Hc]; [simpl in Hnc; lia|done].
      * simpl in Hlt. lia.
Qed.

Definition after_walk (fuel : nat) : M uheap Z :=
  let* p := morecore limit ffuel n in
  if p =? 0 then ret 0
  else
    let* h := geth p in
    malloc_loop limit fuel ffuel n p (hptr h).

Lemma loop_round : ∀ L prevp p y fuel,
  lseg (hdr s) p (L ++ [(f, sf)]) y → f ∉ L.*1 → (∀ c, c ∈ L ++ [(f, sf)] → c.2 < n) →
  malloc_loop limit (S (length L) + fuel) ffuel n prevp p s = after_walk fuel s.
Proof.
  induction L as [|[x k] L IH]; intros prevp p y fuel Hl Hfr Hsz; cbn [app length Nat.add] in *; destruct Hl as (-> & np & Ep & Hl);
    cbn [malloc_loop]; rewrite (bind_Ret _ _ _ _ _ (geth_ok _ _ _ Ep)); cbn [hsize hptr].
  - specialize (Hsz (f, sf) ltac:(by left)). simpl in Hsz. test_false (n <=? sf). rewrite (bind_Ret get _ _ _ _ eq_refl), Hf.
    by test_true (f =? f).
  - pose proof (Hsz (x, k) ltac:(by left)) as Hk. simpl in Hk. test_false (n <=? k). rewrite (bind_Ret get _ _ _ _ eq_refl), Hf.
    cbn in Hfr. rewrite not_elem_of_cons in Hfr. destruct Hfr as [Hfx Hfr]. test_false (x =? f).
    apply (IH x np y fuel); try done. intros c Hc. apply Hsz. by right.
Qed.
End walk.
(** The blocks from the one after [freep] around to [freep]. *)
Lemma circle s ns al : heap_ok s ns al →
  ∃ L p sf y, lseg (hdr s) p (L ++ [(freep s, sf)]) y ∧ freep s ∉ L.*1 ∧ hdr s !! freep s = Some (Header p sf) ∧
    (∀ c, c ∈ L ++ [(freep s, sf)] ↔ c ∈ (base, 0) :: ns) ∧ length L = length ns.
Proof.
  intros [Hl Ho _ Hf _ _ _ _]. apply list_elem_of_fmap in Hf as ([f sf] & -> & (pre & post & E)%list_elem_of_split).
  rewrite E in Hl, Ho. cbn [fst]. exists (post ++ pre), (first_addr post base), sf, (first_addr post base).
  destruct (ordered_around _ _ _ _ _ _ Ho) as (A1 & A2 & _ & A4 & _). split_and!.
  - rewrite <- app_assoc. apply rotate. by rewrite <- app_assoc.
  - rewrite fmap_app, elem_of_app. intros [Hi|Hi]; [specialize (A2 f Hi)|specialize (A1 f Hi)]; lia.
  - apply lseg_suffix in Hl as (_ & m & Hm & Hl). by rewrite <- (lseg_first _ _ _ _ Hl).
  - intros c. rewrite E, <- app_assoc, !elem_of_app, !elem_of_cons, elem_of_nil. tauto.
  - apply (f_equal length) in E. rewrite length_app in E |- *. simpl in E. lia.
Qed.

Lemma covered_range lo ns hi b n : ordered lo ns hi → 0 < n → (∀ u, b ≤ u < b + n → covers ns u) →
  ∃ a k, (a, k) ∈ ns ∧ a ≤ b ∧ b + n ≤ a + k.
Proof.
  intros Ho Hn Hcov. destruct (Hcov b ltac:(lia)) as (a & k & Hin & Ha). exists a, k. split_and!; [done|lia|].
  apply Z.le_ngt. intros Hlt. pose proof Hin as (l1 & l2 & ->)%list_elem_of_split.
  destruct (not_covered_ordered _ _ _ _ _ _ (a + k) Ho ltac:(lia)) as [N1 N2].
  destruct (Hcov (a + k) ltac:(lia)) as (a' & k' & Hin' & Ha').
  rewrite elem_of_app, elem_of_cons in Hin'. destruct Hin' as [Hi|[[= -> ->]|Hi]]; [|lia|].
  - apply N1. by exists a', k'.
  - apply N2. by exists a', k'.
Qed.

(** *** New memory *)

Definition grow (n : Z) : Z := Z.max 4096 n.

Lemma morecore_fails s n ffuel : 0 < n < 2^27 → limit < ubrk s + grow n → morecore limit ffuel n s = Ret (0, s).
Proof.
  intros Hn Hg. unfold morecore. assert (E : (if n <? 4096 then 4096 else n) = grow n).
  { unfold grow. destruct (Z.ltb_spec n 4096); lia. }
  rewrite E. assert (4096 ≤ grow n < 2^27) by (unfold grow; lia). rewrite s32_small by lia.
  rewrite (bind_Ret (sbrk limit _) _ s None s); [done|]. unfold sbrk. rewrite (bind_Ret get _ _ _ _ eq_refl).
  rewrite Z.div_mul by lia. test_true (0 <? grow n * 16). by test_false (ubrk s + grow n <=? limit).
Qed.

Lemma new_block s ns al g : heap_ok s ns al → 0 < g → ubrk s + g ≤ limit →
  heap_ok (s <| ubrk := ubrk s + g |> <| hdr ::= <[ubrk s := Header 0 g]> |>) ns ((ubrk s, g) :: al).
Proof.
  intros [Hl Ho Hpos Hf Hal Hap Hpairs (Hb & Hlim & H32)] Hg Hlim'.
  assert (Hlow : ∀ c, c ∈ ns → base < c.1 ∧ c.1 + c.2 ≤ ubrk s).
  { intros [a k] Hc. destruct Ho as (_ & _ & Ho). pose proof (ordered_bounds _ _ _ _ _ Ho Hc). simpl. lia. }
  split; try done; cbn -[lseg ordered].
  - apply lseg_frame; [|done]. cbn. rewrite not_elem_of_cons. split; [lia|]. intros ([a k] & E & Hc)%list_elem_of_fmap.
    specialize (Hlow _ Hc). specialize (Hpos _ Hc). simpl in *. lia.
  - eapply ordered_mono; [exact Ho|lia|lia].
  - intros b l [[= -> ->]|Hb']%elem_of_cons.
    + split_and!; [lia|done|lia|]. eexists. by rewrite lookup_insert_eq.
    + destruct (Hal b l Hb') as (B1 & B2 & B3 & q & B4). split_and!; [done|done|lia|]. exists q. rewrite lookup_insert_ne by lia. done.
  - intros b c [->|Hb']%elem_of_cons Hc; [|by apply Hap]. right. simpl. by apply Hlow.
  - constructor; [|done]. apply list.Forall_forall. intros [b l] Hb'. right. simpl. by destruct (Hal b l Hb') as (_ & _ & ? & _).
  - lia.
Qed.

Lemma morecore_spec s ns al n ffuel : heap_ok s ns al → 0 < n < 2^27 → ubrk s + grow n ≤ limit → (2 * S (length ns) ≤ ffuel)%nat →
  wp (morecore limit ffuel n) (λ p s', ∃ ns', heap_ok s' ns' al ∧ p = freep s' ∧ ubrk s' = ubrk s + grow n ∧
    (∀ u, covers ns' u ↔ covers ns u ∨ ubrk s ≤ u < ubrk s + grow n) ∧ (length ns' ≤ S (length ns))%nat) s.
Proof.
  intros H Hn Hg Hf. assert (4096 ≤ grow n < 2^27) by (unfold grow; lia). unfold morecore.
  assert (E : (if n <? 4096 then 4096 else n) = grow n) by (unfold grow; destruct (Z.ltb_spec n 4096); lia).
  rewrite E, s32_small by lia. apply wp_bind_2. apply wp_returns. exists (Some (ubrk s)), (s <| ubrk := ubrk s + grow n |>). split.
  { unfold sbrk. rewrite (bind_Ret get _ _ _ _ eq_refl), Z.div_mul by lia. test_true (0 <? grow n * 16).
    by test_true (ubrk s + grow n <=? limit). }
  apply wp_bind_2. apply wp_returns. eexists tt, _. split; [apply seth_ok; cbn; lia|].
  apply wp_bind_2. eapply wp_mono; [|apply (free_spec base limit _ ns [] (ubrk s) (grow n) al); [apply new_block; done || lia|done]].
  intros [] s' (ns' & [F1 F2 F3 F4]). wp_simp. exists ns'. split_and!; try done.
Qed.
(** *** malloc *)

(** Before the first call [freep] is 0. *)
Definition fresh (s : uheap) : Prop := freep s = 0 ∧ 0 < base < ubrk s ∧ ubrk s ≤ limit ∧ limit < 2^32.
Definition heap_inv (s : uheap) (ns al : list blk) : Prop :=
  heap_ok s ns al ∨ fresh s ∧ ns = [] ∧ al = [].

(** What [malloc] of [n] units does: it fails only if no free block is large
    enough and [sbrk] fails; otherwise the units it hands out were free or are new. *)
Definition malloc_post (s : uheap) (ns al : list blk) (n r : Z) (s' : uheap) : Prop :=
  (r = 0 ∧ heap_inv s' ns al ∧ ubrk s' = ubrk s ∧ (∀ c, c ∈ ns → c.2 < n) ∧ limit < ubrk s + grow n) ∨
  (0 < r ∧ ∃ ns', heap_inv s' ns' ((r - 1, n) :: al) ∧ (length ns' ≤ S (length ns))%nat ∧
    (∀ u, covers ns' u ∨ r - 1 ≤ u < r - 1 + n ↔ covers ns u ∨ ubrk s ≤ u < ubrk s') ∧
    (ubrk s' = ubrk s ∧ (∃ c, c ∈ ns ∧ n ≤ c.2) ∨ ubrk s' = ubrk s + grow n ∧ (∀ c, c ∈ ns → c.2 < n))).

Lemma taken_found s s' ns ns' al r n : taken_ok s s' ns ns' al (r - 1) n → 0 < r.
Proof. intros [[_ _ _ _ Hal _ _ (Hb & _)] _ _ _]. destruct (Hal (r - 1) n ltac:(by left)) as (? & _). lia. Qed.

Lemma some_fits (ns : list blk) (n : Z) : (∃ c, c ∈ ns ∧ n ≤ c.2) ∨ ∀ c, c ∈ ns → c.2 < n.
Proof.
  destruct (decide (Exists (λ c : blk, n ≤ c.2) ns)) as [H|H].
  - left. by apply list.Exists_exists in H.
  - right. intros c Hc. apply Z.nle_gt. intros Hle. apply H, list.Exists_exists. eauto.
Qed.

Lemma freep_pos s ns al : heap_ok s ns al → 0 < freep s.
Proof.
  intros H. pose proof (ho_freep _ _ _ _ _ H) as Hi. pose proof (ho_limit _ _ _ _ _ H) as [? _].
  destruct (ordered_addr _ _ _ _ (ho_order _ _ _ _ _ H) Hi). lia.
Qed.

Lemma loop_taken s ns al n fuel ffuel h : heap_ok s ns al → 0 < n → (∃ c, c ∈ ns ∧ n ≤ c.2) → (length ns < fuel)%nat →
  hdr s !! freep s = Some h →
  wp (malloc_loop limit fuel ffuel n (freep s) (hptr h)) (λ r s', ∃ ns', taken_ok s s' ns ns' al (r - 1) n) s.
Proof.
  intros H Hn (c & Hc & Hnc) Hf Hh. destruct (circle s ns al H) as (L & p & sf & y & HL & HfL & Hp & Hin & Hlen). simplify_eq.
  apply (loop_found s ns al n (freep s) sf ffuel H Hn eq_refl L (freep s) p y fuel); try done.
  - intros x (b & -> & Hb)%list_elem_of_fmap. apply list_elem_of_fmap. exists b. split; [done|]. by apply Hin.
  - apply (ho_freep _ _ _ _ _ H).
  - eauto.
  - exists c. split; [|done]. apply Hin. by right.
  - lia.
Qed.

Lemma loop_spec s ns al n fuel h : heap_ok s ns al → 0 < n < 2^27 → (2 * length ns + 3 ≤ fuel)%nat →
  hdr s !! freep s = Some h →
  wp (malloc_loop limit fuel fuel n (freep s) (hptr h)) (malloc_post s ns al n) s.
Proof.
  intros H Hn Hf Hh. destruct (some_fits ns n) as [Hfit|Hno].
  { eapply wp_mono; [|apply (loop_taken s ns al n fuel fuel h); try done; lia].
    intros r s' (ns' & T). right. split; [by eapply taken_found|]. destruct T as [T1 T2 T3 T4].
    exists ns'. split_and!; [by left|lia| |by left]. intros u. rewrite (T2 u), T3. intuition lia. }
  destruct (circle s ns al H) as (L & p & sf & y & HL & HfL & Hp & Hin & Hlen). simplify_eq.
  assert (Hsz : ∀ c, c ∈ L ++ [(freep s, sf)] → c.2 < n).
  { intros c [->|Hc]%Hin%elem_of_cons; [simpl; lia|by apply Hno]. }
  replace fuel with (S (length L) + (fuel - S (length L)))%nat at 1 by lia.
  apply wp_returns. cbn [hptr]. rewrite (loop_round s n (freep s) sf fuel eq_refl L (freep s) p y (fuel - S (length L)) HL HfL Hsz).
  apply wp_returns. unfold after_walk. destruct (Z.lt_ge_cases limit (ubrk s + grow n)) as [Hg|Hg].
  { apply wp_bind_2, wp_returns. exists 0, s. split; [by apply morecore_fails|]. cbn. left. split_and!; try done. by left. }
  apply wp_bind_2. eapply wp_mono; [|apply (morecore_spec s ns al n); try done; lia].
  intros q s1 (ns1 & H1 & -> & Hb1 & Hcov & Hl1). cbn beta.
  destruct (circle s1 ns1 al H1) as (_ & p1 & sf1 & _ & _ & _ & Hp1 & _).
  pose proof (freep_pos _ _ _ H1).
  test_false (freep s1 =? 0). apply wp_bind_2, wp_returns. eexists _, _. split; [by apply geth_ok|].
  assert (Hg0 : 0 < grow n ∧ n ≤ grow n) by (unfold grow; lia).
  eapply wp_mono; [|apply (loop_taken s1 ns1 al n); try done; [lia| |lia]].
  - intros r s' (ns' & T). right. split; [by eapply taken_found|]. destruct T as [T1 T2 T3 T4].
    exists ns'. split_and!; [by left|lia| |right; split; [lia|done]]. intros u. rewrite <- (T2 u), T3, Hb1. apply Hcov.
  - destruct (covered_range base ns1 (ubrk s1) (ubrk s) (grow n)) as (a & k & Hak & Ha1 & Ha2).
    + destruct (ho_order _ _ _ _ _ H1) as (_ & _ & O). eapply ordered_mono; [exact O|lia|lia].
    + lia.
    + intros u Hu. apply Hcov. by right.
    + exists (a, k). split; [done|]. simpl. lia.
Qed.

Lemma units_range nbytes : 0 ≤ nbytes < 2^31 - 31 → 0 < units nbytes < 2^27 ∧ nbytes ≤ 16 * (units nbytes - 1).
Proof.
  intros H. unfold units. pose proof (Z.div_mod (nbytes + 15) 16 ltac:(lia)). pose proof (Z.mod_pos_bound (nbytes + 15) 16 ltac:(lia)).
  rewrite u32_small by lia. lia.
Qed.

Lemma init_ok s : fresh s → heap_ok (s <| hdr ::= <[base := Header base 0]> |> <| freep := base |>) [] [].
Proof.
  intros (Hf & Hb & Hlim). split; cbn; try done; try (by intros ?? []%elem_of_nil); try set_solver; try lia.
  - split; [done|]. exists base. by rewrite lookup_insert_eq.
  - constructor.
Qed.

Lemma malloc_spec s ns al nbytes fuel :
  heap_inv s ns al → 0 ≤ nbytes < 2^31 - 31 → (2 * length ns + 3 ≤ fuel)%nat →
  wp (malloc base limit fuel fuel nbytes) (malloc_post s ns al (units nbytes)) s.
Proof.
  intros H Hb Hf. destruct (units_range nbytes Hb) as [Hu _]. unfold malloc.
  apply wp_bind_2, wp_get. destruct H as [H|(Hfr & -> & ->)].
  - destruct (circle s ns al H) as (_ & p1 & sf1 & _ & _ & _ & Hp1 & _).
    pose proof (freep_pos _ _ _ H).
    test_false (freep s =? 0). wp_simp. apply wp_returns. eexists _, _. split; [by apply geth_ok|]. by apply loop_spec.
  - pose proof Hfr as (Hf0 & Hb0 & _). rewrite Hf0. cbn [Z.eqb].
    wp_simp. apply wp_returns. eexists tt, _. split; [apply seth_ok; lia|]. wp_simp.
    apply wp_returns. eexists _, _. split; [apply geth_ok; cbn; apply lookup_insert_eq|].
    by apply (loop_spec _ [] [] _ _ (Header base 0) (init_ok s Hfr) Hu Hf (lookup_insert_eq _ _ _)).
Qed.

(** C33: malloc never fails to terminate, faults or overlaps: it answers null only when no
    free block is large enough and the break cannot grow, and then changes
    nothing; otherwise the block has room for [nbytes] bytes behind its header,
    its units were free or are new memory, no unit is lost, the block is apart
    from every other allocated block, and the break moves only when it must. *)
Theorem malloc_correct s ns al nbytes fuel :
  heap_inv s ns al → 0 ≤ nbytes < 2^31 - 31 → (2 * length ns + 3 ≤ fuel)%nat →
  nbytes ≤ 16 * (units nbytes - 1) ∧
  wp (malloc base limit fuel fuel nbytes) (malloc_post s ns al (units nbytes)) s.
Proof. intros H Hb Hf. split; [by apply units_range|by apply malloc_spec]. Qed.

(** *** free after malloc *)

(** A list of blocks with gaps is determined by the units it covers. *)
Lemma covers_inj lo ns hi lo' ns' hi' : ordered lo ns hi → ordered lo' ns' hi' →
  (∀ c, c ∈ ns → 0 < c.2) → (∀ c, c ∈ ns' → 0 < c.2) → (∀ u, covers ns u ↔ covers ns' u) → ns = ns'.
Proof.
  assert (Hleast : ∀ lo a k l hi u, ordered lo ((a, k) :: l) hi → covers ((a, k) :: l) u → a ≤ u).
  { intros ? a k l ? u (_ & ? & O) [?|(b & m & Hb & Hu)]%covers_cons; [lia|]. pose proof (ordered_bounds _ _ _ _ _ O Hb). lia. }
  assert (Hrest : ∀ lo a k l hi u, ordered lo ((a, k) :: l) hi → covers l u → a + k < u).
  { intros ? a k l ? u (_ & _ & O) (b & m & Hb & Hu). pose proof (ordered_bounds _ _ _ _ _ O Hb). lia. }
  revert lo lo' ns'. induction ns as [|[a k] ns IH]; intros lo lo' [|[a' k'] ns'] O O' P P' E; [done| | |].
  - exfalso. specialize (P' (a', k') ltac:(by left)). destruct (proj2 (E a')) as (? & ? & []%elem_of_nil & _).
    apply covers_cons. left. simpl in *. lia.
  - exfalso. specialize (P (a, k) ltac:(by left)). destruct (proj1 (E a)) as (? & ? & []%elem_of_nil & _).
    apply covers_cons. left. simpl in *. lia.
  - pose proof (P (a, k) ltac:(by left)) as Hk. pose proof (P' (a', k') ltac:(by left)) as Hk'. simpl in Hk, Hk'.
    assert (a = a').
    { apply Z.le_antisymm.
      - eapply (Hleast _ _ _ _ _ _ O), E, covers_cons. left. lia.
      - eapply (Hleast _ _ _ _ _ _ O'), E, covers_cons. left. lia. }
    subst a'. assert (k = k').
    { apply Z.le_antisymm; apply Z.le_ngt; intros Hlt.
      - assert (covers ((a, k') :: ns') (a + k')) as [?|C]%covers_cons by (apply E, covers_cons; left; lia); [lia|].
        pose proof (Hrest _ _ _ _ _ _ O' C). lia.
      - assert (covers ((a, k) :: ns) (a + k)) as [?|C]%covers_cons by (apply E, covers_cons; left; lia); [lia|].
        pose proof (Hrest _ _ _ _ _ _ O C). lia. }
    subst k'. f_equal. pose proof O as (_ & _ & O2). pose proof O' as (_ & _ & O2').
    apply (IH (a + k) (a + k)); [done|done|intros c Hc; apply P; by right|intros c Hc; apply P'; by right|].
    intros u. specialize (E u). rewrite !covers_cons in E. split; intros C.
    + pose proof (Hrest _ _ _ _ _ _ O C). destruct (proj1 E (or_intror C)); [lia|done].
    + pose proof (Hrest _ _ _ _ _ _ O' C). destruct (proj2 E (or_intror C)); [lia|done].
Qed.

(** C34: free undoes malloc: when a free block was large enough, malloc followed
    by free of its result leaves exactly the free list and the allocated blocks
    there were, the splitting of the block undone by joining. *)
Theorem malloc_free_roundtrip s ns al nbytes fuel :
  heap_ok s ns al → 0 ≤ nbytes < 2^31 - 31 → (2 * length ns + 4 ≤ fuel)%nat →
  (∃ c, c ∈ ns ∧ units nbytes ≤ c.2) →
  wp (let* r := malloc base limit fuel fuel nbytes in free fuel (r - 1))
    (λ _ s', heap_ok s' ns al ∧ ubrk s' = ubrk s) s.
Proof.
  intros H Hb Hf Hfit. apply wp_bind_2. eapply wp_mono.
  2: { apply (malloc_spec s ns al nbytes fuel); [by left|done|lia]. }
  intros r s1 [(_ & _ & _ & Hno & _)|(Hr & ns1 & Hinv & Hlen & Hcov & Hbrk)].
  { destruct Hfit as (c & Hc & ?). specialize (Hno c Hc). lia. }
  destruct Hbrk as [[Hbrk _]|[_ Hno]]; [|destruct Hfit as (c & Hc & ?); specialize (Hno c Hc); lia].
  destruct Hinv as [H1|(_ & _ & ?)]; [|done].
  eapply wp_mono; [|apply (free_spec base limit s1 ns1 [] (r - 1) (units nbytes) al fuel H1); lia].
  intros [] s2 (ns2 & [F1 F2 F3 F4]). cbn [app] in F1. assert (ns2 = ns) as ->; [|split; [done|congruence]].
  destruct (ho_order _ _ _ _ _ F1) as (_ & _ & O2). destruct (ho_order _ _ _ _ _ H) as (_ & _ & O).
  apply (covers_inj _ _ _ _ _ _ O2 O (ho_pos _ _ _ _ _ F1) (ho_pos _ _ _ _ _ H)).
  intros u. rewrite (F2 u), (Hcov u), Hbrk. intuition lia.
Qed.
End heap.

(** ** A concrete heap *)

Module UmallocDemo.

Definition fresh_heap : uheap := UHeap ∅ 0 100.
Definition one_block : uheap := UHeap (<[10 := Header 100 0]> {[100 := Header 10 4096]}) 10 4196.

Lemma fresh_heap_inv : heap_inv 10 20000 fresh_heap [] [].
Proof. right. unfold fresh. cbn. split_and!; done || lia. Qed.

Lemma one_block_ok : heap_ok 10 20000 one_block [(100, 4096)] [].
Proof.
  split; cbn; try lia; try (by intros ?? []%elem_of_nil).
  - split; [done|]. exists 100. split; [done|]. split; [done|]. by exists 10.
  - intros c ->%list_elem_of_singleton. simpl. lia.
  - by left.
  - constructor.
Qed.

End UmallocDemo.

Lemma malloc_correct_witness :
  100 ≤ 16 * (units 100 - 1) ∧
  wp (malloc 10 20000 3 3 100) (malloc_post 10 20000 UmallocDemo.fresh_heap [] [] (units 100)) UmallocDemo.fresh_heap.
Proof. apply malloc_correct; [exact UmallocDemo.fresh_heap_inv|lia|simpl; lia]. Defined.

Lemma malloc_free_roundtrip_witness :
  wp (let* r := malloc 10 20000 6 6 100 in free 6 (r - 1))
    (λ _ s', heap_ok 10 20000 s' [(100, 4096)] [] ∧ ubrk s' = 4196) UmallocDemo.one_block.
Proof.
  apply (malloc_free_roundtrip 10 20000 UmallocDemo.one_block [(100, 4096)] [] 100 6 UmallocDemo.one_block_ok); [lia|simpl; lia|].
  exists (100, 4096). split; [by left|by vm_compute].
Defined.

(** Without the bound on [nbytes] the number of bytes overflows the [int] that
    [sbrk] takes: malloc of 2^32 - 1 bytes gets one unit of memory and answers
    a block that claims 2^28 + 1 units. *)
Lemma malloc_huge_overflows :
  ∃ s', malloc 10 20000 5 5 (2^32 - 1) UmallocDemo.fresh_heap = Ret (101, s') ∧
    hdr s' !! 100 = Some (Header 10 (2^28 + 1)) ∧ ubrk s' = 101.
Proof. eexists. split; [by vm_compute|]. by split; vm_compute. Qed.
